(* ===== verification/_CoqProject ===== *)
-Q . S2P
Prelude.v
Double.v
Json.v
Time.v
Types.v
Logging.v
Redactor.v
PolicyEngine.v
Correlator.v
PacketParser.v
EventNormalizer.v
PcapCapture.v
EbpfCapture.v
IpcCodec.v
IpcServer.v
Config.v
Storage.v
Daemon.v
RunLoop.v
Shutdown.v
NativeHost.v
Delivery.v
EndToEnd.v
Robustness.v
Sha256.v
Manifest.v
LuaSandbox.v
DriverEngine.v
Descriptor.v
Specgen.v
LuaApi.v
LuaGlobals.v
Lezcap.v
LezcapState.v
Security.v
BpfPrograms.v
