(* ===== verification/Prelude.v ===== *)
(** * ezcap: a verification library for the metadata-only capture daemon

    ezcap captures network metadata (never payloads) with eBPF or pcap,
    relates it to browser navigations, redacts it by policy, and gives it to
    local subscribers over a unix socket and to an optional SQLite store.  A
    native messaging host connects a browser extension to the daemon, and Lua
    drivers run in a sandbox inside it.  This library models those programs and
    proves what makes them correct.

    ** The program and the files that model it

    A captured packet or kernel record becomes an [Event]
    ([src/capture/]), [Daemon::on_capture_event] passes it through the
    correlator ([src/attribution/]), the policy engine ([src/policy/]), the
    socket server ([src/ipc/]) and the store ([src/storage/]).  Clients send
    newline-terminated JSON requests to the socket server, which hands them to
    [Daemon::handle_request]; the native host ([native_host/]) translates
    between the browser's length-prefixed messages and these requests.

    - [Prelude]: byte strings (lists of [ascii]), searches on them, the
      [result] error monad, machine integers as [Z] with their wrap-around
      ([u8] to [u64], [i64]), [printf] formats, tactics and hints.
    - [Double]: IEEE binary64 through the Standard Library's [SpecFloat].
    - [Json]: nlohmann's values; the text parser and printer are the class
      [JsonLib] with the documented behaviour [JsonLaws], and the module
      [TreeJson] is a concrete instance, used by the witnesses.
    - [Time] ([common/time.cpp]): RFC 3339 text over the Gregorian calendar.
    - [Types] ([include/ezcap/], [common/event_types.cpp], [common/error.cpp],
      [ipc/ipc_protocol.cpp], level names of [common/logging.cpp]).
    - [Logging] ([common/logging.cpp]): the process-wide logger.
    - [Redactor], [PolicyEngine] ([policy/]): URL and DNS redaction, the
      decision on an event, [set_policy] and [get_policy].
    - [Correlator] ([attribution/]): confidence scores and navigation matching.
    - [PacketParser], [EventNormalizer], [PcapCapture], [EbpfCapture]
      ([capture/], [common/process_info.cpp], [ebpf/include/ebpf_events.h]):
      frame and record decoding, event construction, filter validation, and
      the lifecycle of the two backends behind the class [CaptureBackend].
    - [BpfPrograms] ([ebpf/src/*.bpf.c]): the programs in the kernel, from the
      packet or socket to the bytes of the ring-buffer record that
      [EbpfCapture] reads.
    - [IpcCodec], [IpcServer] ([ipc/]): the request grammar, event encoding,
      framing, clients, subscriptions, delivery and the socket file.
    - [Config], [Storage], [Daemon] ([daemon/], [storage/]): configuration,
      migrations, write queue, row binding and pruning, start and stop,
      requests, the run loop and [main].
    - [Security] ([security/], the end of [main]): privilege dropping and the
      seccomp filter, over the capabilities and filters of every thread.
    - [NativeHost] ([native_host/src/]).
    - [EndToEnd]: the loop of the native host against the daemon, across the
      socket, with the abstract interface [api] that the browser is promised.
    - [Robustness]: packets and arbitrary client bytes through the whole daemon,
      to whom their events are delivered, and which steps do not return.
    - [Delivery]: [UnixSocketServer::deliver] and [send_all] at the level of
      single critical sections and [send] calls, for any number of threads.
    - [RunLoop]: [Daemon::run], with the steps of the other threads between its
      rounds, and [Daemon::stop] at its end.
    - [Shutdown]: [Daemon::stop] step by step, interleaved with the accept,
      reader and capture threads, over the lifetimes of server, backend and store
      and the mutex of the client table.
    - [Sha256] ([common/sha256.cpp]): the streaming hash.
    - [Manifest], [LuaSandbox], [DriverEngine] ([drivers/]): validation of
      driver manifests, the path allowlist and the hash pin; the sandbox's
      allocator, instruction hook and outcome classification; loading,
      starting, event delivery, stopping, faults and quarantine of drivers.
    - [LuaApi] is the stack interface of Lua 5.1 as the bindings use it, with
      misuse as an outcome and the script, its tables and metamethods, as the
      parameter [Script]; [LuaGlobals] is the curated global table of
      [drivers/lua/sandbox.cpp]; [Lezcap] ([drivers/lua/bindings/lezcap.cpp])
      has every function a script can call, and [LezcapState] what any sequence
      of such calls can do to the host.
    - [Descriptor], [Specgen] ([specgen/]): endpoint descriptors and the
      OpenAPI, AsyncAPI and JSON Schema emitters.

    ** What the theorems show

    - Privacy: [Daemon.no_query_or_fragment_leaves] is the end-to-end
      statement over every reachable state of daemon and server, about what is
      written to sockets and what is stored (the serialized event included);
      [Redactor.redact_url_correct] gives the exact result of a redaction,
      [PolicyEngine.apply_hides_sensitive] when a sensitive domain is hidden,
      [PacketParser.payload_independence] (nothing behind the two ports matters)
      and
      [PcapCapture.handle_packet_metadata_only] that payloads stay out.
    - Memory safety of the decoders: reads are bounds-checked ([None] is an
      out-of-bounds read), and [PacketParser.parse_ethernet_frame_safe] and
      [EbpfCapture.handle_record_safe] show that none happens;
      [BpfPrograms.dns_trace_exact] is the same for the DNS program, on packets
      that carry the question they announce, and also shows that stale
      ring-buffer memory never becomes visible.
    - Kernel to event: [BpfPrograms.dns_query_end_to_end] and
      [BpfPrograms.connections_exact] follow a query (an IPv4 packet from its IP
      header on) or a connection from the packet or the socket to the event of
      the daemon.
    - Composition: [EndToEnd.browser_request_answered] and
      [EndToEnd.session_refines_api] follow requests from the browser through
      host, socket, codec, server and daemon and back, over a link that works
      and with nothing else happening during an exchange ([working_link],
      [connectable]), and show that the whole refines the abstract [api], but
      for replies that do not fit the host's one [recv] and for a full client
      table; [EndToEnd.host_session_ends] is the termination of the host's
      loop.  [Robustness.no_input_throws] is the composition from the packet to
      the subscriber and the store: over every sequence of packets and client
      bytes no exception ends the process, every packet is counted and its event
      delivered to the subscribers, and the steps that do not return are named:
      a ninth subscription, and a [send] to a client that does not read.
    - Interleaving: [Delivery.delivery_exactly_once] and
      [Delivery.delivery_terminates] range over every schedule of the threads
      that write to one client, [Delivery.deliver_is_solo] relates them to the
      run-to-completion model of [IpcServer].  [Shutdown.stop_order_safe] and
      [Shutdown.stop_completes] range over every interleaving of a stopping
      daemon with its threads: which of them can be inside a destroyed object
      and which cannot, when stopping can still end, and the one state (a client
      deadlocked by its ninth subscription) in which it waits for ever.
    - The run loop: [RunLoop.run_ends_cleanly] and [RunLoop.retention_enforced]
      (at every moment the last pruning is less than five minutes old).
    - Attribution: [Correlator.best_match_optimal] and
      [Correlator.correlate_attaches_soundly] on the component (time and host
      without a process never attach a tab);
      [Daemon.attribution_never_happens] on the component as it is wired.
    - Protocol: round trips of requests, events, policies, configurations,
      time stamps, DNS names and native messages; framing that does not depend
      on how the stream is cut; the host only forwards what the daemon accepts.
    - Limits and invariants: clients, subscriptions, buffers, navigations,
      policy bounds, the checks of the configuration parser (and what it does
      not check, [Config.unchecked_settings_load]), backend lifecycles, atomic
      migrations, and what is left of the queue of a store that is closed
      ([Storage.close_store_drains]).
    - Drivers: [DriverEngine.load_confined] (which scripts can be loaded at
      all), [DriverEngine.driver_lifecycle] (faults and quarantine over every
      sequence of operations), [LuaSandbox.budget_alloc_bounded] (heap
      accounting), [LuaSandbox.callback_stopped_iff] (what the instruction and
      time budgets stop, and what they do not), [LuaGlobals.sandbox_globals_scrubbed] and
      [Sha256.sha256_stream] (the hash of a stream is the reference hash of the
      whole message).
    - Bindings: [LezcapState.script_confined] ranges over every sequence of calls
      a script can make, calls from inside its metamethods included, and bounds
      how far they go past the limits
      ([LezcapState.nested_declare_exceeds_limit] shows that they do); [LezcapState.emission_rate] bounds its events in any
      second and shows that the limit always reopens;
      [Lezcap.json_from_lua_total] is the termination and correctness of the
      conversion of tables.
    - Specifications: [Descriptor.valid_schema_subset_spec] and
      [Descriptor.parse_endpoint_descriptor_exact] characterize what is accepted,
      [Specgen.openapi_complete] and [Specgen.generate_order_independent] what is
      emitted.
    - Confinement of the process: [Security.drop_to_exact] and
      [Security.main_thread_confined], which also shows that the threads made
      before the confinement are not reached by it.
    - Error behaviour that the code has and its comments do not describe: for
      example [IpcServer.ninth_subscription_deadlocks],
      [Storage.writer_third_round_fails], [Daemon.ebpf_dns_name_aborts],
      [Redactor.redact_url_port_defeats_exclusion],
      [BpfPrograms.connect_v4_swapped],
      [Lezcap.mixed_keys_never_return],
      [Delivery.partial_send_tears_lines], [Shutdown.server_used_after_reset],
      [RunLoop.failed_store_frozen] and [PcapCapture.cooked_frames_ignored].

    ** Interfaces and parameters

    Code outside the repository is a parameter with named hypotheses: JSON
    text ([JsonLib]/[JsonLaws], and [JsonPretty]/[JsonPrettyLaws] for indented
    text), SQLite ([Sqlite]/[SqliteLaws], with the instance [TableDb]), the
    kernel, libcap and libseccomp ([Kernel]/[KernelLaws], with the instance
    [Simple]), spdlog ([Spdlog]/[SpdlogLaws]), the number conversions of Lua
    ([LuaLib]) and the code of a script ([Script]), [inet_ntop], [send] on a
    socket (which may fail, or not return), the random device, and the outcomes of system,
    libpcap and libbpf calls (records such as [PcapEnv], [EbpfEnv], [SocketEnv],
    [StartEnv], [DaemonIo], [LoadEnv], [OpenFile], [CallEnv]).
    [CaptureBackend] with [CaptureBackendLaws] is the program's own interface: the daemon's start is
    proved against it, and both backends are instances.

    Concurrency is modelled as interleaving of whole calls: each lock-protected
    operation is one step of [server_exec], [store_exec] or [daemon_exec], and
    invariants range over all sequences of steps.  [Delivery] refines this for
    the one operation whose threads interfere between their locks, and [Shutdown]
    for the destruction of objects that other threads use.  A thread that waits for a
    lock it holds ([Deadlock]), a [send] that does not return ([Stalled]) and an
    exception that leaves a thread ([Uncaught]) are outcomes of the type [abort].

    ** Fuel

    Loops over a buffer position ([split_loop], [extract_loop], the DNS name
    loop, [utf8_check], the block loop of SHA-256) take fuel that bounds the
    number of iterations by the length of the input (plus one); the lemmas
    about them ([split_loop_spec], [extract_frames_lines],
    [utf8_valid_checked], [absorb_loop_fuel], the question-name lemmas) show
    that it is never exhausted.  [schema_at] descends at most ten levels
    ([schema_levels_enough]).  [json_from_lua] can run for ever in the code, so
    it takes fuel with [OutOfFuel] as an outcome: [json_from_lua_total] gives the
    fuel that is enough for tables with uniform keys (at a positive stack index,
    where a table among the values is undefined behaviour), and
    [mixed_keys_never_return] a table for which none is.  The label loop of the
    DNS program has its constant bound of 128.  The run loop of the daemon and
    the loops of the threads are modelled by one round each.

    ** What is not modelled

    The Lua runtime itself (its calls of the allocator, the results of protected
    calls, the library openers and the scripts are parameters), the event sink
    as a script function (no code installs one), the panic handler (it logs
    and aborts), the verifier that decides whether the kernel loads a BPF
    program, the browser extension and the packaging. *)
From Stdlib Require Export ZArith Lia Ascii.
From stdpp Require Export base strings countable gmap numbers option pretty.
From stdpp Require Export list.

Declare Scope ezcap_scope.
Delimit Scope ezcap_scope with ezcap.

(** ** Byte strings

    [std::string] is a sequence of bytes; it is modelled by [list ascii] so
    that the list library applies to it.  String literals are coerced. *)
Abbreviation cstring := (list ascii).

Coercion lit := String.list_ascii_of_string.
Arguments String.list_ascii_of_string : simpl never.

(** The unsigned value of a byte, and the byte of a value (modulo 256). *)
Definition ord (c : ascii) : Z := Z.of_N (N_of_ascii c).
Definition chr (z : Z) : ascii := ascii_of_N (Z.to_N (z mod 256)).

(** [s.size()] of a container, as the mathematical integer. *)
Definition zlen {A} (l : list A) : Z := Z.of_nat (length l).

Definition str_eqb (a b : cstring) : bool := bool_decide (a = b).
Notation "a =s b" := (str_eqb a b) (at level 70, no associativity) : ezcap_scope.
Notation "a <>s b" := (negb (str_eqb a b))
  (at level 70, no associativity) : ezcap_scope.
Open Scope ezcap_scope.

Definition is_empty {A} (l : list A) : bool :=
  match l with [] => true | _ :: _ => false end.

(** Membership in a fixed table of names, as [std::set::count] or a loop over
    a constant array computes it. *)
Definition mem (k : cstring) (names : list cstring) : bool :=
  existsb (str_eqb k) names.

(** ** Character classes of the C locale *)
Definition in_range (lo hi : ascii) (c : ascii) : bool :=
  (ord lo <=? ord c)%Z && (ord c <=? ord hi)%Z.
Definition isdigit (c : ascii) : bool := in_range "0" "9" c.
Definition islower (c : ascii) : bool := in_range "a" "z" c.
Definition isupper (c : ascii) : bool := in_range "A" "Z" c.
Definition isalnum (c : ascii) : bool := isdigit c || islower c || isupper c.
Definition isxdigit (c : ascii) : bool :=
  isdigit c || in_range "a" "f" c || in_range "A" "F" c.
(** [c >= 'A' && c <= 'Z' ? c - 'A' + 'a' : c] *)
Definition lower_ascii (c : ascii) : ascii :=
  if isupper c then chr (ord c - ord "A" + ord "a") else c.
Definition is_char (d c : ascii) : bool := bool_decide (c = d).

(** ** Searching, as [std::string::find] and its relatives

    A position is a [nat] and [npos] is [None]. *)
Section find.
Context {A : Type} (p : A → bool).

Fixpoint find_pred (l : list A) : option nat :=
  match l with
  | [] => None
  | x :: l => if p x then Some 0 else S <$> find_pred l
  end.

(** The search from a start position; a start past the end finds nothing. *)
Definition find_from (pos : nat) (l : list A) : option nat :=
  (λ i, pos + i) <$> find_pred (drop pos l).

(** [find_last_of]: the last position that satisfies the predicate. *)
Fixpoint find_last (l : list A) : option nat :=
  match l with
  | [] => None
  | x :: l =>
      match find_last l with
      | Some i => Some (S i)
      | None => if p x then Some 0 else None
      end
  end.
End find.

Fixpoint is_prefix (q s : cstring) : bool :=
  match q, s with
  | [], _ => true
  | a :: q, b :: s => bool_decide (a = b) && is_prefix q s
  | _ :: _, [] => false
  end.

(** [s.find(q)] for a non-empty needle [q]. *)
Fixpoint find_sub (q s : cstring) : option nat :=
  match s with
  | [] => if is_empty q then Some 0 else None
  | _ :: s' => if is_prefix q s then Some 0 else S <$> find_sub q s'
  end.

(** [s.substr(pos, len)] inside the string, [len = None] for [npos]. *)
Definition substr (pos : nat) (len : option nat) (s : cstring) : cstring :=
  match len with
  | Some n => take n (drop pos s)
  | None => drop pos s
  end.

(** ** Results of fallible operations

    [bool f(..., Out& out, std::string& error)] becomes a function into
    [result E Out]. *)
Inductive result (E A : Type) : Type :=
  | Ok (a : A)
  | Err (e : E).
Arguments Ok {E A} a.
Arguments Err {E A} e.

#[global] Instance result_ret {E} : MRet (result E) := @Ok E.
#[global] Instance result_bind {E} : MBind (result E) :=
  λ A B f m, match m with Ok a => f a | Err e => Err e end.
#[global] Instance result_fmap {E} : FMap (result E) :=
  λ A B f m, match m with Ok a => Ok (f a) | Err e => Err e end.

Definition is_ok {E A} (r : result E A) : bool :=
  match r with Ok _ => true | Err _ => false end.

(** A guard that fails with [e], as an early [return false] does. *)
Definition ensure {E} (b : bool) (e : E) : result E () :=
  if b then Ok () else Err e.

(** ** Machine integers *)
Definition u8 (z : Z) : Z := (z mod 2 ^ 8)%Z.
Definition u16 (z : Z) : Z := (z mod 2 ^ 16)%Z.
Definition u32 (z : Z) : Z := (z mod 2 ^ 32)%Z.
Definition u64 (z : Z) : Z := (z mod 2 ^ 64)%Z.
(** Conversion to [int] and [std::int64_t] (two's complement). *)
Definition i32 (z : Z) : Z := ((z + 2 ^ 31) mod 2 ^ 32 - 2 ^ 31)%Z.
Definition i64 (z : Z) : Z := ((z + 2 ^ 63) mod 2 ^ 64 - 2 ^ 63)%Z.

(** Lower-case hexadecimal, [n] digits, most significant first
    ([%02x] for one byte, [%016llx] for a 64-bit word). *)
Definition hex_digit (z : Z) : ascii :=
  nth (Z.to_nat z) (lit "0123456789abcdef") "0"%char.
Fixpoint hex_of (n : nat) (z : Z) : cstring :=
  match n with
  | O => []
  | S n => hex_of n (Z.shiftr z 4) ++ [hex_digit (Z.land z 15)]
  end.

(** The C string in a buffer ends at the first NUL. *)
Definition c_string (s : cstring) : cstring :=
  match find_pred (is_char "000") s with
  | Some i => take i s
  | None => s
  end.

(** [std::to_string], and [%0<w>d] of [printf]. *)
Definition to_string (z : Z) : cstring := lit (pretty z).
Definition pad_zeros (w : nat) (s : cstring) : cstring :=
  replicate (w - length s) "0"%char ++ s.
Definition printf_0d (w : nat) (z : Z) : cstring :=
  if (z <? 0)%Z then "-"%char :: pad_zeros (pred w) (to_string (- z))
  else pad_zeros w (to_string z).

Definition byte_range (b : Z) : Prop := (0 ≤ b < 256)%Z.

(** ** Tactics *)
Ltac split_cases := repeat (case_match; simplify_eq/=).
Ltac invert_result :=
  repeat match goal with
  | H : context [ensure ?b _] |- _ => unfold ensure in H
  | H : (_ ≫= _) = Ok _ |- _ => unfold mbind, result_bind in H
  | H : (if ?b then _ else _) = Ok _ |- _ => destruct b eqn:?; simplify_eq/=
  | H : (if ?b then _ else _) = Some _ |- _ => destruct b eqn:?; simplify_eq/=
  | H : (match ?m with _ => _ end) = Ok _ |- _ => destruct m eqn:?; simplify_eq/=
  end.

(** Decide a statement about every byte by running through the 256 of them. *)
Ltac all_bytes c := destruct c as [[] [] [] [] [] [] [] []].

(** ** Shared lemmas *)
Create HintDb ezcap discriminated.
Create Rewrite HintDb ezcap_bool.

Lemma str_eqb_spec (a b : cstring) : reflect (a = b) (a =s b).
Proof. unfold str_eqb. apply bool_decide_reflect. Qed.

Lemma str_eqb_eq (a b : cstring) : (a =s b) = true ↔ a = b.
Proof. unfold str_eqb. apply bool_decide_eq_true. Qed.

Lemma str_eqb_neq (a b : cstring) : (a =s b) = false ↔ a ≠ b.
Proof. unfold str_eqb. apply bool_decide_eq_false. Qed.

Lemma str_eqb_refl (a : cstring) : (a =s a) = true.
Proof. by apply str_eqb_eq. Qed.

(** Success of a sequence, of a guard and of a loop over all elements. *)
Lemma bind_Ok {E A B} (m : result E A) (f : A → result E B) b :
  (m ≫= f) = Ok b ↔ ∃ a, m = Ok a ∧ f a = Ok b.
Proof. destruct m; cbn; naive_solver. Qed.

Lemma ensure_Ok {E} b (e : E) u : ensure b e = Ok u ↔ b = true.
Proof. unfold ensure. destruct b, u; naive_solver. Qed.

(** A guard in front of the rest of a computation. *)
Lemma ensure_bind_Ok {E B} b (e : E) (m : result E B) r :
  (ensure b e ≫= λ _, m) = Ok r ↔ b = true ∧ m = Ok r.
Proof. unfold ensure. destruct b; cbn; naive_solver. Qed.

Lemma forallb_Forall {A} (p : A → bool) (P : A → Prop) l :
  (∀ x, p x = true ↔ P x) → forallb p l = true ↔ Forall P l.
Proof.
  intros Hp. rewrite forallb_forall, Forall_forall. setoid_rewrite list_elem_of_In.
  by setoid_rewrite Hp.
Qed.

Lemma mem_spec k names : mem k names = true ↔ k ∈ names.
Proof.
  unfold mem. rewrite existsb_exists. setoid_rewrite str_eqb_eq.
  setoid_rewrite <-list_elem_of_In. naive_solver.
Qed.

Lemma mem_false k names : mem k names = false ↔ k ∉ names.
Proof. rewrite <-mem_spec. destruct (mem k names); naive_solver. Qed.

Lemma mem_ascii (c : ascii) (s : cstring) :
  existsb (λ d, bool_decide (c = d)) s = true → c ∈ s.
Proof.
  rewrite existsb_exists. intros (d & Hin & ->%bool_decide_eq_true).
  by apply list_elem_of_In.
Qed.

Lemma not_mem_ascii (c : ascii) (s : cstring) :
  forallb (λ d, bool_decide (c ≠ d)) s = true → c ∉ s.
Proof.
  rewrite forallb_forall. intros H Hin%list_elem_of_In.
  by apply H, bool_decide_eq_true in Hin.
Qed.

Lemma is_empty_true {A} (l : list A) : is_empty l = true ↔ l = [].
Proof. by destruct l. Qed.

Lemma is_empty_false {A} (l : list A) : is_empty l = false ↔ l ≠ [].
Proof. by destruct l. Qed.

Lemma ord_range c : (0 ≤ ord c < 256)%Z.
Proof. all_bytes c; vm_compute; intuition congruence. Qed.

Lemma chr_ord c : chr (ord c) = c.
Proof. by all_bytes c. Qed.

Lemma ord_chr z : ord (chr z) = u8 z.
Proof.
  unfold ord, chr, u8. change (2 ^ 8)%Z with 256%Z.
  assert (0 ≤ z mod 256 < 256)%Z by (apply Z.mod_pos_bound; lia).
  rewrite N_ascii_embedding by lia. lia.
Qed.

Lemma ord_inj a b : ord a = ord b → a = b.
Proof. intros H. by rewrite <-(chr_ord a), <-(chr_ord b), H. Qed.

Lemma lower_ascii_idemp c : lower_ascii (lower_ascii c) = lower_ascii c.
Proof. by all_bytes c. Qed.

Lemma is_char_true d c : is_char d c = true ↔ c = d.
Proof. unfold is_char. apply bool_decide_eq_true. Qed.

Lemma is_char_false d c : is_char d c = false ↔ c ≠ d.
Proof. unfold is_char. apply bool_decide_eq_false. Qed.

Section find_lemmas.
Context {A : Type} (p : A → bool).
Implicit Types l : list A.

Lemma find_pred_None l :
  find_pred p l = None ↔ Forall (λ x, p x = false) l.
Proof.
  induction l as [|x l IH]; simpl; [by split; auto|].
  rewrite Forall_cons, <-IH. destruct (p x); [naive_solver|].
  destruct (find_pred p l); naive_solver.
Qed.

Lemma find_pred_Some l i :
  find_pred p l = Some i ↔
  ∃ x l1 l2, l = l1 ++ x :: l2 ∧ length l1 = i ∧ p x = true ∧
    Forall (λ y, p y = false) l1.
Proof.
  revert i. induction l as [|y l IH]; intros i; simpl.
  { split; [done|]. intros (x & l1 & l2 & Hl & _). by destruct l1. }
  destruct (p y) eqn:Hy.
  - split; [intros [= <-]; by exists y, [], l|].
    intros (x & [|z l1] & l2 & [= -> ->] & <- & Hx & Hall); [done|].
    inv Hall. congruence.
  - rewrite fmap_Some. setoid_rewrite IH. split.
    + intros (j & (x & l1 & l2 & -> & <- & Hx & Hall) & ->).
      exists x, (y :: l1), l2. auto.
    + intros (x & [|z l1] & l2 & [= <- ->] & <- & Hx & Hall);
        [congruence|]. inv Hall. eauto 10.
Qed.

Lemma find_pred_lt l i : find_pred p l = Some i → i < length l.
Proof.
  intros (x & l1 & l2 & -> & <- & _)%find_pred_Some.
  rewrite length_app. simpl. lia.
Qed.

(** The part before the first match has no match. *)
Lemma find_pred_take l i :
  find_pred p l = Some i → Forall (λ x, p x = false) (take i l).
Proof.
  intros (x & l1 & l2 & -> & <- & _ & Hall)%find_pred_Some.
  by rewrite take_app_length.
Qed.

Lemma find_last_None l :
  find_last p l = None ↔ Forall (λ x, p x = false) l.
Proof.
  induction l as [|x l IH]; simpl; [by split; auto|].
  rewrite Forall_cons, <-IH. destruct (find_last p l); [naive_solver|].
  destruct (p x); naive_solver.
Qed.

Lemma find_last_Some l i :
  find_last p l = Some i → ∃ x, l !! i = Some x ∧ p x = true.
Proof.
  revert i. induction l as [|x l IH]; intros i; simpl; [done|].
  destruct (find_last p l) as [j|].
  - intros [= <-]. simpl. auto.
  - destruct (p x) eqn:?; naive_solver.
Qed.
End find_lemmas.

Lemma c_string_elem c s : c ∈ c_string s → c ∈ s.
Proof.
  unfold c_string. destruct (find_pred _ s) as [i|]; [|done].
  intros H. rewrite <-(take_drop i s). set_solver.
Qed.

Lemma is_prefix_app q s : is_prefix q (q ++ s) = true.
Proof. induction q; simpl; [done|]. by rewrite bool_decide_true. Qed.

Lemma is_prefix_spec q s : is_prefix q s = true ↔ ∃ t, s = q ++ t.
Proof.
  split; [|intros [t ->]; apply is_prefix_app].
  revert s. induction q as [|a q IH]; intros s; simpl; [by exists s|].
  destruct s as [|b s]; [done|]. intros [H1 [t ->]%IH]%andb_prop.
  apply bool_decide_eq_true in H1 as ->. by exists t.
Qed.

Lemma zlen_app {A} (a b : list A) : zlen (a ++ b) = (zlen a + zlen b)%Z.
Proof. unfold zlen. rewrite length_app. lia. Qed.

Lemma zlen_nonneg {A} (l : list A) : (0 ≤ zlen l)%Z.
Proof. unfold zlen. lia. Qed.

(** Disjoint bits add up. *)
Lemma lor_shiftl_add a b k :
  (0 ≤ k → 0 ≤ a < 2 ^ k → Z.lor a (Z.shiftl b k) = a + b * 2 ^ k)%Z.
Proof.
  intros Hk Ha. assert (Hland : Z.land a (Z.shiftl b k) = 0%Z).
  { apply Z.bits_inj'. intros n Hn. rewrite Z.land_spec, Z.bits_0.
    destruct (Z.lt_ge_cases n k).
    - rewrite Z.shiftl_spec_low by lia. apply andb_false_r.
    - rewrite <-(Z.mod_small a (2 ^ k)%Z) by lia. by rewrite Z.mod_pow2_bits_high by lia. }
  rewrite <-Z.lxor_lor, <-Z.add_nocarry_lxor by done. by rewrite Z.shiftl_mul_pow2.
Qed.

(** A decidable statement about the integers below a bound, by evaluation. *)
Lemma seqZ_check (P : Z → bool) n m :
  (0 ≤ m < n)%Z → forallb P (seqZ 0 n) = true → P m = true.
Proof.
  intros Hm H. rewrite forallb_forall in H. apply H, list_elem_of_In, elem_of_seqZ. lia.
Qed.

Lemma hex_digit_inj a b :
  (0 ≤ a < 16)%Z → (0 ≤ b < 16)%Z → hex_digit a = hex_digit b → a = b.
Proof.
  intros Ha Hb H. apply Z.eqb_eq, Is_true_true_1.
  pose proof (seqZ_check (λ a, forallb (λ b, implb (bool_decide
    (hex_digit a = hex_digit b)) (a =? b)%Z) (seqZ 0 16)) 16 a Ha eq_refl) as Hall.
  pose proof (seqZ_check _ 16 b Hb Hall) as Hab. cbn beta in Hab.
  rewrite bool_decide_true in Hab by done. by apply Is_true_true.
Qed.

Lemma hex_of_length n z : length (hex_of n z) = n.
Proof.
  revert z. induction n as [|n IH]; intros z; simpl; [done|].
  rewrite length_app, IH. simpl. lia.
Qed.

(** [n] hexadecimal digits determine a number below [16 ^ n]. *)
Lemma hex_of_inj n a b :
  (0 ≤ a < 16 ^ Z.of_nat n)%Z → (0 ≤ b < 16 ^ Z.of_nat n)%Z →
  hex_of n a = hex_of n b → a = b.
Proof.
  revert a b. induction n as [|n IH]; intros a b Ha Hb H; [simpl in *; lia|].
  cbn [hex_of] in H. apply app_inj_2 in H as [H1 [= H2]]; [|done].
  rewrite Nat2Z.inj_succ, Z.pow_succ_r in Ha, Hb by lia.
  change 15%Z with (Z.ones 4) in H2. rewrite !Z.land_ones in H2 by lia.
  rewrite !Z.shiftr_div_pow2 in H1 by lia. change (2 ^ 4)%Z with 16%Z in *.
  apply hex_digit_inj in H2; [|by apply Z.mod_pos_bound..].
  apply IH in H1; [|by Z.to_euclidean_division_equations; lia..].
  rewrite (Z.div_mod a 16), (Z.div_mod b 16) by lia. congruence.
Qed.

#[export] Hint Resolve zlen_nonneg ord_range : ezcap.
#[export] Hint Rewrite str_eqb_eq str_eqb_neq mem_spec mem_false
  andb_true_iff orb_false_iff negb_true_iff negb_false_iff
  is_char_true is_char_false : ezcap_bool.
