(* ===== verification/Double.v ===== *)
(** * IEEE 754 binary64

    The confidence scores of ezcap are C++ [double]s.  A [double] is a
    [spec_float] of the Standard Library's executable IEEE 754 specification
    with 53 bits of precision, so sums and comparisons round exactly as the
    compiled code does. *)
From S2P Require Import Prelude.
From Stdlib Require Export Floats.SpecFloat.
Open Scope Z_scope.

Abbreviation double := spec_float.

Definition prec : Z := 53.
Definition emax : Z := 1024.

(** The double nearest to a decimal literal [n / 10^k]: both operands are
    exact, so the division rounds once, as the compiler rounds the literal. *)
Definition dlit (n k : Z) : double :=
  SFdiv prec emax (binary_normalize prec emax n 0 false)
                  (binary_normalize prec emax (10 ^ k) 0 false).

(** Conversion of an exactly representable integer. *)
Definition dint (n : Z) : double := binary_normalize prec emax n 0 false.

Definition dadd (x y : double) : double := SFadd prec emax x y.
Definition dmul (x y : double) : double := SFmul prec emax x y.
Definition dlt (x y : double) : bool := SFltb x y.
Definition dle (x y : double) : bool := SFleb x y.
Definition dge (x y : double) : bool := SFleb y x.

(** [std::min(a, b)] is [b < a ? b : a]; [std::clamp(v, lo, hi)] is
    [v < lo ? lo : hi < v ? hi : v]. *)
Definition dmin (a b : double) : double := if dlt b a then b else a.
Definition dclamp (v lo hi : double) : double :=
  if dlt v lo then lo else if dlt hi v then hi else v.

#[global] Instance double_eq_dec : EqDecision double.
Proof. solve_decision. Defined.
Arguments dlit : simpl never.
Arguments dint : simpl never.
Arguments dlt : simpl never.
Arguments dle : simpl never.
Arguments dge : simpl never.
