(* ===== verification/Json.v ===== *)
(** * JSON values and the JSON library interface

    ezcap uses nlohmann::json.  The value type and its accessors follow that
    library's documented data model: objects are maps ordered by key (a
    sorted association list here), numbers are signed, unsigned or floating
    point.  The text parser and serializer are third-party code: they are the
    operations of the class [JsonLib], and [JsonLaws] states the documented
    behaviour the theorems rely on.  [TreeJson] is an instance of both. *)
From S2P Require Import Prelude Double.
Open Scope Z_scope.

(** ** Values *)
Inductive json : Type :=
  | JNull
  | JBool (b : bool)
  | JInt (z : Z)        (* number_integer: a signed 64-bit value *)
  | JUint (z : Z)       (* number_unsigned: an unsigned 64-bit value *)
  | JFloat (d : double) (* number_float *)
  | JString (s : cstring)
  | JArray (l : list json)
  | JObject (kvs : list (cstring * json)).

(** Induction through the nested lists. *)
Section json_ind.
Variable P : json → Prop.
Hypotheses (HNull : P JNull) (HBool : ∀ b, P (JBool b))
  (HInt : ∀ z, P (JInt z)) (HUint : ∀ z, P (JUint z))
  (HFloat : ∀ d, P (JFloat d)) (HString : ∀ s, P (JString s))
  (HArray : ∀ l, Forall P l → P (JArray l))
  (HObject : ∀ kvs, Forall (λ kv, P kv.2) kvs → P (JObject kvs)).

Fixpoint json_nested_ind (j : json) : P j :=
  match j with
  | JNull => HNull
  | JBool b => HBool b
  | JInt z => HInt z
  | JUint z => HUint z
  | JFloat d => HFloat d
  | JString s => HString s
  | JArray l =>
      HArray l
        ((fix go l : Forall P l :=
            match l with
            | [] => List.Forall_nil _
            | x :: l => List.Forall_cons _ x l (json_nested_ind x) (go l)
            end) l)
  | JObject kvs =>
      HObject kvs
        ((fix go l : Forall (λ kv, P kv.2) l :=
            match l with
            | [] => List.Forall_nil _
            | kv :: l =>
                List.Forall_cons _ kv l (json_nested_ind kv.2) (go l)
            end) kvs)
  end.
End json_ind.

(** ** Accessors *)
Definition is_object (j : json) : bool :=
  match j with JObject _ => true | _ => false end.
Definition is_array (j : json) : bool :=
  match j with JArray _ => true | _ => false end.
Definition is_string (j : json) : bool :=
  match j with JString _ => true | _ => false end.
Definition is_boolean (j : json) : bool :=
  match j with JBool _ => true | _ => false end.
Definition is_null (j : json) : bool :=
  match j with JNull => true | _ => false end.
Definition is_number_integer (j : json) : bool :=
  match j with JInt _ | JUint _ => true | _ => false end.
Definition is_number_unsigned (j : json) : bool :=
  match j with JUint _ => true | _ => false end.
Definition is_number (j : json) : bool :=
  match j with JInt _ | JUint _ | JFloat _ => true | _ => false end.

(** [std::string] order: lexicographic on unsigned bytes. *)
Fixpoint str_ltb (a b : cstring) : bool :=
  match a, b with
  | _, [] => false
  | [], _ :: _ => true
  | x :: a, y :: b =>
      (ord x <? ord y) || ((ord x =? ord y) && str_ltb a b)
  end.

Fixpoint assoc_get (k : cstring) (kvs : list (cstring * json)) : option json :=
  match kvs with
  | [] => None
  | (k', v) :: kvs => if k =s k' then Some v else assoc_get k kvs
  end.

(** Insertion into the ordered map, replacing the value of an existing key. *)
Fixpoint assoc_set (k : cstring) (v : json) (kvs : list (cstring * json)) :
    list (cstring * json) :=
  match kvs with
  | [] => [(k, v)]
  | (k', v') :: kvs' =>
      if k =s k' then (k, v) :: kvs'
      else if str_ltb k k' then (k, v) :: kvs
      else (k', v') :: assoc_set k v kvs'
  end.

(** [doc.contains(k)] and [doc.at(k)] in one: the member, if there is one. *)
Definition member (k : cstring) (j : json) : option json :=
  match j with JObject kvs => assoc_get k kvs | _ => None end.
Definition contains (k : cstring) (j : json) : bool :=
  match member k j with Some _ => true | None => false end.

(** [doc[k] = v]; a null document becomes an object. *)
Definition jset (k : cstring) (v : json) (j : json) : json :=
  match j with
  | JObject kvs => JObject (assoc_set k v kvs)
  | JNull => JObject [(k, v)]
  | _ => j
  end.

(** An object built by successive assignments, as the encoders do. *)
Definition jobject (fields : list (cstring * json)) : json :=
  foldl (λ j kv, jset kv.1 kv.2 j) (JObject []) fields.

(** An assignment guarded by an [if]. *)
Definition when {A} (b : bool) (fields : list A) : list A := if b then fields else [].

(** Number of elements of a container value ([size()]). *)
Definition jsize (j : json) : Z :=
  match j with
  | JObject kvs => zlen kvs
  | JArray l => zlen l
  | JNull => 0
  | _ => 1
  end.

(** [get<std::int64_t>()] on a number. *)
Definition get_int64 (j : json) : Z :=
  match j with JInt z => z | JUint z => i64 z | _ => 0 end.

(** Loop over the entries of an array that must be strings satisfying [ok],
    collecting them; the first entry that is not stops with the error. *)
Fixpoint read_strings {E} (ok : cstring → bool) (e : E) (l : list json) :
    result E (list cstring) :=
  match l with
  | [] => Ok []
  | JString s :: l =>
      if ok s then rest ← read_strings ok e l; Ok (s :: rest) else Err e
  | _ :: _ => Err e
  end.

(** [if (doc.contains(k)) { ... }]: run the step on the member, if any. *)
Definition if_member {E S} (k : cstring) (doc : json)
    (step : json → S → result E S) (st : S) : result E S :=
  match member k doc with
  | None => Ok st
  | Some v => step v st
  end.

(** ** UTF-8 (RFC 3629), which the serializer demands of every string *)
Definition cont_byte (c : ascii) : bool := (128 <=? ord c) && (ord c <? 192).

(** The admissible second byte after a lead byte: no overlong forms, no
    surrogates, nothing past U+10FFFF. *)
Definition second_ok (a b : Z) : bool :=
  if a =? 224 then 160 <=? b
  else if a =? 237 then b <? 160
  else if a =? 240 then 144 <=? b
  else if a =? 244 then b <? 144
  else true.

Fixpoint utf8_valid (s : cstring) : bool :=
  match s with
  | [] => true
  | c1 :: s1 =>
      if ord c1 <? 128 then utf8_valid s1
      else
        match s1 with
        | [] => false
        | c2 :: s2 =>
            if (194 <=? ord c1) && (ord c1 <? 224)
            then cont_byte c2 && utf8_valid s2
            else
              match s2 with
              | [] => false
              | c3 :: s3 =>
                  if (224 <=? ord c1) && (ord c1 <? 240)
                  then cont_byte c2 && second_ok (ord c1) (ord c2) &&
                       cont_byte c3 && utf8_valid s3
                  else
                    match s3 with
                    | [] => false
                    | c4 :: s4 =>
                        (240 <=? ord c1) && (ord c1 <? 245) &&
                        cont_byte c2 && second_ok (ord c1) (ord c2) &&
                        cont_byte c3 && cont_byte c4 && utf8_valid s4
                    end
              end
        end
  end.

(** Every string in the value, keys included, is valid UTF-8. *)
Fixpoint json_utf8 (j : json) : bool :=
  match j with
  | JString s => utf8_valid s
  | JArray l => forallb json_utf8 l
  | JObject kvs => forallb (λ kv, utf8_valid kv.1 && json_utf8 kv.2) kvs
  | _ => true
  end.

(** What a value reads back as: a non-negative signed number is read as an
    unsigned one, and a non-finite number is written as [null]. *)
Fixpoint json_canon (j : json) : json :=
  match j with
  | JInt z => if 0 <=? z then JUint z else JInt z
  | JFloat (S754_infinity _ | S754_nan) => JNull
  | JArray l => JArray (map json_canon l)
  | JObject kvs => JObject (map (λ kv, (kv.1, json_canon kv.2)) kvs)
  | _ => j
  end.

(** Key-ordered objects and numbers in range, as the library maintains. *)
Fixpoint keys_sorted (kvs : list (cstring * json)) : bool :=
  match kvs with
  | [] => true
  | kv :: kvs' =>
      match kvs' with
      | [] => true
      | kv' :: _ => str_ltb kv.1 kv'.1
      end && keys_sorted kvs'
  end.

Fixpoint json_wf (j : json) : bool :=
  match j with
  | JInt z => (- 2 ^ 63 <=? z) && (z <? 2 ^ 63)
  | JUint z => (0 <=? z) && (z <? 2 ^ 64)
  | JArray l => forallb json_wf l
  | JObject kvs => keys_sorted kvs && forallb (λ kv, json_wf kv.2) kvs
  | _ => true
  end.

(** ** The library interface

    [json_parse] is [json::parse(text, nullptr, false)] with [None] for a
    discarded value; [json_dump] is [dump()] with [None] for the
    [type_error.316] it throws on invalid UTF-8. *)
Class JsonLib := {
  json_parse : cstring → option json;
  json_dump : json → option cstring;
}.

Class JsonLaws (L : JsonLib) : Prop := {
  dump_defined j : json_utf8 j = true → is_Some (json_dump j);
  dump_throws j : json_utf8 j = false → json_dump j = None;
  parse_dump j s :
    json_wf j = true → json_dump j = Some s → json_parse s = Some (json_canon j);
  dump_one_line j s : json_dump j = Some s → "010"%char ∉ s;
  dump_nonempty j s : json_dump j = Some s → s ≠ [];
  parse_wf s j : json_parse s = Some j → json_wf j = true ∧ json_utf8 j = true;
  parse_empty : json_parse [] = None;
}.

(** ** Lemmas on values *)
Lemma json_canon_utf8 j : json_utf8 (json_canon j) = json_utf8 j.
Proof.
  induction j as [ | | z | | d | | l IH | kvs IH] using json_nested_ind; simpl;
    try done.
  - by destruct (0 <=? z).
  - by destruct d.
  - induction IH as [|x l Hx _ IHl]; simpl; [done|]. by rewrite Hx, IHl.
  - induction IH as [|x l Hx _ IHl]; simpl; [done|]. by rewrite Hx, IHl.
Qed.

Lemma keys_sorted_fmap (f : json → json) kvs :
  keys_sorted (map (λ kv, (kv.1, f kv.2)) kvs) = keys_sorted kvs.
Proof.
  induction kvs as [|kv kvs IH]; [done|]. cbn [map keys_sorted].
  rewrite IH. by destruct kvs.
Qed.

Lemma json_canon_wf j : json_wf j = true → json_wf (json_canon j) = true.
Proof.
  induction j as [ | | z | | d | | l IH | kvs IH] using json_nested_ind; simpl;
    try done.
  - intros [H1 H2]%andb_prop. destruct (Z.leb_spec 0 z); simpl.
    + apply andb_true_intro. split; [apply Z.leb_le|apply Z.ltb_lt]; lia.
    + by rewrite H1, H2.
  - by destruct d.
  - induction IH as [|x l Hx _ IHl]; simpl; [done|].
    intros [? ?]%andb_prop. apply andb_true_intro; auto.
  - intros [Hs Hk]%andb_prop. apply andb_true_intro. split.
    + by rewrite keys_sorted_fmap.
    + clear Hs. induction IH as [|x l Hx _ IHl]; simpl in *; [done|].
      apply andb_prop in Hk as [? ?]. apply andb_true_intro; auto.
Qed.

Lemma assoc_get_set k k' v kvs :
  assoc_get k (assoc_set k' v kvs) = if k =s k' then Some v else assoc_get k kvs.
Proof.
  induction kvs as [|[k1 v1] kvs IH]; simpl; [done|].
  destruct (str_eqb_spec k' k1) as [->|Hne]; simpl.
  - by destruct (k =s k1).
  - destruct (str_ltb k' k1); simpl; [done|]. rewrite IH.
    destruct (str_eqb_spec k k1) as [->|]; [|done].
    destruct (str_eqb_spec k1 k') as [->|]; [done|done].
Qed.

Lemma member_jset k k' v j :
  is_object j = true →
  member k (jset k' v j) = if k =s k' then Some v else member k j.
Proof. destruct j; try done. intros _. apply assoc_get_set. Qed.

Lemma is_object_jset k v j : is_object j = true → is_object (jset k v j) = true.
Proof. by destruct j. Qed.

(** The member of an object built by assignments is the last one assigned. *)
Lemma member_foldl k fields j :
  is_object j = true →
  member k (foldl (λ j kv, jset kv.1 kv.2 j) j fields) =
    match assoc_get k (reverse fields) with
    | Some v => Some v
    | None => member k j
    end.
Proof.
  revert j. induction fields as [|[k' v'] fields IH] using rev_ind; intros j Hj;
    [done|].
  rewrite foldl_snoc, reverse_snoc. simpl. rewrite member_jset.
  - destruct (k =s k'); [done|]. by apply IH.
  - clear IH. revert j Hj. induction fields as [|[k1 v1] fields IH]; [done|].
    intros j Hj. apply IH. by apply is_object_jset.
Qed.

Lemma member_jobject k fields :
  member k (jobject fields) = assoc_get k (reverse fields).
Proof.
  unfold jobject. rewrite member_foldl by done.
  by destruct (assoc_get k (reverse fields)).
Qed.

Lemma utf8_valid_ascii s :
  Forall (λ c, ord c < 128) s → utf8_valid s = true.
Proof.
  induction 1 as [|c s Hc _ IH]; simpl; [done|].
  by rewrite (proj2 (Z.ltb_lt _ _) Hc).
Qed.

Lemma assoc_set_utf8 k v kvs :
  utf8_valid k = true → json_utf8 v = true →
  forallb (λ kv, utf8_valid kv.1 && json_utf8 kv.2) kvs = true →
  forallb (λ kv, utf8_valid kv.1 && json_utf8 kv.2) (assoc_set k v kvs) = true.
Proof.
  intros Hk Hv. induction kvs as [|[k' v'] kvs IH]; simpl; intros Hall.
  - by rewrite Hk, Hv.
  - apply andb_prop in Hall as [H1 H2].
    destruct (k =s k'); [simpl; by rewrite Hk, Hv, H2|].
    destruct (str_ltb k k'); simpl; [by rewrite Hk, Hv, H1, H2|].
    by rewrite H1, IH.
Qed.

Lemma read_strings_Ok {E} ok (e : E) l ss :
  read_strings ok e l = Ok ss ↔
  l = JString <$> ss ∧ Forall (λ s, ok s = true) ss.
Proof.
  revert ss. induction l as [|j l IH]; intros ss; simpl.
  { split; [intros [= <-]; auto|]. intros [H _]. by destruct ss. }
  destruct j; try (split; [done|]; intros [H _]; by destruct ss).
  destruct (ok s) eqn:Hs.
  - destruct (read_strings ok e l) as [rest|] eqn:E1; simpl.
    + destruct (proj1 (IH rest) eq_refl) as [-> Hall]. split.
      * intros [= <-]. auto.
      * intros [H Hf]. destruct ss as [|s' ss]; [done|].
        csimpl in H. injection H as -> H. inv Hf.
        by injection (proj2 (IH ss) (conj H ltac:(done))) as ->.
    + split; [done|]. intros [H Hf]. destruct ss as [|s' ss]; [done|].
      csimpl in H. injection H as -> ->. inv Hf.
      by pose proof (proj2 (IH ss) (conj eq_refl ltac:(done))).
  - split; [done|]. intros [H Hf]. destruct ss as [|s' ss]; [done|].
    csimpl in H. injection H as -> ->. inv Hf. congruence.
Qed.

Lemma read_strings_Err {E} ok (e e' : E) l : read_strings ok e l = Err e' → e' = e.
Proof.
  induction l as [|[] l IH]; simpl; try done; try (by intros [= <-]).
  destruct (ok _); [|by intros [= <-]]. destruct (read_strings ok e l); [done|]. simpl.
  intros [= <-]. auto.
Qed.

(** An object built from well-encoded fields is well encoded. *)
Lemma jobject_utf8 fields :
  Forall (λ kv, utf8_valid kv.1 = true ∧ json_utf8 kv.2 = true) fields →
  json_utf8 (jobject fields) = true.
Proof.
  unfold jobject. intros Hall.
  assert (∀ j, is_object j = true → json_utf8 j = true →
    json_utf8 (foldl (λ j kv, jset kv.1 kv.2 j) j fields) = true) as Hgen.
  { induction Hall as [|[k v] fields [Hk Hv] _ IH]; intros j Ho Hj; [done|].
    cbn [foldl]. apply IH; [by apply is_object_jset|].
    destruct j; try done. by apply assoc_set_utf8. }
  by apply Hgen.
Qed.

(** *** Objects built by assignment keep their keys in order *)
Lemma str_ltb_total a b : a ≠ b → str_ltb a b = false → str_ltb b a = true.
Proof.
  revert b. induction a as [|x a IH]; intros [|y b] Hne; simpl; try done.
  rewrite orb_false_iff. intros [H1 H2]. apply Z.ltb_ge in H1.
  destruct (Z.ltb_spec (ord y) (ord x)); simpl; [done|].
  assert (ord x = ord y) as Hxy by lia. rewrite Hxy, Z.eqb_refl in H2 |- *. simpl in *.
  apply ord_inj in Hxy as ->. apply IH; [congruence|done].
Qed.

Definition above (k : cstring) (kvs : list (cstring * json)) : bool :=
  match kvs with [] => true | kv :: _ => str_ltb k kv.1 end.

Lemma above_set k0 k v kvs :
  above k0 kvs = true → str_ltb k0 k = true → above k0 (assoc_set k v kvs) = true.
Proof.
  destruct kvs as [|[k' v'] kvs]; simpl; [done|].
  destruct (k =s k'); simpl; [done|]. by destruct (str_ltb k k').
Qed.

Lemma assoc_set_sorted k v kvs :
  keys_sorted kvs = true → keys_sorted (assoc_set k v kvs) = true.
Proof.
  induction kvs as [|[k' v'] kvs IH]; [done|].
  cbn [keys_sorted]. change (match kvs with [] => true | kv' :: _ => _ end)
    with (above k' kvs). intros [Ha Hs]%andb_prop. cbn [assoc_set].
  destruct (str_eqb_spec k k') as [->|Hne].
  { cbn [keys_sorted]. change (above k' kvs && keys_sorted kvs = true).
    by rewrite Ha, Hs. }
  destruct (str_ltb k k') eqn:Hlt.
  { cbn [keys_sorted fst]. change (str_ltb k k' && (above k' kvs && keys_sorted kvs) = true).
    by rewrite Hlt, Ha, Hs. }
  cbn [keys_sorted]. change (above k' (assoc_set k v kvs)
    && keys_sorted (assoc_set k v kvs) = true).
  rewrite IH by done. rewrite above_set; [done|done|]. by apply str_ltb_total.
Qed.

Lemma assoc_set_wf k v kvs :
  json_wf v = true → forallb (λ kv, json_wf kv.2) kvs = true →
  forallb (λ kv, json_wf kv.2) (assoc_set k v kvs) = true.
Proof.
  intros Hv. induction kvs as [|[k' v'] kvs IH]; simpl; [by rewrite Hv|].
  intros [H1 H2]%andb_prop. destruct (k =s k'); simpl; [by rewrite Hv, H2|].
  destruct (str_ltb k k'); simpl; [by rewrite Hv, H1, H2|]. by rewrite H1, IH.
Qed.

Lemma jset_wf k v j :
  is_object j = true → json_wf j = true → json_wf v = true → json_wf (jset k v j) = true.
Proof.
  destruct j; try done. cbn [json_wf jset]. intros _ [H1 H2]%andb_prop Hv.
  by rewrite assoc_set_sorted, assoc_set_wf.
Qed.

Lemma jobject_wf fields :
  Forall (λ kv, json_wf kv.2 = true) fields → json_wf (jobject fields) = true.
Proof.
  unfold jobject. intros Hall.
  assert (∀ j, is_object j = true → json_wf j = true →
    json_wf (foldl (λ j kv, jset kv.1 kv.2 j) j fields) = true) as Hgen.
  { induction Hall as [|[k v] fields Hv _ IH]; intros j Ho Hj; [done|].
    cbn [foldl]. apply IH; [by apply is_object_jset|]. by apply jset_wf. }
  by apply Hgen.
Qed.

Lemma jobject_is_object fields : is_object (jobject fields) = true.
Proof.
  unfold jobject. assert (∀ j, is_object j = true →
    is_object (foldl (λ j kv, jset kv.1 kv.2 j) j fields) = true) as Hgen; [|by apply Hgen].
  induction fields as [|kv fields IH]; intros j Hj; [done|]. by apply IH, is_object_jset.
Qed.

(** Reading a member commutes with the trip through the text form. *)
Lemma member_canon k j : member k (json_canon j) = json_canon <$> member k j.
Proof.
  destruct j as [ | |z| |d| |l|kvs]; try done; cbn [json_canon member].
  - by destruct (0 <=? z).
  - by destruct d.
  - induction kvs as [|[k' v] kvs IH]; [done|]. cbn [map assoc_get fst snd].
    by destruct (k =s k').
Qed.

Lemma is_object_canon j : is_object (json_canon j) = is_object j.
Proof. destruct j as [| |z| |[]| | |]; try done. cbn. by destruct (0 <=? z). Qed.

Lemma jsize_canon_object j : is_object j = true → jsize (json_canon j) = jsize j.
Proof. destruct j; try done. intros _. cbn. unfold zlen. by rewrite length_map. Qed.

Lemma json_canon_idem j : json_canon (json_canon j) = json_canon j.
Proof.
  induction j as [ | | z | | d | | l IH | kvs IH] using json_nested_ind; simpl; try done.
  - destruct (0 <=? z) eqn:E; simpl; [done|by rewrite E].
  - by destruct d.
  - f_equal. induction IH as [|x l Hx _ IHl]; simpl; [done|]. by rewrite Hx, IHl.
  - f_equal. induction IH as [|x l Hx _ IHl]; simpl; [done|]. by rewrite Hx, IHl.
Qed.

Lemma member_utf8 k j v : json_utf8 j = true → member k j = Some v → json_utf8 v = true.
Proof.
  destruct j as [| | | | | | |kvs]; try done. cbn [json_utf8 member].
  induction kvs as [|[k' v'] kvs IH]; [done|]. cbn [forallb assoc_get fst snd].
  rewrite !andb_true_iff. intros [[_ Hv] Hk]. destruct (k =s k'); [naive_solver|by apply IH].
Qed.

Lemma member_wf k j v : json_wf j = true → member k j = Some v → json_wf v = true.
Proof.
  destruct j as [| | | | | | |kvs]; try done. cbn [json_wf member].
  rewrite andb_true_iff. intros [_ Hk]. revert Hk.
  induction kvs as [|[k' v'] kvs IH]; [done|]. cbn [forallb assoc_get fst snd].
  rewrite !andb_true_iff. intros [Hv Hk]. destruct (k =s k'); [naive_solver|by apply IH].
Qed.

(** ** An instance: values as encoded trees *)
Module TreeJson.
Abbreviation leaf := (bool + Z + cstring + (bool * positive * Z))%type.

Definition of_float (d : double) : gen_tree leaf :=
  match d with
  | S754_zero b => GenNode 0 [GenLeaf (inl (inl (inl b)))]
  | S754_infinity b => GenNode 1 [GenLeaf (inl (inl (inl b)))]
  | S754_nan => GenNode 2 []
  | S754_finite b m e => GenNode 3 [GenLeaf (inr (b, m, e))]
  end.
Definition to_float (t : gen_tree leaf) : option double :=
  match t with
  | GenNode 0 [GenLeaf (inl (inl (inl b)))] => Some (S754_zero b)
  | GenNode 1 [GenLeaf (inl (inl (inl b)))] => Some (S754_infinity b)
  | GenNode 2 [] => Some S754_nan
  | GenNode 3 [GenLeaf (inr (b, m, e))] => Some (S754_finite b m e)
  | _ => None
  end.

Fixpoint to_tree (j : json) : gen_tree leaf :=
  match j with
  | JNull => GenNode 0 []
  | JBool b => GenNode 1 [GenLeaf (inl (inl (inl b)))]
  | JInt z => GenNode 2 [GenLeaf (inl (inl (inr z)))]
  | JUint z => GenNode 3 [GenLeaf (inl (inl (inr z)))]
  | JFloat d => GenNode 4 [of_float d]
  | JString s => GenNode 5 [GenLeaf (inl (inr s))]
  | JArray l => GenNode 6 (map to_tree l)
  | JObject kvs =>
      GenNode 7 (map (λ kv, GenNode 8 [GenLeaf (inl (inr kv.1)); to_tree kv.2])
                   kvs)
  end.

Fixpoint of_tree (t : gen_tree leaf) : option json :=
  match t with
  | GenNode 0 [] => Some JNull
  | GenNode 1 [GenLeaf (inl (inl (inl b)))] => Some (JBool b)
  | GenNode 2 [GenLeaf (inl (inl (inr z)))] => Some (JInt z)
  | GenNode 3 [GenLeaf (inl (inl (inr z)))] => Some (JUint z)
  | GenNode 4 [d] => JFloat <$> to_float d
  | GenNode 5 [GenLeaf (inl (inr s))] => Some (JString s)
  | GenNode 6 l =>
      JArray <$>
        (fix go l := match l with
                     | [] => Some []
                     | t :: l => x ← of_tree t; xs ← go l; Some (x :: xs)
                     end) l
  | GenNode 7 l =>
      JObject <$>
        (fix go l :=
           match l with
           | [] => Some []
           | GenNode 8 [GenLeaf (inl (inr k)); t] :: l =>
               x ← of_tree t; xs ← go l; Some ((k, x) :: xs)
           | _ => None
           end) l
  | _ => None
  end.

Lemma of_to_tree j : of_tree (to_tree j) = Some j.
Proof.
  induction j as [ | | | | d | | l IH | kvs IH] using json_nested_ind; simpl;
    try done.
  - by destruct d.
  - rewrite fmap_Some. exists l. split; [|done].
    induction IH as [|x l Hx _ IHl]; simpl; [done|]. by rewrite Hx, IHl.
  - rewrite fmap_Some. exists kvs. split; [|done].
    induction IH as [|[k x] l Hx _ IHl]; simpl in *; [done|].
    by rewrite Hx; simpl; rewrite IHl.
Qed.

(** A positive number as its binary digits. *)
Fixpoint bits (p : positive) : cstring :=
  match p with
  | xH => ["1"%char]
  | xO p => "0"%char :: bits p
  | xI p => "1"%char :: bits p
  end.
Fixpoint unbits (s : cstring) : option positive :=
  match s with
  | [] => None
  | c :: s =>
      match unbits s with
      | None => if is_char "1" c then Some xH else None
      | Some p => Some (if is_char "1" c then xI p else xO p)
      end
  end.

Lemma unbits_bits p : unbits (bits p) = Some p.
Proof. induction p as [p IH|p IH|]; simpl; by rewrite ?IH. Qed.

Lemma bits_chars p : Forall (λ c, c = "0"%char ∨ c = "1"%char) (bits p).
Proof. induction p; simpl; constructor; auto. Qed.

#[local] Instance lib : JsonLib := {
  json_parse s :=
    p ← unbits s; t ← decode (A := gen_tree leaf) p; j ← of_tree t;
    if json_wf j && json_utf8 j then Some j else None;
  json_dump j :=
    if json_utf8 j then Some (bits (encode (to_tree (json_canon j)))) else None;
}.

#[local] Instance laws : JsonLaws lib.
Proof.
  split; unfold json_parse, json_dump, lib.
  - intros j ->. eauto.
  - by intros j ->.
  - intros j s Hwf Hd. case_match eqn:Hu; simplify_eq.
    rewrite unbits_bits. cbn [mbind option_bind].
    rewrite decode_encode. cbn [mbind option_bind].
    rewrite of_to_tree. cbn [mbind option_bind].
    by rewrite json_canon_utf8, Hu, json_canon_wf.
  - intros j s Hd. case_match; simplify_eq. intros Hin.
    pose proof (bits_chars (encode (to_tree (json_canon j)))) as Hall.
    rewrite Forall_forall in Hall. by destruct (Hall _ Hin).
  - intros j s Hd. case_match; simplify_eq.
    by destruct (encode (to_tree (json_canon j))).
  - intros s j (p & _ & (t & _ & (j' & _ & Hj)%bind_Some)%bind_Some)%bind_Some.
    destruct (json_wf j') eqn:?, (json_utf8 j') eqn:?; naive_solver.
  - done.
Qed.
End TreeJson.
