(* ===== verification/Time.v ===== *)
(** * Timestamps ([src/common/time.cpp])

    A time point is its count of nanoseconds since the epoch.  [gmtime_r] and
    [timegm] of the C library are modelled by the proleptic Gregorian
    calendar. *)
From S2P Require Import Prelude.
Open Scope Z_scope.

(** ** The calendar *)

(** Day number of a date, [m] in 1..12 and [d] counted from 1, of any size. *)
Definition days_from_civil (y m d : Z) : Z :=
  let y := if m <=? 2 then y - 1 else y in
  let era := y / 400 in
  let yoe := y mod 400 in
  let doy := (153 * (if 2 <? m then m - 3 else m + 9) + 2) / 5 + d - 1 in
  let doe := yoe * 365 + yoe / 4 - yoe / 100 + doy in
  era * 146097 + doe - 719468.

(** Month and day of a day of the year counted from the first of March. *)
Definition month_day (doy : Z) : Z * Z :=
  let mp := (5 * doy + 2) / 153 in
  (if mp <? 10 then mp + 3 else mp - 9, doy - (153 * mp + 2) / 5 + 1).

(** The year of a 400-year era and the day of that year, by centuries, leap
    cycles and years. *)
Definition year_day (doe : Z) : Z * Z :=
  let n100 := Z.min (doe / 36524) 3 in
  let rem := doe - n100 * 36524 in
  let n4 := rem / 1461 in
  let rem4 := rem - n4 * 1461 in
  let n1 := Z.min (rem4 / 365) 3 in
  (n100 * 100 + n4 * 4 + n1, rem4 - n1 * 365).

Definition civil_from_days (z : Z) : Z * Z * Z :=
  let z := z + 719468 in
  let '(yoe, doy) := year_day (z mod 146097) in
  let '(m, d) := month_day doy in
  let y := yoe + z / 146097 * 400 in
  (if m <=? 2 then y + 1 else y, m, d).

(** The fields of [std::tm] that the code uses, with the full year and the
    month counted from 1. *)
Record tm := mkTm {
  tm_y : Z; tm_m : Z; tm_d : Z; tm_hour : Z; tm_min : Z; tm_sec : Z;
}.

Definition gmtime (tt : Z) : tm :=
  let '(y, m, d) := civil_from_days (tt / 86400) in
  let s := tt mod 86400 in
  mkTm y m d (s / 3600) (s mod 3600 / 60) (s mod 60).

(** [timegm] normalizes a month outside 1..12; the other fields are linear. *)
Definition timegm (t : tm) : Z :=
  let m0 := tm_m t - 1 in
  days_from_civil (tm_y t + m0 / 12) (m0 mod 12 + 1) (tm_d t) * 86400
  + tm_hour t * 3600 + tm_min t * 60 + tm_sec t.

(** ** Formatting *)
Definition to_rfc3339 (tp : Z) : cstring :=
  let secs := Z.quot tp (10 ^ 9) in
  let ms := Z.quot (tp - secs * 10 ^ 9) (10 ^ 6) in
  let t := gmtime secs in
  printf_0d 4 (tm_y t) ++ "-" ++ printf_0d 2 (tm_m t) ++ "-" ++ printf_0d 2 (tm_d t)
  ++ "T" ++ printf_0d 2 (tm_hour t) ++ ":" ++ printf_0d 2 (tm_min t) ++ ":"
  ++ printf_0d 2 (tm_sec t) ++ "." ++ printf_0d 3 ms ++ "Z".

(** ** Parsing *)

(** [p[i]] of a C string: the terminating NUL past the end; [char] is signed. *)
Definition char_at (s : cstring) (i : nat) : ascii := nth i s "000"%char.
Definition schar (c : ascii) : Z := if ord c <? 128 then ord c else ord c - 256.
Definition digit_at (s : cstring) (i : nat) : Z := schar (char_at s i) - 48.
Definition parse2 (s : cstring) (i : nat) : Z :=
  digit_at s i * 10 + digit_at s (i + 1).

Definition date_shape (s : cstring) : bool :=
  forallb (λ i, isdigit (char_at s i)) [0; 1; 2; 3; 5; 6; 8; 9; 11; 12; 14; 15; 17; 18]%nat
  && is_char "-" (char_at s 4) && is_char "-" (char_at s 7)
  && (is_char "T" (char_at s 10) || is_char "t" (char_at s 10))
  && is_char ":" (char_at s 13) && is_char ":" (char_at s 16).

(** The epoch, a default-constructed time point, is the error value.  Years
    after 2262 do not fit the 64-bit count of nanoseconds; the result is then the
    number that the conversion should have had, the overflow is undefined. *)
Definition from_rfc3339 (text : cstring) : Z :=
  if zlen text <? 20 then 0
  else if negb (date_shape text) then 0
  else
    let t := mkTm (digit_at text 0 * 1000 + digit_at text 1 * 100
                   + digit_at text 2 * 10 + digit_at text 3)
               (parse2 text 5) (parse2 text 8) (parse2 text 11) (parse2 text 14)
               (parse2 text 17) in
    let tt := timegm t in
    if tt =? -1 then 0
    else
      let ms := if is_char "." (char_at text 19) && (24 <=? zlen text)
                then digit_at text 20 * 100 + digit_at text 21 * 10 + digit_at text 22
                else 0 in
      tt * 10 ^ 9 + ms * 10 ^ 6.

(** [boot_walltime + nanoseconds{ktime_ns}]: the unsigned count becomes the
    signed representation of the duration. *)
Definition from_ktime_ns (ktime_ns boot_walltime : Z) : Z :=
  boot_walltime + i64 ktime_ns.

(** ** The calendar is a bijection *)
Lemma year_day_spec doe yoe doy :
  0 ≤ doe < 146097 → year_day doe = (yoe, doy) →
  0 ≤ yoe < 400 ∧ 0 ≤ doy ≤ 365 ∧ yoe * 365 + yoe / 4 - yoe / 100 + doy = doe.
Proof.
  intros Hd [= <- <-]. set (n100 := Z.min (doe / 36524) 3).
  set (rem := doe - n100 * 36524). set (n4 := rem / 1461).
  set (rem4 := rem - n4 * 1461). set (n1 := Z.min (rem4 / 365) 3).
  assert (0 ≤ n100 ≤ 3 ∧ 0 ≤ rem ≤ 36524)
    by (subst n100 rem; Z.to_euclidean_division_equations; lia).
  assert (0 ≤ n4 ≤ 24 ∧ 0 ≤ rem4 ≤ 1460)
    by (subst n4 rem4; Z.to_euclidean_division_equations; lia).
  assert (0 ≤ n1 ≤ 3 ∧ 0 ≤ rem4 - n1 * 365 ≤ 365)
    by (subst n1; Z.to_euclidean_division_equations; lia).
  split; [lia|]. split; [lia|].
  replace ((n100 * 100 + n4 * 4 + n1) / 4) with (n100 * 25 + n4)
    by (Z.to_euclidean_division_equations; lia).
  replace ((n100 * 100 + n4 * 4 + n1) / 100) with n100
    by (Z.to_euclidean_division_equations; lia).
  subst rem rem4. lia.
Qed.

Definition doy_ok (doy : Z) : bool :=
  let '(m, d) := month_day doy in
  (1 <=? m) && (m <=? 12) && (1 <=? d) && (d <=? 31) &&
  ((153 * (if 2 <? m then m - 3 else m + 9) + 2) / 5 + d - 1 =? doy).

Lemma doy_ok_all doy : 0 ≤ doy ≤ 365 → doy_ok doy = true.
Proof.
  intros H. apply (seqZ_check doy_ok 366); [lia|]. vm_compute. reflexivity.
Qed.

Lemma civil_from_days_spec z y m d :
  civil_from_days z = (y, m, d) →
  days_from_civil y m d = z ∧ 1 ≤ m ≤ 12 ∧ 1 ≤ d ≤ 31.
Proof.
  unfold civil_from_days. set (z' := z + 719468).
  pose proof (Z.mod_pos_bound z' 146097) as Hb.
  destruct (year_day (z' mod 146097)) as [yoe doy] eqn:Hyd.
  apply year_day_spec in Hyd as (Hy & Hdoy & Hdoe); [|lia].
  pose proof (doy_ok_all doy Hdoy) as Hok. unfold doy_ok in Hok.
  destruct (month_day doy) as [m0 d0]. intros [= <- <- <-].
  rewrite !andb_true_iff in Hok. destruct Hok as ((((H3 & H4) & H5) & H6) & H7).
  split; [|lia]. apply Z.eqb_eq in H7. unfold days_from_civil.
  replace (if m0 <=? 2 then _ - 1 else _) with (yoe + z' / 146097 * 400)
    by (destruct (m0 <=? 2); lia).
  rewrite Z.div_add, Z.mod_add, (Z.div_small yoe), (Z.mod_small yoe) by lia.
  pose proof (Z.div_mod z' 146097). unfold z' in *. lia.
Qed.

Lemma gmtime_fields tt t :
  gmtime tt = t → 0 ≤ tt →
  1 ≤ tm_m t ≤ 12 ∧ 1 ≤ tm_d t ≤ 31 ∧ 0 ≤ tm_hour t < 24 ∧ 0 ≤ tm_min t < 60 ∧
  0 ≤ tm_sec t < 60 ∧ timegm t = tt.
Proof.
  unfold gmtime. destruct (civil_from_days (tt / 86400)) as [[y m] d] eqn:Hc.
  apply civil_from_days_spec in Hc as (Hd & Hm & Hday). intros <- Htt.
  unfold timegm. cbn [tm_m tm_d tm_hour tm_min tm_sec tm_y].
  rewrite (Z.div_small (m - 1)), (Z.mod_small (m - 1)) by lia.
  replace (y + 0) with y by lia. replace (m - 1 + 1) with m by lia. rewrite Hd.
  clear Hd. Z.to_euclidean_division_equations. lia.
Qed.

Lemma gmtime_year tt :
  0 ≤ tt < 9223372037 → 0 ≤ tm_y (gmtime tt) < 2300.
Proof.
  intros Ht. unfold gmtime.
  destruct (civil_from_days (tt / 86400)) as [[y m] d] eqn:Hc.
  apply civil_from_days_spec in Hc as (Hd & Hm & Hday). cbn [tm_y].
  assert (0 ≤ tt / 86400 < 106752) by (Z.to_euclidean_division_equations; lia).
  revert Hd. generalize dependent (tt / 86400). intros days Hdays.
  unfold days_from_civil. intros Hd.
  destruct (m <=? 2) eqn:?, (2 <? m) eqn:?; Z.to_euclidean_division_equations; lia.
Qed.

(** A number printed with leading zeros is read back digit by digit. *)
Fixpoint digits_value (s : cstring) (acc : Z) : Z :=
  match s with
  | [] => acc
  | c :: s => digits_value s (acc * 10 + (schar c - 48))
  end.

Definition printf_ok (w : nat) (z : Z) : bool :=
  let s := printf_0d w z in
  (length s =? w)%nat && forallb isdigit s && (digits_value s 0 =? z).

Lemma printf_ok_spec w z :
  printf_ok w z = true →
  length (printf_0d w z) = w ∧ forallb isdigit (printf_0d w z) = true ∧
  digits_value (printf_0d w z) 0 = z.
Proof.
  unfold printf_ok. rewrite !andb_true_iff. intros [[H1 H2] H3].
  apply Nat.eqb_eq in H1. apply Z.eqb_eq in H3. done.
Qed.

Lemma printf2_spec z :
  0 ≤ z < 100 → ∃ a b, printf_0d 2 z = [a; b] ∧ isdigit a = true ∧ isdigit b = true ∧
    (schar a - 48) * 10 + (schar b - 48) = z.
Proof.
  intros Hz. destruct (printf_ok_spec 2 z) as (Hl & Hd & Hv).
  { apply (seqZ_check (printf_ok 2) 100 z Hz). vm_compute. reflexivity. }
  destruct (printf_0d 2 z) as [|a [|b []]]; try done.
  exists a, b. cbn in Hd, Hv. rewrite !andb_true_iff in Hd. naive_solver.
Qed.

Lemma printf3_spec z :
  0 ≤ z < 1000 → ∃ a b c, printf_0d 3 z = [a; b; c] ∧
    (schar a - 48) * 100 + (schar b - 48) * 10 + (schar c - 48) = z.
Proof.
  intros Hz. destruct (printf_ok_spec 3 z) as (Hl & Hd & Hv).
  { apply (seqZ_check (printf_ok 3) 1000 z Hz). vm_compute. reflexivity. }
  destruct (printf_0d 3 z) as [|a [|b [|c []]]]; try done.
  exists a, b, c. cbn -[schar] in Hv. split; [done|]. lia.
Qed.

Lemma printf4_spec z :
  0 ≤ z < 2300 → ∃ a b c d, printf_0d 4 z = [a; b; c; d] ∧
    isdigit a && isdigit b && isdigit c && isdigit d = true ∧
    (schar a - 48) * 1000 + (schar b - 48) * 100 + (schar c - 48) * 10 + (schar d - 48) = z.
Proof.
  intros Hz. destruct (printf_ok_spec 4 z) as (Hl & Hd & Hv).
  { apply (seqZ_check (printf_ok 4) 2300 z Hz). vm_compute. reflexivity. }
  destruct (printf_0d 4 z) as [|a [|b [|c [|d []]]]]; try done.
  exists a, b, c, d. cbn -[schar isdigit] in Hv, Hd. rewrite andb_true_r, !andb_assoc in Hd.
  split; [done|]. split; [done|lia].
Qed.

Lemma rfc3339_inverse tp :
  0 ≤ tp < 2 ^ 63 → from_rfc3339 (to_rfc3339 tp) = tp - tp mod 10 ^ 6.
Proof.
  intros Htp. unfold to_rfc3339.
  rewrite Z.quot_div_nonneg by lia. set (secs := tp / 10 ^ 9).
  assert (Hs : 0 ≤ secs < 9223372037) by (unfold secs; Z.to_euclidean_division_equations; lia).
  assert (Hr : tp - secs * 10 ^ 9 = tp mod 10 ^ 9) by (unfold secs; Z.to_euclidean_division_equations; lia).
  rewrite Hr, Z.quot_div_nonneg by (apply Z.mod_pos_bound || lia; lia).
  set (ms := tp mod 10 ^ 9 / 10 ^ 6).
  assert (Hms : 0 ≤ ms < 1000) by (unfold ms; Z.to_euclidean_division_equations; lia).
  assert (Htot : tp - tp mod 10 ^ 6 = secs * 10 ^ 9 + ms * 10 ^ 6)
    by (unfold secs, ms; Z.to_euclidean_division_equations; lia).
  rewrite Htot. clear Htot Hr Htp. clearbody secs ms.
  pose proof (gmtime_year secs Hs) as Hy.
  destruct (gmtime_fields secs _ eq_refl) as (Hm & Hd & Hh & Hmin & Hsec & Hback); [lia|].
  destruct (gmtime secs) as [y m d h mi s]. cbn [tm_y tm_m tm_d tm_hour tm_min tm_sec] in *.
  destruct (printf4_spec y Hy) as (y1 & y2 & y3 & y4 & -> & Hyd & Hyv).
  destruct (printf2_spec m) as (m1 & m2 & -> & Hm1 & Hm2 & Hmv); [lia|].
  destruct (printf2_spec d) as (d1 & d2 & -> & Hd1 & Hd2 & Hdv); [lia|].
  destruct (printf2_spec h) as (h1 & h2 & -> & Hh1 & Hh2 & Hhv); [lia|].
  destruct (printf2_spec mi) as (i1 & i2 & -> & Hi1 & Hi2 & Hiv); [lia|].
  destruct (printf2_spec s) as (s1 & s2 & -> & Hs1 & Hs2 & Hsv); [lia|].
  destruct (printf3_spec ms Hms) as (f1 & f2 & f3 & -> & Hfv).
  rewrite !andb_true_iff in Hyd. destruct Hyd as [[[Hy1 Hy2] Hy3] Hy4].
  lazy [app lit String.list_ascii_of_string]. unfold from_rfc3339.
  match goal with |- context [date_shape ?s] => assert (date_shape s = true) as -> end.
  { unfold date_shape. cbn -[isdigit].
    by rewrite Hy1, Hy2, Hy3, Hy4, Hm1, Hm2, Hd1, Hd2, Hh1, Hh2, Hi1, Hi2, Hs1, Hs2. }
  cbn -[timegm schar Z.mul Z.add Z.pow Z.sub].
  unfold parse2, digit_at. cbn -[timegm schar Z.mul Z.add Z.pow Z.sub].
  rewrite Hyv, Hmv, Hdv, Hhv, Hiv, Hsv, Hfv, Hback.
  rewrite (proj2 (Z.eqb_neq secs (-1))) by lia. done.
Qed.

(** Every time point from the epoch on (a 64-bit nanosecond count) is
    read back from its RFC 3339 text as itself, truncated to milliseconds. *)
Theorem rfc3339_roundtrip tp :
  0 ≤ tp < 2 ^ 63 → from_rfc3339 (to_rfc3339 tp) = tp - tp mod 10 ^ 6.
Proof. apply rfc3339_inverse. Qed.

Lemma rfc3339_roundtrip_witness :
  to_rfc3339 1709210096789012345 = lit "2024-02-29T12:34:56.789Z" ∧
  from_rfc3339 (to_rfc3339 1709210096789012345) = 1709210096789000000.
Proof. split; [reflexivity|]. apply (rfc3339_roundtrip 1709210096789012345). lia. Defined.
