(* ===== verification/Types.v ===== *)
(** * The shared data model

    The enumerations, wire names and records of [include/ezcap/*.hpp] with
    their conversions in [src/common/event_types.cpp], [src/common/error.cpp],
    [src/ipc/ipc_protocol.cpp], [src/policy/redactor.cpp] (policy names) and
    [src/common/logging.cpp] (level names). *)
From S2P Require Import Prelude Double.
Open Scope Z_scope.

(** ** [event_types.hpp] *)
Inductive EventType := Connection | Dns | Navigation | Process | Status | Error.
Inductive EventSource := Ebpf | Pcap | Browser.
Inductive Transport := Tcp | Udp | Icmp | Other.
Inductive Direction := Inbound | Outbound | Unknown.
Inductive ConfidenceBand := Weak | Probable | Strong | Direct.

#[global] Instance EventType_eq_dec : EqDecision EventType.
Proof. solve_decision. Defined.
#[global] Instance EventSource_eq_dec : EqDecision EventSource.
Proof. solve_decision. Defined.
#[global] Instance Transport_eq_dec : EqDecision Transport.
Proof. solve_decision. Defined.
#[global] Instance Direction_eq_dec : EqDecision Direction.
Proof. solve_decision. Defined.

(** Case-insensitive comparison: equal sizes, then byte by byte. *)
Fixpoint equals_ci (a b : cstring) : bool :=
  match a, b with
  | [], [] => true
  | x :: a, y :: b =>
      bool_decide (lower_ascii x = lower_ascii y) && equals_ci a b
  | _, _ => false
  end.

Definition confidence_band (confidence : double) : ConfidenceBand :=
  if dge confidence (dlit 90 2) then Direct
  else if dge confidence (dlit 70 2) then Strong
  else if dge confidence (dlit 40 2) then Probable
  else Weak.

Definition event_type_name (t : EventType) : cstring :=
  match t with
  | Connection => "connection" | Dns => "dns" | Navigation => "navigation"
  | Process => "process" | Status => "status" | Error => "error"
  end.

Definition event_type_from_name (name : cstring) : option EventType :=
  if equals_ci name "connection" then Some Connection
  else if equals_ci name "dns" then Some Dns
  else if equals_ci name "navigation" then Some Navigation
  else if equals_ci name "process" then Some Process
  else if equals_ci name "status" then Some Status
  else if equals_ci name "error" then Some Error
  else None.

Definition event_source_name (s : EventSource) : cstring :=
  match s with Ebpf => "ebpf" | Pcap => "pcap" | Browser => "browser" end.

Definition event_source_from_name (name : cstring) : option EventSource :=
  if equals_ci name "ebpf" then Some Ebpf
  else if equals_ci name "pcap" then Some Pcap
  else if equals_ci name "browser" then Some Browser
  else None.

Definition transport_name (t : Transport) : cstring :=
  match t with
  | Tcp => "tcp" | Udp => "udp" | Icmp => "icmp" | Other => "other"
  end.

Definition transport_from_name (name : cstring) : option Transport :=
  if equals_ci name "tcp" then Some Tcp
  else if equals_ci name "udp" then Some Udp
  else if equals_ci name "icmp" then Some Icmp
  else if equals_ci name "other" then Some Other
  else None.

Definition direction_name (d : Direction) : cstring :=
  match d with
  | Inbound => "inbound" | Outbound => "outbound" | Unknown => "unknown"
  end.

Definition direction_from_name (name : cstring) : option Direction :=
  if equals_ci name "inbound" then Some Inbound
  else if equals_ci name "outbound" then Some Outbound
  else if equals_ci name "unknown" then Some Unknown
  else None.

Definition confidence_band_name (b : ConfidenceBand) : cstring :=
  match b with
  | Weak => "weak" | Probable => "probable" | Strong => "strong"
  | Direct => "direct"
  end.

(** ** [error.hpp] *)
Inductive ErrorCode :=
  | InvalidFraming | MessageTooLarge | InvalidJson | InvalidUtf8
  | SchemaViolation | UnsupportedVersion | UnknownOperation
  | OperationNotAllowed | MissingField
  | TooManySubscriptions | QueueOverflow | ClientTimeout
  | DaemonUnavailable | SocketPermission | ConnectionClosed
  | BackendUnavailable | MissingPermission | CaptureFilterError
  | BackendLoadFailure
  | StorageError | PolicyViolation | InternalError.

#[global] Instance ErrorCode_eq_dec : EqDecision ErrorCode.
Proof. solve_decision. Defined.

Record IpcError := mkIpcError { err_code : ErrorCode; err_message : cstring }.

Definition error_code_name (code : ErrorCode) : cstring :=
  match code with
  | InvalidFraming => "invalid_framing"
  | MessageTooLarge => "message_too_large"
  | InvalidJson => "invalid_json"
  | InvalidUtf8 => "invalid_utf8"
  | SchemaViolation => "schema_violation"
  | UnsupportedVersion => "unsupported_version"
  | UnknownOperation => "unknown_operation"
  | OperationNotAllowed => "operation_not_allowed"
  | MissingField => "missing_field"
  | TooManySubscriptions => "too_many_subscriptions"
  | QueueOverflow => "queue_overflow"
  | ClientTimeout => "client_timeout"
  | DaemonUnavailable => "daemon_unavailable"
  | SocketPermission => "socket_permission"
  | ConnectionClosed => "connection_closed"
  | BackendUnavailable => "backend_unavailable"
  | MissingPermission => "missing_permission"
  | CaptureFilterError => "capture_filter_error"
  | BackendLoadFailure => "backend_load_failure"
  | StorageError => "storage_error"
  | PolicyViolation => "policy_violation"
  | InternalError => "internal_error"
  end.

Definition error_code_description (code : ErrorCode) : cstring :=
  match code with
  | InvalidFraming => "message framing is invalid"
  | MessageTooLarge => "message exceeds the size limit"
  | InvalidJson => "message is not valid JSON"
  | InvalidUtf8 => "message contains invalid UTF-8"
  | SchemaViolation => "message does not match the protocol schema"
  | UnsupportedVersion => "protocol version is not supported"
  | UnknownOperation => "operation is not recognised"
  | OperationNotAllowed => "operation is not allowed"
  | MissingField => "a required field is missing"
  | TooManySubscriptions => "too many subscriptions for this client"
  | QueueOverflow => "client queue overflowed"
  | ClientTimeout => "client timed out"
  | DaemonUnavailable => "daemon is unavailable"
  | SocketPermission => "socket permission denied"
  | ConnectionClosed => "connection closed"
  | BackendUnavailable => "capture backend is unavailable"
  | MissingPermission => "capture permission is missing"
  | CaptureFilterError => "capture filter could not be applied"
  | BackendLoadFailure => "capture backend failed to load"
  | StorageError => "storage operation failed"
  | PolicyViolation => "policy rejected the request"
  | InternalError => "internal error"
  end.

(** ** [event.hpp]

    A time point is its nanosecond count; ports, pids and uids are the
    unsigned integers of their width. *)
Definition kEventSchemaVersion : Z := 1.
Definition kProtocolVersion : Z := 1.
Definition kVersionString : cstring := "0.1.0".
Definition kDefaultSocketPath : cstring := "/run/ezcap/ezcap.sock".

Record ProcessInfo := mkProcessInfo {
  proc_pid : Z;
  proc_name : cstring;
  proc_uid : option Z;
}.

Record NetworkInfo := mkNetworkInfo {
  net_transport : Transport;
  net_direction : Direction;
  net_local_address : cstring;
  net_local_port : Z;
  net_remote_address : cstring;
  net_remote_port : Z;
  net_dns_query_name : cstring;
  net_dns_response_code : option Z;
  net_interface : cstring;
  net_backend : EventSource;
}.

Definition default_NetworkInfo : NetworkInfo :=
  {| net_transport := Other; net_direction := Unknown;
     net_local_address := []; net_local_port := 0;
     net_remote_address := []; net_remote_port := 0;
     net_dns_query_name := []; net_dns_response_code := None;
     net_interface := []; net_backend := Pcap |}.

Record BrowserInfo := mkBrowserInfo {
  br_tab_id : Z;
  br_window_id : Z;
  br_url : cstring;
  br_title : cstring;
  br_navigation_id : cstring;
  br_frame_id : Z;
}.

(** [std::array<bool, 5>], ordered as [RedactionKind]. *)
Record Redactions := mkRedactions {
  rd_query_string : bool;
  rd_fragment : bool;
  rd_hostname_hash : bool;
  rd_hostname_mask : bool;
  rd_domain_excluded : bool;
}.
Definition no_redactions : Redactions := mkRedactions false false false false false.

Record PrivacyInfo := mkPrivacyInfo {
  pv_redacted : bool;
  pv_metadata_only : bool;
  pv_redactions : Redactions;
}.
Definition default_PrivacyInfo : PrivacyInfo :=
  mkPrivacyInfo false true no_redactions.

Record BackendStatus := mkBackendStatus {
  bs_name : EventSource;
  bs_active : bool;
  bs_detail : cstring;
}.

Record Event := mkEvent {
  ev_schema_version : Z;
  ev_event_id : cstring;
  ev_type : EventType;
  ev_source : EventSource;
  ev_timestamp : Z;
  ev_confidence : double;
  ev_correlation_id : cstring;
  ev_process : option ProcessInfo;
  ev_network : option NetworkInfo;
  ev_browser : option BrowserInfo;
  ev_privacy : PrivacyInfo;
  ev_backend_statuses : list BackendStatus;
  ev_error_code : cstring;
  ev_error_message : cstring;
}.

(** The event a default constructor yields, before any field is set. *)
Definition default_Event : Event :=
  {| ev_schema_version := kEventSchemaVersion; ev_event_id := [];
     ev_type := Connection; ev_source := Pcap; ev_timestamp := 0;
     ev_confidence := dint 0; ev_correlation_id := [];
     ev_process := None; ev_network := None; ev_browser := None;
     ev_privacy := default_PrivacyInfo; ev_backend_statuses := [];
     ev_error_code := []; ev_error_message := [] |}.

(** ** [policy.hpp] *)
Inductive RedactionMode :=
  | HostnameOnly | QueryStringRemoval | FullHostname | DomainHash | DomainMask.

#[global] Instance RedactionMode_eq_dec : EqDecision RedactionMode.
Proof. solve_decision. Defined.

Record Policy := mkPolicy {
  po_redaction_mode : RedactionMode;
  po_strip_query_string : bool;
  po_strip_fragment : bool;
  po_sensitive_domains : list cstring;
  po_persistence_enabled : bool;
  po_retention : Z;
  po_capture_interfaces : list cstring;
  po_pcap_filter : cstring;
}.

Definition default_Policy : Policy :=
  {| po_redaction_mode := QueryStringRemoval;
     po_strip_query_string := true; po_strip_fragment := true;
     po_sensitive_domains := []; po_persistence_enabled := false;
     po_retention := 86400 * 7; po_capture_interfaces := [];
     po_pcap_filter := "ip or ip6" |}.

Inductive PolicyDecision := Allow | Redact | Drop.

#[global] Instance PolicyDecision_eq_dec : EqDecision PolicyDecision.
Proof. solve_decision. Defined.

Definition redaction_mode_name (mode : RedactionMode) : cstring :=
  match mode with
  | HostnameOnly => "hostname-only"
  | QueryStringRemoval => "query-string-removal"
  | FullHostname => "full-hostname"
  | DomainHash => "domain-hash"
  | DomainMask => "domain-mask"
  end.

Definition redaction_mode_from_name (name : cstring) : option RedactionMode :=
  if name =s "hostname-only" then Some HostnameOnly
  else if name =s "query-string-removal" then Some QueryStringRemoval
  else if name =s "full-hostname" then Some FullHostname
  else if name =s "domain-hash" then Some DomainHash
  else if name =s "domain-mask" then Some DomainMask
  else None.

(** ** [ipc_protocol.hpp] *)
Definition kMaxRequestBytes : Z := 64 * 1024.
Definition kMaxEventBytes : Z := 256 * 1024.
Definition kMaxClients : Z := 16.
Definition kMaxSubscriptionsPerClient : Z := 8.
Definition kMaxOutgoingQueue : Z := 1024.

Inductive Operation :=
  | Hello | GetStatus | Subscribe | Unsubscribe | SetPolicy | GetPolicy
  | Shutdown.

#[global] Instance Operation_eq_dec : EqDecision Operation.
Proof. solve_decision. Defined.

Definition operation_name (op : Operation) : cstring :=
  match op with
  | Hello => "hello" | GetStatus => "get_status" | Subscribe => "subscribe"
  | Unsubscribe => "unsubscribe" | SetPolicy => "set_policy"
  | GetPolicy => "get_policy" | Shutdown => "shutdown"
  end.

Definition operation_from_name (name : cstring) : option Operation :=
  if name =s "hello" then Some Hello
  else if name =s "get_status" then Some GetStatus
  else if name =s "subscribe" then Some Subscribe
  else if name =s "unsubscribe" then Some Unsubscribe
  else if name =s "set_policy" then Some SetPolicy
  else if name =s "get_policy" then Some GetPolicy
  else if name =s "shutdown" then Some Shutdown
  else None.

Record Request := mkRequest {
  rq_protocol_version : Z;
  rq_operation : Operation;
  rq_request_id : cstring;
  rq_params_json : cstring;
}.

Record Response := mkResponse {
  rs_request_id : cstring;
  rs_ok : bool;
  rs_result_json : cstring;
  rs_error : IpcError;
}.

(** ** [logging.hpp] *)
Inductive Level := LTrace | LDebug | LInfo | LWarn | LError | LCritical.

Definition level_name (l : Level) : cstring :=
  match l with
  | LTrace => "trace" | LDebug => "debug" | LInfo => "info" | LWarn => "warn"
  | LError => "error" | LCritical => "critical"
  end.

Definition level_from_name (name : cstring) : option Level :=
  if name =s "trace" then Some LTrace
  else if name =s "debug" then Some LDebug
  else if name =s "info" then Some LInfo
  else if (name =s "warn") || (name =s "warning") then Some LWarn
  else if name =s "error" then Some LError
  else if name =s "critical" then Some LCritical
  else None.

(** ** Lemmas *)
Lemma equals_ci_lower a b :
  equals_ci a b = true ↔ lower_ascii <$> a = lower_ascii <$> b.
Proof.
  revert b. induction a as [|x a IH]; intros [|y b]; csimpl; try done.
  rewrite andb_true_iff, bool_decide_eq_true, IH. split.
  - by intros [-> ->].
  - by intros [= -> ->].
Qed.

Lemma equals_ci_decide a b :
  equals_ci a b = bool_decide (lower_ascii <$> a = lower_ascii <$> b).
Proof.
  apply eq_bool_prop_intro. rewrite bool_decide_spec.
  rewrite <-equals_ci_lower. by rewrite Is_true_true.
Qed.

(** The case-insensitive tables are inverted by running every entry. *)
Ltac solve_ci_table t :=
  split;
  [ intros ?; split_cases; done
  | rewrite equals_ci_lower; intros Hci; rewrite !equals_ci_decide, !Hci;
    by destruct t ].

(** The names accepted for a value are those that agree with its wire name up
    to letter case. *)
Lemma event_type_from_name_spec n t :
  event_type_from_name n = Some t ↔ equals_ci n (event_type_name t) = true.
Proof. unfold event_type_from_name. solve_ci_table t. Qed.

Lemma event_source_from_name_spec n t :
  event_source_from_name n = Some t ↔ equals_ci n (event_source_name t) = true.
Proof. unfold event_source_from_name. solve_ci_table t. Qed.

Lemma transport_from_name_spec n t :
  transport_from_name n = Some t ↔ equals_ci n (transport_name t) = true.
Proof. unfold transport_from_name. solve_ci_table t. Qed.

Lemma direction_from_name_spec n t :
  direction_from_name n = Some t ↔ equals_ci n (direction_name t) = true.
Proof. unfold direction_from_name. solve_ci_table t. Qed.

(** The exact tables: operations, redaction modes. *)
Lemma operation_from_name_spec n op :
  operation_from_name n = Some op ↔ n = operation_name op.
Proof.
  unfold operation_from_name. split.
  - intros ?; split_cases; by apply str_eqb_eq.
  - intros ->. by destruct op.
Qed.

Lemma redaction_mode_from_name_spec n m :
  redaction_mode_from_name n = Some m ↔ n = redaction_mode_name m.
Proof.
  unfold redaction_mode_from_name. split.
  - intros ?; split_cases; by apply str_eqb_eq.
  - intros ->. by destruct m.
Qed.

Lemma redaction_mode_roundtrip m :
  redaction_mode_from_name (redaction_mode_name m) = Some m.
Proof. by apply redaction_mode_from_name_spec. Qed.

Lemma operation_roundtrip op :
  operation_from_name (operation_name op) = Some op.
Proof. by apply operation_from_name_spec. Qed.

#[export] Hint Rewrite redaction_mode_roundtrip operation_roundtrip : ezcap_bool.
