(* ===== verification/Logging.v ===== *)
(** * Logging ([src/common/logging.cpp])

    The process-wide logger: what [initialize] sets up, which messages the
    logging macros write and where, and [shutdown].  spdlog is the class
    [Spdlog]: how a record is formatted and what happens to the file when a sink
    is made. *)
From S2P Require Import Prelude Double Types.
Open Scope Z_scope.

(** Contents of the files by path. *)
Abbreviation log_files := (gmap cstring cstring).

(** [format_record] is the pattern applied to a message; [open_file_sink] makes a
    [basic_file_sink_mt(path, truncate)], [None] when it throws; [open_stderr]
    is whether the console sink could be made. *)
Class Spdlog := {
  format_record : Level → cstring → cstring;
  open_stderr : bool;
  open_file_sink : cstring → bool → log_files → option log_files;
}.

Class SpdlogLaws `{SP : Spdlog} : Prop := {
  (* the constructor truncates or creates the file, or appends to it *)
  file_sink_opens path truncate fs fs' :
    open_file_sink path truncate fs = Some fs' →
    fs' = <[path := if truncate then [] else default [] (fs !! path)]> fs;
}.

Inductive sink := StderrSink | FileSink (path : cstring).

Record Logger := mkLogger { lo_sinks : list sink; lo_level : Level }.

(** [g_logger] and [g_level], with what has been written to stderr. *)
Record LogState := mkLogState {
  lg_logger : option Logger;
  lg_level : Level;
  lg_stderr : cstring;
  lg_files : log_files;
}.

Definition initial_log (fs : log_files) : LogState := mkLogState None LInfo [] fs.

(** The numbers of [to_spdlog]: trace is 0, critical is 5. *)
Definition to_spdlog (l : Level) : Z :=
  match l with
  | LTrace => 0 | LDebug => 1 | LInfo => 2 | LWarn => 3 | LError => 4 | LCritical => 5
  end.

Section logging.
Context {SP : Spdlog}.

(** Anything thrown leaves no logger, but what was opened stays opened. *)
Definition initialize (level : Level) (log_path : cstring) (st : LogState) : LogState :=
  if negb open_stderr then mkLogState None level (lg_stderr st) (lg_files st)
  else if is_empty log_path then
    mkLogState (Some (mkLogger [StderrSink] level)) level (lg_stderr st) (lg_files st)
  else
    match open_file_sink log_path true (lg_files st) with
    | None => mkLogState None level (lg_stderr st) (lg_files st)
    | Some fs =>
        mkLogState (Some (mkLogger [StderrSink; FileSink log_path] level)) level
          (lg_stderr st) fs
    end.

Definition write_sink (text : cstring) (st : LogState) (s : sink) : LogState :=
  match s with
  | StderrSink =>
      mkLogState (lg_logger st) (lg_level st) (lg_stderr st ++ text) (lg_files st)
  | FileSink path =>
      mkLogState (lg_logger st) (lg_level st) (lg_stderr st)
        (<[path := default [] (lg_files st !! path) ++ text]> (lg_files st))
  end.

(** The macros [EZCAP_LOG_TRACE] to [EZCAP_LOG_CRITICAL]. *)
Definition log_message (l : Level) (msg : cstring) (st : LogState) : LogState :=
  match lg_logger st with
  | None => st
  | Some lo =>
      if to_spdlog (lo_level lo) <=? to_spdlog l
      then foldl (write_sink (format_record l msg)) st (lo_sinks lo)
      else st
  end.

Definition shutdown (st : LogState) : LogState :=
  mkLogState None (lg_level st) (lg_stderr st) (lg_files st).

Definition log_all (msgs : list (Level * cstring)) (st : LogState) : LogState :=
  foldl (λ st m, log_message m.1 m.2 st) st msgs.

(** The records a list of messages leaves at a level. *)
Definition records (level : Level) (msgs : list (Level * cstring)) : cstring :=
  concat ((λ m, format_record m.1 m.2)
    <$> filter (λ m, to_spdlog level ≤ to_spdlog m.1) msgs).

(** [text] went to stderr and to the file, and nowhere else. *)
Definition written (path text : cstring) (st st' : LogState) : Prop :=
  lg_logger st' = lg_logger st ∧ lg_stderr st' = lg_stderr st ++ text ∧
  default [] (lg_files st' !! path) = default [] (lg_files st !! path) ++ text ∧
  ∀ p, p ≠ path → lg_files st' !! p = lg_files st !! p.

(** ** Lemmas *)
Lemma logged_nil path st : written path [] st st.
Proof. unfold written. by rewrite !app_nil_r. Qed.

Lemma logged_trans path a b st1 st2 st3 :
  written path a st1 st2 → written path b st2 st3 → written path (a ++ b) st1 st3.
Proof.
  intros (L1 & E1 & F1 & O1) (L2 & E2 & F2 & O2).
  split; [congruence|]. split; [by rewrite E2, E1, (assoc_L (++))|].
  split; [by rewrite F2, F1, (assoc_L (++))|]. intros p Hp. by rewrite O2, O1.
Qed.

Lemma log_message_written level path l msg st :
  lg_logger st = Some (mkLogger [StderrSink; FileSink path] level) →
  written path (records level [(l, msg)]) st (log_message l msg st).
Proof.
  intros Hst. unfold log_message, records. rewrite Hst, filter_cons, filter_nil.
  cbn [lo_level lo_sinks fst].
  destruct (Z.leb_spec (to_spdlog level) (to_spdlog l)).
  2:{ rewrite decide_False by lia. apply logged_nil. }
  rewrite decide_True by done. cbn [fmap list_fmap concat fst snd]. rewrite app_nil_r.
  cbn [foldl write_sink]. split; [done|]. split; [done|]. cbn [lg_files]. split.
  - by rewrite lookup_insert_eq.
  - intros p Hp. by rewrite lookup_insert_ne.
Qed.

Lemma records_cons level m msgs :
  records level (m :: msgs) = records level [m] ++ records level msgs.
Proof.
  unfold records. rewrite !filter_cons, filter_nil. case_decide; [|done].
  cbn [fmap list_fmap concat]. by rewrite app_nil_r.
Qed.

Lemma log_all_written level path msgs st :
  lg_logger st = Some (mkLogger [StderrSink; FileSink path] level) →
  written path (records level msgs) st (log_all msgs st).
Proof.
  revert st. induction msgs as [|[l msg] msgs IH]; intros st Hst; [apply logged_nil|].
  pose proof (log_message_written level path l msg st Hst) as Hw.
  rewrite records_cons. eapply logged_trans; [done|]. apply IH.
  destruct Hw as (-> & _). done.
Qed.

(** After a successful start with a log file the file holds exactly the
    records of the messages at or above the configured level, in order, and no
    other file has changed; whatever the file held before is gone. *)
Theorem log_file_contents {SL : SpdlogLaws} level path msgs st :
  path ≠ [] → is_Some (lg_logger (initialize level path st)) →
  let st' := log_all msgs (initialize level path st) in
  default [] (lg_files st' !! path) = records level msgs ∧
  lg_stderr st' = lg_stderr st ++ records level msgs ∧
  ∀ p, p ≠ path → lg_files st' !! p = lg_files st !! p.
Proof.
  unfold initialize. intros Hp%is_empty_false Hs. rewrite Hp in *.
  destruct open_stderr; cbn [negb] in *; [|by destruct Hs].
  destruct (open_file_sink path true (lg_files st)) as [fs|] eqn:Ho; [|by destruct Hs].
  apply file_sink_opens in Ho as ->.
  destruct (log_all_written level path msgs (mkLogState
    (Some (mkLogger [StderrSink; FileSink path] level)) level (lg_stderr st)
    (<[path := []]> (lg_files st))) eq_refl) as (_ & He & Hf & Ho).
  cbn [lg_files lg_stderr] in *. rewrite lookup_insert_eq in Hf.
  split; [exact Hf|]. split; [exact He|]. intros p Hne. rewrite Ho by done.
  by rewrite lookup_insert_ne.
Qed.

(** A logger that could not be set up, or was shut down, writes nothing. *)
Lemma log_all_silent msgs st : lg_logger st = None → log_all msgs st = st.
Proof.
  intros Hst. induction msgs as [|[l msg] msgs IH]; [done|].
  cbn [log_all foldl fst snd]. unfold log_message. by rewrite Hst.
Qed.
End logging.

(** Every file can be opened and the record is the message on a line. *)
Definition plain_spdlog : Spdlog := {|
  format_record l msg := level_name l ++ lit ": " ++ msg ++ ["010"%char];
  open_stderr := true;
  open_file_sink path truncate fs :=
    Some (<[path := if truncate then [] else default [] (fs !! path)]> fs);
|}.

Lemma plain_spdlog_laws : SpdlogLaws (SP := plain_spdlog).
Proof. split. by intros path truncate fs fs' [= <-]. Qed.

(** The log of an earlier run is not kept. *)
Lemma log_file_contents_witness :
  let before := initial_log {[lit "/log" := lit "earlier run"]} in
  default [] (lg_files (log_all (SP := plain_spdlog)
    [(LDebug, lit "a"); (LError, lit "b")]
    (initialize (SP := plain_spdlog) LInfo (lit "/log") before)) !! lit "/log")
  = lit "error: b" ++ ["010"%char].
Proof.
  apply (log_file_contents (SP := plain_spdlog) (SL := plain_spdlog_laws) LInfo (lit "/log")
    [(LDebug, lit "a"); (LError, lit "b")] (initial_log {[lit "/log" := lit "earlier run"]}));
    [discriminate|by eexists].
Defined.
