(* ===== verification/Redactor.v ===== *)
(** * The redactor ([src/policy/redactor.cpp])

    URL and DNS-name redaction under a policy: domain exclusion, query and
    fragment stripping, host-only output and hostname hashing or masking. *)
From S2P Require Import Prelude Double Types.
Open Scope Z_scope.

(** ** Definitions *)
Definition fnv_offset_basis : Z := 14695981039346656037.
Definition fnv_prime : Z := 1099511628211.

Definition fnv1a (data : cstring) : Z :=
  foldl (λ hash c, u64 (Z.lxor hash (ord c) * fnv_prime)) fnv_offset_basis data.
Definition fnv1a_hex (data : cstring) : cstring := hex_of 16 (fnv1a data).

Definition to_lower (s : cstring) : cstring := lower_ascii <$> s.

(** [host == domain], or [host] ends in [domain] right after a dot. *)
Definition host_under_domain (host domain : cstring) : bool :=
  if host =s domain then true
  else if (length host <=? length domain)%nat then false
  else
    let k := (length host - length domain)%nat in
    if drop k host <>s domain then false
    else bool_decide (host !! (k - 1)%nat = Some "."%char).

Definition domain_excluded (p : Policy) (host : cstring) : bool :=
  let lower := to_lower host in
  existsb (λ domain, host_under_domain lower (to_lower domain))
    (po_sensitive_domains p).

(** Position of the last label boundary kept by the mask: the second dot from
    the end, else the last dot.  [find_last_of('.', last_dot - 1)] with
    [last_dot = 0] wraps to [npos] and searches the whole string. *)
Definition mask_end (host : cstring) : option nat :=
  let last_dot := find_last (is_char ".") host in
  let second_dot :=
    match last_dot with
    | None => None
    | Some O => find_last (is_char ".") host
    | Some ld => find_last (is_char ".") (take ld host)
    end in
  match second_dot with None => last_dot | Some _ => second_dot end.

Definition transform_hostname (mode : RedactionMode) (host : cstring) : cstring :=
  match mode with
  | DomainHash => fnv1a_hex host
  | DomainMask =>
      match mask_end host with
      | Some e =>
          if (1 <? e)%nat
          then take 1 host ++ replicate (e - 1) "*"%char ++ drop e host
          else host
      | None => host
      end
  | _ => host
  end.

(** The redactor: its policy copy and the audit of the last call. *)
Record Redactor := mkRedactor {
  rr_policy : Policy;
  rr_last_redactions : Redactions;
}.

Definition new_Redactor (p : Policy) : Redactor := mkRedactor p no_redactions.

Definition host_stop (c : ascii) : bool :=
  is_char "/" c || is_char "?" c || is_char "#" c.

Definition set_query_string (k : Redactions) : Redactions :=
  mkRedactions true (rd_fragment k) (rd_hostname_hash k) (rd_hostname_mask k)
    (rd_domain_excluded k).
Definition set_fragment (k : Redactions) : Redactions :=
  mkRedactions (rd_query_string k) true (rd_hostname_hash k)
    (rd_hostname_mask k) (rd_domain_excluded k).
Definition set_hostname_hash (k : Redactions) : Redactions :=
  mkRedactions (rd_query_string k) (rd_fragment k) true (rd_hostname_mask k)
    (rd_domain_excluded k).
Definition set_hostname_mask (k : Redactions) : Redactions :=
  mkRedactions (rd_query_string k) (rd_fragment k) (rd_hostname_hash k) true
    (rd_domain_excluded k).
Definition set_domain_excluded (k : Redactions) : Redactions :=
  mkRedactions (rd_query_string k) (rd_fragment k) (rd_hostname_hash k)
    (rd_hostname_mask k) true.

(** Cut at the first [c], recording the redaction when something was cut. *)
Definition strip_at (on : bool) (c : ascii) (mark : Redactions → Redactions)
    (st : cstring * Redactions) : cstring * Redactions :=
  let '(result, redactions) := st in
  if on then
    match find_pred (is_char c) result with
    | Some i => (take i result, mark redactions)
    | None => (result, redactions)
    end
  else (result, redactions).

(** The host part of a URL: from after ["://"] (or the start) up to the first
    of [/?#]. *)
Definition url_scheme (url : cstring) : option nat := find_sub "://" url.
Definition url_host_start (url : cstring) : nat :=
  match url_scheme url with None => 0%nat | Some i => (i + 3)%nat end.
Definition url_host_part (url : cstring) : cstring :=
  let host_start := url_host_start url in
  match find_from host_stop host_start url with
  | None => substr host_start None url
  | Some e => substr host_start (Some (e - host_start)%nat) url
  end.

Definition redact_url (r : Redactor) (url : cstring) : cstring * Redactor :=
  let p := rr_policy r in
  let scheme := url_scheme url in
  let host_start := url_host_start url in
  let host := url_host_part url in
  if negb (is_empty host) && domain_excluded p host then
    ([], mkRedactor p (set_domain_excluded no_redactions))
  else
    (* fragment removal first, then query string *)
    let st := strip_at (po_strip_fragment p) "#" set_fragment (url, no_redactions) in
    let st := strip_at (po_strip_query_string p) "?" set_query_string st in
    let '(result, redactions) := st in
    match po_redaction_mode p, scheme with
    | HostnameOnly, Some _ =>
        let result :=
          match find_from (is_char "/") host_start result with
          | Some i => take i result
          | None => result
          end in
        (result, mkRedactor p (set_query_string redactions))
    | (DomainHash | DomainMask) as mode, Some _ =>
        let new_host := transform_hostname mode host in
        let prefix := substr 0 (Some host_start) result in
        let suffix :=
          match find_from host_stop host_start result with
          | None => []
          | Some e => substr e None result
          end in
        (prefix ++ new_host ++ suffix,
         mkRedactor p (match mode with
                       | DomainHash => set_hostname_hash redactions
                       | _ => set_hostname_mask redactions
                       end))
    | _, _ => (result, mkRedactor p redactions)
    end.

Definition redact_dns_name (r : Redactor) (name : cstring) : cstring * Redactor :=
  let p := rr_policy r in
  if is_empty name then ([], mkRedactor p no_redactions)
  else if domain_excluded p name then
    ([], mkRedactor p (set_domain_excluded no_redactions))
  else
    match po_redaction_mode p with
    | DomainHash =>
        (fnv1a_hex name, mkRedactor p (set_hostname_hash no_redactions))
    | DomainMask =>
        (transform_hostname DomainMask name,
         mkRedactor p (set_hostname_mask no_redactions))
    | _ => (name, mkRedactor p no_redactions)
    end.

Arguments fnv1a_hex : simpl never.
Arguments transform_hostname : simpl never.

(** ** Lemmas: where the redactor cuts *)
Definition hex_alphabet : cstring := "0123456789abcdef".

Lemma hex_digit_alphabet z : hex_digit z ∈ hex_alphabet.
Proof.
  unfold hex_digit, hex_alphabet.
  destruct (nth_in_or_default (Z.to_nat z) (lit "0123456789abcdef") "0"%char)
    as [Hin| ->].
  - by apply list_elem_of_In.
  - by left.
Qed.

Lemma hex_of_alphabet n z : Forall (.∈ hex_alphabet) (hex_of n z).
Proof.
  revert z. induction n as [|n IH]; intros z; simpl; [done|].
  apply Forall_app. split; [done|]. apply Forall_singleton, hex_digit_alphabet.
Qed.

Lemma length_hex_of n z : length (hex_of n z) = n.
Proof.
  revert z. induction n as [|n IH]; intros z; simpl; [done|].
  rewrite length_app, IH. simpl. lia.
Qed.

Lemma transform_hostname_Forall (P : ascii → Prop) mode host :
  (∀ c, c ∈ hex_alphabet → P c) → P "*"%char →
  Forall P host → Forall P (transform_hostname mode host).
Proof.
  intros Hhex Hstar Hhost. unfold transform_hostname. destruct mode; try done.
  - by eapply Forall_impl; [apply (hex_of_alphabet 16)|].
  - destruct (mask_end host) as [e|]; [|done].
    case_match; [|done].
    auto using Forall_app_2, Forall_take, Forall_drop, Forall_replicate.
Qed.

Lemma url_host_part_no_stop url :
  Forall (λ c, host_stop c = false) (url_host_part url).
Proof.
  unfold url_host_part, find_from, substr.
  destruct (find_pred host_stop (drop (url_host_start url) url)) as [i|] eqn:E;
    simpl.
  - replace (url_host_start url + i - url_host_start url)%nat with i by lia.
    by apply find_pred_take.
  - by apply find_pred_None.
Qed.

Lemma strip_at_prefix on c mark st :
  ∃ rest, st.1 = (strip_at on c mark st).1 ++ rest.
Proof.
  destruct st as [s k]. unfold strip_at. destruct on; [|exists []; simpl; by rewrite app_nil_r].
  destruct (find_pred _ s) as [i|]; simpl.
  - exists (drop i s). by rewrite take_drop.
  - exists []. by rewrite app_nil_r.
Qed.

Lemma strip_at_not_in c mark st : c ∉ (strip_at true c mark st).1.
Proof.
  destruct st as [s k]. unfold strip_at.
  destruct (find_pred (is_char c) s) as [i|] eqn:E; simpl; intros Hin.
  - apply find_pred_take in E. rewrite Forall_forall in E.
    specialize (E _ Hin). apply is_char_false in E. congruence.
  - apply find_pred_None in E. rewrite Forall_forall in E.
    specialize (E _ Hin). apply is_char_false in E. congruence.
Qed.

Lemma strip_at_keeps_out d on c mark st :
  d ∉ st.1 → d ∉ (strip_at on c mark st).1.
Proof.
  destruct (strip_at_prefix on c mark st) as [rest Hrest].
  rewrite Hrest. rewrite elem_of_app. tauto.
Qed.

(** Every byte of the output stems from the stripped URL, or from the host, or
    is a hexadecimal digit or a star. *)
Lemma redact_url_Forall (P : ascii → Prop) r url :
  (∀ c, c ∈ hex_alphabet → P c) → P "*"%char →
  (∀ c, host_stop c = false → P c) →
  (let st := strip_at (po_strip_fragment (rr_policy r)) "#" set_fragment
               (url, no_redactions) in
   Forall P (strip_at (po_strip_query_string (rr_policy r)) "?"
               set_query_string st).1) →
  Forall P (redact_url r url).1.
Proof.
  intros Hhex Hstar Hhost Hst. unfold redact_url.
  destruct (_ && domain_excluded _ _); [simpl; constructor|].
  cbv zeta in Hst. destruct (strip_at _ "?" _ _) as [res k]. simpl in Hst.
  assert (Forall P (url_host_part url)) as Hh.
  { eapply Forall_impl; [apply url_host_part_no_stop|]. auto. }
  destruct (po_redaction_mode _), (url_scheme url); cbn [fst]; try done.
  { destruct (find_from _ _ res); simpl; auto using Forall_take. }
  all: apply Forall_app_2; [by apply Forall_take|apply Forall_app_2].
  all: try by apply transform_hostname_Forall.
  all: destruct (find_from _ _ res); simpl; auto using Forall_drop.
Qed.

Lemma redact_url_strips_query r url :
  po_strip_query_string (rr_policy r) = true →
  "?"%char ∉ (redact_url r url).1.
Proof.
  intros Hq Hin.
  assert (Forall (λ c, c ≠ "?"%char) (redact_url r url).1) as Hall.
  { apply redact_url_Forall; [..|rewrite Hq; cbv zeta].
    - intros c Hc ->. by vm_compute in Hc; set_solver.
    - done.
    - by intros c Hc ->.
    - apply Forall_forall. intros c Hc ->.
      by apply strip_at_not_in in Hc. }
  rewrite Forall_forall in Hall. by apply (Hall _ Hin).
Qed.

(** With [strip_query_string] set, no output of [redact_url] contains a
    question mark, whatever the URL, the redaction mode and the other settings
    are: no query string ever leaves the redactor. *)
Theorem redact_url_no_query r url :
  po_strip_query_string (rr_policy r) = true →
  "?"%char ∉ (redact_url r url).1.
Proof. apply redact_url_strips_query. Qed.

Lemma redact_url_strips_fragment r url :
  po_strip_fragment (rr_policy r) = true →
  "#"%char ∉ (redact_url r url).1.
Proof.
  intros Hf Hin.
  assert (Forall (λ c, c ≠ "#"%char) (redact_url r url).1) as Hall.
  { apply redact_url_Forall; [..|rewrite Hf; cbv zeta].
    - intros c Hc ->. by vm_compute in Hc; set_solver.
    - done.
    - by intros c Hc ->.
    - apply Forall_forall. intros c Hc ->.
      eapply strip_at_keeps_out; [|exact Hc]. apply strip_at_not_in. }
  rewrite Forall_forall in Hall. by apply (Hall _ Hin).
Qed.

(** With [strip_fragment] set, no output of [redact_url] contains a hash
    sign: no fragment ever leaves the redactor. *)
Theorem redact_url_no_fragment r url :
  po_strip_fragment (rr_policy r) = true →
  "#"%char ∉ (redact_url r url).1.
Proof. apply redact_url_strips_fragment. Qed.

(** ** Domain exclusion *)

(** What the policy promises: the host is the domain or one of its
    subdomains. *)
Definition under_domain (host domain : cstring) : Prop :=
  host = domain ∨ ∃ sub, host = sub ++ "."%char :: domain.

Lemma host_under_domain_spec host domain :
  host_under_domain host domain = true ↔ under_domain host domain.
Proof.
  unfold host_under_domain, under_domain.
  destruct (str_eqb_spec host domain) as [->|Hne]; [naive_solver|].
  destruct (Nat.leb_spec (length host) (length domain)) as [Hle|Hlt].
  { split; [done|]. intros [?|[sub ->]]; [done|].
    rewrite length_app in Hle. simpl in Hle. lia. }
  destruct (str_eqb_spec (drop (length host - length domain) host) domain)
    as [Heq|Hneq]; simpl.
  - rewrite bool_decide_eq_true. split.
    + intros Hdot. right. exists (take (length host - length domain - 1) host).
      rewrite <-(take_drop (length host - length domain - 1) host) at 1.
      f_equal. rewrite (drop_S _ _ _ Hdot).
      by replace (S _) with (length host - length domain)%nat by lia; f_equal.
    + intros [?|[sub ->]]; [done|]. rewrite length_app. simpl.
      replace (_ + S _ - _ - 1)%nat with (length sub) by lia.
      by rewrite list_lookup_middle.
  - split; [done|]. intros [?|[sub ->]]; [done|]. destruct Hneq.
    rewrite length_app. simpl.
    replace (_ + S _ - _)%nat with (S (length sub)) by lia.
    rewrite drop_app_ge by lia.
    by replace (S (length sub) - length sub)%nat with 1%nat by lia.
Qed.

Lemma domain_excluded_spec p host :
  domain_excluded p host = true ↔
  ∃ d, d ∈ po_sensitive_domains p ∧ under_domain (to_lower host) (to_lower d).
Proof.
  unfold domain_excluded. rewrite existsb_exists.
  setoid_rewrite host_under_domain_spec.
  by setoid_rewrite <-list_elem_of_In.
Qed.

(** A DNS name that equals a sensitive domain or is a subdomain of one, in
    any letter case, is redacted to the empty name and audited as
    domain-excluded, in every redaction mode. *)
Theorem redact_dns_name_excludes r name d :
  d ∈ po_sensitive_domains (rr_policy r) →
  under_domain (to_lower name) (to_lower d) →
  (redact_dns_name r name).1 = [] ∧
  (name ≠ [] →
   rr_last_redactions (redact_dns_name r name).2
     = set_domain_excluded no_redactions).
Proof.
  intros Hd Hu. unfold redact_dns_name.
  assert (domain_excluded (rr_policy r) name = true) as ->
    by (apply domain_excluded_spec; eauto).
  by destruct name.
Qed.

(** The authority of a well-formed URL, and what follows it. *)
Definition no_host_stop (s : cstring) : Prop :=
  Forall (λ c, host_stop c = false) s.
Definition starts_with (c : ascii) (s : cstring) : Prop :=
  s = [] ∨ ∃ t, s = c :: t.

Lemma find_sub_scheme sch rest :
  ":"%char ∉ sch →
  find_sub "://" (sch ++ lit "://" ++ rest) = Some (length sch).
Proof.
  induction sch as [|c sch IH]; intros Hc; [done|].
  rewrite not_elem_of_cons in Hc. destruct Hc as [Hne Hc].
  change (find_sub "://" (c :: (sch ++ lit "://" ++ rest)) =
    Some (S (length sch))).
  cbn [find_sub]. rewrite IH by done.
  change (lit "://") with (":"%char :: lit "//"). simpl is_prefix at 1.
  by rewrite (bool_decide_false (":"%char = c)).
Qed.

Lemma url_host_start_scheme sch rest :
  ":"%char ∉ sch →
  url_host_start (sch ++ lit "://" ++ rest) = (length sch + 3)%nat.
Proof.
  intros Hc. unfold url_host_start, url_scheme. by rewrite find_sub_scheme.
Qed.

Lemma drop_scheme sch rest :
  drop (length sch + 3) (sch ++ lit "://" ++ rest) = rest.
Proof. by rewrite <-drop_drop, drop_app_length. Qed.

Lemma take_scheme sch rest :
  take (length sch + 3) (sch ++ lit "://" ++ rest) = sch ++ lit "://".
Proof. by rewrite take_app_add'. Qed.

Lemma find_pred_app_stop {A} (p : A → bool) a b :
  Forall (λ c, p c = false) a →
  (b = [] ∨ ∃ c t, b = c :: t ∧ p c = true) →
  find_pred p (a ++ b) = if is_empty b then None else Some (length a).
Proof.
  intros Ha [->|(c & t & -> & Hc)]; simpl.
  - rewrite app_nil_r. by apply find_pred_None.
  - apply find_pred_Some. eauto 10.
Qed.

Lemma url_host_part_scheme sch host tail :
  ":"%char ∉ sch → no_host_stop host →
  (tail = [] ∨ ∃ c t, tail = c :: t ∧ host_stop c = true) →
  url_host_part (sch ++ lit "://" ++ host ++ tail) = host.
Proof.
  intros Hs Hh Ht. unfold url_host_part, find_from, substr.
  rewrite url_host_start_scheme, !drop_scheme by done.
  rewrite (find_pred_app_stop host_stop) by done.
  destruct tail as [|c t]; simpl; [by rewrite app_nil_r|].
  replace (_ + 3 + _ - _)%nat with (length host) by lia.
  by rewrite take_app_length.
Qed.

Lemma redact_url_excluded r url d :
  d ∈ po_sensitive_domains (rr_policy r) →
  url_host_part url ≠ [] →
  under_domain (to_lower (url_host_part url)) (to_lower d) →
  redact_url r url =
    ([], mkRedactor (rr_policy r) (set_domain_excluded no_redactions)).
Proof.
  intros Hd Hne Hu. unfold redact_url.
  assert (domain_excluded (rr_policy r) (url_host_part url) = true) as ->
    by (apply domain_excluded_spec; eauto).
  by destruct (url_host_part url).
Qed.

(** A URL [scheme://host...] whose host is a sensitive domain or a
    subdomain of one is redacted to the empty string and audited as
    domain-excluded, in every redaction mode and whatever follows the host. *)
Theorem redact_url_excludes r sch host tail d :
  ":"%char ∉ sch → host ≠ [] → no_host_stop host →
  (tail = [] ∨ ∃ c t, tail = c :: t ∧ host_stop c = true) →
  d ∈ po_sensitive_domains (rr_policy r) →
  under_domain (to_lower host) (to_lower d) →
  redact_url r (sch ++ lit "://" ++ host ++ tail) =
    ([], mkRedactor (rr_policy r) (set_domain_excluded no_redactions)).
Proof.
  intros Hs Hne Hh Ht Hd Hu.
  eapply redact_url_excluded; rewrite ?url_host_part_scheme; eauto.
Qed.

(** ** Functional behaviour on well-formed URLs *)
Lemma strip_at_cut c mark base tail k :
  c ∉ base → starts_with c tail →
  (strip_at true c mark (base ++ tail, k)).1 = base.
Proof.
  intros Hb Ht. unfold strip_at.
  rewrite (find_pred_app_stop (is_char c)).
  - destruct tail; simpl; [by rewrite app_nil_r|by rewrite take_app_length].
  - apply Forall_forall. intros x Hx. apply is_char_false. by intros ->.
  - destruct Ht as [->|[t ->]]; [by left|right].
    exists c, t. by rewrite is_char_true.
Qed.

(** The parts of [scheme://host/path?query#fragment]. *)
Record url_parts := mkUrlParts {
  up_scheme : cstring; up_host : cstring; up_path : cstring;
  up_query : cstring; up_fragment : cstring;
}.

Record wf_url (u : url_parts) : Prop := mkWfUrl {
  wf_scheme : Forall (λ c, host_stop c = false ∧ c ≠ ":"%char) (up_scheme u);
  wf_host : no_host_stop (up_host u);
  wf_path : starts_with "/" (up_path u);
  wf_path_chars : Forall (λ c, c ≠ "?"%char ∧ c ≠ "#"%char) (up_path u);
  wf_query : starts_with "?" (up_query u);
  wf_query_chars : "#"%char ∉ up_query u;
  wf_fragment : starts_with "#" (up_fragment u);
}.

Definition print_url (u : url_parts) : cstring :=
  up_scheme u ++ lit "://" ++ up_host u ++ up_path u ++ up_query u ++ up_fragment u.

(** The reference result of a redaction that strips query and fragment. *)
Definition redacted_url (mode : RedactionMode) (u : url_parts) : cstring :=
  match mode with
  | HostnameOnly => up_scheme u ++ lit "://" ++ up_host u
  | QueryStringRemoval | FullHostname =>
      up_scheme u ++ lit "://" ++ up_host u ++ up_path u
  | DomainHash | DomainMask =>
      up_scheme u ++ lit "://" ++ transform_hostname mode (up_host u) ++ up_path u
  end.

Lemma wf_url_head_not_in u c :
  wf_url u → c = "?"%char ∨ c = "#"%char →
  c ∉ up_scheme u ++ lit "://" ++ up_host u ++ up_path u.
Proof.
  intros Hwf Hc. rewrite !not_elem_of_app.
  pose proof (wf_scheme _ Hwf) as Hs. pose proof (wf_host _ Hwf) as Hh.
  pose proof (wf_path_chars _ Hwf) as Hp. unfold no_host_stop in Hh.
  rewrite Forall_forall in Hs, Hh, Hp. split_and!.
  - intros Hin. destruct (Hs _ Hin) as [Hx _]. by destruct Hc; subst.
  - destruct Hc; subst; vm_compute; set_solver.
  - intros Hin. specialize (Hh _ Hin). by destruct Hc; subst.
  - intros Hin. destruct (Hp _ Hin). naive_solver.
Qed.

Lemma wf_url_stripped u k :
  wf_url u →
  ∃ k', strip_at true "?" set_query_string
          (strip_at true "#" set_fragment (print_url u, k))
        = (up_scheme u ++ lit "://" ++ up_host u ++ up_path u, k').
Proof.
  intros Hwf.
  set (base := up_scheme u ++ lit "://" ++ up_host u ++ up_path u).
  assert (print_url u = (base ++ up_query u) ++ up_fragment u) as ->.
  { unfold print_url, base. by rewrite <-!(assoc_L (++)). }
  destruct (strip_at true "#" _ _) as [s1 k1] eqn:E1.
  pose proof (strip_at_cut "#" set_fragment (base ++ up_query u)
    (up_fragment u) k) as H1. rewrite E1 in H1. simpl in H1.
  rewrite H1.
  - destruct (strip_at true "?" _ _) as [s2 k2] eqn:E2.
    pose proof (strip_at_cut "?" set_query_string base (up_query u) k1) as H2.
    rewrite E2 in H2. simpl in H2. rewrite H2; eauto.
    + apply wf_url_head_not_in; auto.
    + apply Hwf.
  - rewrite not_elem_of_app. split; [|apply Hwf].
    apply wf_url_head_not_in; auto.
  - apply Hwf.
Qed.

Lemma wf_url_no_colon u : wf_url u → ":"%char ∉ up_scheme u.
Proof.
  intros Hwf Hin. pose proof (wf_scheme _ Hwf) as Hs.
  rewrite Forall_forall in Hs. by destruct (Hs _ Hin).
Qed.

Lemma starts_with_stop c s :
  host_stop c = true → starts_with c s →
  s = [] ∨ ∃ c t, s = c :: t ∧ host_stop c = true.
Proof. intros Hc [->|[t ->]]; eauto. Qed.

Lemma wf_url_tail u :
  wf_url u →
  let tail := up_path u ++ up_query u ++ up_fragment u in
  tail = [] ∨ ∃ c t, tail = c :: t ∧ host_stop c = true.
Proof.
  intros Hwf. simpl.
  destruct (starts_with_stop "/" _ eq_refl (wf_path _ Hwf)) as [->|(?&?&->&?)];
    [|eauto].
  destruct (starts_with_stop "?" _ eq_refl (wf_query _ Hwf)) as [->|(?&?&->&?)];
    [|eauto].
  by apply (starts_with_stop "#" _ eq_refl (wf_fragment _ Hwf)).
Qed.

(** The URL is excluded: its authority, compared as it is written, is under a
    sensitive domain. *)
Definition url_excluded (p : Policy) (u : url_parts) : bool :=
  negb (is_empty (up_host u)) && domain_excluded p (up_host u).

Lemma url_host_part_print u : wf_url u → url_host_part (print_url u) = up_host u.
Proof.
  intros Hwf. apply url_host_part_scheme; [by apply wf_url_no_colon|apply Hwf|by apply wf_url_tail].
Qed.

Lemma redact_url_reference r u :
  wf_url u →
  po_strip_query_string (rr_policy r) = true →
  po_strip_fragment (rr_policy r) = true →
  url_excluded (rr_policy r) u = false →
  (redact_url r (print_url u)).1 =
    redacted_url (po_redaction_mode (rr_policy r)) u.
Proof.
  intros Hwf Hq Hf Hex. pose proof (wf_url_no_colon _ Hwf) as Hc.
  pose proof (url_host_part_print u Hwf) as Hhost. unfold url_excluded in Hex.
  assert (url_host_start (print_url u) = (length (up_scheme u) + 3)%nat) as Hst.
  { by apply url_host_start_scheme. }
  assert (url_scheme (print_url u) = Some (length (up_scheme u))) as Hsch.
  { by apply find_sub_scheme. }
  unfold redact_url. rewrite Hhost, Hst, Hsch, Hex, Hq, Hf.
  destruct (wf_url_stripped u no_redactions Hwf) as [k' ->].
  assert (∀ p : ascii → bool, p "/"%char = true →
    Forall (λ c, p c = false) (up_host u) →
    find_from p (length (up_scheme u) + 3)
      (up_scheme u ++ lit "://" ++ up_host u ++ up_path u) =
    if is_empty (up_path u) then None
    else Some (length (up_scheme u) + 3 + length (up_host u))%nat) as Hfind.
  { intros p Hp Hall. unfold find_from. rewrite drop_scheme.
    rewrite (find_pred_app_stop p); [by destruct (up_path u)|done|].
    destruct (wf_path _ Hwf) as [->|[t ->]]; eauto. }
  assert (Forall (λ c, is_char "/" c = false) (up_host u)) as Hslash.
  { eapply Forall_impl; [apply Hwf|]. intros c Hs.
    unfold host_stop in Hs. by destruct (is_char "/" c). }
  pose proof (Hfind (is_char "/") eq_refl Hslash) as Hf1.
  pose proof (Hfind host_stop eq_refl (wf_host _ Hwf)) as Hf2.
  destruct (po_redaction_mode (rr_policy r)); cbn [fst]; try done.
  all: rewrite ?Hf1, ?Hf2; unfold redacted_url, substr.
  2, 3: rewrite drop_0, take_scheme, <-!(assoc_L (++)); do 3 f_equal.
  all: destruct (up_path u) as [|c t]; cbn [is_empty];
    rewrite ?app_nil_r; try done.
  - rewrite !(assoc_L (++)).
    replace (length (up_scheme u) + 3 + length (up_host u))%nat with
      (length ((up_scheme u ++ lit "://") ++ up_host u)).
    + by rewrite take_app_length.
    + rewrite !length_app. simpl. lia.
  - rewrite <-drop_drop, drop_scheme. by rewrite drop_app_length.
  - rewrite <-drop_drop, drop_scheme. by rewrite drop_app_length.
Qed.

(** C3: On a well-formed URL, with query and fragment stripping on (as they
    always are), [redact_url] yields exactly the reference redaction: nothing
    when the authority as it is written is under a sensitive domain, and
    otherwise what the mode says: scheme and authority for [HostnameOnly],
    scheme, authority and path for the plain modes, and the hashed (FNV-1a,
    without a salt) or masked authority with the path for the others; letter case
    is kept. *)
Theorem redact_url_correct r u :
  wf_url u →
  po_strip_query_string (rr_policy r) = true →
  po_strip_fragment (rr_policy r) = true →
  (redact_url r (print_url u)).1 =
    if url_excluded (rr_policy r) u then []
    else redacted_url (po_redaction_mode (rr_policy r)) u.
Proof.
  intros Hwf Hq Hf. destruct (url_excluded (rr_policy r) u) eqn:Hex.
  - unfold redact_url. rewrite (url_host_part_print u Hwf). unfold url_excluded in Hex.
    by rewrite Hex.
  - by apply redact_url_reference.
Qed.

(** ** An explicit port defeats the exclusion *)
Lemma lower_ascii_colon c : lower_ascii c = ":"%char → c = ":"%char.
Proof. by all_bytes c. Qed.

Lemma lower_ascii_digit c : isdigit c = true → lower_ascii c ≠ "."%char.
Proof. by all_bytes c. Qed.

Lemma domain_excluded_port p host port :
  Forall (λ d, ":"%char ∉ d) (po_sensitive_domains p) →
  Forall (λ c, isdigit c = true) port →
  domain_excluded p (host ++ ":"%char :: port) = false.
Proof.
  intros Hdom Hport. apply not_true_iff_false.
  rewrite domain_excluded_spec. intros (d & Hd & Hu).
  rewrite Forall_forall in Hdom. rewrite Forall_forall in Hport.
  specialize (Hdom _ Hd).
  assert (":"%char ∉ to_lower d) as Hdl.
  { unfold to_lower. rewrite list_elem_of_fmap.
    intros (x & Hx & Hin). symmetry in Hx.
    apply lower_ascii_colon in Hx as ->. done. }
  assert ("."%char ∉ to_lower port) as Hpl.
  { unfold to_lower. rewrite list_elem_of_fmap.
    intros (x & Hx & Hin). by apply (lower_ascii_digit x); auto. }
  unfold to_lower in Hu. rewrite fmap_app, fmap_cons in Hu.
  change (lower_ascii ":") with ":"%char in Hu.
  destruct Hu as [Heq|[sub Heq]].
  - apply Hdl. unfold to_lower. rewrite <-Heq. set_solver.
  - apply app_eq_inv in Heq as [(k & _ & Hk)|(k & _ & Hk)].
    + destruct k as [|x k]; [done|]. injection Hk as _ Hk.
      apply Hdl. unfold to_lower. rewrite Hk. set_solver.
    + destruct k as [|x k]; [done|]. injection Hk as _ Hk.
      apply Hpl. unfold to_lower. rewrite Hk. set_solver.
Qed.

(** The exclusion check compares the whole authority: when the host of a
    URL is followed by an explicit [:port], no sensitive-domain entry matches
    it, and the URL is passed on with its sensitive host (shown here in full
    for every mode); only bare hosts are excluded. *)
Theorem redact_url_port_defeats_exclusion r u host port :
  wf_url u → up_host u = host ++ ":"%char :: port →
  Forall (λ c, isdigit c = true) port →
  Forall (λ d, ":"%char ∉ d) (po_sensitive_domains (rr_policy r)) →
  po_strip_query_string (rr_policy r) = true →
  po_strip_fragment (rr_policy r) = true →
  (redact_url r (print_url u)).1 =
    redacted_url (po_redaction_mode (rr_policy r)) u.
Proof.
  intros Hwf Hhost Hport Hdom Hq Hf. apply redact_url_reference; auto.
  unfold url_excluded. rewrite Hhost, domain_excluded_port by done. apply andb_false_r.
Qed.

(** ** The mask *)
Lemma find_last_lt {A} (p : A → bool) l i :
  find_last p l = Some i → (i < length l)%nat.
Proof.
  intros (x & Hx & _)%find_last_Some. by apply lookup_lt_Some in Hx.
Qed.

Lemma mask_end_lt host e : mask_end host = Some e → (e < length host)%nat.
Proof.
  unfold mask_end. destruct (find_last _ host) as [[|ld]|] eqn:E; simplify_eq/=.
  - apply find_last_lt in E. intros; simplify_eq. done.
  - pose proof (find_last_lt _ _ _ E).
    destruct (find_last _ (take (S ld) host)) as [sd|] eqn:E2; intros [= <-].
    + apply find_last_lt in E2. rewrite length_take in E2. lia.
    + done.
  - done.
Qed.

(** Masking keeps the length of the host, its first byte and everything
    from the second-level label boundary on, and overwrites every byte in
    between with a star. *)
Theorem transform_hostname_mask host e :
  mask_end host = Some e → (1 < e)%nat →
  let masked := transform_hostname DomainMask host in
  length masked = length host ∧
  take 1 masked = take 1 host ∧
  drop e masked = drop e host ∧
  ∀ i, (1 ≤ i < e)%nat → masked !! i = Some "*"%char.
Proof.
  intros He H1. pose proof (mask_end_lt _ _ He) as Hlt.
  unfold transform_hostname. rewrite He.
  rewrite (proj2 (Nat.ltb_lt _ _)) by done. cbv zeta.
  assert (length (take 1 host) = 1%nat) as Hl by (rewrite length_take; lia).
  split_and!.
  - rewrite !length_app, length_replicate, length_take, length_drop. lia.
  - by rewrite take_app_le, take_take by lia.
  - rewrite (assoc_L (++)), drop_app_ge.
    + rewrite length_app, length_replicate, Hl.
      by replace (e - (1 + (e - 1)))%nat with 0%nat by lia.
    + rewrite length_app, length_replicate. lia.
  - intros i Hi. rewrite lookup_app_r by lia.
    rewrite lookup_app_l by (rewrite length_replicate; lia).
    apply lookup_replicate_2. lia.
Qed.

(** ** Instances *)
Definition sample_url (host : cstring) : url_parts :=
  mkUrlParts "https" host "/p" "?q=1" "#f".

Definition sensitive_policy : Policy :=
  {| po_redaction_mode := QueryStringRemoval;
     po_strip_query_string := true; po_strip_fragment := true;
     po_sensitive_domains := [lit "bank.com"]; po_persistence_enabled := false;
     po_retention := 60; po_capture_interfaces := []; po_pcap_filter := [] |}.

Lemma sample_url_wf host : no_host_stop host → wf_url (sample_url host).
Proof.
  intros H. split; [|done|..]; cbn [up_scheme up_path up_query up_fragment sample_url].
  - repeat constructor; discriminate.
  - right. by exists (lit "p").
  - repeat constructor; discriminate.
  - right. by exists (lit "q=1").
  - apply not_mem_ascii. reflexivity.
  - right. by exists (lit "f").
Qed.

Lemma redact_url_correct_witness :
  (redact_url (new_Redactor sensitive_policy) "https://ok.com/p?q=1#f").1 = lit "https://ok.com/p".
Proof.
  apply (redact_url_correct (new_Redactor sensitive_policy) (sample_url "ok.com")).
  - apply sample_url_wf. repeat constructor.
  - reflexivity.
  - reflexivity.
Defined.

Lemma redact_url_port_defeats_exclusion_witness :
  (redact_url (new_Redactor sensitive_policy) "https://bank.com/p").1 = [] ∧
  (redact_url (new_Redactor sensitive_policy) "https://bank.com:443/p?q=1#f").1
    = lit "https://bank.com:443/p".
Proof.
  split; [reflexivity|].
  apply (redact_url_port_defeats_exclusion (new_Redactor sensitive_policy)
    (sample_url "bank.com:443") "bank.com" "443").
  - apply sample_url_wf. repeat constructor.
  - reflexivity.
  - repeat constructor.
  - constructor; [|constructor]. apply not_mem_ascii. reflexivity.
  - reflexivity.
  - reflexivity.
Defined.
