(* ===== verification/PolicyEngine.v ===== *)
(** * The policy engine ([src/policy/policy_engine.cpp])

    The engine's state is its [Policy].  [apply] redacts one event,
    [update_from_json] is the [set_policy] operation and [to_json] the
    [get_policy] answer. *)
From S2P Require Import Prelude Double Json Types Redactor.
Open Scope Z_scope.

(** ** Definitions *)

(** The constructor sets the defaults once more over the default policy. *)
Definition new_PolicyEngine : Policy :=
  {| po_redaction_mode := QueryStringRemoval;
     po_strip_query_string := true; po_strip_fragment := true;
     po_sensitive_domains := po_sensitive_domains default_Policy;
     po_persistence_enabled := false;
     po_retention := po_retention default_Policy;
     po_capture_interfaces := po_capture_interfaces default_Policy;
     po_pcap_filter := po_pcap_filter default_Policy |}.

Definition set_dns_name (n : NetworkInfo) (name : cstring) : NetworkInfo :=
  {| net_transport := net_transport n; net_direction := net_direction n;
     net_local_address := net_local_address n;
     net_local_port := net_local_port n;
     net_remote_address := net_remote_address n;
     net_remote_port := net_remote_port n;
     net_dns_query_name := name;
     net_dns_response_code := net_dns_response_code n;
     net_interface := net_interface n; net_backend := net_backend n |}.

Definition set_url (b : BrowserInfo) (url : cstring) : BrowserInfo :=
  {| br_tab_id := br_tab_id b; br_window_id := br_window_id b; br_url := url;
     br_title := br_title b; br_navigation_id := br_navigation_id b;
     br_frame_id := br_frame_id b |}.

(** An event with its redactable parts replaced. *)
Definition with_redacted (e : Event) (net : option NetworkInfo)
    (br : option BrowserInfo) (pv : PrivacyInfo) : Event :=
  {| ev_schema_version := ev_schema_version e; ev_event_id := ev_event_id e;
     ev_type := ev_type e; ev_source := ev_source e;
     ev_timestamp := ev_timestamp e; ev_confidence := ev_confidence e;
     ev_correlation_id := ev_correlation_id e; ev_process := ev_process e;
     ev_network := net; ev_browser := br; ev_privacy := pv;
     ev_backend_statuses := ev_backend_statuses e;
     ev_error_code := ev_error_code e; ev_error_message := ev_error_message e |}.

(** First block of [apply]: the DNS name.  Returns the network info, the
    redactor and whether something was redacted. *)
Definition apply_network (r : Redactor) (net : option NetworkInfo) :
    option NetworkInfo * Redactor * bool :=
  match net with
  | Some n =>
      if negb (is_empty (net_dns_query_name n)) then
        let '(name, r) := redact_dns_name r (net_dns_query_name n) in
        if is_empty name then (Some (set_dns_name n []), r, true)
        else if name <>s net_dns_query_name n
        then (Some (set_dns_name n name), r, true)
        else (Some n, r, false)
      else (Some n, r, false)
  | None => (None, r, false)
  end.

(** Second block: the URL; an excluded one drops the browser association. *)
Definition apply_browser (r : Redactor) (br : option BrowserInfo) :
    option BrowserInfo * Redactor * bool :=
  match br with
  | Some b =>
      if negb (is_empty (br_url b)) then
        let '(url, r) := redact_url r (br_url b) in
        if is_empty url then (None, r, true)
        else if url <>s br_url b then (Some (set_url b url), r, true)
        else (Some b, r, false)
      else (Some b, r, false)
  | None => (None, r, false)
  end.

Definition or_redactions (a b : Redactions) : Redactions :=
  {| rd_query_string := rd_query_string a || rd_query_string b;
     rd_fragment := rd_fragment a || rd_fragment b;
     rd_hostname_hash := rd_hostname_hash a || rd_hostname_hash b;
     rd_hostname_mask := rd_hostname_mask a || rd_hostname_mask b;
     rd_domain_excluded := rd_domain_excluded a || rd_domain_excluded b |}.

Definition apply (p : Policy) (event : Event) : PolicyDecision * Event :=
  if negb (pv_metadata_only (ev_privacy event)) then (Drop, event)
  else
    let '(net, r1, red1) := apply_network (new_Redactor p) (ev_network event) in
    let '(br, r2, red2) := apply_browser r1 (ev_browser event) in
    let redacted := red1 || red2 in
    let pv := ev_privacy event in
    let pv' := mkPrivacyInfo redacted (pv_metadata_only pv)
                 (or_redactions (pv_redactions pv) (rr_last_redactions r2)) in
    (if redacted then Redact else Allow, with_redacted event net br pv').

Definition set_mode (m : RedactionMode) (p : Policy) : Policy :=
  mkPolicy m (po_strip_query_string p) (po_strip_fragment p)
    (po_sensitive_domains p) (po_persistence_enabled p) (po_retention p)
    (po_capture_interfaces p) (po_pcap_filter p).
Definition set_domains (ds : list cstring) (p : Policy) : Policy :=
  mkPolicy (po_redaction_mode p) (po_strip_query_string p)
    (po_strip_fragment p) ds (po_persistence_enabled p) (po_retention p)
    (po_capture_interfaces p) (po_pcap_filter p).
Definition set_persistence (b : bool) (p : Policy) : Policy :=
  mkPolicy (po_redaction_mode p) (po_strip_query_string p)
    (po_strip_fragment p) (po_sensitive_domains p) b (po_retention p)
    (po_capture_interfaces p) (po_pcap_filter p).
Definition set_retention (z : Z) (p : Policy) : Policy :=
  mkPolicy (po_redaction_mode p) (po_strip_query_string p)
    (po_strip_fragment p) (po_sensitive_domains p) (po_persistence_enabled p) z
    (po_capture_interfaces p) (po_pcap_filter p).

(** [metadata_only] may be repeated but not disabled. *)
Definition check_metadata_only (flag : json) (p : Policy) :
    result cstring Policy :=
  match flag with
  | JBool true => Ok p
  | _ => Err (lit "metadata-only mode cannot be disabled")
  end.

Definition update_mode (mode : json) (p : Policy) : result cstring Policy :=
  match mode with
  | JString s =>
      match redaction_mode_from_name s with
      | Some m => Ok (set_mode m p)
      | None => Err (lit "unknown redaction mode")
      end
  | _ => Err (lit "redaction.mode must be a string")
  end.

Definition update_domains (domains : json) (p : Policy) : result cstring Policy :=
  match domains with
  | JArray l =>
      if 256 <? zlen l
      then Err (lit "sensitive_domains must be an array of at most 256 entries")
      else
        ds ← read_strings (λ d, zlen d <=? 253)
               (lit "invalid sensitive domain entry") l;
        Ok (set_domains ds p)
  | _ => Err (lit "sensitive_domains must be an array of at most 256 entries")
  end.

Definition update_redaction (red : json) (p : Policy) : result cstring Policy :=
  if negb (is_object red) then Err (lit "redaction must be an object")
  else
    p ← if_member "mode" red update_mode p;
    if_member "sensitive_domains" red update_domains p.

Definition update_enabled (flag : json) (p : Policy) : result cstring Policy :=
  match flag with
  | JBool b => Ok (set_persistence b p)
  | _ => Err (lit "persistence.enabled must be a boolean")
  end.

Definition update_retention (seconds : json) (p : Policy) :
    result cstring Policy :=
  if negb (is_number_integer seconds)
  then Err (lit "retention_seconds must be an integer")
  else
    let value := get_int64 seconds in
    if (value <? 60) || (31536000 <? value)
    then Err (lit "retention_seconds out of range")
    else Ok (set_retention value p).

Definition update_persistence (persist : json) (p : Policy) :
    result cstring Policy :=
  if negb (is_object persist) then Err (lit "persistence must be an object")
  else
    p ← if_member "enabled" persist update_enabled p;
    if_member "retention_seconds" persist update_retention p.

Definition update_from_json (p : Policy) (doc : json) : result cstring Policy :=
  if negb (is_object doc) then Err (lit "policy document must be an object")
  else
    next ← if_member "metadata_only" doc check_metadata_only p;
    next ← if_member "redaction" doc update_redaction next;
    if_member "persistence" doc update_persistence next.

Definition to_json (p : Policy) : json :=
  let redaction := jobject
    [(lit "mode", JString (redaction_mode_name (po_redaction_mode p)));
     (lit "sensitive_domains", JArray (JString <$> po_sensitive_domains p))] in
  let persistence := jobject
    [(lit "enabled", JBool (po_persistence_enabled p));
     (lit "retention_seconds", JInt (po_retention p))] in
  jobject
    [(lit "metadata_only", JBool true); (lit "redaction", redaction);
     (lit "persistence", persistence)].

(** ** Lemmas: one redaction step *)
Lemma redact_url_policy r url : rr_policy (redact_url r url).2 = rr_policy r.
Proof.
  unfold redact_url. destruct (_ && domain_excluded _ _); [done|].
  destruct (strip_at _ "?" _ _) as [res k].
  by destruct (po_redaction_mode _), (url_scheme url).
Qed.

Lemma redact_dns_name_policy r name :
  rr_policy (redact_dns_name r name).2 = rr_policy r.
Proof.
  unfold redact_dns_name. destruct (is_empty name); [done|].
  destruct (domain_excluded _ _); [done|].
  by destruct (po_redaction_mode _).
Qed.

Lemma apply_network_policy r net : rr_policy (apply_network r net).1.2 = rr_policy r.
Proof.
  unfold apply_network. destruct net as [n|]; [|done].
  pose proof (redact_dns_name_policy r (net_dns_query_name n)) as H.
  destruct (redact_dns_name r _) as [name r']. simpl in H.
  by repeat case_match; simplify_eq/=.
Qed.

Lemma set_dns_name_id n : set_dns_name n (net_dns_query_name n) = n.
Proof. by destruct n. Qed.
Lemma set_url_id b : set_url b (br_url b) = b.
Proof. by destruct b. Qed.

(** The step writes back exactly what the redactor returned and reports a
    change exactly when there is one. *)
Lemma apply_network_spec r net net' r' red :
  apply_network r net = (net', r', red) →
  net' = (λ n, set_dns_name n (redact_dns_name r (net_dns_query_name n)).1) <$> net ∧
  (if red then net' ≠ net else net' = net).
Proof.
  unfold apply_network. destruct net as [n|]; [|naive_solver].
  destruct (is_empty (net_dns_query_name n)) eqn:Hemp; simpl.
  - apply is_empty_true in Hemp. intros [= <- <- <-]. unfold redact_dns_name.
    rewrite Hemp. simpl. split; [|done]. f_equal. rewrite <-Hemp.
    symmetry. apply set_dns_name_id.
  - destruct (redact_dns_name r _) as [name r1] eqn:Hr. simpl.
    destruct (is_empty name) eqn:He.
    + apply is_empty_true in He as ->. intros [= <- <- <-]. split; [done|].
      intros [= Heq]. apply (f_equal net_dns_query_name) in Heq.
      simpl in Heq. by rewrite <-Heq in Hemp.
    + destruct (str_eqb_spec name (net_dns_query_name n)) as [->|Hne]; simpl;
        intros [= <- <- <-].
      * rewrite set_dns_name_id. naive_solver.
      * split; [done|]. intros [= Heq].
        by apply (f_equal net_dns_query_name) in Heq.
Qed.

Lemma apply_browser_spec r br br' r' red :
  apply_browser r br = (br', r', red) →
  br' = (b ← br;
         let url := (redact_url r (br_url b)).1 in
         if is_empty url && negb (is_empty (br_url b)) then None
         else if is_empty (br_url b) then Some b else Some (set_url b url)) ∧
  (if red then br' ≠ br else br' = br).
Proof.
  unfold apply_browser. destruct br as [b|]; [|naive_solver]. simpl.
  destruct (is_empty (br_url b)) eqn:Hemp; simpl.
  - rewrite andb_false_r. naive_solver.
  - rewrite andb_true_r. destruct (redact_url r _) as [url r1]. simpl.
    destruct (is_empty url) eqn:He; [naive_solver|].
    destruct (str_eqb_spec url (br_url b)) as [->|Hne]; simpl; intros [= <- <- <-].
    + rewrite set_url_id. naive_solver.
    + split; [done|]. intros [= Heq].
      by apply (f_equal br_url) in Heq.
Qed.

Lemma apply_inv p e dec e' :
  apply p e = (dec, e') → dec ≠ Drop →
  pv_metadata_only (ev_privacy e) = true ∧
  ∃ r1 r2 red1 red2,
    apply_network (new_Redactor p) (ev_network e) = (ev_network e', r1, red1) ∧
    apply_browser r1 (ev_browser e) = (ev_browser e', r2, red2) ∧
    rr_policy r1 = p ∧
    dec = (if red1 || red2 then Redact else Allow) ∧
    pv_redacted (ev_privacy e') = red1 || red2 ∧
    pv_redactions (ev_privacy e') =
      or_redactions (pv_redactions (ev_privacy e)) (rr_last_redactions r2).
Proof.
  unfold apply. destruct (pv_metadata_only (ev_privacy e)); simpl; [|naive_solver].
  pose proof (apply_network_policy (new_Redactor p) (ev_network e)) as Hp.
  destruct (apply_network _ _) as [[net r1] red1] eqn:E1.
  destruct (apply_browser r1 _) as [[br r2] red2] eqn:E2.
  intros [= <- <-] _. split; [done|]. by exists r1, r2, red1, red2.
Qed.

Lemma apply_drop_iff p e e' :
  apply p e = (Drop, e') → pv_metadata_only (ev_privacy e) = false.
Proof.
  unfold apply. destruct (pv_metadata_only _); simpl; [|done].
  destruct (apply_network _ _) as [[? ?] r1], (apply_browser _ _) as [[? ?] r2].
  by destruct (r1 || r2).
Qed.

(** ** Theorems *)

(** The engine drops an event exactly when its metadata-only flag is
    cleared; otherwise it reports [Redact] exactly when the network or browser
    part it lets through differs from the one it was given, and records the
    same in the event's privacy annotation. *)
Theorem apply_decision_exact p e :
  let '(dec, e') := apply p e in
  (dec = Drop ↔ pv_metadata_only (ev_privacy e) = false) ∧
  (dec = Redact → pv_redacted (ev_privacy e') = true ∧
     (ev_network e' ≠ ev_network e ∨ ev_browser e' ≠ ev_browser e)) ∧
  (dec = Allow → pv_redacted (ev_privacy e') = false ∧
     ev_network e' = ev_network e ∧ ev_browser e' = ev_browser e).
Proof.
  destruct (apply p e) as [dec e'] eqn:E.
  destruct (decide (dec = Drop)) as [->|Hd].
  { by rewrite (apply_drop_iff _ _ _ E). }
  destruct (apply_inv _ _ _ _ E Hd)
    as (Hmo & r1 & r2 & red1 & red2 & H1 & H2 & _ & -> & Hpv & _).
  apply apply_network_spec in H1 as [_ H1].
  apply apply_browser_spec in H2 as [_ H2].
  split; [by rewrite Hmo; destruct (red1 || red2)|].
  destruct red1, red2; simpl in *; split; naive_solver.
Qed.

Lemma redacted_url_nonempty mode u : redacted_url mode u ≠ [].
Proof. destruct mode; cbn [redacted_url]; by destruct (up_scheme u). Qed.

Lemma print_url_nonempty u : is_empty (print_url u) = false.
Proof. unfold print_url. by destruct (up_scheme u). Qed.

(** C4: In an event that the engine lets through, a DNS name that is a sensitive
    domain or under one is emptied, in any letter case; and the browser
    association of an event with a well-formed URL is taken away exactly when
    the authority of the URL, as it is written, is a sensitive domain or under
    one (with the stripping flags on).  So [https://bank.com/] is hidden and
    [https://bank.com:443/] is not: see [redact_url_port_defeats_exclusion]. *)
Theorem apply_hides_sensitive p e :
  (apply p e).1 ≠ Drop →
  (∀ n n' d, ev_network e = Some n → ev_network (apply p e).2 = Some n' →
     d ∈ po_sensitive_domains p →
     under_domain (to_lower (net_dns_query_name n)) (to_lower d) →
     net_dns_query_name n' = []) ∧
  (∀ b u, ev_browser e = Some b → br_url b = print_url u → wf_url u → up_host u ≠ [] →
     po_strip_query_string p = true → po_strip_fragment p = true →
     (ev_browser (apply p e).2 = None ↔
      ∃ d, d ∈ po_sensitive_domains p ∧ under_domain (to_lower (up_host u)) (to_lower d))).
Proof.
  intros Hd. destruct (apply p e) as [dec e'] eqn:E. simpl in *.
  destruct (apply_inv _ _ _ _ E Hd)
    as (_ & r1 & r2 & red1 & red2 & H1 & H2 & Hp & _).
  apply apply_network_spec in H1 as [H1 _].
  apply apply_browser_spec in H2 as [H2 _]. split.
  - intros n n' d Hn Hn' Hin Hu. rewrite Hn, Hn' in H1. simplify_eq/=.
    unfold redact_dns_name. destruct (is_empty _); [done|].
    by rewrite (proj2 (domain_excluded_spec _ _)) by eauto.
  - intros b u Hb Hbu Hwf Hne Hq Hf. rewrite H2, Hb. simpl. rewrite Hbu, print_url_nonempty.
    rewrite andb_true_r. rewrite <-domain_excluded_spec. rewrite <-Hp in Hq, Hf.
    assert (Hex : url_excluded p u = domain_excluded p (up_host u)).
    { unfold url_excluded. by destruct (up_host u). }
    destruct (domain_excluded p (up_host u)) eqn:Hdom.
    + split; [done|]. intros _.
      apply domain_excluded_spec in Hdom as (d & Hin & Hu).
      rewrite (redact_url_excluded r1 (print_url u) d); rewrite ?url_host_part_print, ?Hp by done; done.
    + rewrite redact_url_reference by (done || by rewrite Hp).
      destruct (is_empty (redacted_url _ u)) eqn:He; [|done].
      by apply is_empty_true, redacted_url_nonempty in He.
Qed.

(** A URL that passes a stripping policy is clean. *)
Lemma apply_url_clean p e b :
  po_strip_query_string p = true → po_strip_fragment p = true →
  (apply p e).1 ≠ Drop → ev_browser (apply p e).2 = Some b →
  ("?"%char ∉ br_url b) ∧ ("#"%char ∉ br_url b).
Proof.
  intros Hq Hf Hd Hb. destruct (apply p e) as [dec e'] eqn:E. simpl in *.
  destruct (apply_inv _ _ _ _ E Hd)
    as (_ & r1 & r2 & red1 & red2 & _ & H2 & Hp & _).
  apply apply_browser_spec in H2 as [H2 _]. rewrite Hb in H2.
  destruct (ev_browser e) as [b0|]; simpl in H2; [|done].
  destruct (is_empty (br_url b0)) eqn:He; simpl in H2.
  - rewrite andb_false_r in H2. injection H2 as ->.
    apply is_empty_true in He as ->. split; apply not_elem_of_nil.
  - destruct (is_empty (redact_url r1 _).1); simpl in H2; [done|].
    injection H2 as ->. simpl. subst p.
    split; [by apply redact_url_strips_query|by apply redact_url_strips_fragment].
Qed.

(** When the policy strips query strings and fragments, no URL the engine
    lets through contains a question mark or a hash sign. *)
Theorem apply_strips_urls p e b :
  po_strip_query_string p = true → po_strip_fragment p = true →
  (apply p e).1 ≠ Drop → ev_browser (apply p e).2 = Some b →
  ("?"%char ∉ br_url b) ∧ ("#"%char ∉ br_url b).
Proof. apply apply_url_clean. Qed.

(** The audit of an event with both a DNS name and a URL records only the
    redactions of the URL: the redactor's audit is read once, after its last
    call, so the kinds applied to the DNS name (including an exclusion) never
    reach the privacy annotation. *)
Theorem apply_audit_omits_dns p e b :
  pv_metadata_only (ev_privacy e) = true →
  ev_browser e = Some b → br_url b ≠ [] →
  pv_redactions (ev_privacy (apply p e).2) =
    or_redactions (pv_redactions (ev_privacy e))
      (rr_last_redactions (redact_url (new_Redactor p) (br_url b)).2).
Proof.
  intros Hmo Hb Hne. destruct (apply p e) as [dec e'] eqn:E.
  assert (dec ≠ Drop) as Hd.
  { intros ->. apply apply_drop_iff in E. congruence. }
  destruct (apply_inv _ _ _ _ E Hd)
    as (_ & r1 & r2 & red1 & red2 & _ & H2 & <- & _ & _ & Hpv).
  simpl. rewrite Hpv. f_equal. rewrite Hb in H2. simpl in H2.
  destruct (is_empty (br_url b)) eqn:He; [by apply is_empty_true in He|].
  simpl in H2.
  assert (redact_url (new_Redactor (rr_policy r1)) (br_url b) =
    redact_url r1 (br_url b)) as -> by done.
  destruct (redact_url r1 (br_url b)) as [url r3].
  by destruct (is_empty url), (url =s br_url b); simplify_eq/=.
Qed.

(** ** Policy updates *)

(** What every accepted policy satisfies. *)
Record wf_policy (p : Policy) : Prop := mkWfPolicy {
  wf_domain_count : zlen (po_sensitive_domains p) ≤ 256;
  wf_domain_size : Forall (λ d, (zlen d <=? 253) = true) (po_sensitive_domains p);
  wf_retention : 60 ≤ po_retention p ≤ 31536000;
}.

(** The fields [set_policy] has no access to. *)
Definition same_fixed_fields (p q : Policy) : Prop :=
  po_strip_query_string q = po_strip_query_string p ∧
  po_strip_fragment q = po_strip_fragment p ∧
  po_capture_interfaces q = po_capture_interfaces p ∧
  po_pcap_filter q = po_pcap_filter p.

(** One update step keeps the invariant and the fixed fields. *)
Definition good_step (step : json → Policy → result cstring Policy) : Prop :=
  ∀ j p p', step j p = Ok p' →
    (wf_policy p → wf_policy p') ∧ same_fixed_fields p p'.

Lemma if_member_good k doc step p p' :
  good_step step → if_member k doc step p = Ok p' →
  (wf_policy p → wf_policy p') ∧ same_fixed_fields p p'.
Proof.
  unfold if_member. intros Hg. destruct (member k doc); [apply Hg|].
  intros [= ->]. by split; [|repeat split].
Qed.

Lemma same_fixed_fields_trans p q r :
  same_fixed_fields p q → same_fixed_fields q r → same_fixed_fields p r.
Proof. unfold same_fixed_fields. naive_solver congruence. Qed.

Lemma good_then k1 k2 doc s1 s2 p p' :
  good_step s1 → good_step s2 →
  (q ← if_member k1 doc s1 p; if_member k2 doc s2 q) = Ok p' →
  (wf_policy p → wf_policy p') ∧ same_fixed_fields p p'.
Proof.
  intros H1 H2. destruct (if_member k1 doc s1 p) as [q|] eqn:E; simpl; [|done].
  apply (if_member_good _ _ _ _ _ H1) in E as [W1 F1].
  intros [W2 F2]%(if_member_good _ _ _ _ _ H2).
  split; [tauto|]. by eapply same_fixed_fields_trans.
Qed.

Lemma check_metadata_only_good : good_step check_metadata_only.
Proof.
  intros j p p'. destruct j as [|[]| | | | | |]; simpl; try done.
  intros [= ->]. by split; [|repeat split].
Qed.

Lemma update_mode_good : good_step update_mode.
Proof.
  intros [] p p'; simpl; try done.
  destruct (redaction_mode_from_name s); [|done]. intros [= <-].
  split; [|done]. by intros [].
Qed.

Lemma update_domains_good : good_step update_domains.
Proof.
  intros j p p'. destruct j as [| | | | | |l|]; simpl; try done.
  destruct (Z.ltb_spec 256 (zlen l)); [done|].
  destruct (read_strings _ _ l) as [ds|] eqn:E; simpl; [|done]. intros [= <-].
  apply read_strings_Ok in E as [-> Hall]. split; [|done].
  intros []; split; simpl; [|done|done].
  unfold zlen in *. by rewrite length_fmap in *.
Qed.

Lemma update_redaction_good : good_step update_redaction.
Proof.
  intros j p p'. unfold update_redaction. destruct (is_object j); [|done]. simpl.
  apply good_then; [apply update_mode_good|apply update_domains_good].
Qed.

Lemma update_enabled_good : good_step update_enabled.
Proof.
  intros [] p p'; simpl; try done. intros [= <-]. split; [|done]. by intros [].
Qed.

Lemma update_retention_good : good_step update_retention.
Proof.
  intros j p p'. unfold update_retention. destruct (is_number_integer j); [|done].
  simpl. destruct (_ <? 60) eqn:H1; [done|]. destruct (31536000 <? _) eqn:H2; [done|].
  simpl. intros [= <-]. split; [|done]. intros []. split; simpl; try done. lia.
Qed.

Lemma update_persistence_good : good_step update_persistence.
Proof.
  intros j p p'. unfold update_persistence. destruct (is_object j); [|done]. simpl.
  apply good_then; [apply update_enabled_good|apply update_retention_good].
Qed.

Lemma update_from_json_good p doc p' :
  update_from_json p doc = Ok p' →
  (wf_policy p → wf_policy p') ∧ same_fixed_fields p p'.
Proof.
  unfold update_from_json. destruct (is_object doc); [|done]. simpl.
  destruct (if_member "metadata_only" _ _ _) as [q|] eqn:E; simpl; [|done].
  apply (if_member_good _ _ _ _ _ check_metadata_only_good) in E as [W F].
  intros [W' F']%good_then;
    [|apply update_redaction_good|apply update_persistence_good].
  split; [tauto|]. by eapply same_fixed_fields_trans.
Qed.

(** C16: Every policy a [set_policy] document can install keeps the bounds (at
    most 256 sensitive domains of at most 253 bytes, a retention between one
    minute and one year) and leaves the stripping flags, the interfaces and
    the capture filter as they were: a client cannot turn query or fragment
    stripping off. *)
Theorem update_from_json_invariant p doc p' :
  wf_policy p → update_from_json p doc = Ok p' →
  wf_policy p' ∧ same_fixed_fields p p'.
Proof. intros Hwf [W F]%update_from_json_good. auto. Qed.

(** A document that carries [metadata_only] with any value other than
    [true] is rejected whatever else it says. *)
Theorem metadata_only_cannot_be_disabled p doc flag :
  member "metadata_only" doc = Some flag → flag ≠ JBool true →
  ∃ e, update_from_json p doc = Err e.
Proof.
  intros Hm Hne. unfold update_from_json.
  destruct (is_object doc); simpl; [|eauto].
  unfold if_member. rewrite Hm.
  destruct flag as [|[]| | | | | |]; simpl; eauto. done.
Qed.

(** The client-visible part of a policy, over a base policy. *)
Definition with_view (base p : Policy) : Policy :=
  set_retention (po_retention p)
    (set_persistence (po_persistence_enabled p)
       (set_domains (po_sensitive_domains p)
          (set_mode (po_redaction_mode p) base))).

Lemma to_json_canon p :
  0 ≤ po_retention p →
  json_canon (to_json p) =
    JObject
      [(lit "metadata_only", JBool true);
       (lit "persistence",
        JObject [(lit "enabled", JBool (po_persistence_enabled p));
                 (lit "retention_seconds", JUint (po_retention p))]);
       (lit "redaction",
        JObject [(lit "mode", JString (redaction_mode_name (po_redaction_mode p)));
                 (lit "sensitive_domains",
                  JArray (JString <$> po_sensitive_domains p))])].
Proof.
  intros Hr.
  assert (map json_canon (JString <$> po_sensitive_domains p) =
    JString <$> po_sensitive_domains p) as Hd.
  { induction (po_sensitive_domains p) as [|d ds IH]; [done|].
    csimpl. by rewrite IH. }
  assert (json_canon (JInt (po_retention p)) = JUint (po_retention p)) as Hi.
  { simpl. by rewrite (proj2 (Z.leb_le _ _) Hr). }
  change (json_canon (to_json p)) with
    (JObject
      [(lit "metadata_only", JBool true);
       (lit "persistence",
        JObject [(lit "enabled", JBool (po_persistence_enabled p));
                 (lit "retention_seconds", json_canon (JInt (po_retention p)))]);
       (lit "redaction",
        JObject [(lit "mode", JString (redaction_mode_name (po_redaction_mode p)));
                 (lit "sensitive_domains",
                  JArray (map json_canon (JString <$> po_sensitive_domains p)))])]).
  by rewrite Hd, Hi.
Qed.

Lemma to_json_wf p : wf_policy p → json_wf (to_json p) = true.
Proof.
  intros [_ _ Hret].
  change (to_json p) with
    (JObject
      [(lit "metadata_only", JBool true);
       (lit "persistence",
        JObject [(lit "enabled", JBool (po_persistence_enabled p));
                 (lit "retention_seconds", JInt (po_retention p))]);
       (lit "redaction",
        JObject [(lit "mode", JString (redaction_mode_name (po_redaction_mode p)));
                 (lit "sensitive_domains",
                  JArray (JString <$> po_sensitive_domains p))])]).
  simpl. assert (forallb json_wf (JString <$> po_sensitive_domains p) = true) as ->.
  { clear. induction (po_sensitive_domains p); [done|]. by csimpl. }
  assert ((- 2 ^ 63 <=? po_retention p) && (po_retention p <? 2 ^ 63) = true) as ->
    by lia. done.
Qed.

(** The answer to [get_policy], sent back as a [set_policy] document after
    a trip through the wire format, installs the same client-visible policy:
    mode, sensitive domains, persistence flag and retention. *)
Theorem policy_json_roundtrip (L : JsonLib) (HL : JsonLaws L) base p text :
  wf_policy p → json_dump (to_json p) = Some text →
  ∃ doc, json_parse text = Some doc ∧
    update_from_json base doc = Ok (with_view base p).
Proof.
  intros Hwf Hdump. pose proof Hwf as [Hcount Hsize Hret].
  exists (json_canon (to_json p)). split.
  { apply parse_dump; [|done]. by apply to_json_wf. }
  rewrite to_json_canon by lia. unfold update_from_json, if_member.
  cbn [is_object negb]. simpl member. cbn [check_metadata_only mbind result_bind].
  unfold update_redaction, if_member. simpl member. cbn [is_object negb update_mode].
  rewrite redaction_mode_roundtrip. cbn [mbind result_bind update_domains].
  assert (zlen (JString <$> po_sensitive_domains p) = zlen (po_sensitive_domains p))
    as -> by (unfold zlen; by rewrite length_fmap).
  rewrite (proj2 (Z.ltb_ge _ _)) by done.
  rewrite (proj2 (read_strings_Ok _ _ _ (po_sensitive_domains p))) by done.
  cbn [mbind result_bind]. unfold update_persistence, if_member. simpl member.
  cbn [is_object negb update_enabled mbind result_bind].
  unfold update_retention. cbn [is_number_integer get_int64 negb].
  assert (i64 (po_retention p) = po_retention p) as ->
    by (unfold i64; rewrite Z.mod_small by lia; lia).
  rewrite (proj2 (Z.ltb_ge _ _)) by lia. rewrite (proj2 (Z.ltb_ge _ _)) by lia.
  done.
Qed.

(** ** Instances *)
Definition bank_event : Event :=
  mkEvent 1 [] Navigation Browser 0 (dint 0) [] None
    (Some (mkNetworkInfo Udp Unknown [] 0 [] 0 "www.Bank.com" None [] Ebpf))
    (Some (mkBrowserInfo 1 1 "https://bank.com/p?q=1#f" "t" "n" 0))
    default_PrivacyInfo [] [] [].

Lemma apply_hides_sensitive_witness :
  ∃ n', ev_network (apply sensitive_policy bank_event).2 = Some n' ∧
    net_dns_query_name n' = [] ∧ ev_browser (apply sensitive_policy bank_event).2 = None.
Proof.
  destruct (apply_hides_sensitive sensitive_policy bank_event) as [Hn Hb].
  - vm_compute. discriminate.
  - eexists. split; [reflexivity|]. split.
    + apply (Hn (mkNetworkInfo Udp Unknown [] 0 [] 0 "www.Bank.com" None [] Ebpf)
        (mkNetworkInfo Udp Unknown [] 0 [] 0 [] None [] Ebpf) (lit "bank.com"));
        [reflexivity|reflexivity|left|]. right. exists (lit "www"). reflexivity.
    + apply (Hb (mkBrowserInfo 1 1 "https://bank.com/p?q=1#f" "t" "n" 0) (sample_url "bank.com"));
        [reflexivity|reflexivity|apply sample_url_wf; repeat constructor|discriminate|reflexivity..|].
      exists (lit "bank.com"). split; [left|left; reflexivity].
Defined.

Lemma sensitive_policy_wf : wf_policy sensitive_policy.
Proof. split; [by vm_compute|by repeat constructor|by vm_compute]. Qed.

Definition mask_document : json := 
  JObject [(lit "redaction", JObject [(lit "mode", JString "domain-mask")])].

Lemma update_from_json_invariant_witness :
  ∃ p', update_from_json sensitive_policy mask_document = Ok p' ∧ wf_policy p' ∧
    po_redaction_mode p' = DomainMask ∧ po_strip_query_string p' = true.
Proof.
  eexists. split; [reflexivity|].
  edestruct (update_from_json_invariant sensitive_policy mask_document) as [Hwf (Hq & _)];
    [apply sensitive_policy_wf|reflexivity|].
  split; [exact Hwf|]. split; [reflexivity|exact Hq].
Defined.

Lemma policy_json_roundtrip_witness :
  ∃ text doc, json_dump (JsonLib := TreeJson.lib) (to_json sensitive_policy) = Some text ∧
    json_parse (JsonLib := TreeJson.lib) text = Some doc ∧
    update_from_json new_PolicyEngine doc = Ok (with_view new_PolicyEngine sensitive_policy).
Proof.
  eexists. edestruct (policy_json_roundtrip TreeJson.lib TreeJson.laws new_PolicyEngine
    sensitive_policy) as (doc & Hp & Hu).
  - apply sensitive_policy_wf.
  - reflexivity.
  - exists doc. split; [reflexivity|]. split; [exact Hp|exact Hu].
Defined.
