(* ===== verification/Correlator.v ===== *)
(** * Attribution ([src/attribution/])

    Evidence scoring ([confidence.cpp]) in exact binary64 arithmetic and the
    correlator ([correlator.cpp]), which joins network events with browser
    navigations.  Time points and durations are nanosecond counts, and their
    differences are mathematical integers: two clock readings are never [2^63]
    nanoseconds apart. *)
From S2P Require Import Prelude Double Types.
Open Scope Z_scope.

(** ** Evidence scoring *)
Definition kWeightProcess : double := dlit 40 2.
Definition kWeightTemporal : double := dlit 12 2.
Definition kWeightHost : double := dlit 18 2.
Definition kWeightDirect : double := dlit 95 2.
Definition kPcapAttributionCap : double := dlit 69 2.
Definition kNoEvidenceScore : double := dint 0.

Definition score_evidence (process_match temporal_match host_match
    direct_browser_event pcap_only : bool) : double :=
  if direct_browser_event then kWeightDirect
  else
    let score := dint 0 in
    let score := if process_match then dadd score kWeightProcess else score in
    let score := if temporal_match then dadd score kWeightTemporal else score in
    let score := if host_match then dadd score kWeightHost else score in
    let score := if pcap_only then dmin score kPcapAttributionCap else score in
    dclamp score kNoEvidenceScore (dint 1).

Arguments score_evidence : simpl never.

(** ** The correlator *)
Record NavigationObservation := mkNav {
  nav_timestamp : Z;
  nav_tab_id : Z;
  nav_window_id : Z;
  nav_host : cstring;
  nav_url : cstring;
  nav_title : cstring;
  nav_navigation_id : cstring;
  nav_frame_id : Z;
}.

Record BrowserProcess := mkBrowserProcess { bp_pid : Z; bp_name : cstring }.

Record Correlator := mkCorrelator {
  co_navigations : list NavigationObservation;
  co_browser_processes : list BrowserProcess;
}.
Definition new_Correlator : Correlator := mkCorrelator [] [].

Definition seconds (n : Z) : Z := n * 1000000000.
Definition kNavigationWindow : Z := seconds 10.
Definition kMaxNavigations : Z := 512.
Definition duration_max : Z := 2 ^ 63 - 1.

Definition abs_delta (a b : Z) : Z := if b <? a then a - b else b - a.

(** [while (navigations_.size() > kMaxNavigations) pop_front();] *)
Fixpoint trim_navigations (navs : list NavigationObservation) :
    list NavigationObservation :=
  match navs with
  | [] => []
  | _ :: rest => if kMaxNavigations <? zlen navs then trim_navigations rest else navs
  end.

Definition record_navigation (c : Correlator) (obs : NavigationObservation) :
    Correlator :=
  mkCorrelator (trim_navigations (co_navigations c ++ [obs]))
    (co_browser_processes c).

Definition set_browser_processes (c : Correlator) (ps : list BrowserProcess) :
    Correlator := mkCorrelator (co_navigations c) ps.

Definition is_browser_process (c : Correlator) (pid : Z) : bool :=
  existsb (λ p, bp_pid p =? pid) (co_browser_processes c).

(** The loop state of [best_match]. *)
Record best_state := mkBest {
  bst_nav : option NavigationObservation;
  bst_delta : Z;
  bst_host : bool;
}.

Definition event_host (e : Event) : cstring :=
  match ev_network e with Some n => net_dns_query_name n | None => [] end.

Definition host_matches (h : cstring) (nav : NavigationObservation) : bool :=
  negb (is_empty h) && negb (is_empty (nav_host nav)) && (h =s nav_host nav).

Definition best_step (e : Event) (st : best_state) (nav : NavigationObservation) :
    best_state :=
  let delta := abs_delta (nav_timestamp nav) (ev_timestamp e) in
  if kNavigationWindow <? delta then st
  else
    let host_match := host_matches (event_host e) nav in
    let better :=
      match bst_nav st with None => true | Some _ => false end
      || (host_match && negb (bst_host st))
      || (Bool.eqb host_match (bst_host st) && (delta <? bst_delta st)) in
    if better then mkBest (Some nav) delta host_match else st.

Definition best_match (navs : list NavigationObservation) (e : Event) :
    option NavigationObservation :=
  bst_nav (foldl (best_step e) (mkBest None duration_max false) navs).

(** [while (!empty() && now - front().timestamp > window * 4) pop_front();] *)
Fixpoint prune_navigations (now : Z) (navs : list NavigationObservation) :
    list NavigationObservation :=
  match navs with
  | [] => []
  | nav :: rest =>
      if kNavigationWindow * 4 <? now - nav_timestamp nav
      then prune_navigations now rest else navs
  end.

Definition with_attribution (e : Event) (confidence : double)
    (br : option BrowserInfo) : Event :=
  {| ev_schema_version := ev_schema_version e; ev_event_id := ev_event_id e;
     ev_type := ev_type e; ev_source := ev_source e;
     ev_timestamp := ev_timestamp e; ev_confidence := confidence;
     ev_correlation_id := ev_correlation_id e; ev_process := ev_process e;
     ev_network := ev_network e; ev_browser := br; ev_privacy := ev_privacy e;
     ev_backend_statuses := ev_backend_statuses e;
     ev_error_code := ev_error_code e; ev_error_message := ev_error_message e |}.

Definition browser_of_nav (nav : NavigationObservation) : BrowserInfo :=
  {| br_tab_id := nav_tab_id nav; br_window_id := nav_window_id nav;
     br_url := nav_url nav; br_title := nav_title nav;
     br_navigation_id := nav_navigation_id nav; br_frame_id := nav_frame_id nav |}.

Definition process_evidence (c : Correlator) (e : Event) : bool :=
  match ev_process e with
  | Some p => is_browser_process c (proc_pid p)
  | None => false
  end.

Definition host_evidence (e : Event) (m : option NavigationObservation) : bool :=
  match m, ev_network e with
  | Some nav, Some n =>
      negb (is_empty (net_dns_query_name n)) && (net_dns_query_name n =s nav_host nav)
  | _, _ => false
  end.

Definition is_network_event (e : Event) : bool :=
  bool_decide (ev_type e = Connection) || bool_decide (ev_type e = Dns).

(** [now] is the value [system_clock::now()] returns during the call. *)
Definition correlate (c : Correlator) (now : Z) (e : Event) : Correlator * Event :=
  if negb (is_network_event e) then (c, e)
  else
    let pcap_only := bool_decide (ev_source e = Pcap) in
    let process_match := process_evidence c e in
    let c' := mkCorrelator (prune_navigations now (co_navigations c))
                (co_browser_processes c) in
    let m := best_match (co_navigations c') e in
    let temporal_match := match m with Some _ => true | None => false end in
    let host_match := host_evidence e m in
    let confidence :=
      score_evidence process_match temporal_match host_match false pcap_only in
    let browser :=
      match m with
      | Some nav =>
          if dge confidence (dlit 40 2) then Some (browser_of_nav nav)
          else ev_browser e
      | None => ev_browser e
      end in
    (c', with_attribution e confidence browser).

(** ** Lemmas and theorems: scoring *)
Definition band_rank (b : ConfidenceBand) : nat :=
  match b with Weak => 0 | Probable => 1 | Strong => 2 | Direct => 3 end.

(** Case analysis over all evidence combinations, evaluated in binary64. *)
Ltac all_evidence := repeat match goal with b : bool |- _ => destruct b end;
  vm_compute; split_and?; intuition (done || lia).

Lemma score_pcap_band p t h :
  (band_rank (confidence_band (score_evidence p t h false true)) ≤ 1)%nat.
Proof. all_evidence. Qed.

Lemma score_pcap_no_process t h :
  dge (score_evidence false t h false true) (dlit 40 2) = false.
Proof. all_evidence. Qed.

(** Scores lie in [0, 1]; without a direct browser event no combination of
    evidence reaches the direct band, and pcap-only evidence never exceeds the
    probable band; more evidence never lowers the score. *)
Theorem score_evidence_bands p t h d pc :
  let s := score_evidence p t h d pc in
  dle (dint 0) s = true ∧ dle s (dint 1) = true ∧
  (confidence_band s = Direct ↔ d = true) ∧
  (d = false → pc = true → (band_rank (confidence_band s) ≤ 1)%nat) ∧
  dle (score_evidence false t h d pc) s = true ∧
  dle (score_evidence p false h d pc) s = true ∧
  dle (score_evidence p t false d pc) s = true.
Proof. cbv zeta. all_evidence. Qed.

(** ** Bounded navigation history *)
Lemma trim_navigations_drop navs :
  trim_navigations navs = drop (length navs - Z.to_nat kMaxNavigations) navs.
Proof.
  induction navs as [|nav navs IH]; [done|].
  cbn [trim_navigations]. unfold zlen, kMaxNavigations in *.
  destruct (Z.ltb_spec 512 (Z.of_nat (length (nav :: navs)))) as [Hlt|Hge].
  - rewrite IH. cbn [length] in *.
    replace (S (length navs) - Z.to_nat 512)%nat with
      (S (length navs - Z.to_nat 512)) by lia. done.
  - replace (length (nav :: navs) - Z.to_nat 512)%nat with 0%nat by lia. done.
Qed.

Lemma trim_navigations_bound navs : zlen (trim_navigations navs) ≤ kMaxNavigations.
Proof.
  rewrite trim_navigations_drop. unfold zlen, kMaxNavigations.
  rewrite length_drop. lia.
Qed.

Lemma prune_navigations_suffix now navs :
  ∃ gone, navs = gone ++ prune_navigations now navs.
Proof.
  induction navs as [|nav navs [gone IH]]; [by exists []|]. simpl.
  destruct (_ <? _); [|by exists []].
  exists (nav :: gone). simpl. by rewrite IH at 1.
Qed.

Lemma correlate_navigations c now e :
  ∃ gone, co_navigations c = gone ++ co_navigations (correlate c now e).1.
Proof.
  unfold correlate. destruct (is_network_event e); simpl; [|by exists []].
  apply prune_navigations_suffix.
Qed.

(** The operations of the correlator as a step relation. *)
Inductive correlator_step : Correlator → Correlator → Prop :=
  | step_record c obs : correlator_step c (record_navigation c obs)
  | step_processes c ps : correlator_step c (set_browser_processes c ps)
  | step_correlate c now e : correlator_step c (correlate c now e).1.

(** In every state the correlator can reach, it retains at most 512
    navigations. *)
Theorem correlator_bounded c :
  rtc correlator_step new_Correlator c → zlen (co_navigations c) ≤ kMaxNavigations.
Proof.
  intros H. pattern c. revert H. apply rtc_ind_r; [done|].
  clear c. intros c c' _ [c0 obs|c0 ps|c0 now e] IH; simpl; [|done|].
  - apply trim_navigations_bound.
  - destruct (correlate_navigations c0 now e) as [gone Heq].
    rewrite Heq, zlen_app in IH. pose proof (zlen_nonneg gone). lia.
Qed.

(** A new navigation is always retained, as the most recent one, behind a
    suffix of the earlier ones. *)
Theorem record_navigation_keeps_latest c obs :
  ∃ gone kept, co_navigations c = gone ++ kept ∧
    co_navigations (record_navigation c obs) = kept ++ [obs] ∧
    (zlen (co_navigations c) < kMaxNavigations → gone = []).
Proof.
  unfold record_navigation. simpl. rewrite trim_navigations_drop.
  unfold zlen, kMaxNavigations. rewrite length_app. cbn [length].
  set (n := (length (co_navigations c) + 1 - Z.to_nat 512)%nat).
  exists (take n (co_navigations c)), (drop n (co_navigations c)). split_and!.
  - by rewrite take_drop.
  - rewrite drop_app_le by lia. done.
  - intros Hlt. replace n with 0%nat by lia. done.
Qed.

(** ** The best match *)
Definition eligible (e : Event) (nav : NavigationObservation) : Prop :=
  abs_delta (nav_timestamp nav) (ev_timestamp e) ≤ kNavigationWindow.

(** [nav] is at least as good as [nav']: host evidence first, then time. *)
Definition at_least_as_good (e : Event) (nav nav' : NavigationObservation) : Prop :=
  let h := host_matches (event_host e) nav in
  let h' := host_matches (event_host e) nav' in
  h = true ∧ h' = false ∨
  h = h' ∧ abs_delta (nav_timestamp nav) (ev_timestamp e)
         ≤ abs_delta (nav_timestamp nav') (ev_timestamp e).

Lemma at_least_as_good_refl e nav : at_least_as_good e nav nav.
Proof. right. split; [done|lia]. Qed.

(** The loop invariant after a prefix of the list. *)
Definition best_inv (e : Event) (seen : list NavigationObservation)
    (st : best_state) : Prop :=
  match bst_nav st with
  | None => Forall (λ nav, ¬ eligible e nav) seen
  | Some nav =>
      nav ∈ seen ∧ eligible e nav ∧
      bst_delta st = abs_delta (nav_timestamp nav) (ev_timestamp e) ∧
      bst_host st = host_matches (event_host e) nav ∧
      Forall (λ nav', eligible e nav' → at_least_as_good e nav nav') seen
  end.

Lemma best_step_inv e seen st nav :
  best_inv e seen st → best_inv e (seen ++ [nav]) (best_step e st nav).
Proof.
  unfold best_inv, best_step. intros Hinv.
  destruct (Z.ltb_spec kNavigationWindow
    (abs_delta (nav_timestamp nav) (ev_timestamp e))) as [Hout|Hin].
  { assert (¬ eligible e nav) by (unfold eligible; lia).
    destruct (bst_nav st) as [best|].
    - destruct Hinv as (? & ? & ? & ? & ?). split_and!; try done; [set_solver|].
      apply Forall_app_2; [done|]. by apply Forall_singleton.
    - apply Forall_app_2; [done|]. by apply Forall_singleton. }
  destruct (bst_nav st) as [best|] eqn:Hbest; cbn [orb].
  - destruct Hinv as (Hmem & Hel & Hd & Hb & Hall). rewrite Hd, Hb.
    unfold at_least_as_good in *.
    destruct (host_matches (event_host e) nav) eqn:Hh,
             (host_matches (event_host e) best) eqn:Hh'; cbn [andb orb negb Bool.eqb];
      try destruct (Z.ltb_spec
        (abs_delta (nav_timestamp nav) (ev_timestamp e))
        (abs_delta (nav_timestamp best) (ev_timestamp e)));
      cbn [bst_nav bst_delta bst_host]; rewrite ?Hbest.
    all: split_and!; try congruence; try set_solver.
    all: try (apply Forall_app_2; [|apply Forall_singleton; rewrite ?Hh, ?Hh']).
    all: try (intros _; naive_solver lia).
    all: eapply Forall_impl; [exact Hall|]; intros x Hx Hex;
      specialize (Hx Hex); destruct (host_matches _ x); naive_solver lia.
  - cbn [bst_nav bst_delta bst_host]. split_and!; try done; [set_solver|].
    apply Forall_app_2.
    + eapply Forall_impl; [exact Hinv|]. by intros x Hx Hex.
    + apply Forall_singleton. intros _. apply at_least_as_good_refl.
Qed.

Lemma best_match_inv navs e :
  best_inv e navs (foldl (best_step e) (mkBest None duration_max false) navs).
Proof.
  induction navs as [|nav navs IH] using rev_ind; [by constructor|].
  rewrite foldl_snoc. by apply best_step_inv.
Qed.

(** C14: [best_match] returns a navigation exactly when one lies within the
    ten-second window, and the one it returns is optimal: no eligible
    navigation has host evidence when it has none, and none with the same host
    evidence is closer in time. *)
Theorem best_match_optimal navs e :
  match best_match navs e with
  | None => ∀ nav, nav ∈ navs → ¬ eligible e nav
  | Some nav =>
      nav ∈ navs ∧ eligible e nav ∧
      ∀ nav', nav' ∈ navs → eligible e nav' → at_least_as_good e nav nav'
  end.
Proof.
  unfold best_match. pose proof (best_match_inv navs e) as Hinv.
  unfold best_inv in Hinv. destruct (bst_nav _) as [nav|].
  - destruct Hinv as (Hm & Hel & _ & _ & Hall).
    rewrite Forall_forall in Hall. auto.
  - by rewrite Forall_forall in Hinv.
Qed.

(** ** Correlation *)
Lemma score_threshold p t h pc :
  dge (score_evidence p t h false pc) (dlit 40 2) = p.
Proof. all_evidence. Qed.

Lemma prune_navigations_elem now navs nav :
  nav ∈ prune_navigations now navs → nav ∈ navs.
Proof.
  intros Hin. destruct (prune_navigations_suffix now navs) as [gone ->].
  set_solver.
Qed.

Lemma process_evidence_spec c e :
  process_evidence c e = true →
  ∃ p bp, ev_process e = Some p ∧ bp ∈ co_browser_processes c ∧ bp_pid bp = proc_pid p.
Proof.
  unfold process_evidence, is_browser_process. destruct (ev_process e) as [p|]; [|done].
  intros (bp & Hin%list_elem_of_In & ?%Z.eqb_eq)%existsb_exists. eauto.
Qed.

(** Without process evidence the score stays in the weak band, and the browser
    part of the event is left as it is. *)
Lemma correlate_without_process c now e :
  is_network_event e = true → process_evidence c e = false →
  confidence_band (ev_confidence (correlate c now e).2) = Weak ∧
  ev_browser (correlate c now e).2 = ev_browser e.
Proof.
  intros Hn Hp. unfold correlate. rewrite Hn, Hp. simpl. rewrite score_threshold.
  split; [|by case_match].
  generalize (host_evidence e (best_match (prune_navigations now (co_navigations c)) e)).
  intros h. destruct (ev_source e), (best_match _ e); all_evidence.
Qed.

(** C15: Tab information is attached to an event only on process evidence.  If
    [correlate] changes the browser part of an event, then the event belongs
    to a known browser process, and what it attached is the data of a recorded
    navigation within ten seconds of the event.  A connection or DNS event
    that does not belong to a known browser process stays in the weak band and
    gets no tab information, however well time and host name match. *)
Theorem correlate_attaches_soundly c now e :
  (∀ b, ev_browser (correlate c now e).2 = Some b → ev_browser e ≠ Some b →
     (ev_type e = Connection ∨ ev_type e = Dns) ∧
     (∃ p bp, ev_process e = Some p ∧ bp ∈ co_browser_processes c ∧ bp_pid bp = proc_pid p) ∧
     ∃ nav, nav ∈ co_navigations c ∧ eligible e nav ∧ b = browser_of_nav nav) ∧
  (ev_type e = Connection ∨ ev_type e = Dns →
     (∀ p bp, ev_process e = Some p → bp ∈ co_browser_processes c → bp_pid bp ≠ proc_pid p) →
     confidence_band (ev_confidence (correlate c now e).2) = Weak ∧
     ev_browser (correlate c now e).2 = ev_browser e).
Proof.
  split.
  - intros b. unfold correlate. destruct (is_network_event e) eqn:Hn; simpl; [|done].
    set (navs := prune_navigations now (co_navigations c)).
    destruct (best_match navs e) as [nav|] eqn:Hm; [|done].
    rewrite score_threshold. destruct (process_evidence c e) eqn:Hp; [|done].
    intros [= <-] _. split_and!; [|by apply process_evidence_spec|exists nav].
    { apply orb_true_iff in Hn as [?%bool_decide_eq_true|?%bool_decide_eq_true]; auto. }
    pose proof (best_match_inv navs e) as Hinv. unfold best_inv in Hinv.
    unfold best_match in Hm. rewrite Hm in Hinv. destruct Hinv as (Hin & Hel & _).
    split_and!; [by eapply prune_navigations_elem|done|done].
  - intros Ht Hno. apply correlate_without_process.
    { unfold is_network_event. by destruct Ht as [-> | ->]. }
    destruct (process_evidence c e) eqn:Hp; [|done].
    apply process_evidence_spec in Hp as (p & bp & H1 & H2 & H3). by destruct (Hno p bp H1 H2).
Qed.

(** A pcap event leaves the correlator in the weak or probable band, and
    without process information (which pcap frames never carry) its browser
    part is left untouched: pcap traffic is never attributed to a tab. *)
Theorem correlate_pcap c now e :
  ev_source e = Pcap → is_network_event e = true →
  let e' := (correlate c now e).2 in
  (band_rank (confidence_band (ev_confidence e')) ≤ 1)%nat ∧
  (ev_process e = None → ev_browser e' = ev_browser e ∧
     confidence_band (ev_confidence e') = Weak).
Proof.
  intros Hs Hn e'. split.
  - unfold e', correlate. rewrite Hn, Hs. simpl. apply score_pcap_band.
  - intros Hp. apply and_comm. apply correlate_without_process; [done|].
    unfold process_evidence. by rewrite Hp.
Qed.

(** ** Instances *)
Definition witness_nav : NavigationObservation :=
  mkNav (10 ^ 18) 7 1 "example.org" "https://example.org/" "t" "n1" 0.
Definition witness_correlator : Correlator :=
  set_browser_processes (record_navigation new_Correlator witness_nav)
    [mkBrowserProcess 42 "firefox"].
Definition witness_connection (source : EventSource) (p : option ProcessInfo) : Event :=
  mkEvent 1 [] Connection source (10 ^ 18) (dint 0) [] p
    (Some default_NetworkInfo) None default_PrivacyInfo [] [] [].

Lemma witness_correlator_reachable : rtc correlator_step new_Correlator witness_correlator.
Proof.
  eapply rtc_l; [apply step_record|]. eapply rtc_l; [apply step_processes|]. apply rtc_refl.
Qed.

Lemma correlator_bounded_witness :
  length (co_navigations witness_correlator) = 1%nat ∧
  zlen (co_navigations witness_correlator) ≤ kMaxNavigations.
Proof.
  split; [reflexivity|]. apply (correlator_bounded witness_correlator).
  apply witness_correlator_reachable.
Defined.

(** A DNS query of unknown origin, for the host and at the instant of the
    recorded navigation. *)
Definition witness_dns : Event :=
  mkEvent 1 [] Dns Pcap (10 ^ 18) (dint 0) [] None
    (Some (mkNetworkInfo Udp Outbound [] 0 [] 53 "example.org" None [] Pcap))
    None default_PrivacyInfo [] [] [].

Lemma correlate_attaches_soundly_witness :
  (∃ b nav, ev_browser (correlate witness_correlator (10 ^ 18)
      (witness_connection Ebpf (Some (mkProcessInfo 42 [] None)))).2 = Some b ∧
    nav ∈ co_navigations witness_correlator ∧ b = browser_of_nav nav) ∧
  best_match (co_navigations witness_correlator) witness_dns = Some witness_nav ∧
  host_evidence witness_dns (Some witness_nav) = true ∧
  ev_browser (correlate witness_correlator (10 ^ 18) witness_dns).2 = None.
Proof.
  split.
  - destruct (proj1 (correlate_attaches_soundly witness_correlator (10 ^ 18)
      (witness_connection Ebpf (Some (mkProcessInfo 42 [] None)))) (browser_of_nav witness_nav))
      as (_ & _ & nav & Hin & _ & Hb).
    + vm_compute. reflexivity.
    + discriminate.
    + exists (browser_of_nav witness_nav), nav. split; [vm_compute; reflexivity|].
      split; [exact Hin|exact Hb].
  - split; [vm_compute; reflexivity|]. split; [vm_compute; reflexivity|].
    apply (correlate_attaches_soundly witness_correlator (10 ^ 18) witness_dns).
    + right. reflexivity.
    + intros p bp Hp. discriminate Hp.
Defined.

Lemma correlate_pcap_witness :
  let e' := (correlate witness_correlator (10 ^ 18) (witness_connection Pcap None)).2 in
  confidence_band (ev_confidence e') = Weak ∧ ev_browser e' = None.
Proof.
  destruct (correlate_pcap witness_correlator (10 ^ 18) (witness_connection Pcap None))
    as [_ H]; [reflexivity..|].
  destruct (H eq_refl) as [Hb Hw]. split; [exact Hw|exact Hb].
Defined.
