(* ===== verification/PacketParser.v ===== *)
(** * The packet parser ([src/capture/packet_parser.cpp])

    A frame is a list of byte values.  Every read goes through a bounds-checked
    lookup: the outer [option] of the parser is [None] when the C++ code would
    read outside the span, so that memory safety is a theorem.  The address
    formatter [inet_ntop] of the C library is a parameter. *)
From S2P Require Import Prelude Double Types.
Open Scope Z_scope.

(** ** Definitions *)
Definition kEthHeaderLen : nat := 14.
Definition kEthTypeIp4 : Z := 0x0800.
Definition kEthTypeIp6 : Z := 0x86DD.
Definition kProtoTcp : Z := 6.
Definition kProtoUdp : Z := 17.
Definition kDnsPort : Z := 53.
Definition kMaxLabels : nat := 128.

Definition read_be16 (data : list Z) (o : nat) : option Z :=
  a ← data !! o; b ← data !! S o; Some (u16 (Z.lor (Z.shiftl a 8) b)).

(** The [n] bytes at offset [o], all of which must exist. *)
Definition read_bytes (data : list Z) (o n : nat) : option (list Z) :=
  if (o + n <=? length data)%nat then Some (take n (drop o data)) else None.

(** Bytes a DNS label may contain. *)
Definition dns_char (ch : Z) : bool :=
  let c := chr ch in
  islower c || isupper c || isdigit c || is_char "-" c || is_char "_" c
  || is_char "." c.

(** The inner loop: append [n] label bytes from position [pos].  [Err tt] is
    the early [return {}]. *)
Fixpoint copy_label (data : list Z) (pos n : nat) (out : cstring) :
    option (result () cstring) :=
  match n with
  | O => Some (Ok out)
  | S n =>
      ch ← data !! pos;
      if negb (dns_char ch) then Some (Err tt)
      else if 253 <=? zlen out + 1 then Some (Err tt)
      else copy_label data (S pos) n (out ++ [chr ch])
  end.

(** The separator before every label but the first. *)
Definition push_dot (out : cstring) : result () cstring :=
  if is_empty out then Ok out
  else if 253 <=? zlen out + 1 then Err tt
  else Ok (out ++ ["."%char]).

(** The label loop; [n] is the number of labels still allowed. *)
Fixpoint qname_loop (n : nat) (data : list Z) (i : nat) (out : cstring) :
    option cstring :=
  match n with
  | O => Some []
  | S n =>
      if (i <? length data)%nat then
        label_len ← data !! i;
        if label_len =? 0 then Some out
        else if negb (Z.land label_len 0xC0 =? 0) || (63 <? label_len)
        then Some []
        else if (length data <? i + 1 + Z.to_nat label_len)%nat then Some []
        else
          match push_dot out with
          | Err _ => Some []
          | Ok out =>
              r ← copy_label data (i + 1) (Z.to_nat label_len) out;
              match r with
              | Err _ => Some []
              | Ok out => qname_loop n data (i + 1 + Z.to_nat label_len) out
              end
          end
      else Some []
  end.

Definition parse_dns_qname (data : list Z) : option cstring :=
  qname_loop kMaxLabels data 0 [].

Record PacketMetadata := mkMeta {
  md_valid : bool;
  md_transport : Transport;
  md_direction : Direction;
  md_local_address : cstring;
  md_remote_address : cstring;
  md_source_port : Z;
  md_destination_port : Z;
  md_dns_query_name : cstring;
  md_dns_response_code : Z;
  md_has_dns_response_code : bool;
}.

Definition default_meta : PacketMetadata :=
  mkMeta false Other Unknown [] [] 0 0 [] 0 false.

Section parser.
(** [inet_ntop] for the two address families; [None] is a null return. *)
Context (inet_ntop4 inet_ntop6 : list Z → option cstring).

Definition format_ipv4 (bytes : list Z) : cstring := default [] (inet_ntop4 bytes).
Definition format_ipv6 (bytes : list Z) : cstring := default [] (inet_ntop6 bytes).

Definition transport_of_proto (proto : Z) : Transport :=
  if proto =? kProtoTcp then Tcp else Udp.

(** Metadata after the network header. *)
Definition ip_meta (t : Transport) (local remote : cstring) : PacketMetadata :=
  mkMeta false t Unknown local remote 0 0 [] 0 false.

(** The network header: [Err] carries the metadata of an early return, [Ok]
    the metadata so far and the offset of the transport header. *)
Definition parse_ip (frame : list Z) :
    option (result PacketMetadata (PacketMetadata * nat)) :=
  eth_type ← read_be16 frame 12;
  let offset := kEthHeaderLen in
  if eth_type =? kEthTypeIp4 then
    if (length frame <? offset + 20)%nat then Some (Err default_meta)
    else
      b0 ← frame !! offset;
      let ihl := (Z.to_nat (Z.land b0 0x0F) * 4)%nat in
      if (ihl <? 20)%nat || (length frame <? offset + ihl)%nat
      then Some (Err default_meta)
      else
        src ← read_bytes frame (offset + 12) 4;
        dst ← read_bytes frame (offset + 16) 4;
        proto ← frame !! (offset + 9)%nat;
        if negb (proto =? kProtoTcp) && negb (proto =? kProtoUdp)
        then Some (Err (ip_meta Other (format_ipv4 src) (format_ipv4 dst)))
        else Some (Ok (ip_meta (transport_of_proto proto)
                         (format_ipv4 src) (format_ipv4 dst),
                       (offset + ihl)%nat))
  else if eth_type =? kEthTypeIp6 then
    if (length frame <? offset + 40)%nat then Some (Err default_meta)
    else
      next_header ← frame !! (offset + 6)%nat;
      if negb (next_header =? kProtoTcp) && negb (next_header =? kProtoUdp)
      then Some (Err default_meta)
      else
        src ← read_bytes frame (offset + 8) 16;
        dst ← read_bytes frame (offset + 24) 16;
        Some (Ok (ip_meta (transport_of_proto next_header)
                    (format_ipv6 src) (format_ipv6 dst),
                  (offset + 40)%nat))
  else Some (Err default_meta).

Definition with_ports (m : PacketMetadata) (valid : bool) (sp dp : Z)
    (name : cstring) (rcode : Z) (has : bool) : PacketMetadata :=
  mkMeta valid (md_transport m) (md_direction m) (md_local_address m)
    (md_remote_address m) sp dp name rcode has.

Definition truncated_transport (m : PacketMetadata) : PacketMetadata :=
  mkMeta false Other (md_direction m) (md_local_address m)
    (md_remote_address m) 0 0 [] 0 false.

(** The DNS part of a UDP datagram on port 53: the response code and, with a
    question present, its name. *)
Definition parse_dns (payload : list Z) : option (cstring * Z * bool) :=
  if (12 <=? length payload)%nat then
    qdcount ← read_be16 payload 4;
    flags ← payload !! 3%nat;
    let rcode := Z.land flags 0x0F in
    if 1 <=? qdcount then
      name ← parse_dns_qname (drop 12 payload);
      Some (name, rcode, true)
    else Some ([], rcode, true)
  else Some ([], 0, false).

Definition parse_transport (frame : list Z) (m : PacketMetadata) (offset : nat) :
    option PacketMetadata :=
  let remaining := (length frame - offset)%nat in
  match md_transport m with
  | Tcp =>
      if (remaining <? 20)%nat then Some (truncated_transport m)
      else
        sp ← read_be16 frame offset;
        dp ← read_be16 frame (offset + 2);
        Some (with_ports m true sp dp [] 0 false)
  | _ =>
      if (remaining <? 8)%nat then Some (truncated_transport m)
      else
        sp ← read_be16 frame offset;
        dp ← read_be16 frame (offset + 2);
        _dgram_len ← read_be16 frame (offset + 4);
        if (dp =? kDnsPort) || (sp =? kDnsPort) then
          '(name, rcode, has) ← parse_dns (drop (offset + 8) frame);
          Some (with_ports m true sp dp name rcode has)
        else Some (with_ports m true sp dp [] 0 false)
  end.

Definition parse_ethernet_frame (frame : list Z) : option PacketMetadata :=
  if (length frame <? kEthHeaderLen)%nat then Some default_meta
  else
    r ← parse_ip frame;
    match r with
    | Err meta => Some meta
    | Ok (meta, offset) => parse_transport frame meta offset
    end.
End parser.

(** ** DNS names: a reference decoder

    The same decoding on the remaining bytes, without indices. *)
Fixpoint qname_ref (n : nat) (s : list Z) (out : cstring) : cstring :=
  match n, s with
  | S n, label_len :: s =>
      let len := Z.to_nat label_len in
      if label_len =? 0 then out
      else if negb (Z.land label_len 0xC0 =? 0) || (63 <? label_len) then []
      else if (length s <? len)%nat then []
      else
        match push_dot out with
        | Err _ => []
        | Ok out =>
            if forallb dns_char (take len s) && (zlen out + Z.of_nat len <=? 252)
            then qname_ref n (drop len s) (out ++ (chr <$> take len s))
            else []
        end
  | _, _ => []
  end.

Lemma copy_label_spec data pos n out :
  (pos + n ≤ length data)%nat → zlen out ≤ 252 →
  copy_label data pos n out =
    Some (if forallb dns_char (take n (drop pos data))
              && (zlen out + Z.of_nat n <=? 252)
          then Ok (out ++ (chr <$> take n (drop pos data))) else Err tt).
Proof.
  revert pos out. induction n as [|n IH]; intros pos out Hlen Hout.
  { simpl. rewrite app_nil_r, (proj2 (Z.leb_le _ _)) by lia. done. }
  destruct (lookup_lt_is_Some_2 data pos) as [ch Hch]; [lia|].
  cbn [copy_label]. rewrite Hch. cbn [mbind option_bind].
  rewrite (drop_S _ _ _ Hch). cbn [take forallb].
  destruct (dns_char ch); cbn [negb andb]; [|done].
  destruct (Z.leb_spec 253 (zlen out + 1)) as [Hbig|Hsmall].
  { rewrite (proj2 (Z.leb_gt _ _)) by lia. by rewrite andb_false_r. }
  rewrite IH by (rewrite ?zlen_app; unfold zlen in *; simpl; lia).
  replace (zlen (out ++ [chr ch]) + Z.of_nat n) with (zlen out + Z.of_nat (S n))
    by (rewrite zlen_app; unfold zlen; simpl; lia).
  by rewrite <-(assoc_L (++)).
Qed.

Lemma push_dot_bound out out' :
  zlen out ≤ 252 → push_dot out = Ok out' → zlen out' ≤ 252.
Proof.
  unfold push_dot. destruct (is_empty out); [naive_solver|].
  destruct (Z.leb_spec 253 (zlen out + 1)); [done|]. intros _ [= <-].
  rewrite zlen_app. unfold zlen in *. simpl. lia.
Qed.

Lemma qname_loop_ref n data i out :
  zlen out ≤ 252 → qname_loop n data i out = Some (qname_ref n (drop i data) out).
Proof.
  revert i out. induction n as [|n IH]; intros i out Hout; [done|].
  cbn [qname_loop]. destruct (Nat.ltb_spec i (length data)) as [Hi|Hi].
  2: { rewrite drop_ge by done. done. }
  destruct (lookup_lt_is_Some_2 data i Hi) as [len Hl].
  rewrite (drop_S _ _ _ Hl), Hl. cbn [mbind option_bind qname_ref].
  destruct (len =? 0); [done|].
  destruct (negb _ || _); [done|].
  rewrite length_drop.
  destruct (Nat.ltb_spec (length data) (i + 1 + Z.to_nat len)) as [Ht|Ht].
  { by rewrite (proj2 (Nat.ltb_lt _ _)) by lia. }
  rewrite (proj2 (Nat.ltb_ge _ _)) by lia.
  destruct (push_dot out) as [out1|] eqn:Hp; [|done].
  apply push_dot_bound in Hp; [|done].
  replace (i + 1)%nat with (S i) by lia.
  rewrite copy_label_spec by (lia || done). cbn [mbind option_bind].
  destruct (forallb dns_char _); cbn [andb]; [|done].
  destruct (Z.leb_spec (zlen out1 + Z.of_nat (Z.to_nat len)) 252); [|done].
  rewrite IH, drop_drop; [done|].
  rewrite zlen_app. unfold zlen in *. rewrite length_fmap, length_take. lia.
Qed.

(** The index loop reads inside its span and computes the reference. *)
Lemma parse_dns_qname_ref data :
  parse_dns_qname data = Some (qname_ref kMaxLabels data []).
Proof. unfold parse_dns_qname. rewrite qname_loop_ref; [by rewrite drop_0|done]. Qed.

Definition dns_name_char (c : ascii) : bool := dns_char (ord c).

Lemma dns_char_chr ch : dns_name_char (chr ch) = dns_char ch.
Proof.
  unfold dns_name_char, dns_char. by rewrite <-(chr_ord (chr (ord (chr ch)))), !chr_ord.
Qed.

Lemma qname_ref_shape n s out :
  zlen out ≤ 252 → Forall (λ c, dns_name_char c = true) out →
  zlen (qname_ref n s out) ≤ 252 ∧
  Forall (λ c, dns_name_char c = true) (qname_ref n s out).
Proof.
  revert s out. induction n as [|n IH]; intros [|len s] out Hlen Hall;
    [by split..|]. cbn [qname_ref].
  destruct (len =? 0); [done|]. destruct (negb _ || _); [by split|].
  destruct (length s <? _)%nat; [by split|].
  destruct (push_dot out) as [out1|] eqn:Hp; [|by split].
  destruct (forallb dns_char _) eqn:Hc; cbn [andb]; [|by split].
  destruct (Z.leb_spec (zlen out1 + Z.of_nat (Z.to_nat len)) 252); [|by split].
  apply IH.
  - rewrite zlen_app. unfold zlen in *. rewrite length_fmap, length_take. lia.
  - apply Forall_app_2.
    + unfold push_dot in Hp. destruct (is_empty out); simplify_eq; [done|].
      destruct (253 <=? _); simplify_eq. apply Forall_app_2; [done|].
      by apply Forall_singleton.
    + apply Forall_fmap. apply Forall_forall. intros ch Hin.
      rewrite forallb_forall in Hc. unfold compose. rewrite dns_char_chr.
      apply Hc. by apply list_elem_of_In.
Qed.

(** ** Memory safety

    Each stage returns [Some]: no read leaves its span. *)
Lemma read_be16_Some data o :
  (S o < length data)%nat → ∃ z, read_be16 data o = Some z ∧ 0 ≤ z < 2 ^ 16.
Proof.
  intros H. unfold read_be16.
  destruct (lookup_lt_is_Some_2 data o) as [a ->]; [lia|].
  destruct (lookup_lt_is_Some_2 data (S o)) as [b ->]; [lia|].
  eexists. split; [done|]. by apply Z.mod_pos_bound.
Qed.

Lemma read_bytes_Some data o n :
  (o + n ≤ length data)%nat → read_bytes data o n = Some (take n (drop o data)).
Proof. intros H. unfold read_bytes. by rewrite (proj2 (Nat.leb_le _ _)). Qed.

Lemma nibble_range z : 0 ≤ Z.land z 0x0F < 16.
Proof.
  change 0x0F with (Z.ones 4). rewrite Z.land_ones by lia.
  by apply Z.mod_pos_bound.
Qed.

(** Run one bounds-checked read whose side condition is arithmetic. *)
Ltac step_read :=
  match goal with
  | |- context [read_be16 ?d ?o] =>
      let z := fresh "z" in let Hz := fresh "Hz" in let Hr := fresh "Hr" in
      destruct (read_be16_Some d o) as (z & Hz & Hr); [lia|]; rewrite Hz
  | |- context [read_bytes ?d ?o ?n] => rewrite (read_bytes_Some d o n) by lia
  | |- context [@lookup nat _ _ _ ?i ?d] =>
      let b := fresh "b" in let Hb := fresh "Hb" in
      destruct (lookup_lt_is_Some_2 d i) as [b Hb]; [lia|]; rewrite Hb
  end; cbn [mbind option_bind].

Definition ip_ok (frame : list Z)
    (r : result PacketMetadata (PacketMetadata * nat)) : Prop :=
  match r with
  | Err m => md_valid m = false
  | Ok (m, offset) =>
      (offset ≤ length frame)%nat ∧ (md_transport m = Tcp ∨ md_transport m = Udp)
  end.

Lemma transport_of_proto_cases p :
  transport_of_proto p = Tcp ∨ transport_of_proto p = Udp.
Proof. unfold transport_of_proto. destruct (p =? kProtoTcp); auto. Qed.

Definition dns_ok (d : cstring * Z * bool) : Prop :=
  let '(name, rcode, has) := d in
  0 ≤ rcode < 16 ∧ zlen name ≤ 252 ∧ Forall (λ c, dns_name_char c = true) name ∧
  (name ≠ [] → has = true).

(** What a metadata record that is marked valid carries. *)
Definition meta_ok (m : PacketMetadata) : Prop :=
  (md_transport m = Tcp ∨ md_transport m = Udp) ∧
  0 ≤ md_source_port m < 2 ^ 16 ∧ 0 ≤ md_destination_port m < 2 ^ 16 ∧
  dns_ok (md_dns_query_name m, md_dns_response_code m, md_has_dns_response_code m) ∧
  (md_has_dns_response_code m = true →
     md_transport m = Udp ∧ (md_source_port m = 53 ∨ md_destination_port m = 53)).

Lemma parse_dns_safe payload : ∃ d, parse_dns payload = Some d ∧ dns_ok d.
Proof.
  unfold parse_dns. destruct (Nat.leb_spec 12 (length payload)).
  - step_read. step_read.
    assert (Hn := nibble_range b).
    destruct (1 <=? z).
    + rewrite parse_dns_qname_ref. cbn [mbind option_bind].
      destruct (qname_ref_shape kMaxLabels (drop 12 payload) []); [done|by constructor|].
      by eexists.
    + eexists; split; [done|]. repeat split; try lia; [done|by constructor].
  - eexists; split; [done|]. repeat split; try lia; [done|by constructor|done].
Qed.

Section parser_lemmas.
Context (inet_ntop4 inet_ntop6 : list Z → option cstring).

Lemma parse_ip_safe frame :
  (kEthHeaderLen ≤ length frame)%nat →
  ∃ r, parse_ip inet_ntop4 inet_ntop6 frame = Some r ∧ ip_ok frame r.
Proof.
  unfold kEthHeaderLen. intros Hlen. unfold parse_ip, kEthHeaderLen. step_read.
  destruct (z =? kEthTypeIp4); [|destruct (z =? kEthTypeIp6); [|by eexists]].
  - destruct (Nat.ltb_spec (length frame) (14 + 20)); [by eexists|].
    repeat step_read. destruct (_ <? 20)%nat; [by eexists|]. cbn [orb].
    destruct (length frame <? _)%nat eqn:Hihl; [by eexists|].
    apply Nat.ltb_ge in Hihl.
    destruct (negb _ && negb _); [by eexists|]. eexists. split; [done|].
    split; [done|]. apply transport_of_proto_cases.
  - destruct (Nat.ltb_spec (length frame) (14 + 40)); [by eexists|].
    repeat step_read. destruct (negb _ && negb _); [by eexists|].
    eexists. split; [done|]. split; [done|]. apply transport_of_proto_cases.
Qed.

Lemma parse_transport_safe frame m offset :
  (offset ≤ length frame)%nat → md_transport m = Tcp ∨ md_transport m = Udp →
  ∃ m', parse_transport frame m offset = Some m' ∧
    (md_valid m' = true → meta_ok m').
Proof.
  intros Hlen Ht. unfold parse_transport.
  destruct Ht as [Ht|Ht]; rewrite Ht.
  - destruct (Nat.ltb_spec (length frame - offset) 20); [by eexists|].
    repeat step_read. eexists. split; [done|]. intros _.
    repeat split; simpl; try lia; [auto|done|by constructor|done..].
  - destruct (Nat.ltb_spec (length frame - offset) 8); [by eexists|].
    repeat step_read. destruct (_ || _) eqn:Hp.
    + destruct (parse_dns_safe (drop (offset + 8) frame))
        as ([[name rcode] has] & -> & Hd). eexists. split; [done|]. intros _.
      unfold kDnsPort in Hp. apply orb_prop in Hp.
      split_and!; simpl; try lia; [auto|done|]. intros _. split; [done|]. lia.
    + eexists. split; [done|]. intros _.
      repeat split; simpl; try lia; [auto|done|by constructor|done..].
Qed.

Lemma parse_ethernet_frame_spec frame :
  ∃ m, parse_ethernet_frame inet_ntop4 inet_ntop6 frame = Some m ∧
    (md_valid m = true → meta_ok m).
Proof.
  unfold parse_ethernet_frame. destruct (Nat.ltb_spec (length frame) kEthHeaderLen).
  { by eexists. }
  destruct (parse_ip_safe frame) as ([[m o]|m] & -> & Hok); [done|..];
    cbn [mbind option_bind].
  - destruct Hok. by apply parse_transport_safe.
  - exists m. split; [done|]. simpl in Hok. congruence.
Qed.
End parser_lemmas.

(** C12: Parsing never reads outside the frame, whatever the bytes are, and a
    frame marked valid is TCP or UDP with 16-bit ports; a DNS name is present
    only for UDP with port 53 on one side, has at most 252 bytes, all of them
    letters, digits, '-', '_' or '.', and its response code has four bits. *)
Theorem parse_ethernet_frame_safe inet_ntop4 inet_ntop6 frame :
  ∃ m, parse_ethernet_frame inet_ntop4 inet_ntop6 frame = Some m ∧
    (md_valid m = true → meta_ok m).
Proof. apply parse_ethernet_frame_spec. Qed.

(** ** DNS names: round trip with the wire encoding *)
Definition encode_label (l : cstring) : list Z := zlen l :: (ord <$> l).
Definition encode_qname (ls : list cstring) : list Z :=
  concat (encode_label <$> ls) ++ [0].
Definition join_dots (ls : list cstring) : cstring :=
  match ls with
  | [] => []
  | l :: ls => l ++ concat (cons "."%char <$> ls)
  end.
Definition wf_label (l : cstring) : Prop :=
  l ≠ [] ∧ zlen l ≤ 63 ∧ Forall (λ c, dns_name_char c = true) l.

Lemma chr_ord_list (l : cstring) : chr <$> (ord <$> l) = l.
Proof.
  induction l as [|c l IH]; [done|]. rewrite !fmap_cons, chr_ord. by f_equal.
Qed.

Lemma label_len_bits z : 0 ≤ z ≤ 63 → Z.land z 0xC0 = 0.
Proof.
  intros H. change 0xC0 with (Z.shiftl 3 6). rewrite <-(Z.mod_small z (2 ^ 6)) by lia.
  rewrite <-Z.land_ones by lia. rewrite <-Z.land_assoc. by rewrite Z.land_0_r.
Qed.

(** One well-formed label moves from the encoding to the output. *)
Lemma qname_ref_label n l s out :
  wf_label l → zlen (if is_empty out then l else out ++ "."%char :: l) ≤ 252 →
  qname_ref (S n) (encode_label l ++ s) out =
    qname_ref n s (if is_empty out then l else out ++ "."%char :: l).
Proof.
  intros (Hne & H63 & Hc) Hlen. unfold encode_label. cbn [app qname_ref].
  assert (0 < zlen l) by (unfold zlen; destruct l; simpl in *; [done|lia]).
  rewrite label_len_bits by lia. rewrite (proj2 (Z.eqb_neq _ _)) by lia.
  rewrite (proj2 (Z.ltb_ge 63 _)) by lia. cbn [Z.eqb negb orb].
  assert (Hnat : Z.to_nat (zlen l) = length (ord <$> l))
    by (rewrite length_fmap; unfold zlen; lia).
  rewrite Hnat, length_app, (proj2 (Nat.ltb_ge _ _)) by lia.
  rewrite take_app_length, drop_app_length, chr_ord_list.
  assert (Hall : forallb dns_char (ord <$> l) = true).
  { apply forallb_forall. intros z Hz. apply list_elem_of_In in Hz.
    apply list_elem_of_fmap in Hz as (c & -> & Hin).
    rewrite Forall_forall in Hc. by apply Hc. }
  rewrite Hall, length_fmap. cbn [andb].
  unfold push_dot. destruct out as [|c out]; cbn [is_empty] in *.
  - rewrite (proj2 (Z.leb_le _ _)) by (unfold zlen in *; simpl in *; lia). done.
  - rewrite zlen_app in Hlen. unfold zlen in *. cbn [length] in *.
    rewrite (proj2 (Z.leb_gt _ _)) by lia.
    rewrite (proj2 (Z.leb_le _ _)) by (rewrite length_app; simpl; lia).
    by rewrite <-(assoc_L (++)).
Qed.

Lemma qname_ref_labels ls n out rest :
  out ≠ [] → (length ls < n)%nat → Forall wf_label ls →
  zlen (out ++ concat (cons "."%char <$> ls)) ≤ 252 →
  qname_ref n (encode_qname ls ++ rest) out
  = out ++ concat (cons "."%char <$> ls).
Proof.
  revert n out. induction ls as [|l ls IH]; intros n out Hne Hn Hwf Hlen;
    (destruct n as [|n]; [simpl in Hn; lia|]).
  { cbn. by rewrite app_nil_r. }
  inv Hwf. cbn [fmap list_fmap concat] in Hlen |- *.
  rewrite (assoc_L (++)) in Hlen |- *.
  assert (He : is_empty out = false) by by apply is_empty_false.
  unfold encode_qname in IH |- *. cbn [fmap list_fmap concat] in IH |- *.
  rewrite <-!(assoc_L (++)), qname_ref_label, He, (assoc_L (++)).
  - rewrite IH; [by rewrite <-(assoc_L (++))|by destruct out|simpl in Hn; lia|done|done].
  - done.
  - rewrite zlen_app in Hlen. pose proof (zlen_nonneg (concat (cons "."%char <$> ls))).
    rewrite He. lia.
Qed.

(** Non-empty labels: the joined length bounds their number. *)
Lemma dotted_length ls :
  Forall wf_label ls → 2 * zlen ls ≤ zlen (concat (cons "."%char <$> ls)).
Proof.
  induction 1 as [|l ls (Hne & _) _ IH]; [done|].
  cbn [fmap list_fmap concat]. rewrite zlen_app. unfold zlen in *.
  destruct l; [done|]. cbn [length]. lia.
Qed.

Lemma parse_dns_qname_encode ls rest :
  Forall wf_label ls → zlen (join_dots ls) ≤ 252 →
  parse_dns_qname (encode_qname ls ++ rest) = Some (join_dots ls).
Proof.
  intros Hwf Hlen. rewrite parse_dns_qname_ref. f_equal.
  destruct ls as [|l ls]; [done|]. inversion Hwf as [|? ? Hl Hls]; subst.
  pose proof (dotted_length _ Hls). cbn [join_dots] in *.
  rewrite zlen_app in Hlen. pose proof (zlen_nonneg l).
  pose proof (zlen_nonneg (concat (cons "."%char <$> ls))).
  unfold encode_qname. cbn [fmap list_fmap concat].
  rewrite <-!(assoc_L (++)). change kMaxLabels with (S 127).
  rewrite qname_ref_label by (done || (cbn [is_empty]; lia)). cbn [is_empty].
  destruct Hl as (Hne & _).
  rewrite <-(qname_ref_labels ls 127 l rest); [|done|unfold zlen in *; lia|done|].
  - unfold encode_qname. by rewrite <-!(assoc_L (++)).
  - rewrite zlen_app. lia.
Qed.

(** The wire encoding of every legal question name (labels of 1 to 63
    allowed bytes, at most 252 bytes in dotted form) decodes to that dotted
    form, whatever follows it in the packet. *)
Theorem parse_dns_qname_roundtrip ls rest :
  Forall wf_label ls → zlen (join_dots ls) ≤ 252 →
  parse_dns_qname (encode_qname ls ++ rest) = Some (join_dots ls).
Proof. apply parse_dns_qname_encode. Qed.

Lemma parse_dns_qname_roundtrip_witness :
  parse_dns_qname (encode_qname [lit "www"; lit "example"; lit "org"] ++ [0; 1; 0; 1])
  = Some (lit "www.example.org").
Proof.
  apply (parse_dns_qname_roundtrip [lit "www"; lit "example"; lit "org"] [0; 1; 0; 1]).
  - repeat constructor; vm_compute; congruence.
  - vm_compute. congruence.
Defined.

(** ** Payload independence *)

(** Where the transport header starts: after the IPv4 header with its options,
    or after the fixed IPv6 header. *)
Definition transport_offset (f : list Z) : nat :=
  match read_be16 f 12 with
  | Some e => if e =? 0x0800 then 14 + Z.to_nat (Z.land (default 0 (f !! 14%nat)) 0x0F) * 4 else 54
  | None => 0
  end.

(** The transport header behind the ports. *)
Definition behind_ports (t : Transport) : nat := match t with Tcp => 16 | _ => 4 end.

Definition dns_traffic (m : PacketMetadata) : Prop :=
  md_transport m = Udp ∧ (md_source_port m = 53 ∨ md_destination_port m = 53).

Section payload.
Context (inet_ntop4 inet_ntop6 : list Z → option cstring).

(** Two frames with the same first [n] bytes. *)
Definition agree (n : nat) (f g : list Z) : Prop :=
  (n ≤ length f)%nat ∧ (n ≤ length g)%nat ∧ ∀ i, (i < n)%nat → g !! i = f !! i.

Lemma agree_read n f g o : agree n f g → (S o < n)%nat → read_be16 g o = read_be16 f o.
Proof. intros (_ & _ & H) Ho. unfold read_be16. by rewrite !H by lia. Qed.

Lemma agree_bytes n f g o k :
  agree n f g → (o + k ≤ n)%nat → read_bytes g o k = read_bytes f o k.
Proof.
  intros (Hf & Hg & H) Ho. rewrite !read_bytes_Some by lia. f_equal. apply list_eq. intros i.
  destruct (decide (i < k)%nat).
  - rewrite !lookup_take_lt, !lookup_drop by lia. apply H. lia.
  - by rewrite !lookup_take_ge by lia.
Qed.

Lemma parse_ip_offset f m o :
  parse_ip inet_ntop4 inet_ntop6 f = Some (Ok (m, o)) →
  (34 ≤ o)%nat ∧ (o ≤ length f)%nat ∧ o = transport_offset f.
Proof.
  intros H. unfold parse_ip, kEthHeaderLen in H. unfold transport_offset.
  destruct (read_be16 f 12) as [e|]; cbn [mbind option_bind] in H; [|done].
  change kEthTypeIp4 with 0x0800 in H. destruct (e =? 0x0800).
  - destruct (length f <? 14 + 20)%nat; [done|].
    destruct (f !! 14%nat) as [b|]; cbn [mbind option_bind] in H; [|done].
    destruct (Nat.ltb_spec (Z.to_nat (Z.land b 15) * 4) 20); [done|]. cbn [orb] in H.
    destruct (Nat.ltb_spec (length f) (14 + Z.to_nat (Z.land b 15) * 4)); [done|].
    repeat match type of H with
    | (mbind _ ?x) = _ => destruct x; cbn [mbind option_bind] in H; [|done]
    | (if ?b then _ else _) = _ => destruct b; try discriminate H
    end. injection H as _ <-. unfold default, id.
    lia.
  - destruct (e =? kEthTypeIp6); [|done].
    destruct (Nat.ltb_spec (length f) (14 + 40)); [done|].
    repeat match type of H with
    | (mbind _ ?x) = _ => destruct x; cbn [mbind option_bind] in H; [|done]
    | (if ?b then _ else _) = _ => destruct b; try discriminate H
    end. injection H as _ <-. lia.
Qed.

Lemma parse_ip_agree f g m o :
  parse_ip inet_ntop4 inet_ntop6 f = Some (Ok (m, o)) → agree o f g →
  parse_ip inet_ntop4 inet_ntop6 g = Some (Ok (m, o)).
Proof.
  intros H Hag. destruct (parse_ip_offset f m o H) as (H34 & Hf & Ho).
  pose proof Hag as (_ & Hg & Hl). unfold transport_offset in Ho.
  unfold parse_ip, kEthHeaderLen in *. rewrite (agree_read o f g) by (done || lia).
  destruct (read_be16 f 12) as [e|]; cbn [mbind option_bind] in *; [|done].
  change kEthTypeIp4 with 0x0800 in *. destruct (e =? 0x0800).
  - rewrite (proj2 (Nat.ltb_ge (length g) (14 + 20))) by lia.
    destruct (length f <? 14 + 20)%nat; [done|]. rewrite !Hl by lia.
    destruct (f !! 14%nat) as [b|]; cbn [mbind option_bind] in *; [|done].
    unfold default, id in Ho.
    rewrite (proj2 (Nat.ltb_ge (length g) (14 + Z.to_nat (Z.land b 15) * 4))) by lia.
    rewrite (proj2 (Nat.ltb_ge (length f) (14 + Z.to_nat (Z.land b 15) * 4))) in H by lia.
    by rewrite !(agree_bytes o f g) by (done || lia).
  - destruct (e =? kEthTypeIp6); [|done].
    rewrite (proj2 (Nat.ltb_ge (length g) (14 + 40))) by lia.
    destruct (length f <? 14 + 40)%nat; [done|].
    by rewrite !Hl, !(agree_bytes o f g) by (done || lia).
Qed.

Lemma parse_transport_agree f g m m' o :
  parse_transport f m o = Some m' → md_valid m' = true → ¬ dns_traffic m' →
  (md_transport m = Tcp ∨ md_transport m = Udp) → agree (o + 4) f g →
  (o + 4 + behind_ports (md_transport m') ≤ length g)%nat → parse_transport g m o = Some m'.
Proof.
  intros H Hv Hd Ht Hag Hlen. unfold parse_transport in *.
  rewrite !(agree_read (o + 4) f g) by (done || lia).
  destruct Ht as [Ht|Ht]; rewrite Ht in *.
  - destruct (length f - o <? 20)%nat; [by simplify_eq|].
    destruct (read_be16 f o) as [sp|]; cbn [mbind option_bind] in *; [|done].
    destruct (read_be16 f (o + 2)) as [dp|]; cbn [mbind option_bind] in *; [|done].
    injection H as <-. cbn [md_transport with_ports] in Hlen. rewrite Ht in Hlen. cbn in Hlen.
    by rewrite (proj2 (Nat.ltb_ge (length g - o) 20)) by lia.
  - destruct (length f - o <? 8)%nat; [by simplify_eq|].
    destruct (read_be16 f o) as [sp|]; cbn [mbind option_bind] in *; [|done].
    destruct (read_be16 f (o + 2)) as [dp|]; cbn [mbind option_bind] in *; [|done].
    destruct (read_be16 f (o + 4)); cbn [mbind option_bind] in *; [|done].
    destruct (_ || _) eqn:Hp.
    { destruct Hd. destruct (parse_dns _) as [[[]]|]; simplify_eq/=. split; [done|].
      unfold kDnsPort in Hp. cbn [md_source_port md_destination_port with_ports]. lia. }
    injection H as <-. cbn [md_transport with_ports] in Hlen. rewrite Ht in Hlen. cbn in Hlen.
    rewrite (proj2 (Nat.ltb_ge (length g - o) 8)) by lia.
    destruct (read_be16_Some g (o + 4)) as (dl & -> & _); [lia|]. done.
Qed.

Lemma parse_ports_only f m rest :
  parse_ethernet_frame inet_ntop4 inet_ntop6 f = Some m → md_valid m = true → ¬ dns_traffic m →
  (behind_ports (md_transport m) ≤ length rest)%nat →
  parse_ethernet_frame inet_ntop4 inet_ntop6 (take (transport_offset f + 4) f ++ rest) = Some m.
Proof.
  intros H Hv Hd Hr. unfold parse_ethernet_frame in *.
  destruct (Nat.ltb_spec (length f) kEthHeaderLen) as [|Hk]; [by simplify_eq|].
  destruct (parse_ip_safe inet_ntop4 inet_ntop6 f Hk) as (r & Hip & Hok).
  rewrite Hip in H. cbn [mbind option_bind] in H.
  destruct r as [[m1 o]|m1]; [|cbn in Hok; simplify_eq; congruence].
  destruct (parse_ip_offset _ _ _ Hip) as (H34 & Hof & <-). destruct Hok as [_ Ht].
  assert (H8 : (o + 4 ≤ length f)%nat).
  { destruct (decide (o + 4 ≤ length f)%nat); [done|exfalso]. unfold parse_transport in H.
    destruct Ht as [Ht|Ht]; rewrite Ht in H.
    - rewrite (proj2 (Nat.ltb_lt (length f - o) 20)) in H by lia. by simplify_eq.
    - rewrite (proj2 (Nat.ltb_lt (length f - o) 8)) in H by lia. by simplify_eq. }
  set (g := take (o + 4) f ++ rest).
  assert (Hg : length g = (o + 4 + length rest)%nat)
    by (unfold g; rewrite length_app, length_take_le by lia; lia).
  assert (Hag : ∀ n, (n ≤ o + 4)%nat → agree n f g).
  { intros n Hn. split_and!; [lia|lia|]. intros i Hi. unfold g.
    rewrite lookup_app_l by (rewrite length_take_le; lia). apply lookup_take_lt. lia. }
  unfold kEthHeaderLen in *. rewrite (proj2 (Nat.ltb_ge (length g) 14)) by lia.
  rewrite (parse_ip_agree f g m1 o) by (done || apply Hag; lia). cbn [mbind option_bind].
  eapply parse_transport_agree; [done..|by apply Hag|lia].
Qed.
End payload.

(** C13: Outside DNS on UDP port 53 the metadata of a frame that is passed on is
    a function of its Ethernet header, its IP header with the options, and the
    two ports: whatever replaces the bytes behind the ports, as long as a
    transport header of minimal length is left, gives the same metadata, so no
    byte of the application payload influences it.  (In a later fragment of an
    IPv4 datagram the first payload bytes stand where the ports are read.) *)
Theorem payload_independence inet_ntop4 inet_ntop6 f m rest :
  parse_ethernet_frame inet_ntop4 inet_ntop6 f = Some m → md_valid m = true → ¬ dns_traffic m →
  (behind_ports (md_transport m) ≤ length rest)%nat →
  parse_ethernet_frame inet_ntop4 inet_ntop6 (take (transport_offset f + 4) f ++ rest) = Some m.
Proof. apply parse_ports_only. Qed.

(** A TCP frame over IPv4 with four bytes of payload, and the addresses
    printed by a concrete formatter. *)
Definition sample_tcp_frame : list Z :=
  replicate 12 0 ++ [0x08; 0x00]
  ++ [0x45] ++ replicate 8 0 ++ [6; 0; 0; 10; 0; 0; 1; 10; 0; 0; 2]
  ++ [0xC0; 0x01; 0x01; 0xBB] ++ replicate 16 0 ++ [71; 69; 84; 32].
Definition hex_ntop (bytes : list Z) : option cstring := Some (bytes ≫= hex_of 2).

Lemma payload_independence_witness :
  parse_ethernet_frame hex_ntop hex_ntop
    (take 38 sample_tcp_frame ++ replicate 16 0xFF ++ [80; 65; 83; 83; 87; 79; 82; 68])
  = Some (mkMeta true Tcp Unknown "0a000001" "0a000002" 49153 443 [] 0 false).
Proof.
  apply (payload_independence hex_ntop hex_ntop sample_tcp_frame).
  - vm_compute. reflexivity.
  - reflexivity.
  - intros [H _]. discriminate H.
  - cbn. lia.
Defined.
