(* ===== verification/EventNormalizer.v ===== *)
(** * Event construction from packets ([src/capture/event_normalizer.cpp])

    The identifier generator with its process-wide counter, and the four
    constructors of normalized events.  The counter is threaded explicitly; the
    bytes read from [/dev/urandom] and the clock are arguments. *)
From S2P Require Import Prelude Double Types PacketParser.
Open Scope Z_scope.

(** ** Identifiers *)

(** [std::memcpy] of a 64-bit integer on a little-endian machine. *)
Fixpoint le_bytes (n : nat) (z : Z) : list Z :=
  match n with
  | O => []
  | S n => Z.land z 0xFF :: le_bytes n (Z.shiftr z 8)
  end.

(** The buffer after reading, all zero unless sixteen bytes arrived: [None] when
    the device cannot be opened, otherwise the bytes [fread] delivered. *)
Definition random_bytes (urandom : option (list Z)) : list Z :=
  match urandom with
  | Some got => if (length got =? 16)%nat then got else replicate 16 0
  | None => replicate 16 0
  end.

Definition hex_bytes (bytes : list Z) : cstring := bytes ≫= hex_of 2.

Definition uuid_bytes (urandom : option (list Z)) (seq : Z) : list Z :=
  let bytes := take 8 (random_bytes urandom) ++ le_bytes 8 seq in
  let bytes := alter (λ b, Z.lor (Z.land b 0x0F) 0x40) 6%nat bytes in
  alter (λ b, Z.lor (Z.land b 0x3F) 0x80) 8%nat bytes.

Definition format_uuid (b : list Z) : cstring :=
  hex_bytes (take 4 b) ++ "-" ++ hex_bytes (take 2 (drop 4 b)) ++ "-"
  ++ hex_bytes (take 2 (drop 6 b)) ++ "-" ++ hex_bytes (take 2 (drop 8 b))
  ++ "-" ++ hex_bytes (take 6 (drop 10 b)).

(** Returns the identifier and the counter after [fetch_add]. *)
Definition random_uuid (urandom : option (list Z)) (counter : Z) : cstring * Z :=
  (format_uuid (uuid_bytes urandom counter), u64 (counter + 1)).

(** ** Events *)
Section normalizer.
Context (urandom : option (list Z)) (counter : Z).

Definition packet_network (meta : PacketMetadata) (dns_name : cstring)
    (rcode : option Z) (interface : cstring) : NetworkInfo :=
  {| net_transport := md_transport meta;
     net_direction := md_direction meta;
     net_local_address := md_local_address meta;
     net_local_port := md_source_port meta;
     net_remote_address := md_remote_address meta;
     net_remote_port := md_destination_port meta;
     net_dns_query_name := dns_name;
     net_dns_response_code := rcode;
     net_interface := interface;
     net_backend := Pcap |}.

(** The fields every constructor of this class sets. *)
Definition normalized (type : EventType) (timestamp : Z) (confidence : double)
    (network : option NetworkInfo) (backends : list BackendStatus)
    (code message : cstring) : Event * Z :=
  let '(id, counter') := random_uuid urandom counter in
  ({| ev_schema_version := kEventSchemaVersion; ev_event_id := id;
      ev_type := type; ev_source := Pcap; ev_timestamp := timestamp;
      ev_confidence := confidence; ev_correlation_id := [];
      ev_process := None; ev_network := network; ev_browser := None;
      ev_privacy := default_PrivacyInfo; ev_backend_statuses := backends;
      ev_error_code := code; ev_error_message := message |}, counter').

Definition from_packet_metadata (meta : PacketMetadata) (timestamp : Z)
    (interface : cstring) : Event * Z :=
  normalized Connection timestamp (dlit 1 1)
    (Some (packet_network meta [] None interface)) [] [] [].

Definition dns_from_packet_metadata (meta : PacketMetadata) (timestamp : Z)
    (interface : cstring) : Event * Z :=
  normalized Dns timestamp (dlit 2 1)
    (Some (packet_network meta (md_dns_query_name meta)
             (if md_has_dns_response_code meta
              then Some (md_dns_response_code meta) else None) interface))
    [] [] [].

Definition status_event (now : Z) (backends : list BackendStatus) : Event * Z :=
  normalized Status now (dint 1) None backends [] [].

Definition error_event (now : Z) (code message : cstring) : Event * Z :=
  normalized Error now (dint 1) None [] code message.
End normalizer.

(** ** Lemmas on identifiers *)
Definition well_formed_uuid (s : cstring) : Prop :=
  length s = 36%nat ∧
  (∀ i, i ∈ [8; 13; 18; 23]%nat → s !! i = Some "-"%char) ∧
  s !! 14%nat = Some "4"%char ∧
  (∃ c, s !! 19%nat = Some c ∧ c ∈ lit "89ab").

Lemma random_bytes_length u : length (random_bytes u) = 16%nat.
Proof.
  destruct u as [got|]; [|done]. unfold random_bytes.
  destruct (Nat.eqb_spec (length got) 16); done.
Qed.

Lemma list_length_8 (l : list Z) :
  length l = 8%nat →
  ∃ b0 b1 b2 b3 b4 b5 b6 b7, l = [b0; b1; b2; b3; b4; b5; b6; b7].
Proof.
  intros H. do 8 (destruct l as [|? l]; [done|]). destruct l; [|done]. by eauto 10.
Qed.

Lemma random_prefix u :
  ∃ b0 b1 b2 b3 b4 b5 b6 b7,
    take 8 (random_bytes u) = [b0; b1; b2; b3; b4; b5; b6; b7].
Proof. apply list_length_8. by rewrite length_take, random_bytes_length. Qed.

(** The two masked bytes, in terms of their bits. *)
Lemma version_nibble b : Z.shiftr (Z.lor (Z.land b 0x0F) 0x40) 4 = 4.
Proof.
  rewrite Z.shiftr_lor, Z.shiftr_land. change (Z.shiftr 0x0F 4) with 0.
  by rewrite Z.land_0_r.
Qed.

Definition variant_byte (seq : Z) : Z := Z.lor (Z.land (Z.land seq 0xFF) 0x3F) 0x80.

Lemma variant_byte_value seq : variant_byte seq = 128 + seq mod 64.
Proof.
  unfold variant_byte. rewrite <-Z.land_assoc. change (Z.land 0xFF 0x3F) with (Z.ones 6).
  rewrite Z.land_ones by lia. change (2 ^ 6) with 64.
  pose proof (Z.mod_pos_bound seq 64).
  apply Z.eqb_eq, (seqZ_check (λ m, Z.lor m 128 =? 128 + m) 64); [lia|].
  vm_compute. reflexivity.
Qed.

(** The text around the variant byte, in terms of the counter. *)
Lemma random_uuid_text u seq :
  ∃ p s, fst (random_uuid u seq) = p ++ hex_of 2 (variant_byte seq) ++ s ∧
    length p = 19%nat.
Proof.
  destruct (random_prefix u) as (b0 & b1 & b2 & b3 & b4 & b5 & b6 & b7 & Hp).
  unfold random_uuid, uuid_bytes. rewrite Hp. cbn [fst].
  eexists (hex_bytes [b0; b1; b2; b3] ++ "-" ++ hex_bytes [b4; b5] ++ "-"
    ++ hex_bytes [Z.lor (Z.land b6 0x0F) 0x40; b7] ++ "-"), _. split; reflexivity.
Qed.

(** The low six bits of the counter are recoverable from the identifier. *)
Lemma random_uuid_counter u1 u2 s1 s2 :
  fst (random_uuid u1 s1) = fst (random_uuid u2 s2) → s1 mod 64 = s2 mod 64.
Proof.
  destruct (random_uuid_text u1 s1) as (p1 & t1 & -> & H1).
  destruct (random_uuid_text u2 s2) as (p2 & t2 & -> & H2).
  intros [_ H]%app_inj_1; [|congruence]. apply app_inj_1 in H as [H _]; [|done].
  apply hex_of_inj in H; rewrite ?variant_byte_value in *;
    pose proof (Z.mod_pos_bound s1 64); pose proof (Z.mod_pos_bound s2 64); lia.
Qed.

Lemma uuid_ok u seq : well_formed_uuid (fst (random_uuid u seq)).
Proof.
  destruct (random_prefix u) as (b0 & b1 & b2 & b3 & b4 & b5 & b6 & b7 & Hp).
  unfold random_uuid, uuid_bytes. rewrite Hp. cbn [fst].
  split; [done|]. split; [|split].
  - intros i Hi. repeat (apply elem_of_cons in Hi as [->|Hi]; [done|]).
    by apply not_elem_of_nil in Hi.
  - cbn -[Z.lor Z.land Z.shiftr hex_digit]. by rewrite version_nibble.
  - exists (hex_digit (Z.land (Z.shiftr (variant_byte seq) 4) 15)). split; [done|].
    rewrite variant_byte_value. pose proof (Z.mod_pos_bound seq 64).
    assert (Hc := seqZ_check (λ m, existsb (λ c, bool_decide
      (hex_digit (Z.land (Z.shiftr (128 + m) 4) 15) = c)) (lit "89ab")) 64 (seq mod 64)).
    apply mem_ascii, Hc; [lia|]. vm_compute. reflexivity.
Qed.

(** Every identifier is a version 4, variant 1 UUID in the canonical
    8-4-4-4-12 form, whether or not the random device could be read. *)
Theorem random_uuid_well_formed u seq : well_formed_uuid (fst (random_uuid u seq)).
Proof. apply uuid_ok. Qed.

(** Within any 64 consecutive identifiers no two are equal, whatever the
    random device returned: the counter alone separates them. *)
Theorem random_uuid_distinct u1 u2 s1 s2 :
  s1 < s2 < s1 + 64 → fst (random_uuid u1 s1) ≠ fst (random_uuid u2 s2).
Proof.
  intros Hs H%random_uuid_counter. revert H.
  Z.to_euclidean_division_equations. lia.
Qed.

Lemma random_uuid_distinct_witness :
  fst (random_uuid None 5) ≠ fst (random_uuid None 68).
Proof. apply (random_uuid_distinct None None 5 68). lia. Defined.

(** The variant mask is applied after the counter is copied in, so without
    randomness the counter does not keep identifiers unique: calls 0 and 64 of
    the process get the same one. *)
Theorem random_uuid_fallback_repeats :
  fst (random_uuid None 0) = fst (random_uuid None 64).
Proof. reflexivity. Qed.
