(* ===== verification/PcapCapture.v ===== *)
(** * The pcap backend ([src/capture/pcap/*])

    The filter validator, the packet handler that turns a captured frame into
    an event, and the life cycle of the backend object.  [CaptureBackend] is
    the interface of [pcap_capture.hpp] that the daemon programs against. *)
From S2P Require Import Prelude Double Types PacketParser EventNormalizer.
Open Scope Z_scope.

(** ** The capture backend interface

    [B] is the state of the backend object, [E] the outcomes of the system
    calls one [start] makes.  [None] stands for [std::terminate], which the
    destructor of a joinable [std::thread] calls. *)
Class CaptureBackend (B E : Type) := {
  backend_start : E → B → option (result cstring () * B);
  backend_stop : B → B;
  backend_running : B → bool;
  backend_destroy : B → option ();
}.

(** What the interface promises its client, the daemon. *)
Class CaptureBackendLaws (B E : Type) `{!CaptureBackend B E} := {
  start_ok_running e b b' :
    backend_start e b = Some (Ok (), b') → backend_running b' = true;
  start_err_stopped e b m b' :
    backend_start e b = Some (Err m, b') → backend_running b' = false;
  start_running_noop e b :
    backend_running b = true → backend_start e b = Some (Ok (), b);
  stop_not_running b : backend_running (backend_stop b) = false;
  stop_idempotent b : backend_stop (backend_stop b) = backend_stop b;
}.

(** The thread a backend owns: in its loop, or returned and not yet joined. *)
Inductive thread_status := Looping | Returned.

(** ** The filter validator ([pcap_filter.cpp]) *)
Definition allowed_tokens : list cstring :=
  lit <$> ["ip"; "ip6"; "tcp"; "udp"; "icmp"; "host"; "net"; "port"; "ports"; "src";
   "dst"; "and"; "or"; "not"; "ether"; "arp"; "rarp"; "ipproto"; "broadcast";
   "less"; "greater"; "len"]%string.

Definition is_word_char (c : ascii) : bool :=
  isalnum c || is_char "." c || is_char ":" c || is_char "/" c.

Definition is_number (s : cstring) : bool := negb (is_empty s) && forallb isdigit s.

(** The counting loop: [None] is the early [return false]. *)
Fixpoint count_separators (s : cstring) (colons dots : Z) : option (Z * Z) :=
  match s with
  | [] => Some (colons, dots)
  | c :: s =>
      if is_char ":" c then count_separators s (colons + 1) dots
      else if is_char "." c then count_separators s colons (dots + 1)
      else if negb (isxdigit c) && negb (is_char "/" c) then None
      else count_separators s colons dots
  end.

Definition looks_like_literal (s : cstring) : bool :=
  if is_number s then true
  else
    match count_separators s 0 0 with
    | None => false
    | Some (colons, dots) => (0 <? dots) || (0 <? colons)
    end.

Definition token_known (token : cstring) : bool :=
  mem token allowed_tokens || looks_like_literal token.

(** [flush]: check and clear the pending token, then reject [which]. *)
Definition flush (token : cstring) (paren : bool) (which : ascii) :
    result cstring () :=
  ensure (is_empty token || token_known token) (lit "disallowed token in filter") ≫= λ _,
  ensure (negb paren) (lit "unexpected character in filter: " ++ [which]).

Definition is_blank (c : ascii) : bool :=
  is_char " " c || is_char "009" c || is_char "010" c.
Definition is_paren (c : ascii) : bool := is_char "(" c || is_char ")" c.

Fixpoint validate_loop (token filter : cstring) : result cstring () :=
  match filter with
  | [] => flush token false " "
  | c :: filter =>
      if is_word_char c then validate_loop (token ++ [c]) filter
      else if is_blank c then
        flush token false " " ≫= λ _, validate_loop [] filter
      else if is_paren c then
        flush token false c ≫= λ _, validate_loop [] filter
      else
        flush token true c ≫= λ _, validate_loop [] filter
  end.

Definition validate (filter : cstring) : result cstring () :=
  if is_empty filter then Err (lit "empty filter")
  else if 256 <? zlen filter then Err (lit "filter too long")
  else validate_loop [] filter.

(** ** The packet handler ([run_loop]) *)

(** The record header; its [caplen] is the number of captured bytes. *)
Record pcap_pkthdr := mkHdr { hdr_len : Z; tv_sec : Z; tv_usec : Z }.

Section handler.
Context (inet_ntop4 inet_ntop6 : list Z → option cstring).

Definition is_dns (meta : PacketMetadata) : bool :=
  negb (is_empty (md_dns_query_name meta))
  || (bool_decide (md_transport meta = Udp)
      && ((md_destination_port meta =? 53) || (md_source_port meta =? 53))).

(** One captured record: the event handed to the callback, if any, and the
    identifier counter.  [bytes] are the [caplen] captured bytes; the outer
    [None] is an out-of-bounds read. *)
Definition handle_packet (interface : cstring) (header : pcap_pkthdr)
    (bytes : list Z) (urandom : option (list Z)) (counter : Z) :
    option (option Event * Z) :=
  if hdr_len header <? zlen bytes then Some (None, counter)
  else
    meta ← parse_ethernet_frame inet_ntop4 inet_ntop6 bytes;
    if negb (md_valid meta) then Some (None, counter)
    else
      let ts := tv_sec header * 10 ^ 9 + tv_usec header * 10 ^ 3 in
      let '(event, counter) :=
        if is_dns meta
        then dns_from_packet_metadata urandom counter meta ts interface
        else from_packet_metadata urandom counter meta ts interface in
      Some (Some event, counter).
End handler.

(** ** The backend object ([pcap_capture.cpp]) *)

(** What libpcap answers to one [start]. *)
Record PcapEnv := mkPcapEnv {
  create_ok : bool;
  configure_ok : bool;
  activate_ok : bool;
  compile_ok : bool;
  setfilter_ok : bool;
}.

(** [pb_open] counts the libpcap handles the process holds. *)
Record PcapBackend := mkPcapBackend {
  pb_handle : bool;
  pb_running : bool;
  pb_thread : option thread_status;
  pb_open : nat;
}.

Definition new_PcapBackend : PcapBackend := mkPcapBackend false false None 0.

Definition close_handle (b : PcapBackend) : PcapBackend :=
  mkPcapBackend false (pb_running b) (pb_thread b) (pred (pb_open b)).

(** Assigning [thread_] destroys the previous thread object; a joinable one
    terminates the process. *)
Definition assign_thread {T} (old : option thread_status) (k : T) : option T :=
  match old with Some _ => None | None => Some k end.

Definition pcap_start (e : PcapEnv) (b : PcapBackend) :
    option (result cstring () * PcapBackend) :=
  if pb_running b then Some (Ok (), b)
  else if negb (create_ok e) then
    Some (Err (lit "pcap_create failed on interface (permission or missing device)"),
          mkPcapBackend false false (pb_thread b) (pb_open b))
  else
    let opened := mkPcapBackend true false (pb_thread b) (S (pb_open b)) in
    if negb (configure_ok e) then
      Some (Err (lit "pcap configuration failed"), close_handle opened)
    else if negb (activate_ok e) then
      Some (Err (lit "pcap_activate failed (permission or busy device)"),
            close_handle opened)
    else if negb (compile_ok e) then
      Some (Err (lit "capture filter rejected"), close_handle opened)
    else if negb (setfilter_ok e) then
      Some (Err (lit "pcap_setfilter failed"), close_handle opened)
    else
      assign_thread (pb_thread b)
        (Ok (), mkPcapBackend true true (Some Looping) (pb_open opened)).

(** Joining waits for the loop, which [running_ = false] and [pcap_breakloop]
    end; a null [thread_] is skipped. *)
Definition pcap_stop (b : PcapBackend) : PcapBackend :=
  if negb (pb_running b) then b
  else
    let joined := mkPcapBackend (pb_handle b) false None (pb_open b) in
    if pb_handle joined then close_handle joined else joined.

Definition pcap_destroy (b : PcapBackend) : option () :=
  match pb_thread (pcap_stop b) with Some _ => None | None => Some () end.

(** One round of [run_loop] after [pcap_dispatch] returned. *)
Inductive dispatch_rc := RcPackets | RcBreak | RcError.

Definition run_loop_step (rc : dispatch_rc) (b : PcapBackend) : PcapBackend :=
  match pb_thread b with
  | Some Looping =>
      if negb (pb_running b)
      then mkPcapBackend (pb_handle b) (pb_running b) (Some Returned) (pb_open b)
      else
        match rc with
        | RcPackets => b
        | RcBreak =>
            mkPcapBackend (pb_handle b) (pb_running b) (Some Returned) (pb_open b)
        | RcError =>
            mkPcapBackend (pb_handle b) false (Some Returned) (pb_open b)
        end
  | _ => b
  end.

#[global] Instance pcap_backend : CaptureBackend PcapBackend PcapEnv := {
  backend_start := pcap_start;
  backend_stop := pcap_stop;
  backend_running := pb_running;
  backend_destroy := pcap_destroy;
}.

(** ** The filter grammar

    A filter is accepted when it is made of the allowed characters and every
    maximal run of word characters is a known token. *)
Fixpoint words (s : cstring) : list cstring :=
  match s with
  | [] => [[]]
  | c :: s =>
      if is_word_char c then
        match words s with
        | w :: ws => (c :: w) :: ws
        | [] => [[c]]
        end
      else [] :: words s
  end.

Definition filter_char (c : ascii) : bool :=
  is_word_char c || is_blank c || is_paren c.
Definition word_ok (w : cstring) : bool := is_empty w || token_known w.

Lemma words_cons s : ∃ w ws, words s = w :: ws.
Proof.
  induction s as [|c s (w & ws & IH)]; simpl; [by eauto|].
  destruct (is_word_char c); [rewrite IH|]; eauto.
Qed.

Lemma flush_ok token paren which :
  flush token paren which = Ok () ↔ word_ok token = true ∧ paren = false.
Proof.
  unfold flush, ensure, word_ok. destruct (is_empty token || token_known token), paren;
    naive_solver.
Qed.

Lemma bind_ok_unit (m k : result cstring ()) :
  (m ≫= λ _, k) = Ok () ↔ m = Ok () ∧ k = Ok ().
Proof. destruct m as [[]|]; naive_solver. Qed.

Definition accepted (token s : cstring) : bool :=
  forallb filter_char s &&
  match words s with
  | w :: ws => word_ok (token ++ w) && forallb word_ok ws
  | [] => true
  end.

Lemma validate_loop_ok token s :
  validate_loop token s = Ok () ↔ accepted token s = true.
Proof.
  revert token. induction s as [|c s IH]; intros token.
  { cbn [validate_loop]. rewrite flush_ok. unfold accepted. cbn. rewrite app_nil_r.
    rewrite !andb_true_r. naive_solver. }
  unfold accepted. cbn [validate_loop words forallb]. unfold filter_char at 1.
  destruct (words_cons s) as (w & ws & Hw).
  assert (IH0 := IH []). unfold accepted in IH0. rewrite Hw in IH0 |- *.
  destruct (is_word_char c); cbn [orb andb].
  { rewrite IH. unfold accepted. rewrite Hw, <-(assoc_L (++)). done. }
  cbn [forallb]. rewrite app_nil_r, !andb_true_iff.
  destruct (is_blank c), (is_paren c); cbn [orb];
    rewrite bind_ok_unit, flush_ok, IH0, ?andb_true_iff; cbn [app]; naive_solver.
Qed.

(** The validator accepts exactly the filters of 1 to 256 bytes that
    contain only word characters, blanks and parentheses and whose words are
    all keywords of the restricted grammar or numeric or address literals. *)
Theorem validate_spec filter :
  validate filter = Ok () ↔
  0 < zlen filter ≤ 256 ∧ forallb filter_char filter = true ∧
  forallb word_ok (words filter) = true.
Proof.
  unfold validate, zlen. destruct filter as [|c s]; [cbn; naive_solver lia|].
  cbn [is_empty]. destruct (Z.ltb_spec 256 (Z.of_nat (length (c :: s)))).
  { naive_solver lia. }
  rewrite validate_loop_ok. unfold accepted.
  destruct (words_cons (c :: s)) as (w & ws & ->). cbn [app].
  rewrite !andb_true_iff. cbn [length] in *. cbn [forallb]. rewrite !andb_true_iff.
  naive_solver lia.
Qed.

(** The keywords [port] and [len] with a literal, parentheses and
    conjunction pass; an indexing expression that would inspect payload bytes
    does not. *)
Theorem validate_rejects_indexing :
  validate "ip and (tcp port 443 or udp port 53) and len 128" = Ok () ∧
  validate "tcp[13] = 2" = Err (lit "unexpected character in filter: [").
Proof. split; reflexivity. Qed.

(** ** The packet handler produces metadata only *)
Definition pcap_event_ok (ev : Event) : Prop :=
  ev_source ev = Pcap ∧ ev_process ev = None ∧ ev_browser ev = None ∧
  pv_metadata_only (ev_privacy ev) = true ∧ ev_backend_statuses ev = [] ∧
  well_formed_uuid (ev_event_id ev) ∧
  ∃ n, ev_network ev = Some n ∧
    (net_transport n = Tcp ∨ net_transport n = Udp) ∧
    0 ≤ net_local_port n < 2 ^ 16 ∧ 0 ≤ net_remote_port n < 2 ^ 16 ∧
    zlen (net_dns_query_name n) ≤ 252 ∧
    Forall (λ c, dns_name_char c = true) (net_dns_query_name n) ∧
    ev_type ev =
      (if decide (net_transport n = Udp ∧ (net_local_port n = 53 ∨ net_remote_port n = 53))
       then Dns else Connection) ∧
    (net_dns_query_name n ≠ [] → ev_type ev = Dns).

Lemma is_dns_spec m :
  meta_ok m →
  is_dns m = bool_decide (md_transport m = Udp ∧
    (md_source_port m = 53 ∨ md_destination_port m = 53)).
Proof.
  intros (_ & _ & _ & (_ & _ & _ & Hn) & Hh). unfold is_dns.
  destruct (is_empty (md_dns_query_name m)) eqn:He; cbn [negb orb].
  - rewrite !bool_decide_and, bool_decide_or, orb_comm. f_equal.
    destruct (Z.eqb_spec (md_source_port m) 53), (Z.eqb_spec (md_destination_port m) 53);
      repeat case_bool_decide; done.
  - apply is_empty_false in He. symmetry. apply bool_decide_eq_true. auto.
Qed.

(** The handler of a captured record never reads outside the record; what
    it passes on is a TCP or UDP metadata event with no process or tab data,
    classified as DNS exactly when it is UDP with port 53 on one side, and a
    query name occurs only in DNS events. *)
Theorem handle_packet_metadata_only ntop4 ntop6 ifc hdr bytes u counter :
  ∃ r c', handle_packet ntop4 ntop6 ifc hdr bytes u counter = Some (r, c') ∧
    ∀ ev, r = Some ev → pcap_event_ok ev.
Proof.
  unfold handle_packet. destruct (hdr_len hdr <? zlen bytes); [by do 2 eexists|].
  destruct (parse_ethernet_frame_spec ntop4 ntop6 bytes) as (m & -> & Hm).
  cbn [mbind option_bind]. destruct (md_valid m); cbn [negb]; [|by do 2 eexists].
  specialize (Hm eq_refl). rewrite (is_dns_spec m Hm).
  pose proof (uuid_ok u counter). destruct Hm as (Ht & Hs & Hd & (_ & Hl & Hf & Hne) & Hh).
  case_bool_decide as Hdns; do 2 eexists; (split; [done|]); intros ? [= <-];
    (split_and!; [done..|]); eexists; (split; [done|]); cbn -[decide dns_name_char].
  - rewrite decide_True by done. split_and!; (done || lia).
  - rewrite decide_False by done. split_and!; (done || lia || by constructor).
Qed.

(** On the pseudo-device ["any"], the last candidate of the daemon, libpcap
    delivers Linux cooked frames: packet type, device type, address length, an
    address of six bytes padded with two zeros, protocol.  The handler takes the
    padding for the Ethernet type, so it never makes an event of such a frame. *)
Definition cooked_frame (packet_type device_type address_len address protocol payload : list Z) :
    list Z := packet_type ++ device_type ++ address_len ++ address ++ [0; 0] ++ protocol ++ payload.

Theorem cooked_frames_ignored ntop4 ntop6 ifc hdr u counter pt dt al address proto payload :
  length pt = 2%nat → length dt = 2%nat → length al = 2%nat → length address = 6%nat →
  handle_packet ntop4 ntop6 ifc hdr (cooked_frame pt dt al address proto payload) u counter
  = Some (None, counter).
Proof.
  intros H1 H2 H3 H4. unfold handle_packet. destruct (_ <? _); [done|].
  assert (Hp : parse_ethernet_frame ntop4 ntop6 (cooked_frame pt dt al address proto payload)
    = Some default_meta); [|by rewrite Hp].
  unfold parse_ethernet_frame. destruct (_ <? _)%nat; [done|]. unfold parse_ip.
  destruct pt as [|? [|? []]], dt as [|? [|? []]], al as [|? [|? []]],
    address as [|? [|? [|? [|? [|? [|? []]]]]]]; try discriminate. reflexivity.
Qed.

Lemma cooked_frames_ignored_witness :
  handle_packet (λ _, None) (λ _, None) (lit "any") (mkHdr 100 0 0)
    (cooked_frame [0; 0] [0; 1] [0; 6] [2; 0; 0; 0; 0; 1] [8; 0]
       ([69; 0; 0; 28; 0; 0; 0; 0; 64; 17; 0; 0; 10; 0; 0; 1; 10; 0; 0; 2]
        ++ [0; 80; 0; 53; 0; 8; 0; 0])) None 0
  = Some (None, 0).
Proof. apply cooked_frames_ignored; reflexivity. Defined.

(** The fragment offset of the IPv4 header is not looked at: in a later fragment
    the first bytes of the payload are reported as ports. *)
Definition later_fragment (payload : list Z) : list Z :=
  repeat 0 12 ++ [8; 0]
  ++ [69; 0; 0; 28; 0; 1; 0; 185; 64; 17; 0; 0; 10; 0; 0; 1; 10; 0; 0; 2] ++ payload.

Example fragment_payload_reported :
  (λ m, (md_valid m, md_source_port m, md_destination_port m)) <$>
    parse_ethernet_frame (λ _, None) (λ _, None)
      (later_fragment [115; 101; 99; 114; 101; 116; 33; 33])
  = Some (true, 29541, 25458).
Proof. vm_compute. reflexivity. Qed.

(** ** The life cycle *)
Inductive backend_op := OpStart (e : PcapEnv) | OpStop | OpLoop (rc : dispatch_rc).

Definition backend_step (op : backend_op) (b : PcapBackend) : option PcapBackend :=
  match op with
  | OpStart e => snd <$> pcap_start e b
  | OpStop => Some (pcap_stop b)
  | OpLoop rc => Some (run_loop_step rc b)
  end.

Definition backend_run (ops : list backend_op) (b : PcapBackend) : option PcapBackend :=
  foldl (λ r op, r ≫= backend_step op) (Some b) ops.

Definition backend_inv (b : PcapBackend) : Prop :=
  if pb_running b
  then pb_handle b = true ∧ is_Some (pb_thread b) ∧ pb_open b = 1%nat
  else pb_handle b = false ∧ pb_thread b = None ∧ pb_open b = 0%nat.

Lemma backend_step_inv op b :
  op ≠ OpLoop RcError → backend_inv b →
  ∃ b', backend_step op b = Some b' ∧ backend_inv b'.
Proof.
  destruct b as [h [] t o]; intros Hop; cbn; intros (-> & Ht & ->).
  - destruct Ht as [[] ->], op as [e| |[]]; cbn; try done;
      (eexists; split; [done|]); by cbn; eauto.
  - subst t. destruct op as [[[] [] [] [] []]| |rc]; cbn;
      (eexists; split; [done|]); by cbn; eauto.
Qed.

Lemma backend_run_inv ops b :
  OpLoop RcError ∉ ops → backend_inv b →
  ∃ b', backend_run ops b = Some b' ∧ backend_inv b'.
Proof.
  unfold backend_run. revert b. induction ops as [|op ops IH]; intros b Hops Hb;
    [by eauto|]. apply not_elem_of_cons in Hops as [Hop Hops].
  destruct (backend_step_inv op b) as (b' & Hs & Hb'); [done..|].
  cbn. rewrite Hs. by apply IH.
Qed.

#[global] Instance pcap_backend_laws : CaptureBackendLaws PcapBackend PcapEnv.
Proof.
  split; cbn.
  - intros [[] [] [] [] []] [? [] [] ?] ?; cbn; naive_solver.
  - intros [[] [] [] [] []] [? [] [] ?] ? ?; cbn; naive_solver.
  - intros e [? [] ? ?] ?; done.
  - intros [[] [] ? ?]; done.
  - intros [[] [] ? ?]; done.
Qed.

(** As long as libpcap reports no dispatch error, any sequence of starts
    (successful or failing at any step), stops and loop rounds keeps the
    backend consistent: no restart terminates the process, a handle is open
    exactly while it runs, and destruction joins the thread and releases it. *)
Theorem pcap_lifecycle_safe ops :
  OpLoop RcError ∉ ops →
  ∃ b, backend_run ops new_PcapBackend = Some b ∧ backend_inv b ∧
    pcap_destroy b = Some () ∧ pb_open (pcap_stop b) = 0%nat.
Proof.
  intros Hops. destruct (backend_run_inv ops new_PcapBackend) as (b & Hb & Hinv);
    [done..|]. exists b. do 2 (split; [done|]).
  destruct b as [h [] t o]; cbn in Hinv; destruct Hinv as (-> & Ht & ->); [done|].
  by subst t.
Qed.

Definition all_ok : PcapEnv := mkPcapEnv true true true true true.

Lemma pcap_lifecycle_safe_witness :
  ∃ b, backend_run [OpStart (mkPcapEnv true true true false true); OpStart all_ok;
                    OpLoop RcPackets; OpStop; OpStart all_ok] new_PcapBackend = Some b ∧
    backend_inv b ∧ pcap_destroy b = Some () ∧ pb_open (pcap_stop b) = 0%nat.
Proof.
  apply (pcap_lifecycle_safe [OpStart (mkPcapEnv true true true false true);
    OpStart all_ok; OpLoop RcPackets; OpStop; OpStart all_ok]).
  intros H. repeat (apply elem_of_cons in H as [H|H]; [discriminate H|]).
  by apply not_elem_of_nil in H.
Defined.

(** A dispatch error clears [running_] in the loop thread, after which
    [stop] returns early without joining: the handle stays open, and both
    destroying the backend and starting it again terminate the process. *)
Theorem pcap_dispatch_error_terminates b b' e :
  pcap_start e b = Some (Ok (), b') → pb_running b = false →
  let failed := run_loop_step RcError b' in
  pcap_stop failed = failed ∧ pb_open failed = S (pb_open b) ∧
  pcap_destroy failed = None ∧ pcap_start all_ok failed = None.
Proof.
  intros Hs Hr. destruct b as [h r t o], e as [[] [] [] [] []]; cbn in Hr; subst r;
    cbn in Hs; try done. destruct t; [done|]. by injection Hs as <-.
Qed.

Lemma pcap_dispatch_error_terminates_witness :
  pcap_destroy (run_loop_step RcError (mkPcapBackend true true (Some Looping) 1)) = None.
Proof.
  refine (proj1 (proj2 (proj2
    (pcap_dispatch_error_terminates new_PcapBackend _ all_ok eq_refl eq_refl)))).
Defined.
