(* ===== verification/EbpfCapture.v ===== *)
(** * The eBPF backend ([src/capture/ebpf/*], [src/common/process_info.cpp])

    Ring-buffer records are byte lists laid out as the structures of
    [ebpf/include/ebpf_events.h] on a little-endian 64-bit machine.  A cast of
    the record pointer to a structure becomes bounds-checked field reads, so a
    record shorter than the structure would show as [None]. *)
From S2P Require Import Prelude Double Types Time PacketParser PcapCapture.
Open Scope Z_scope.

(** ** Constants and layout *)
Definition EZCAP_EVENT_VERSION : Z := 1.
Definition EZCAP_EVENT_TAG_CONNECT : Z := 1.
Definition EZCAP_EVENT_TAG_DNS : Z := 2.
Definition EZCAP_EVENT_TAG_SOCKET_STATE : Z := 3.
Definition EZCAP_IFNAME_MAX : nat := 16.
Definition EZCAP_DNS_NAME_MAX : nat := 253.

Definition sizeof_header : Z := 24.
Definition sizeof_connect_event : Z := 88.
Definition sizeof_dns_event : Z := 328.
Definition sizeof_socket_state_event : Z := 112.

(** A little-endian field of [n] bytes. *)
Definition le_value (bytes : list Z) : Z :=
  foldr (λ b acc, b + Z.shiftl acc 8) 0 bytes.
Definition read_le (data : list Z) (o n : nat) : option Z :=
  le_value <$> read_bytes data o n.

Record ezcap_event_header := mkHeader {
  h_version : Z; h_tag : Z; h_pid : Z; h_uid : Z; h_timestamp_ns : Z;
}.

Definition read_header (data : list Z) : option ezcap_event_header :=
  version ← read_le data 0 1;
  tag ← read_le data 1 1;
  pid ← read_le data 4 4;
  uid ← read_le data 8 4;
  ts ← read_le data 16 8;
  Some (mkHeader version tag pid uid ts).

(** The fields of a connect or socket-state event that the daemon uses; the
    two structures agree up to [is_ipv6]. *)
Record ezcap_socket_event := mkSocket {
  c_hdr : ezcap_event_header;
  c_local_addr4 : list Z; c_remote_addr4 : list Z;
  c_local_addr6 : list Z; c_remote_addr6 : list Z;
  c_local_port : Z; c_remote_port : Z;
  c_transport : Z; c_direction : Z; c_is_ipv6 : Z;
  c_ifname : list Z;
}.

Definition read_socket_event (ifname_off : nat) (data : list Z) :
    option ezcap_socket_event :=
  hdr ← read_header data;
  l4 ← read_bytes data 24 4;
  r4 ← read_bytes data 28 4;
  l6 ← read_bytes data 32 16;
  r6 ← read_bytes data 48 16;
  lp ← read_le data 64 2;
  rp ← read_le data 66 2;
  tr ← read_le data 68 1;
  dir ← read_le data 69 1;
  v6 ← read_le data 70 1;
  ifn ← read_bytes data ifname_off EZCAP_IFNAME_MAX;
  Some (mkSocket hdr l4 r4 l6 r6 lp rp tr dir v6 ifn).

Definition read_connect_event : list Z → option ezcap_socket_event :=
  read_socket_event 72.
Definition read_socket_state_event : list Z → option ezcap_socket_event :=
  read_socket_event 96.

Record ezcap_dns_event := mkDns {
  d_hdr : ezcap_event_header;
  d_local_addr4 : list Z; d_local_addr6 : list Z;
  d_local_port : Z; d_is_ipv6 : Z; d_transport : Z; d_query_len : Z;
  d_query_name : list Z; d_ifname : list Z;
}.

Definition read_dns_event (data : list Z) : option ezcap_dns_event :=
  hdr ← read_header data;
  l4 ← read_bytes data 24 4;
  l6 ← read_bytes data 28 16;
  lp ← read_le data 44 2;
  v6 ← read_le data 48 1;
  tr ← read_le data 49 1;
  ql ← read_le data 50 2;
  qn ← read_bytes data 52 EZCAP_DNS_NAME_MAX;
  ifn ← read_bytes data 305 EZCAP_IFNAME_MAX;
  Some (mkDns hdr l4 l6 lp v6 tr ql qn ifn).

(** ** Normalization ([ebpf_events.cpp]) *)

Fixpoint bounded_string (src : list Z) (cap : nat) : cstring :=
  match cap, src with
  | S cap, b :: src => if b =? 0 then [] else chr b :: bounded_string src cap
  | _, _ => []
  end.

Section ebpf.
Context (inet_ntop4 inet_ntop6 : list Z → option cstring).

Definition ebpf_process (h : ezcap_event_header) : ProcessInfo :=
  mkProcessInfo (h_pid h) [] (Some (h_uid h)).

Definition ebpf_direction (d : Z) : Direction :=
  if d =? 1 then Outbound else if d =? 2 then Inbound else Unknown.

Definition ebpf_event (type : EventType) (hdr : ezcap_event_header)
    (boot : Z) (confidence : double) (network : NetworkInfo) : Event :=
  {| ev_schema_version := kEventSchemaVersion; ev_event_id := [];
     ev_type := type; ev_source := Ebpf;
     ev_timestamp := from_ktime_ns (h_timestamp_ns hdr) boot;
     ev_confidence := confidence; ev_correlation_id := [];
     ev_process := Some (ebpf_process hdr); ev_network := Some network;
     ev_browser := None; ev_privacy := default_PrivacyInfo;
     ev_backend_statuses := []; ev_error_code := []; ev_error_message := [] |}.

Definition socket_network (raw : ezcap_socket_event) (t : Transport) : NetworkInfo :=
  let v6 := negb (c_is_ipv6 raw =? 0) in
  {| net_transport := t;
     net_direction := ebpf_direction (c_direction raw);
     net_local_address :=
       if v6 then format_ipv6 inet_ntop6 (c_local_addr6 raw)
       else format_ipv4 inet_ntop4 (c_local_addr4 raw);
     net_local_port := c_local_port raw;
     net_remote_address :=
       if v6 then format_ipv6 inet_ntop6 (c_remote_addr6 raw)
       else format_ipv4 inet_ntop4 (c_remote_addr4 raw);
     net_remote_port := c_remote_port raw;
     net_dns_query_name := []; net_dns_response_code := None;
     net_interface := bounded_string (c_ifname raw) EZCAP_IFNAME_MAX;
     net_backend := Ebpf |}.

Definition normalize_connect_event (raw : ezcap_socket_event) (boot : Z) : Event :=
  let t := if c_transport raw =? 6 then Tcp
           else if c_transport raw =? 17 then Udp else Other in
  ebpf_event Connection (c_hdr raw) boot (dlit 95 2) (socket_network raw t).

Definition normalize_socket_state_event (raw : ezcap_socket_event) (boot : Z) : Event :=
  ebpf_event Connection (c_hdr raw) boot (dlit 9 1) (socket_network raw Tcp).

Definition normalize_dns_event (raw : ezcap_dns_event) (boot : Z) : Event :=
  ebpf_event Dns (d_hdr raw) boot (dlit 9 1)
    {| net_transport := if d_transport raw =? 17 then Udp else Other;
       net_direction := Unknown;
       net_local_address :=
         if negb (d_is_ipv6 raw =? 0) then format_ipv6 inet_ntop6 (d_local_addr6 raw)
         else format_ipv4 inet_ntop4 (d_local_addr4 raw);
       net_local_port := d_local_port raw;
       net_remote_address := []; net_remote_port := 0;
       net_dns_query_name :=
         if (0 <? d_query_len raw) && (d_query_len raw <=? Z.of_nat EZCAP_DNS_NAME_MAX)
         then bounded_string (d_query_name raw) (Z.to_nat (d_query_len raw)) else [];
       net_dns_response_code := None;
       net_interface := bounded_string (d_ifname raw) EZCAP_IFNAME_MAX;
       net_backend := Ebpf |}.

(** The ring-buffer callback of [start]: the event handed on, if any. *)
Definition handle_record (boot : Z) (data : list Z) : option (option Event) :=
  let size := zlen data in
  if size <? sizeof_header then Some None
  else
    hdr ← read_header data;
    if negb (h_version hdr =? EZCAP_EVENT_VERSION) then Some None
    else if h_tag hdr =? EZCAP_EVENT_TAG_CONNECT then
      if sizeof_connect_event <=? size then
        raw ← read_connect_event data; Some (Some (normalize_connect_event raw boot))
      else Some None
    else if h_tag hdr =? EZCAP_EVENT_TAG_DNS then
      if sizeof_dns_event <=? size then
        raw ← read_dns_event data; Some (Some (normalize_dns_event raw boot))
      else Some None
    else if h_tag hdr =? EZCAP_EVENT_TAG_SOCKET_STATE then
      if sizeof_socket_state_event <=? size then
        raw ← read_socket_state_event data;
        Some (Some (normalize_socket_state_event raw boot))
      else Some None
    else Some None.
End ebpf.

(** ** Boot time ([ebpf_manager.cpp]) *)

(** [std::atoll] on the text after the key: an optional blank run and sign,
    then decimal digits. *)
Definition is_space (c : ascii) : bool :=
  is_char " " c || ((9 <=? ord c) && (ord c <=? 13)).
Fixpoint skip_spaces (s : cstring) : cstring :=
  match s with
  | c :: s' => if is_space c then skip_spaces s' else s
  | [] => []
  end.
Fixpoint read_digits (s : cstring) (acc : Z) : Z :=
  match s with
  | c :: s' => if isdigit c then read_digits s' (10 * acc + (ord c - ord "0")) else acc
  | [] => acc
  end.
Definition atoll (s : cstring) : Z :=
  match skip_spaces s with
  | c :: s' =>
      if is_char "-" c then - read_digits s' 0
      else if is_char "+" c then read_digits s' 0
      else read_digits (c :: s') 0
  | [] => 0
  end.

(** [stat] is the content of [/proc/stat]; one [read] delivers at most 4095
    bytes of it.  The result is in nanoseconds since the epoch. *)
Definition boot_walltime (stat : option cstring) : Z :=
  match stat with
  | None => 0
  | Some text =>
      let buf := c_string (take 4095 text) in
      match find_sub "btime " buf with
      | None => 0
      | Some i =>
          let secs := atoll (drop (i + 6) buf) in
          if 0 <? secs then secs * 10 ^ 9 else 0
      end
  end.

(** ** Process names ([process_info.cpp]) *)
Fixpoint strip_trailing (s : cstring) : cstring :=
  match s with
  | [] => []
  | c :: s =>
      match strip_trailing s with
      | [] => if is_char "010" c || is_char "000" c then [] else [c]
      | s' => c :: s'
      end
  end.

(** [comm] is the content of [/proc/<pid>/comm], [None] when it cannot be
    opened; one [read] of at most 63 bytes is made. *)
Definition read_process_comm (comm : Z → option cstring) (pid : Z) : cstring :=
  if pid =? 0 then []
  else
    match comm pid with
    | None => []
    | Some text => strip_trailing (take 63 text)
    end.

Definition lookup_process_name (comm : Z → option cstring) (info : ProcessInfo) :
    ProcessInfo :=
  mkProcessInfo (proc_pid info) (take 64 (read_process_comm comm (proc_pid info)))
    (proc_uid info).

(** ** The loader ([ebpf_manager.cpp]) *)
Definition path_join (base name : cstring) : cstring :=
  match last base with
  | Some c => if is_char "/" c then base ++ name else base ++ "/" ++ name
  | None => name
  end.

(** The directory of the program: [link] is what [readlink] yields for
    [/proc/self/exe], a canonical path, cut to the 511 bytes of the buffer and to
    its first NUL. *)
Definition parent_path (p : cstring) : cstring :=
  match find_last (is_char "/") p with
  | None => []
  | Some O => lit "/"
  | Some i => take i p
  end.
Definition read_executable_dir (link : option cstring) : cstring :=
  match link with
  | None | Some [] => []
  | Some l => parent_path (c_string (take 511 l))
  end.

Definition ebpf_candidates (configured exe_dir : cstring) : list cstring :=
  (if is_empty configured then [] else [configured])
  ++ (if is_empty exe_dir then []
      else path_join exe_dir <$>
        (lit <$> ["ezcap.bpf.o"; "lib/ezcap/ezcap.bpf.o"; "lib64/ezcap/ezcap.bpf.o";
                  "ebpf/ezcap.bpf.o"; "ebpf/generated/ezcap.bpf.o";
                  "../lib/ezcap/ezcap.bpf.o"; "../lib64/ezcap/ezcap.bpf.o"]%string)).

(** [regular] answers [exists && is_regular_file && !ec] for a path. *)
Definition find_existing_ebpf_object (regular : cstring → bool)
    (configured exe_dir : cstring) : cstring :=
  let candidates := ebpf_candidates configured exe_dir in
  match find_pred regular candidates with
  | Some i => default [] (candidates !! i)
  | None => []
  end.

Definition resolve_object_path (regular : cstring → bool) (configured : cstring)
    (link : option cstring) : cstring :=
  find_existing_ebpf_object regular configured (read_executable_dir link).

Inductive open_outcome := OpenNull | OpenErrno (open_errno : Z) | OpenOk.

(** What the file system and libbpf answer to one [start]; [attach] has one
    entry per program of the object. *)
Record EbpfEnv := mkEbpfEnv {
  btf_present : bool;
  object_path : cstring;
  open_object : open_outcome;
  load_ok : bool;
  attach : list bool;
  events_map : bool;
  ringbuf_ok : bool;
}.

(** [eb_links] counts the program links that are attached. *)
Record EbpfBackend := mkEbpfBackend {
  eb_object : bool;
  eb_ringbuf : bool;
  eb_running : bool;
  eb_thread : option thread_status;
  eb_links : nat;
}.

Definition new_EbpfBackend : EbpfBackend := mkEbpfBackend false false false None 0.

(** The attach loop: the number of links made, and whether all succeeded. *)
Fixpoint attach_all (programs : list bool) : nat * bool :=
  match programs with
  | [] => (0%nat, true)
  | true :: programs => let '(n, ok) := attach_all programs in (S n, ok)
  | false :: _ => (0%nat, false)
  end.

Definition ebpf_start (e : EbpfEnv) (b : EbpfBackend) :
    option (result cstring () * EbpfBackend) :=
  let failed m n := Some (Err m, mkEbpfBackend false (eb_ringbuf b) false
                             (eb_thread b) (eb_links b + n)) in
  if eb_running b then Some (Ok (), b)
  else if negb (btf_present e) then Some (Err (lit "kernel BTF not available"), b)
  else if is_empty (object_path e) then
    Some (Err (lit "eBPF object not found in known locations"), b)
  else
    match open_object e with
    | OpenNull => failed (lit "eBPF object could not be opened at " ++ object_path e) 0%nat
    | OpenErrno open_errno =>
        failed (lit "eBPF object could not be opened (" ++ object_path e ++ "): "
                ++ to_string (- open_errno)) 0%nat
    | OpenOk =>
        if negb (load_ok e) then
          failed (lit "eBPF load failed (kernel version or permissions)") 0%nat
        else
          let '(n, attached) := attach_all (attach e) in
          if negb attached then failed (lit "eBPF attach failed") n
          else if negb (events_map e) then
            failed (lit "events map missing from eBPF object") n
          else if negb (ringbuf_ok e) then
            Some (Err (lit "ring buffer allocation failed"),
                  mkEbpfBackend false false false (eb_thread b) (eb_links b + n))
          else
            assign_thread (eb_thread b)
              (Ok (), mkEbpfBackend true true true (Some Looping) (eb_links b + n))
    end.

Definition ebpf_stop (b : EbpfBackend) : EbpfBackend :=
  if negb (eb_running b) then b
  else mkEbpfBackend false false false None (eb_links b).

Definition ebpf_destroy (b : EbpfBackend) : option () :=
  match eb_thread (ebpf_stop b) with Some _ => None | None => Some () end.

(** One round of [poll_loop]; [rc] is what [ring_buffer__poll] returned. *)
Definition EINTR : Z := 4.
Definition poll_loop_step (rc : Z) (b : EbpfBackend) : EbpfBackend :=
  match eb_thread b with
  | Some Looping =>
      if negb (eb_running b)
      then mkEbpfBackend (eb_object b) (eb_ringbuf b) false (Some Returned) (eb_links b)
      else if rc =? - EINTR then b
      else if rc <? 0
      then mkEbpfBackend (eb_object b) (eb_ringbuf b) false (Some Returned) (eb_links b)
      else b
  | _ => b
  end.

#[global] Instance ebpf_backend : CaptureBackend EbpfBackend EbpfEnv := {
  backend_start := ebpf_start;
  backend_stop := ebpf_stop;
  backend_running := eb_running;
  backend_destroy := ebpf_destroy;
}.

(** ** Lemmas *)

(** An object file that is chosen is a regular file: the configured one, or one
    below the directory of the program. *)
Lemma resolve_object_path_sound regular configured link :
  let p := resolve_object_path regular configured link in
  p ≠ [] → regular p = true ∧ p ∈ ebpf_candidates configured (read_executable_dir link).
Proof.
  unfold resolve_object_path, find_existing_ebpf_object. cbv zeta.
  destruct (find_pred regular _) as [i|] eqn:Hf; [|done]. intros _.
  apply find_pred_Some in Hf as (x & l1 & l2 & -> & <- & Hx & _).
  rewrite list_lookup_middle by done. cbn. split; [done|]. set_solver.
Qed.

Example read_executable_dir_install :
  read_executable_dir (Some (lit "/usr/bin/ezcapd")) = lit "/usr/bin" ∧
  read_executable_dir (Some (lit "/ezcapd")) = lit "/" ∧ read_executable_dir None = [].
Proof. by vm_compute. Qed.

(** The longest NUL-free prefix inside the capacity. *)
Lemma bounded_string_spec src cap :
  ∃ n, bounded_string src cap = chr <$> take n src ∧ (n ≤ cap)%nat ∧
    Forall (λ b, b ≠ 0) (take n src) ∧
    ((n < cap)%nat → src !! n = None ∨ src !! n = Some 0).
Proof.
  revert src. induction cap as [|cap IH]; intros src.
  { exists 0%nat. split_and!; [by destruct src|lia|constructor|lia]. }
  destruct src as [|b src].
  { exists 0%nat. split_and!; [done|lia|constructor|by left]. }
  cbn [bounded_string]. destruct (Z.eqb_spec b 0) as [->|Hb].
  { exists 0%nat. split_and!; [done|lia|constructor|by right]. }
  destruct (IH src) as (n & -> & Hn & Hall & Hend). exists (S n).
  split_and!; [done|lia|by constructor|intros; apply Hend; lia].
Qed.

Lemma bounded_string_length src cap : zlen (bounded_string src cap) ≤ Z.of_nat cap.
Proof.
  destruct (bounded_string_spec src cap) as (n & -> & Hn & _).
  unfold zlen. rewrite length_fmap, length_take. lia.
Qed.

Lemma read_le_Some data o n :
  (o + n ≤ length data)%nat → is_Some (read_le data o n).
Proof. intros H. unfold read_le. rewrite read_bytes_Some by done. by eexists. Qed.

Ltac field_read :=
  match goal with
  | |- context [read_le ?d ?o ?n] =>
      let z := fresh "z" in let Hz := fresh "Hz" in
      destruct (read_le_Some d o n) as [z Hz];
        [unfold EZCAP_IFNAME_MAX, EZCAP_DNS_NAME_MAX; lia|]; rewrite Hz
  | |- context [read_bytes ?d ?o ?n] =>
      rewrite (read_bytes_Some d o n)
        by (unfold EZCAP_IFNAME_MAX, EZCAP_DNS_NAME_MAX; lia)
  end; cbn [mbind option_bind].

Lemma read_header_safe data :
  (24 ≤ length data)%nat → is_Some (read_header data).
Proof. intros H. unfold read_header. repeat field_read. by eexists. Qed.

Lemma read_socket_event_safe o data :
  (72 ≤ o)%nat → (o + 16 ≤ length data)%nat → is_Some (read_socket_event o data).
Proof.
  intros Ho H. unfold read_socket_event.
  destruct (read_header_safe data) as [hdr ->]; [lia|]. cbn [mbind option_bind].
  repeat field_read. by eexists.
Qed.

Lemma read_dns_event_safe data :
  (328 ≤ length data)%nat → is_Some (read_dns_event data).
Proof.
  intros H. unfold read_dns_event.
  destruct (read_header_safe data) as [hdr ->]; [lia|]. cbn [mbind option_bind].
  repeat field_read. by eexists.
Qed.

Definition ebpf_event_ok (ev : Event) : Prop :=
  ev_source ev = Ebpf ∧ ev_browser ev = None ∧
  pv_metadata_only (ev_privacy ev) = true ∧
  (∃ p uid, ev_process ev = Some p ∧ proc_uid p = Some uid ∧ proc_name p = []) ∧
  ∃ n, ev_network ev = Some n ∧ net_backend n = Ebpf ∧
    zlen (net_interface n) ≤ 16 ∧ zlen (net_dns_query_name n) ≤ 253 ∧
    (net_dns_query_name n ≠ [] → ev_type ev = Dns).

Lemma socket_event_ok ntop4 ntop6 raw t hdr boot conf :
  ebpf_event_ok (ebpf_event Connection hdr boot conf (socket_network ntop4 ntop6 raw t)).
Proof.
  split_and!; [done..| |]; [by do 2 eexists|]. eexists. split; [done|]. split; [done|].
  split; [apply bounded_string_length|]. done.
Qed.

Lemma dns_event_ok ntop4 ntop6 raw boot :
  ebpf_event_ok (normalize_dns_event ntop4 ntop6 raw boot).
Proof.
  split_and!; [done..| |]; [by do 2 eexists|]. eexists. split; [done|]. split; [done|].
  split; [apply bounded_string_length|]. split; [|done].
  cbn [net_dns_query_name]. destruct (0 <? d_query_len raw); [|done].
  destruct (Z.leb_spec (d_query_len raw) (Z.of_nat EZCAP_DNS_NAME_MAX)); [|done].
  cbn [andb]. etrans; [apply bounded_string_length|].
  unfold EZCAP_DNS_NAME_MAX in *. lia.
Qed.

(** The ring-buffer callback never reads beyond the record it was given,
    whatever its size, version and tag; every event it emits carries the
    originating process, an interface name of at most 16 bytes, and a query
    name of at most 253 bytes only when it is a DNS event. *)
Theorem handle_record_safe ntop4 ntop6 boot data :
  ∃ r, handle_record ntop4 ntop6 boot data = Some r ∧
    ∀ ev, r = Some ev → ebpf_event_ok ev.
Proof.
  unfold handle_record, sizeof_header, sizeof_connect_event, sizeof_dns_event,
    sizeof_socket_state_event, zlen.
  destruct (Z.ltb_spec (Z.of_nat (length data)) 24); [by eexists|].
  destruct (read_header_safe data) as [hdr ->]; [lia|]. cbn [mbind option_bind].
  destruct (negb _); [by eexists|].
  destruct (h_tag hdr =? EZCAP_EVENT_TAG_CONNECT).
  { destruct (Z.leb_spec 88 (Z.of_nat (length data))); [|by eexists].
    destruct (read_socket_event_safe 72 data) as [raw Hraw]; [lia..|].
    unfold read_connect_event. rewrite Hraw. eexists. split; [done|].
    intros ? [= <-]. apply socket_event_ok. }
  destruct (h_tag hdr =? EZCAP_EVENT_TAG_DNS).
  { destruct (Z.leb_spec 328 (Z.of_nat (length data))); [|by eexists].
    destruct (read_dns_event_safe data) as [raw ->]; [lia..|].
    eexists. split; [done|]. intros ? [= <-]. apply dns_event_ok. }
  destruct (h_tag hdr =? EZCAP_EVENT_TAG_SOCKET_STATE); [|by eexists].
  destruct (Z.leb_spec 112 (Z.of_nat (length data))); [|by eexists].
  destruct (read_socket_event_safe 96 data) as [raw Hraw]; [lia..|].
  unfold read_socket_state_event. rewrite Hraw. eexists. split; [done|].
  intros ? [= <-]. apply socket_event_ok.
Qed.

(** No eBPF event carries an identifier: every event the ring buffer
    yields has the empty [event_id]. *)
Theorem handle_record_no_event_id ntop4 ntop6 boot data ev :
  handle_record ntop4 ntop6 boot data = Some (Some ev) → ev_event_id ev = [].
Proof.
  unfold handle_record. intros H.
  repeat match type of H with
  | (if ?b then _ else _) = _ => destruct b; try discriminate H
  | (mbind _ ?x) = _ => destruct x; cbn [mbind option_bind] in H; [|discriminate H]
  end; by injection H as <-.
Qed.

(** A connect record: version 1, tag 1, pid 42, uid 1000, TCP to port 443. *)
Definition sample_connect : list Z :=
  [1; 1; 0; 0] ++ [42; 0; 0; 0] ++ [232; 3; 0; 0] ++ replicate 12 0
  ++ [10; 0; 0; 1; 10; 0; 0; 2] ++ replicate 32 0
  ++ [0; 192; 187; 1; 6; 1; 0; 0] ++ [101; 116; 104; 48] ++ replicate 12 0.

Lemma handle_record_no_event_id_witness :
  ∃ ev, handle_record hex_ntop hex_ntop 0 sample_connect = Some (Some ev) ∧
    ev_event_id ev = [] ∧ (net_remote_port <$> ev_network ev) = Some 443.
Proof.
  eexists. split; [vm_compute; reflexivity|]. split; [|reflexivity].
  apply (handle_record_no_event_id hex_ntop hex_ntop 0 sample_connect).
  vm_compute. reflexivity.
Defined.

#[global] Instance ebpf_backend_laws : CaptureBackendLaws EbpfBackend EbpfEnv.
Proof.
  split; cbn.
  - unfold ebpf_start. intros e b b' H. split_cases; try done.
    destruct (eb_thread b); simplify_eq/=. done.
  - unfold ebpf_start. intros e b m b' H.
    destruct (eb_running b) eqn:Hr; [done|]. split_cases; try done.
    destruct (eb_thread b); simplify_eq/=.
  - intros e [? ? [] ? ?] ?; done.
  - intros [? ? [] ? ?]; done.
  - intros [? ? [] ? ?]; done.
Qed.

Lemma attach_all_replicate n : attach_all (replicate n true) = (n, true).
Proof. induction n as [|n IH]; simpl; [done|]. by rewrite IH. Qed.

(** A stop gives back the object and the ring buffer but none of the links:
    after [k] rounds of start and stop, [k] times the programs are attached. *)
Lemma ebpf_links_accumulate path n k :
  path ≠ [] →
  let e := mkEbpfEnv true path OpenOk true (replicate n true) true true in
  Nat.iter k (λ r, r ≫= λ b, '(_, b') ← ebpf_start e b; Some (ebpf_stop b'))
    (Some new_EbpfBackend)
  = Some (mkEbpfBackend false false false None (k * n)).
Proof.
  intros Hp e. induction k as [|k IH]; [done|]. rewrite Nat.iter_succ, IH.
  cbn [mbind option_bind]. unfold ebpf_start, e.
  cbn [eb_running btf_present negb object_path].
  apply is_empty_false in Hp. rewrite Hp. cbn [open_object load_ok negb attach].
  rewrite attach_all_replicate. cbn. do 2 f_equal. lia.
Qed.

(** The key may lie past the one 4095-byte read, or be cut by it; the boot time
    then silently becomes the epoch or a truncated number. *)
Example boot_walltime_past_buffer :
  boot_walltime (Some (replicate 4090 "x"%char ++ lit "btime 1700000000")) = 0.
Proof. vm_compute. reflexivity. Qed.

Example boot_walltime_cut :
  boot_walltime (Some (replicate 4084 "x"%char ++ lit "btime 1700000000"))
  = 17000 * 10 ^ 9.
Proof. vm_compute. reflexivity. Qed.

Example boot_walltime_ok :
  boot_walltime (Some (lit "cpu 1 2" ++ ["010"%char] ++ lit "btime 1700000000"))
  = 1700000000 * 10 ^ 9.
Proof. vm_compute. reflexivity. Qed.
