(* ===== verification/IpcCodec.v ===== *)
(** * The IPC codec ([src/ipc/ipc_codec.cpp])

    Request parsing, response and event encoding, and the newline framing.
    [None] from an encoder is the exception the serializer throws on a string
    that is not UTF-8. *)
From S2P Require Import Prelude Double Json Types Time PacketParser PcapCapture.
Open Scope Z_scope.

Section codec.
Context `{JL : JsonLib}.

(** ** Requests *)
Definition kForbidden : list cstring :=
  lit <$> ["payload"; "body"; "cookies"; "authorization"; "password"; "api_key"]%string.

Definition has_forbidden_field (doc : json) : bool :=
  existsb (λ f, contains f doc) kForbidden.

Definition ipc_err (code : ErrorCode) (m : cstring) : IpcError := mkIpcError code m.

(** [doc.contains(k) && doc.at(k).is_string()], then [get<std::string>()]. *)
Definition string_member (k : cstring) (doc : json) : option cstring :=
  match member k doc with Some (JString s) => Some s | _ => None end.

(** The optional [params]: serialized again, or the error. *)
Definition parse_params (doc : json) : result IpcError cstring :=
  match member "params" doc with
  | None => Ok []
  | Some params =>
      _ ← ensure (is_object params) (ipc_err SchemaViolation "params must be an object");
      _ ← ensure (jsize params <=? 8) (ipc_err SchemaViolation "too many params");
      match json_dump params with
      | Some s => Ok s
      | None => Err (ipc_err InvalidJson "request failed JSON validation")
      end
  end.

Definition parse_request (frame : cstring) (max_bytes : Z) : result IpcError Request :=
  _ ← ensure (zlen frame <=? max_bytes)
        (ipc_err MessageTooLarge "request exceeds frame limit");
  match json_parse frame with
  | None => Err (ipc_err InvalidJson "request is not valid JSON")
  | Some doc =>
      _ ← ensure (is_object doc)
            (ipc_err SchemaViolation "request must be a JSON object");
      _ ← ensure (negb (has_forbidden_field doc))
            (ipc_err SchemaViolation "request contains forbidden fields");
      match member "protocol_version" doc with
      | Some v =>
          _ ← ensure (is_number_integer v)
                (ipc_err MissingField "protocol_version missing");
          _ ← ensure (get_int64 v =? kProtocolVersion)
                (ipc_err UnsupportedVersion "unsupported protocol version");
          match string_member "operation" doc with
          | None => Err (ipc_err MissingField "operation missing")
          | Some name =>
              match operation_from_name name with
              | None => Err (ipc_err UnknownOperation "unknown operation")
              | Some op =>
                  match string_member "request_id" doc with
                  | None => Err (ipc_err MissingField "request_id missing")
                  | Some request_id =>
                      _ ← ensure (negb (is_empty request_id) && (zlen request_id <=? 64))
                            (ipc_err SchemaViolation "request_id must be 1-64 chars");
                      params ← parse_params doc;
                      Ok (mkRequest kProtocolVersion op request_id params)
                  end
              end
          end
      | None => Err (ipc_err MissingField "protocol_version missing")
      end
  end.

(** ** Responses *)
Definition response_result (result_json : cstring) : json :=
  if is_empty result_json then JObject []
  else default (JObject []) (json_parse result_json).

Definition response_json (r : Response) : json :=
  jobject
    ([(lit "request_id", JString (rs_request_id r)); (lit "ok", JBool (rs_ok r))]
     ++ if rs_ok r
        then [(lit "result", response_result (rs_result_json r))]
        else [(lit "error", jobject
                [(lit "code", JString (error_code_name (err_code (rs_error r))));
                 (lit "message", JString (err_message (rs_error r)))])]).

Definition encode_response (r : Response) : option cstring := json_dump (response_json r).

Definition encode_error (request_id : cstring) (e : IpcError) : option cstring :=
  encode_response (mkResponse request_id false [] e).

(** ** Events *)
Definition process_json (p : ProcessInfo) : json :=
  jobject
    ([(lit "pid", JUint (proc_pid p))]
     ++ when (negb (is_empty (proc_name p))) [(lit "name", JString (proc_name p))]
     ++ match proc_uid p with Some uid => [(lit "uid", JUint uid)] | None => [] end).

Definition network_json (n : NetworkInfo) : json :=
  jobject
    ([(lit "transport", JString (transport_name (net_transport n)))]
     ++ when (bool_decide (net_direction n ≠ Unknown))
          [(lit "direction", JString (direction_name (net_direction n)))]
     ++ when (negb (is_empty (net_local_address n)))
          [(lit "local_address", JString (net_local_address n));
           (lit "local_port", JUint (net_local_port n))]
     ++ when (negb (is_empty (net_remote_address n)))
          [(lit "remote_address", JString (net_remote_address n));
           (lit "remote_port", JUint (net_remote_port n))]
     ++ when (negb (is_empty (net_dns_query_name n)))
          [(lit "dns_query_name", JString (net_dns_query_name n))]
     ++ match net_dns_response_code n with
        | Some c => [(lit "dns_response_code", JUint c)] | None => [] end
     ++ when (negb (is_empty (net_interface n)))
          [(lit "interface", JString (net_interface n))]
     ++ [(lit "backend", JString (event_source_name (net_backend n)))]).

Definition browser_json (b : BrowserInfo) : json :=
  jobject
    ([(lit "tab_id", JUint (br_tab_id b)); (lit "window_id", JUint (br_window_id b))]
     ++ when (negb (is_empty (br_url b))) [(lit "url", JString (br_url b))]
     ++ when (negb (is_empty (br_title b))) [(lit "title", JString (br_title b))]
     ++ when (negb (is_empty (br_navigation_id b)))
          [(lit "navigation", jobject
             [(lit "navigation_id", JString (br_navigation_id b));
              (lit "frame_id", JUint (br_frame_id b))])]).

Definition redaction_names (r : Redactions) : list json :=
  (if rd_query_string r then [JString "query-string"] else [])
  ++ (if rd_fragment r then [JString "fragment"] else [])
  ++ (if rd_hostname_hash r then [JString "hostname-hash"] else [])
  ++ (if rd_hostname_mask r then [JString "hostname-mask"] else [])
  ++ (if rd_domain_excluded r then [JString "domain-excluded"] else []).

Definition privacy_json (p : PrivacyInfo) : json :=
  let redactions := redaction_names (pv_redactions p) in
  jobject
    ([(lit "redacted", JBool (pv_redacted p)); (lit "metadata_only", JBool true)]
     ++ when (negb (is_empty redactions)) [(lit "redactions", JArray redactions)]).

Definition backend_json (b : BackendStatus) : json :=
  jobject
    ([(lit "name", JString (event_source_name (bs_name b)));
      (lit "state", JString (if bs_active b then lit "active" else lit "unavailable"))]
     ++ when (negb (is_empty (bs_detail b))) [(lit "detail", JString (bs_detail b))]).

Definition event_json (e : Event) : json :=
  jobject
    ([(lit "schema_version", JUint (ev_schema_version e));
      (lit "event_id", JString (ev_event_id e));
      (lit "event_type", JString (event_type_name (ev_type e)));
      (lit "timestamp", JString (to_rfc3339 (ev_timestamp e)));
      (lit "source", JString (event_source_name (ev_source e)));
      (lit "confidence", JFloat (ev_confidence e))]
     ++ when (negb (is_empty (ev_correlation_id e)))
          [(lit "correlation_id", JString (ev_correlation_id e))]
     ++ match ev_process e with
        | Some p => [(lit "process", process_json p)] | None => [] end
     ++ match ev_network e with
        | Some n => [(lit "network", network_json n)] | None => [] end
     ++ match ev_browser e with
        | Some b => [(lit "browser", browser_json b)] | None => [] end
     ++ [(lit "privacy", privacy_json (ev_privacy e))]
     ++ when (bool_decide (ev_type e = Status) && negb (is_empty (ev_backend_statuses e)))
          [(lit "status", jobject
             [(lit "state", JString "running");
              (lit "backends", JArray (backend_json <$> ev_backend_statuses e))])]
     ++ when (bool_decide (ev_type e = Error))
          [(lit "error", jobject
             [(lit "code", JString (ev_error_code e));
              (lit "message", JString (ev_error_message e))])]).

Definition encode_event (e : Event) : option cstring := json_dump (event_json e).
End codec.

(** ** Framing *)
Definition newline : ascii := "010"%char.

Definition too_large : IpcError := mkIpcError MessageTooLarge "frame exceeds size limit".

(** The search loop from [search_from]; [fuel] bounds the number of newlines. *)
Fixpoint split_loop (fuel : nat) (buffer : cstring) (max_bytes : Z)
    (search_from : nat) (frames : list cstring) :
    result IpcError () * list cstring * nat :=
  match fuel with
  | O => (Ok (), frames, search_from)
  | S fuel =>
      match find_from (is_char newline) search_from buffer with
      | None => (Ok (), frames, search_from)
      | Some nl =>
          let frame_len := (nl - search_from)%nat in
          if max_bytes <? Z.of_nat frame_len then (Err too_large, frames, search_from)
          else split_loop fuel buffer max_bytes (nl + 1)
                 (frames ++ [substr search_from (Some frame_len) buffer])
      end
  end.

(** The outcome, the frames appended, and the buffer afterwards. *)
Definition split_frames (buffer : cstring) (max_bytes : Z) (frames : list cstring) :
    result IpcError () * list cstring * cstring :=
  match split_loop (S (length buffer)) buffer max_bytes 0 frames with
  | (Err e, frames, _) => (Err e, frames, buffer)
  | (Ok _, frames, search_from) =>
      let buffer := drop search_from buffer in
      if max_bytes <=? zlen buffer then (Err too_large, frames, buffer)
      else (Ok (), frames, buffer)
  end.

(** The only error of the framing. *)
Lemma split_loop_error fuel buffer max from frames e out p :
  split_loop fuel buffer max from frames = (Err e, out, p) → e = too_large.
Proof.
  revert from frames. induction fuel as [|fuel IH]; intros from frames; cbn [split_loop]; [done|].
  destruct (find_from _ _ _); [|done]. destruct (_ <? _); [by intros [= <- _ _]|apply IH].
Qed.

Lemma split_frames_error buffer max frames e out r :
  split_frames buffer max frames = (Err e, out, r) → e = too_large.
Proof.
  unfold split_frames. destruct (split_loop _ _ _ _ _) as [[[u|e'] fs] p] eqn:E.
  - destruct (_ <=? _); [by intros [= <- _ _]|done].
  - apply split_loop_error in E as ->. by intros [= <- _ _].
Qed.

(** ** The framing against a reference

    [lines] splits a byte stream into its newline-terminated lines and the
    unterminated rest. *)
Fixpoint lines (s : cstring) : list cstring * cstring :=
  match s with
  | [] => ([], [])
  | c :: s =>
      let '(ls, r) := lines s in
      if is_char newline c then ([] :: ls, r)
      else match ls with
           | [] => ([], c :: r)
           | l :: ls => ((c :: l) :: ls, r)
           end
  end.

Lemma lines_no_newline s :
  find_pred (is_char newline) s = None → lines s = ([], s).
Proof.
  induction s as [|c s IH]; [done|]. cbn [find_pred lines].
  destruct (is_char newline c); [done|].
  destruct (find_pred _ s); [done|]. intros _. by rewrite IH.
Qed.

Lemma lines_first s i :
  find_pred (is_char newline) s = Some i →
  lines s = (take i s :: fst (lines (drop (S i) s)), snd (lines (drop (S i) s))).
Proof.
  revert i. induction s as [|c s IH]; intros i; [done|]. cbn [find_pred lines].
  destruct (is_char newline c).
  - intros [= <-]. cbn. rewrite drop_0. by destruct (lines s).
  - intros (j & Hj & ->)%fmap_Some. rewrite (IH j Hj). done.
Qed.

Lemma lines_app a b :
  lines (a ++ b) =
    (fst (lines a) ++ fst (lines (snd (lines a) ++ b)), snd (lines (snd (lines a) ++ b))).
Proof.
  induction a as [|c a IH]; [cbn; by destruct (lines b)|]. cbn [app lines]. rewrite IH.
  destruct (lines a) as [la ra]. cbn [fst snd].
  destruct (is_char newline c) eqn:Hc; cbn [fst snd app]; [done|].
  destruct la as [|l la]; cbn [fst snd app lines]; [|done].
  rewrite Hc. destruct (lines (ra ++ b)) as [[|??] ?]; done.
Qed.

(** The text is its lines, newlines included, followed by the rest. *)
Lemma lines_concat s :
  s = concat ((λ l, l ++ [newline]) <$> fst (lines s)) ++ snd (lines s).
Proof.
  induction s as [|c s IH]; [done|]. cbn [lines].
  destruct (lines s) as [ls r]. cbn [fst snd] in IH.
  destruct (is_char newline c) eqn:Hc.
  - apply is_char_true in Hc as ->. csimpl. by f_equal.
  - destruct ls as [|l ls]; csimpl in *; by f_equal.
Qed.

(** The rest is a line that has not ended: it has no newline, and whatever
    follows it extends it. *)
Lemma lines_rest s : lines (snd (lines s)) = ([], snd (lines s)).
Proof.
  induction s as [|c s IH]; [done|]. cbn [lines].
  destruct (lines s) as [[|l ls] r]; cbn [fst snd] in *; destruct (is_char newline c) eqn:Hc;
    cbn [fst snd]; try done. cbn [lines]. by rewrite IH, Hc.
Qed.

Lemma lines_open_cons c r :
  lines (c :: r) = ([], c :: r) → is_char newline c = false ∧ lines r = ([], r).
Proof.
  cbn [lines]. destruct (lines r) as [[|l ls] r'], (is_char newline c); naive_solver.
Qed.

Lemma lines_extend r b :
  lines r = ([], r) →
  match lines (r ++ b) with
  | (l :: _, _) => zlen r ≤ zlen l
  | ([], r') => zlen r ≤ zlen r'
  end.
Proof.
  induction r as [|c r IH]; intros H.
  { cbn [app]. destruct (lines b) as [[|??] ?]; apply zlen_nonneg. }
  apply lines_open_cons in H as [Hc H]. specialize (IH H). cbn [app lines].
  destruct (lines (r ++ b)) as [[|l ls] r']; rewrite Hc; unfold zlen in *; cbn [length]; lia.
Qed.

Lemma lines_terminated s : newline ∉ s → lines (s ++ [newline]) = ([s], []).
Proof.
  induction s as [|c s IH]; [done|].
  intros [Hc Hs]%not_elem_of_cons. cbn [app lines]. rewrite IH by done.
  destruct (is_char newline c) eqn:E; [|done]. by apply is_char_true in E.
Qed.

(** The loop finds the lines that follow [from], as long as they fit. *)
Lemma split_loop_spec fuel buffer max from frames :
  (length buffer - from < fuel)%nat → (from ≤ length buffer)%nat →
  let '(ls, r) := lines (drop from buffer) in
  split_loop fuel buffer max from frames =
    if forallb (λ l, zlen l <=? max) ls
    then (Ok (), frames ++ ls, (length buffer - length r)%nat)
    else (Err too_large,
          frames ++ take (default 0%nat (find_pred (λ l, max <? zlen l) ls)) ls,
          (split_loop fuel buffer max from frames).2).
Proof.
  revert from frames. induction fuel as [|fuel IH]; intros from frames Hf Hfrom; [lia|].
  cbn [split_loop]. unfold find_from.
  destruct (find_pred (is_char newline) (drop from buffer)) as [i|] eqn:Hi.
  - pose proof (find_pred_lt _ _ _ Hi) as Hlt. rewrite length_drop in Hlt.
    rewrite (lines_first _ _ Hi), drop_drop. cbn [fmap option_fmap option_map].
    replace (from + i - from)%nat with i by lia.
    replace (from + i + 1)%nat with (from + S i)%nat by lia.
    specialize (IH (from + S i)%nat
      (frames ++ [substr from (Some i) buffer]) ltac:(lia) ltac:(lia)).
    destruct (lines (drop (from + S i) buffer)) as [ls r]. cbn [fst snd forallb].
    assert (Hz : zlen (take i (drop from buffer)) = Z.of_nat i).
    { unfold zlen. rewrite length_take, length_drop. lia. }
    rewrite Hz. cbn [find_pred]. rewrite Hz.
    destruct (Z.ltb_spec max (Z.of_nat i)) as [Hbig|Hsmall].
    { rewrite (proj2 (Z.leb_gt _ _)) by lia. cbn. by rewrite app_nil_r. }
    rewrite (proj2 (Z.leb_le _ _)) by lia. cbn [andb].
    destruct (forallb _ ls) eqn:Hall.
    { rewrite IH. by rewrite <-(assoc_L (++)). }
    rewrite IH. destruct (find_pred _ ls) as [k|] eqn:Hk; cbn [default fmap option_fmap].
    + cbn. by rewrite <-(assoc_L (++)).
    + exfalso. apply find_pred_None in Hk. apply not_true_iff_false in Hall.
      apply Hall, forallb_forall. intros l Hl%list_elem_of_In.
      rewrite Forall_forall in Hk. specialize (Hk l Hl). cbn in Hk. lia.
  - rewrite (lines_no_newline _ Hi). cbn [forallb]. rewrite app_nil_r, length_drop.
    do 2 f_equal. lia.
Qed.

Lemma lines_rest_suffix s :
  drop (length s - length (snd (lines s))) s = snd (lines s) ∧
  (length (snd (lines s)) ≤ length s)%nat.
Proof.
  pose proof (lines_concat s) as H. destruct (lines s) as [ls r]. cbn [fst snd] in *.
  subst s. rewrite length_app. split; [|lia].
  rewrite Nat.add_sub. by rewrite drop_app_length.
Qed.

Lemma split_frames_iff buffer max frames fs r :
  split_frames buffer max frames = (Ok (), frames ++ fs, r) ↔
  lines buffer = (fs, r) ∧ Forall (λ l, zlen l ≤ max) fs ∧ zlen r < max.
Proof.
  unfold split_frames.
  pose proof (split_loop_spec (S (length buffer)) buffer max 0 frames) as Hs.
  rewrite drop_0 in Hs. specialize (Hs ltac:(lia) ltac:(lia)).
  pose proof (lines_rest_suffix buffer) as [Hd Hle].
  destruct (lines buffer) as [ls r0]. cbn [fst snd] in *. rewrite Hs.
  destruct (forallb _ ls) eqn:Hall.
  - rewrite forallb_forall in Hall. rewrite Hd.
    assert (Hall' : Forall (λ l, zlen l ≤ max) ls).
    { apply Forall_forall. intros l Hl%list_elem_of_In. specialize (Hall l Hl). lia. }
    destruct (Z.leb_spec max (zlen r0)); split; [done|naive_solver lia| |].
    + intros [= Hfs%app_inv_head <-]. subst. auto.
    + naive_solver.
  - split; [done|]. intros ([= -> ->] & Hf & _).
    apply not_true_iff_false in Hall. destruct Hall. apply forallb_forall.
    intros l Hl%list_elem_of_In. rewrite Forall_forall in Hf. specialize (Hf l Hl). cbn in Hf. lia.
Qed.

(** ** Streams

    A client's bytes arrive in arbitrary pieces; [feed] is what the reader
    thread does with them, appending to the buffer and splitting again. *)
Fixpoint feed (max : Z) (frames : list cstring) (buffer : cstring)
    (chunks : list cstring) : result IpcError (list cstring * cstring) :=
  match chunks with
  | [] => Ok (frames, buffer)
  | c :: chunks =>
      match split_frames (buffer ++ c) max frames with
      | (Err e, _, _) => Err e
      | (Ok _, frames, buffer) => feed max frames buffer chunks
      end
  end.

Lemma split_frames_ok_lines buffer max frames out r :
  split_frames buffer max frames = (Ok (), out, r) →
  out = frames ++ fst (lines buffer) ∧ r = snd (lines buffer).
Proof.
  intros H. assert (∃ fs, out = frames ++ fs) as [fs ->].
  { revert H. unfold split_frames.
    pose proof (split_loop_spec (S (length buffer)) buffer max 0 frames) as Hs.
    rewrite drop_0 in Hs. specialize (Hs ltac:(lia) ltac:(lia)).
    destruct (lines buffer) as [ls r0]. rewrite Hs.
    destruct (forallb _ ls); [|done]. destruct (_ <=? _); [done|]. intros [= <- _]. eauto. }
  apply split_frames_iff in H as (-> & _ & _). done.
Qed.

Lemma feed_lines max frames buffer chunks fs r :
  lines buffer = ([], buffer) → feed max frames buffer chunks = Ok (fs, r) →
  fs = frames ++ fst (lines (buffer ++ concat chunks)) ∧
  r = snd (lines (buffer ++ concat chunks)).
Proof.
  revert frames buffer. induction chunks as [|c chunks IH]; intros frames buffer Hb H.
  { cbn in H |- *. rewrite app_nil_r, Hb. cbn. rewrite app_nil_r. naive_solver. }
  cbn [feed concat] in *.
  destruct (split_frames (buffer ++ c) max frames) as [[[[]|] out] b] eqn:Hs; [|done].
  apply split_frames_ok_lines in Hs as [-> ->].
  apply IH in H as [-> ->]; [|apply lines_rest].
  rewrite (assoc_L (++)), (lines_app (buffer ++ c)). cbn [fst snd].
  by rewrite (assoc_L (++)).
Qed.

Lemma feed_complete max frames buffer chunks fs r :
  lines buffer = ([], buffer) → lines (buffer ++ concat chunks) = (fs, r) →
  Forall (λ l, zlen l < max) fs → zlen r < max →
  feed max frames buffer chunks = Ok (frames ++ fs, r).
Proof.
  revert frames buffer fs. induction chunks as [|c chunks IH]; intros frames buffer fs Hb H Hf Hr.
  { cbn in H |- *. rewrite app_nil_r, Hb in H. injection H as <- <-. by rewrite app_nil_r. }
  cbn [feed concat] in *. rewrite (assoc_L (++)), lines_app in H.
  pose proof (lines_extend (snd (lines (buffer ++ c))) (concat chunks) (lines_rest _)) as He.
  destruct (lines (snd (lines (buffer ++ c)) ++ concat chunks)) as [fs2 r2] eqn:H2.
  cbn [fst snd] in H. injection H as <- ->. apply Forall_app in Hf as [Hf1 Hf2].
  assert (Hs : split_frames (buffer ++ c) max frames
    = (Ok (), frames ++ fst (lines (buffer ++ c)), snd (lines (buffer ++ c)))).
  { apply split_frames_iff. split_and!.
    - by destruct (lines (buffer ++ c)).
    - eapply Forall_impl; [done|]. cbn. lia.
    - destruct fs2 as [|l fs2]; [lia|]. inv Hf2. lia. }
  rewrite Hs, (IH _ _ fs2); [by rewrite (assoc_L (++))|apply lines_rest|done..].
Qed.

(** A stream without a newline. *)
Lemma split_frames_open buffer max frames :
  newline ∉ buffer →
  split_frames buffer max frames =
    (if max <=? zlen buffer then Err too_large else Ok (), frames, buffer).
Proof.
  intros Hn. unfold split_frames. cbn [split_loop]. unfold find_from.
  assert (find_pred (is_char newline) (drop 0 buffer) = None) as ->.
  { apply find_pred_None, Forall_forall. intros x Hx. apply is_char_false. by intros ->. }
  cbn. rewrite drop_0. by destruct (_ <=? _).
Qed.

(** A line of the maximal length is refused when its last byte arrives without
    the newline. *)
Lemma feed_limit_refused max text chunks rest frames buffer :
  newline ∉ text → buffer ++ concat chunks = text → zlen buffer < max → zlen text = max →
  feed max frames buffer (chunks ++ rest) = Err too_large.
Proof.
  intros Hn. revert frames buffer. induction chunks as [|c chunks IH]; intros frames buffer Hc Hb Hl.
  { cbn in Hc. rewrite app_nil_r in Hc. subst buffer. lia. }
  cbn [concat app feed] in *. rewrite (assoc_L (++)) in Hc.
  rewrite split_frames_open by (intros Hin; apply Hn; rewrite <-Hc; apply elem_of_app; by left).
  destruct (Z.leb_spec max (zlen (buffer ++ c))); [done|]. by apply IH.
Qed.

(** C11: The frames a client's byte stream is cut into are its
    newline-terminated lines, however the bytes are grouped into reads: a
    stream that is accepted yields exactly its lines and its unterminated
    rest, and a stream whose lines and rest are shorter than the limit is
    always accepted. *)
Theorem framing_chunk_invariant max chunks fs r :
  (feed max [] [] chunks = Ok (fs, r) → lines (concat chunks) = (fs, r)) ∧
  (lines (concat chunks) = (fs, r) → Forall (λ l, zlen l < max) fs → zlen r < max →
   feed max [] [] chunks = Ok (fs, r)).
Proof.
  split.
  - intros H. apply feed_lines in H as [-> ->]; [|done]. cbn [app].
    by destruct (lines (concat chunks)).
  - intros. by apply (feed_complete max [] []).
Qed.

Lemma framing_chunk_invariant_witness :
  feed 16 [] [] [lit "ab"; lit "c" ++ [newline; "d"%char]; [newline; "e"%char]]
  = Ok ([lit "abc"; lit "d"], lit "e").
Proof.
  apply (proj2 (framing_chunk_invariant 16
    [lit "ab"; lit "c" ++ [newline; "d"%char]; [newline; "e"%char]]
    [lit "abc"; lit "d"] (lit "e"))).
  - vm_compute. reflexivity.
  - repeat constructor; vm_compute; reflexivity.
  - vm_compute. reflexivity.
Defined.

(** A frame of exactly the limit is accepted when its newline arrives with it
    and refused when the newline arrives in a later read. *)
Example framing_limit_depends_on_reads :
  feed 3 [] [] [lit "abc" ++ [newline]] = Ok ([lit "abc"], []) ∧
  feed 3 [] [] [lit "abc"; [newline]] = Err too_large.
Proof. split; reflexivity. Qed.

(** ** Requests: the encoding clients use is accepted *)
Definition request_json (op : Operation) (id : cstring) (params : option json) : json :=
  jobject ([(lit "protocol_version", JUint kProtocolVersion);
            (lit "operation", JString (operation_name op));
            (lit "request_id", JString id)]
           ++ match params with Some p => [(lit "params", p)] | None => [] end).

Definition params_ok (params : option json) : Prop :=
  ∀ p, params = Some p → is_object p = true ∧ json_wf p = true ∧ jsize p ≤ 8.

Lemma request_json_forbidden op id params :
  has_forbidden_field (json_canon (request_json op id params)) = false.
Proof.
  unfold has_forbidden_field, contains, request_json. cbn [kForbidden fmap list_fmap existsb].
  by rewrite !member_canon, !member_jobject; destruct params.
Qed.

(** Pass the next guard of a computation that succeeds. *)
Ltac next_guard H :=
  match type of H with (mbind _ ?x) = _ => destruct x; [|done] end;
  cbn [mbind result_bind] in H.

Section codec_lemmas.
Context {L : JsonLib} {HL : JsonLaws L}.

(** The text the daemon keeps of the parameters. *)
Definition params_text (params : option json) (p : cstring) : Prop :=
  match params with
  | Some j => json_dump (json_canon j) = Some p
  | None => p = []
  end.

Lemma request_json_wf op id params :
  params_ok params → json_wf (request_json op id params) = true.
Proof.
  intros Hp. apply jobject_wf. apply Forall_app_2; [by repeat constructor|].
  destruct params as [j|]; [|constructor]. repeat constructor. by apply Hp.
Qed.

Lemma parse_params_accepts doc params :
  member "params" doc = json_canon <$> params → params_ok params →
  (∀ j, params = Some j → json_utf8 j = true) →
  ∃ p, params_text params p ∧ parse_params doc = Ok p.
Proof.
  intros Hm Hok Hu. unfold parse_params. rewrite Hm.
  destruct params as [j|]; cbn [fmap option_fmap option_map]; [|by exists []].
  destruct (Hok j eq_refl) as (Ho & _ & Hsz).
  destruct (dump_defined (json_canon j)) as [p Hdp]; [rewrite json_canon_utf8; by apply Hu|].
  exists p. split; [done|].
  rewrite is_object_canon, Ho, jsize_canon_object, (proj2 (Z.leb_le _ _)) by done.
  cbn [ensure mbind result_bind]. by rewrite Hdp.
Qed.

Lemma parse_request_accepts op id params frame max :
  params_ok params → 1 ≤ zlen id ≤ 64 →
  json_dump (request_json op id params) = Some frame → zlen frame ≤ max →
  ∃ p, params_text params p ∧
    parse_request frame max = Ok (mkRequest kProtocolVersion op id p).
Proof.
  intros Hok Hid Hd Hmax.
  assert (Hu : json_utf8 (request_json op id params) = true).
  { destruct (json_utf8 _) eqn:Hu; [done|]. apply dump_throws in Hu. congruence. }
  assert (Hp : json_parse frame = Some (json_canon (request_json op id params))).
  { apply parse_dump; [by apply request_json_wf|done]. }
  set (doc := json_canon (request_json op id params)) in *.
  assert (Hv : member "protocol_version" doc = Some (JUint kProtocolVersion))
    by (unfold doc; rewrite member_canon; by destruct params).
  assert (Ho : member "operation" doc = Some (JString (operation_name op)))
    by (unfold doc; rewrite member_canon; by destruct params).
  assert (Hi : member "request_id" doc = Some (JString id))
    by (unfold doc; rewrite member_canon; by destruct params).
  assert (Hpa : member "params" doc = json_canon <$> params)
    by (unfold doc; rewrite member_canon; by destruct params).
  destruct (parse_params_accepts doc params Hpa Hok) as (p & Ht & Hpp).
  { intros j ->. by apply (member_utf8 "params" (request_json op id (Some j))). }
  exists p. split; [done|]. unfold parse_request.
  rewrite (proj2 (Z.leb_le _ _) Hmax). cbn [ensure mbind result_bind]. rewrite Hp.
  assert (is_object doc = true) as ->
    by (unfold doc; rewrite is_object_canon; apply jobject_is_object).
  rewrite (request_json_forbidden op id params : has_forbidden_field doc = false).
  cbn [ensure negb mbind result_bind]. unfold string_member. rewrite Hv, Ho, Hi.
  cbn [is_number_integer get_int64 ensure mbind result_bind].
  change (i64 kProtocolVersion =? kProtocolVersion) with true. cbn [mbind result_bind].
  rewrite operation_roundtrip.
  assert (is_empty id = false) as ->
    by (destruct id; [unfold zlen in Hid; simpl in Hid; lia|done]).
  rewrite (proj2 (Z.leb_le (zlen id) 64)) by lia. cbn [negb andb ensure mbind result_bind].
  by rewrite Hpp.
Qed.

(** The id of an accepted request is valid UTF-8, so it can be echoed. *)
Lemma parse_request_id_utf8 frame max rq :
  parse_request frame max = Ok rq → utf8_valid (rq_request_id rq) = true.
Proof.
  unfold parse_request. intros H.
  next_guard H. destruct (json_parse frame) as [doc|] eqn:Hp; [|done].
  apply parse_wf in Hp as [_ Hu]. do 2 next_guard H.
  destruct (member (lit "protocol_version") doc) as [v|]; [|done].
  do 2 next_guard H. destruct (string_member (lit "operation") doc); [|done].
  destruct (operation_from_name _); [|done].
  destruct (string_member (lit "request_id") doc) as [id|] eqn:Hid; [|done].
  do 2 next_guard H. injection H as <-.
  unfold string_member in Hid.
  destruct (member (lit "request_id") doc) as [[]|] eqn:Hm; try done.
  injection Hid as <-. exact (member_utf8 _ _ _ Hu Hm).
Qed.
End codec_lemmas.

(** Every request a client encodes (an allowlisted operation, an id of 1 to
    64 bytes, a params object of at most 8 entries) within the size limit is
    accepted, and the operation, id and parameters arrive unchanged. *)
Theorem parse_request_roundtrip (L : JsonLib) (HL : JsonLaws L) op id params frame max :
  params_ok params → 1 ≤ zlen id ≤ 64 →
  json_dump (request_json op id params) = Some frame → zlen frame ≤ max →
  ∃ p, params_text params p ∧
    parse_request frame max = Ok (mkRequest kProtocolVersion op id p).
Proof. intros. by eapply parse_request_accepts. Qed.

Lemma parse_request_roundtrip_witness :
  ∃ frame p, json_dump (JsonLib := TreeJson.lib)
      (request_json SetPolicy "r-1" (Some (JObject [(lit "k", JBool true)]))) = Some frame ∧
    parse_request (JL := TreeJson.lib) frame (zlen frame)
    = Ok (mkRequest 1 SetPolicy "r-1" p).
Proof.
  eexists. edestruct (parse_request_roundtrip TreeJson.lib TreeJson.laws SetPolicy "r-1"
    (Some (JObject [(lit "k", JBool true)]))) as (p & _ & Hp).
  3: reflexivity.
  3: reflexivity.
  - intros p [= <-]. vm_compute. intuition congruence.
  - vm_compute. intuition congruence.
  - exists p. split; [reflexivity|exact Hp].
Defined.

(** ** Events *)
Definition network_utf8 (n : NetworkInfo) : Prop :=
  utf8_valid (net_local_address n) = true ∧ utf8_valid (net_remote_address n) = true ∧
  utf8_valid (net_dns_query_name n) = true ∧ utf8_valid (net_interface n) = true.
Definition browser_utf8 (b : BrowserInfo) : Prop :=
  utf8_valid (br_url b) = true ∧ utf8_valid (br_title b) = true ∧
  utf8_valid (br_navigation_id b) = true.

Record event_utf8 (e : Event) : Prop := mkEventUtf8 {
  eu_id : utf8_valid (ev_event_id e) = true;
  eu_ts : utf8_valid (to_rfc3339 (ev_timestamp e)) = true;
  eu_corr : utf8_valid (ev_correlation_id e) = true;
  eu_proc p : ev_process e = Some p → utf8_valid (proc_name p) = true;
  eu_net n : ev_network e = Some n → network_utf8 n;
  eu_br b : ev_browser e = Some b → browser_utf8 b;
  eu_status : Forall (λ b, utf8_valid (bs_detail b) = true) (ev_backend_statuses e);
  eu_err : utf8_valid (ev_error_code e) = true ∧ utf8_valid (ev_error_message e) = true;
}.

Definition field_utf8 (kv : cstring * json) : Prop :=
  utf8_valid kv.1 = true ∧ json_utf8 kv.2 = true.

Lemma Forall_when (P : cstring * json → Prop) b fields :
  Forall P fields → Forall P (when b fields).
Proof. by destruct b. Qed.

(** Fields with literal keys: leaves the validity of the values. *)
Ltac fields_utf8 :=
  apply jobject_utf8;
  repeat first
    [ apply Forall_nil_2
    | apply Forall_when
    | apply Forall_cons_2; [split; [reflexivity|]|]
    | apply Forall_app_2 ];
  try reflexivity; try assumption.

Lemma name_utf8 :
  (∀ t, utf8_valid (event_type_name t) = true) ∧ (∀ s, utf8_valid (event_source_name s) = true) ∧
  (∀ t, utf8_valid (transport_name t) = true) ∧ (∀ d, utf8_valid (direction_name d) = true).
Proof. split_and!; by intros []. Qed.

Lemma network_json_utf8 n : network_utf8 n → json_utf8 (network_json n) = true.
Proof.
  intros (H1 & H2 & H3 & H4). destruct name_utf8 as (_ & Hs & Ht & Hd).
  unfold network_json. fields_utf8; try apply Ht; try apply Hd; try apply Hs.
  destruct (net_dns_response_code n); repeat constructor.
Qed.

Lemma browser_json_utf8 b : browser_utf8 b → json_utf8 (browser_json b) = true.
Proof. intros (H1 & H2 & H3). unfold browser_json. fields_utf8. by fields_utf8. Qed.

Lemma process_json_utf8 p : utf8_valid (proc_name p) = true → json_utf8 (process_json p) = true.
Proof.
  intros H. unfold process_json. fields_utf8. destruct (proc_uid p); repeat constructor.
Qed.

Lemma privacy_json_utf8 p : json_utf8 (privacy_json p) = true.
Proof. unfold privacy_json. destruct p as [r m [[] [] [] [] []]]; reflexivity. Qed.

Lemma backend_json_utf8 b : utf8_valid (bs_detail b) = true → json_utf8 (backend_json b) = true.
Proof.
  intros H. destruct name_utf8 as (_ & Hs & _ & _). unfold backend_json.
  fields_utf8; [apply Hs|]. by destruct (bs_active b).
Qed.

Lemma event_json_utf8 e : event_utf8 e → json_utf8 (event_json e) = true.
Proof.
  intros [Hid Hts Hco Hp Hn Hb Hst [Hc Hm]]. destruct name_utf8 as (Ht & Hs & _ & _).
  unfold event_json. fields_utf8; try apply Ht; try apply Hs.
  - destruct (ev_process e) as [p|]; repeat constructor. by apply process_json_utf8, Hp.
  - destruct (ev_network e) as [n|]; repeat constructor. by apply network_json_utf8, Hn.
  - destruct (ev_browser e) as [b|]; repeat constructor. by apply browser_json_utf8, Hb.
  - apply privacy_json_utf8.
  - fields_utf8. cbn [snd json_utf8]. apply forallb_forall. intros j Hj%list_elem_of_In.
    apply list_elem_of_fmap in Hj as (b & -> & Hin). rewrite Forall_forall in Hst.
    by apply backend_json_utf8, Hst.
  - by fields_utf8.
Qed.

Lemma event_json_forbidden e : has_forbidden_field (event_json e) = false.
Proof.
  unfold has_forbidden_field, contains, event_json, when.
  cbn [kForbidden fmap list_fmap existsb]. rewrite !member_jobject.
  destruct (is_empty _), (ev_process e), (ev_network e), (ev_browser e),
    (bool_decide (ev_type e = Status)), (is_empty _), (bool_decide (ev_type e = Error));
    reflexivity.
Qed.

(** An event whose strings are UTF-8 is always encoded, as a single frame:
    with its newline it is cut out of the stream as one line, it parses back
    to the encoded document, and that document has none of the forbidden
    fields and states [metadata_only] as true. *)
Theorem encode_event_frame (L : JsonLib) (HL : JsonLaws L) e :
  event_utf8 e → json_wf (event_json e) = true →
  ∃ text, encode_event e = Some text ∧ lines (text ++ [newline]) = ([text], []) ∧
    json_parse text = Some (json_canon (event_json e)) ∧
    has_forbidden_field (event_json e) = false ∧
    (member "privacy" (event_json e) ≫= member "metadata_only") = Some (JBool true).
Proof.
  intros Hu Hwf. destruct (dump_defined _ (event_json_utf8 e Hu)) as [text Hd].
  exists text. split; [done|]. split_and!.
  - apply lines_terminated. by apply dump_one_line in Hd.
  - by apply parse_dump.
  - apply event_json_forbidden.
  - unfold event_json, when. rewrite member_jobject.
    transitivity (member "metadata_only" (privacy_json (ev_privacy e))).
    + destruct (is_empty _), (ev_process e), (ev_network e), (ev_browser e),
        (bool_decide (ev_type e = Status)), (is_empty _), (bool_decide (ev_type e = Error));
        reflexivity.
    + unfold privacy_json, when. rewrite member_jobject.
      by destruct (is_empty _).
Qed.

Lemma default_event_utf8 : event_utf8 default_Event.
Proof. by split. Qed.

Lemma encode_event_frame_witness :
  ∃ text, encode_event (JL := TreeJson.lib) default_Event = Some text ∧
    lines (text ++ [newline]) = ([text], []).
Proof.
  destruct (encode_event_frame TreeJson.lib TreeJson.laws default_Event) as (text & He & Hl & _).
  - apply default_event_utf8.
  - vm_compute. reflexivity.
  - exists text. split; [exact He|exact Hl].
Defined.
