(* ===== verification/IpcServer.v ===== *)
(** * The Unix socket server ([src/ipc/unix_socket_server.cpp])

    Clients, their subscriptions and outgoing queues, and the operations of the
    accept and reader threads, each run to completion.  What the kernel answers
    (peer credentials, send results) is an argument; the request handler is a
    parameter with its own state.  [sv_sent] records every line written to a
    socket, in order. *)
From S2P Require Import Prelude Double Json Types Time PacketParser PcapCapture IpcCodec.
Open Scope Z_scope.

(** Ways in which an operation does not return: the thread locks a mutex it
    already holds, an exception leaves a thread function, or a [send] waits for a
    peer that does not read. *)
Inductive abort := Deadlock | Uncaught | Stalled.

Record Client := mkClient {
  cl_rx_buffer : cstring;
  cl_subscriptions : gset cstring;
  cl_out_queue : list cstring;
}.
Definition new_Client : Client := mkClient [] ∅ [].

Record Server := mkServer {
  sv_running : bool;
  sv_clients : gmap Z Client;
  sv_dropped_events : Z;
  sv_sent : list (Z * cstring);
}.
Definition new_Server : Server := mkServer false ∅ 0 [].

Definition set_clients (s : Server) (m : gmap Z Client) : Server :=
  mkServer (sv_running s) m (sv_dropped_events s) (sv_sent s).
Definition set_subscriptions (c : Client) (subs : gset cstring) : Client :=
  mkClient (cl_rx_buffer c) subs (cl_out_queue c).

(** An encoder that throws leaves the thread function. *)
Definition encoded {A} (m : option A) : result abort A :=
  match m with Some a => Ok a | None => Err Uncaught end.

(** ** Delivery *)

(** [send_all]: [chunks] are the return values of successive [send] calls for
    a message of [size] bytes, [Err true] standing for [EINTR] and [Err false]
    for another error; the socket call never reports more than it was given.
    [None] is a loop that waits in a [send] after those: the sockets are
    blocking, and a peer that does not read fills their buffers. *)
Fixpoint send_all (size : Z) (chunks : list (result bool Z)) : option bool :=
  if size <=? 0 then Some true
  else
    match chunks with
    | [] => None
    | Err true :: chunks => send_all size chunks
    | Err false :: _ => Some false
    | Ok n :: chunks => send_all (size - n) chunks
    end.

(** The sending loop over the swapped-out queue: the lines that were written
    and whether all were, or [None] when it waits in a [send] for ever. *)
Fixpoint send_queue (send : cstring → option bool) (msgs : list cstring) :
    option (list cstring * bool) :=
  match msgs with
  | [] => Some ([], true)
  | m :: msgs =>
      ok ← send m;
      if ok : bool then '(sent, ok) ← send_queue send msgs; Some (m :: sent, ok)
      else Some ([], false)
  end.

Section server.
Context `{JL : JsonLib} {St : Type} (handler : Request → St → result abort (Response * St)).

(** What [send_all] returns for a line and a client's socket, [None] when it
    does not return. *)
Context (send : Z → cstring → option bool).

(** [deliver]; [held] says whether the calling thread holds [out_mutex]. *)
Definition deliver (held : bool) (fd : Z) (client : Client) (msg : cstring)
    (s : Server) : result abort (Client * Server) :=
  if held then Err Deadlock
  else if kMaxOutgoingQueue <=? zlen (cl_out_queue client) then
    Ok (mkClient (cl_rx_buffer client) (cl_subscriptions client) [],
        mkServer (sv_running s) (sv_clients s) (u64 (sv_dropped_events s + 1)) (sv_sent s))
  else
    let to_send := cl_out_queue client ++ [msg ++ [newline]] in
    let client := mkClient (cl_rx_buffer client) (cl_subscriptions client) [] in
    match send_queue (send fd) to_send with
    | None => Err Stalled
    | Some (sent, ok) =>
        let dropped := if ok : bool then sv_dropped_events s
                       else u64 (sv_dropped_events s + zlen to_send) in
        Ok (client, mkServer (sv_running s) (sv_clients s) dropped
                      (sv_sent s ++ (pair fd <$> sent)))
    end.

(** ** Requests *)
Definition subscription_limit (id : cstring) : option cstring :=
  encode_error id (mkIpcError TooManySubscriptions "subscription limit reached").
Definition shutdown_refused (id : cstring) : option cstring :=
  encode_error id (mkIpcError OperationNotAllowed
    "shutdown must be issued by the service owner locally").

Definition update_subscriptions (request : Request) (response : Response)
    (client : Client) : Client :=
  if bool_decide (rq_operation request = Subscribe) && rs_ok response
  then set_subscriptions client ({[rq_request_id request]} ∪ cl_subscriptions client)
  else if bool_decide (rq_operation request = Unsubscribe)
  then set_subscriptions client (cl_subscriptions client ∖ {[rq_request_id request]})
  else client.

(** The returned flag of the code is always [true] and left out. *)
Definition handle_frame (fd : Z) (client : Client) (frame : cstring)
    (s : Server) (st : St) : result abort (Client * Server * St) :=
  match parse_request frame kMaxRequestBytes with
  | Err error =>
      msg ← encoded (encode_error [] error);
      '(client, s) ← deliver false fd client msg s;
      Ok (client, s, st)
  | Ok request =>
      if bool_decide (rq_operation request = Subscribe)
         && (kMaxSubscriptionsPerClient <=? Z.of_nat (size (cl_subscriptions client)))
      then
        msg ← encoded (subscription_limit (rq_request_id request));
        '(client, s) ← deliver true fd client msg s;
        Ok (client, s, st)
      else if bool_decide (rq_operation request = Shutdown) then
        msg ← encoded (shutdown_refused (rq_request_id request));
        '(client, s) ← deliver false fd client msg s;
        Ok (client, s, st)
      else
        '(response, st) ← handler request st;
        let client := update_subscriptions request response client in
        msg ← encoded (encode_response response);
        '(client, s) ← deliver false fd client msg s;
        Ok (client, s, st)
  end.

Fixpoint handle_frames (fd : Z) (client : Client) (frames : list cstring)
    (s : Server) (st : St) : result abort (Client * Server * St) :=
  match frames with
  | [] => Ok (client, s, st)
  | frame :: frames =>
      '(client, s, st) ← handle_frame fd client frame s st;
      handle_frames fd client frames s st
  end.

(** ** The threads *)

(** The check on the peer: [cred] is the uid that [SO_PEERCRED] reports. *)
Definition peer_authorized (cred : option Z) (euid : Z) : bool :=
  match cred with Some uid => uid =? euid | None => false end.

(** One connection taken by [accept_loop]. *)
Definition accept_connection (fd : Z) (authorized thread_ok : bool) (s : Server) : Server :=
  if negb authorized then s
  else if kMaxClients <=? Z.of_nat (size (sv_clients s)) then s
  else
    let s := set_clients s (<[fd := new_Client]> (sv_clients s)) in
    if thread_ok then s else set_clients s (delete fd (sv_clients s)).

(** The end of [client_loop]. *)
Definition disconnect (fd : Z) (s : Server) : Server :=
  set_clients s (delete fd (sv_clients s)).

(** One [recv] of [client_loop] that delivered [chunk]. *)
Definition receive (fd : Z) (chunk : cstring) (s : Server) (st : St) :
    result abort (Server * St) :=
  match sv_clients s !! fd with
  | None => Ok (s, st)
  | Some client =>
      match split_frames (cl_rx_buffer client ++ chunk) kMaxRequestBytes [] with
      | (Err err, _, rx) =>
          msg ← encoded (encode_error [] err);
          '(_, s) ← deliver false fd
             (mkClient rx (cl_subscriptions client) (cl_out_queue client)) msg s;
          Ok (disconnect fd s, st)
      | (Ok _, frames, rx) =>
          '(client, s, st) ← handle_frames fd
             (mkClient rx (cl_subscriptions client) (cl_out_queue client)) frames s st;
          Ok (set_clients s (<[fd := client]> (sv_clients s)), st)
      end
  end.

(** ** Broadcast *)
Definition subscribed (client : Client) : bool :=
  negb (bool_decide (cl_subscriptions client = ∅)).

Definition subscribers (s : Server) : list (Z * Client) :=
  filter (λ fc, subscribed fc.2 = true) (map_to_list (sv_clients s)).

Fixpoint broadcast_loop (subs : list (Z * Client)) (msg : cstring) (s : Server) :
    result abort Server :=
  match subs with
  | [] => Ok s
  | (fd, client) :: subs =>
      '(client, s) ← deliver false fd client msg s;
      broadcast_loop subs msg (set_clients s (<[fd := client]> (sv_clients s)))
  end.

Definition broadcast (event : Event) (s : Server) : result abort Server :=
  msg ← encoded (encode_event event);
  broadcast_loop (subscribers s) msg s.
End server.

(** ** Socket creation ([start], [stop])

    The part of the file system that [start] inspects and changes, and the
    outcomes of its system calls. *)
Inductive file_kind := Directory | Socket (mode : Z) | RegularFile.

#[global] Instance file_kind_eq_dec : EqDecision file_kind.
Proof. solve_decision. Defined.

Record SocketEnv := mkSocketEnv {
  mkdir_ok : bool;
  unlink_ok : bool;
  socket_ok : bool;
  bind_ok : bool;
  listen_ok : bool;
}.

Abbreviation filesystem := (gmap cstring file_kind).

Definition kRuntimeDirectory : cstring := "/run/ezcap".
Definition kSunPathSize : Z := 108.

Definition ensure_default_socket_directory (env : SocketEnv) (fs : filesystem) :
    result cstring () * filesystem :=
  match fs !! kRuntimeDirectory with
  | Some Directory => (Ok (), fs)
  | Some _ => (Err (lit "default socket directory exists but is not a directory"), fs)
  | None =>
      if mkdir_ok env then (Ok (), <[kRuntimeDirectory := Directory]> fs)
      else (Err (lit "could not create default socket directory: "), fs)
  end.

(** Binding fails on an existing path; [chmod] then forces mode 0600. *)
Definition bind_socket (env : SocketEnv) (path : cstring) (fs : filesystem) :
    option filesystem :=
  match fs !! path with
  | Some _ => None
  | None => if bind_ok env then Some (<[path := Socket 0x180]> fs) else None
  end.

Definition server_start (env : SocketEnv) (path : cstring) (s : Server) (fs : filesystem) :
    result cstring () * Server * filesystem :=
  if sv_running s then (Ok (), s, fs)
  else
    let '(dir, fs) :=
      if path =s kDefaultSocketPath then ensure_default_socket_directory env fs
      else (Ok (), fs) in
    match dir with
    | Err e => (Err e, s, fs)
    | Ok _ =>
        let '(stale, fs) :=
          match fs !! path with
          | None => (Ok (), fs)
          | Some (Socket _) =>
              if unlink_ok env then (Ok (), delete path fs)
              else (Err (lit "failed to remove stale socket"), fs)
          | Some _ => (Err (lit "socket path exists and is not a socket"), fs)
          end in
        match stale with
        | Err e => (Err e, s, fs)
        | Ok _ =>
            if negb (socket_ok env) then (Err (lit "socket creation failed"), s, fs)
            else if kSunPathSize <=? zlen path then (Err (lit "socket path too long"), s, fs)
            else
              match bind_socket env path fs with
              | None => (Err (lit "bind failed: "), s, fs)
              | Some fs =>
                  if negb (listen_ok env) then (Err (lit "listen failed"), s, delete path fs)
                  else (Ok (), mkServer true (sv_clients s) (sv_dropped_events s) (sv_sent s), fs)
              end
        end
    end.

Definition server_stop (path : cstring) (s : Server) (fs : filesystem) : Server * filesystem :=
  if negb (sv_running s) then (s, fs)
  else (mkServer false ∅ (sv_dropped_events s) (sv_sent s), delete path fs).

(** A stopped server that starts keeps its (empty) client table. *)
Lemma server_start_running env path s fs s' fs' :
  server_start env path s fs = (Ok (), s', fs') → sv_running s = false →
  sv_running s' = true ∧ sv_clients s' = sv_clients s.
Proof.
  unfold server_start. intros H Hr. rewrite Hr in H.
  destruct (if path =s _ then _ else _) as [[u|e] fs1]; [|done].
  destruct (fs1 !! path) as [[|m|]|]; [done|destruct (unlink_ok env); [|done]|done|];
    (destruct (negb (socket_ok env)); [done|]); (destruct (_ <=? _); [done|]);
    (destruct (bind_socket _ _ _) as [fs3|]; [|done]);
    (destruct (negb (listen_ok env)); [done|]); by injection H as <- <-.
Qed.

(** Starting the server never removes or replaces anything but a socket:
    every directory and regular file is still there afterwards, whether the
    start succeeds or fails at any step; a successful start of a stopped
    server leaves an owner-only socket at the configured path. *)
Theorem server_start_preserves_files env path s fs r s' fs' :
  server_start env path s fs = (r, s', fs') →
  (∀ p k, fs !! p = Some k → (∀ m, k ≠ Socket m) → fs' !! p = Some k) ∧
  (r = Ok () → sv_running s = false →
   sv_running s' = true ∧ fs' !! path = Some (Socket 0x180)).
Proof.
  unfold server_start. destruct (sv_running s); [naive_solver|].
  assert (Hdir : ∃ d fs1, (if path =s kDefaultSocketPath
    then ensure_default_socket_directory env fs else (Ok (), fs)) = (d, fs1) ∧
    ∀ p k, fs !! p = Some k → fs1 !! p = Some k).
  { destruct (path =s _); [|eauto]. unfold ensure_default_socket_directory.
    destruct (fs !! kRuntimeDirectory) as [[]|] eqn:Hk; try by eauto.
    destruct (mkdir_ok env); [|eauto]. do 2 eexists. split; [done|].
    intros p k Hp. rewrite lookup_insert_ne; [done|]. congruence. }
  destruct Hdir as (d & fs1 & -> & H1). destruct d as [|e]; [|naive_solver].
  assert (Hst : ∃ d fs2, match fs1 !! path with
      | None => (Ok (), fs1)
      | Some (Socket _) => if unlink_ok env then (Ok (), delete path fs1)
          else (Err (lit "failed to remove stale socket"), fs1)
      | Some _ => (Err (lit "socket path exists and is not a socket"), fs1)
      end = (d, fs2) ∧
    (∀ p k, fs !! p = Some k → (∀ m, k ≠ Socket m) → fs2 !! p = Some k) ∧
    (d = Ok () → fs2 !! path = None)).
  { destruct (fs1 !! path) as [[]|] eqn:Hp; try (by do 2 eexists; split; [done|]; naive_solver).
    destruct (unlink_ok env); [|by do 2 eexists; split; [done|]; naive_solver].
    do 2 eexists. split; [done|].
    split; [|by rewrite lookup_delete_eq]. intros p k Hk Hns.
    rewrite lookup_delete_ne; [auto|]. intros ->. specialize (H1 _ _ Hk). naive_solver. }
  destruct Hst as (d & fs2 & -> & H2 & Hnone). destruct d as [[]|e]; [|naive_solver].
  specialize (Hnone eq_refl).
  destruct (socket_ok env); cbn [negb]; [|naive_solver].
  destruct (_ <=? _); [naive_solver|]. unfold bind_socket. rewrite Hnone.
  destruct (bind_ok env); [|naive_solver].
  destruct (listen_ok env); cbn [negb]; intros [= <- <- <-].
  - split; [|intros; by rewrite lookup_insert_eq]. intros p k Hk Hns.
    rewrite lookup_insert_ne; [auto|]. intros ->. specialize (H2 _ _ Hk Hns). congruence.
  - split; [|done]. intros p k Hk Hns. rewrite delete_insert_id by done. auto.
Qed.

(** ** Delivery and requests: lemmas *)
Lemma send_queue_all send msgs :
  (∀ m, m ∈ msgs → send m = Some true) → send_queue send msgs = Some (msgs, true).
Proof.
  induction msgs as [|m msgs IH]; intros H; [done|]. cbn [send_queue].
  rewrite H by by left. rewrite IH; [done|]. intros m' Hm'. apply H. by right.
Qed.

(** Enough progress reported by the socket completes the message. *)
Lemma send_all_complete size (ns : list Z) :
  Forall (λ n, 0 < n) ns → size ≤ foldr Z.add 0 ns → send_all size (Ok <$> ns) = Some true.
Proof.
  intros Hpos. revert size. induction Hpos as [|n ns Hn _ IH]; intros size Hs; cbn in *.
  - by rewrite (proj2 (Z.leb_le _ _)).
  - destruct (size <=? 0); [done|]. apply IH. lia.
Qed.

Record client_inv (c : Client) : Prop := mkClientInv {
  ci_subs : Z.of_nat (size (cl_subscriptions c)) ≤ kMaxSubscriptionsPerClient;
  ci_queue : cl_out_queue c = [];
  ci_rx : zlen (cl_rx_buffer c) < kMaxRequestBytes;
}.

Definition server_inv (s : Server) : Prop :=
  Z.of_nat (size (sv_clients s)) ≤ kMaxClients ∧ map_Forall (λ _, client_inv) (sv_clients s).

Section server_lemmas.
Context `{JL : JsonLib} {St : Type} (handler : Request → St → result abort (Response * St)).
Context (send : Z → cstring → option bool).

(** A delivery outside the lock leaves the queue empty and touches nothing
    else of the clients, or waits for the peer. *)
Definition line_written fd (msg : cstring) : list (Z * cstring) :=
  if decide (send fd (msg ++ [newline]) = Some true) then [(fd, msg ++ [newline])] else [].

Lemma deliver_cases fd c msg s :
  cl_out_queue c = [] →
  match send fd (msg ++ [newline]) with
  | None => deliver send false fd c msg s = Err Stalled
  | Some _ => ∃ s', deliver send false fd c msg s = Ok (c, s') ∧ sv_clients s' = sv_clients s ∧
      sv_running s' = sv_running s ∧ sv_sent s' = sv_sent s ++ line_written fd msg
  end.
Proof.
  destruct c as [rx subs q]. intros Hq. cbn in Hq. subst q. unfold deliver, line_written. cbn.
  destruct (send fd (msg ++ [newline])) as [[]|]; cbn; [..|done]; eexists; by repeat split.
Qed.

Lemma deliver_spec fd c msg s c' s' :
  deliver send false fd c msg s = Ok (c', s') → cl_out_queue c = [] →
  c' = c ∧ sv_clients s' = sv_clients s ∧ sv_running s' = sv_running s ∧
  sv_sent s' = sv_sent s ++ line_written fd msg.
Proof.
  intros H Hq. pose proof (deliver_cases fd c msg s Hq) as Hc.
  destruct (send fd _); [|congruence]. destruct Hc as (s1 & H1 & Hs). rewrite H1 in H.
  by injection H as <- <-.
Qed.

Lemma deliver_sends fd c msg s :
  cl_out_queue c = [] → send fd (msg ++ [newline]) = Some true →
  ∃ s', deliver send false fd c msg s = Ok (c, s') ∧ sv_clients s' = sv_clients s ∧
    sv_running s' = sv_running s ∧ sv_sent s' = sv_sent s ++ [(fd, msg ++ [newline])].
Proof.
  intros Hq Hs. pose proof (deliver_cases fd c msg s Hq) as Hc. unfold line_written in Hc.
  by rewrite Hs in Hc.
Qed.

Lemma deliver_inv fd c msg s c' s' :
  deliver send false fd c msg s = Ok (c', s') → client_inv c →
  client_inv c' ∧ sv_clients s' = sv_clients s.
Proof.
  intros H Hc. destruct (deliver_spec _ _ _ _ _ _ H) as (-> & Hs & _); [apply Hc|]. done.
Qed.

Lemma update_subscriptions_inv rq rs c :
  (rq_operation rq = Subscribe →
   Z.of_nat (size (cl_subscriptions c)) < kMaxSubscriptionsPerClient) →
  client_inv c → client_inv (update_subscriptions rq rs c).
Proof.
  intros Hlim [H1 H2 H3]. unfold update_subscriptions.
  destruct (bool_decide (rq_operation rq = Subscribe)) eqn:Hop; cbn [andb].
  - apply bool_decide_eq_true in Hop. specialize (Hlim Hop).
    destruct (rs_ok rs).
    + split; [|done..]. cbn. pose proof (size_union_alt {[rq_request_id rq]} (cl_subscriptions c)) as Hu.
      rewrite Hu, size_singleton.
      assert (size (cl_subscriptions c ∖ {[rq_request_id rq]}) ≤ size (cl_subscriptions c))%nat
        by (apply subseteq_size; set_solver). lia.
    + rewrite Hop. done.
  - destruct (bool_decide (rq_operation rq = Unsubscribe)); [|by split]. split; [|done..]. cbn.
    assert (size (cl_subscriptions c ∖ {[rq_request_id rq]}) ≤ size (cl_subscriptions c))%nat
      by (apply subseteq_size; set_solver). lia.
Qed.

Lemma handle_frame_inv fd c frame s st c' s' st' :
  handle_frame handler send fd c frame s st = Ok (c', s', st') → client_inv c →
  client_inv c' ∧ sv_clients s' = sv_clients s.
Proof.
  unfold handle_frame. intros H Hc.
  destruct (parse_request frame kMaxRequestBytes) as [rq|err].
  - destruct (bool_decide (rq_operation rq = Subscribe) && _) eqn:Hlim.
    { destruct (encoded _); [|done]. cbn in H. done. }
    destruct (bool_decide (rq_operation rq = Shutdown)).
    { destruct (encoded _) as [msg|]; [|done]. cbn [mbind result_bind] in H.
      destruct (deliver send false fd c msg s) as [[c1 s1]|] eqn:Hd; [|done].
      injection H as <- <- <-. by eapply deliver_inv. }
    destruct (handler rq st) as [[rs st1]|]; [|done]. cbn [mbind result_bind] in H.
    destruct (encoded _) as [msg|]; [|done]. cbn [mbind result_bind] in H.
    destruct (deliver send false fd _ msg s) as [[c1 s1]|] eqn:Hd; [|done].
    injection H as <- <- <-. eapply deliver_inv; [done|].
    apply update_subscriptions_inv; [|done]. intros Hop.
    rewrite bool_decide_true in Hlim by done. cbn [andb] in Hlim. lia.
  - destruct (encoded _) as [msg|]; [|done]. cbn [mbind result_bind] in H.
    destruct (deliver send false fd c msg s) as [[c1 s1]|] eqn:Hd; [|done].
    injection H as <- <- <-. by eapply deliver_inv.
Qed.

Lemma handle_frames_inv fd frames c s st c' s' st' :
  handle_frames handler send fd c frames s st = Ok (c', s', st') → client_inv c →
  client_inv c' ∧ sv_clients s' = sv_clients s.
Proof.
  revert c s st. induction frames as [|f frames IH]; intros c s st; cbn [handle_frames].
  { by intros [= <- <- <-]. }
  destruct (handle_frame handler send fd c f s st) as [[[c1 s1] st1]|] eqn:Hf; [|done].
  cbn [mbind result_bind]. intros H Hc. apply handle_frame_inv in Hf as [H1 H2]; [|done].
  destruct (IH _ _ _ H H1) as [? ?]. split; [done|congruence].
Qed.
End server_lemmas.

(** ** The server as a state machine *)
Inductive server_op :=
  | OpAccept (fd : Z) (cred : option Z) (euid : Z) (thread_ok : bool)
  | OpReceive (fd : Z) (chunk : cstring)
  | OpDisconnect (fd : Z)
  | OpBroadcast (e : Event).

Lemma subscribers_spec s fd c :
  (fd, c) ∈ subscribers s ↔ sv_clients s !! fd = Some c ∧ subscribed c = true.
Proof. unfold subscribers. rewrite list_elem_of_filter, elem_of_map_to_list. naive_solver. Qed.

Section machine.
Context `{JL : JsonLib} {St : Type} (handler : Request → St → result abort (Response * St)).
Context (send : Z → cstring → option bool).

Definition server_exec (op : server_op) (s : Server) (st : St) :
    result abort (Server * St) :=
  match op with
  | OpAccept fd cred euid thread_ok =>
      Ok (accept_connection fd (peer_authorized cred euid) thread_ok s, st)
  | OpReceive fd chunk => receive handler send fd chunk s st
  | OpDisconnect fd => Ok (disconnect fd s, st)
  | OpBroadcast e => s' ← broadcast send e s; Ok (s', st)
  end.

Inductive server_reachable (st0 : St) : Server → St → Prop :=
  | reach_init : server_reachable st0 new_Server st0
  | reach_step op s st s' st' :
      server_reachable st0 s st → server_exec op s st = Ok (s', st') →
      server_reachable st0 s' st'.

Lemma insert_size_le (m : gmap Z Client) fd c n :
  Z.of_nat (size m) ≤ n → is_Some (m !! fd) → Z.of_nat (size (<[fd := c]> m)) ≤ n.
Proof. intros Hn [c0 Hc]. by rewrite map_size_insert, Hc. Qed.

Lemma disconnect_inv fd s : server_inv s → server_inv (disconnect fd s).
Proof.
  intros [H1 H2]. split; cbn.
  - assert (size (delete fd (sv_clients s)) ≤ size (sv_clients s))%nat; [|lia].
    rewrite map_size_delete. destruct (_ !! _); cbn; lia.
  - by apply map_Forall_delete.
Qed.

Lemma accept_inv fd a t s : server_inv s → server_inv (accept_connection fd a t s).
Proof.
  intros [H1 H2]. unfold accept_connection. destruct a; [|done]. cbn [negb].
  destruct (Z.leb_spec kMaxClients (Z.of_nat (size (sv_clients s)))); [done|].
  assert (Hi : server_inv (set_clients s (<[fd := new_Client]> (sv_clients s)))).
  { split; cbn.
    - rewrite map_size_insert. destruct (_ !! _); cbn; lia.
    - apply map_Forall_insert_2; [|done]. by split; vm_compute. }
  destruct t; [done|]. apply (disconnect_inv fd _ Hi).
Qed.

Lemma receive_inv fd chunk s st s' st' :
  receive handler send fd chunk s st = Ok (s', st') → server_inv s → server_inv s'.
Proof.
  unfold receive. intros H [H1 H2].
  destruct (sv_clients s !! fd) as [c|] eqn:Hfd; [|by injection H as <- <-].
  assert (Hc := map_Forall_lookup_1 _ _ _ _ H2 Hfd). cbn in Hc.
  destruct (split_frames _ _ []) as [[[u|err] frames] rx] eqn:Hs.
  - destruct u. pose proof (split_frames_ok_lines _ _ _ _ _ Hs) as [Hf _].
    rewrite Hf in Hs. apply split_frames_iff in Hs as (_ & _ & Hrx).
    destruct (handle_frames _ _ _ _ _ _ _) as [[[c1 s1] st1]|] eqn:Hh; [|done].
    injection H as <- <-.
    apply handle_frames_inv in Hh as [Hc1 Hs1]; [|by split; [apply Hc|apply Hc|]].
    rewrite Hs1. split; cbn; [apply insert_size_le; eauto|by apply map_Forall_insert_2].
  - destruct (encoded _) as [msg|]; [|done]. cbn [mbind result_bind] in H.
    destruct (deliver _ _ _ _ _ _) as [[c1 s1]|] eqn:Hd; [|done]. injection H as <- <-.
    apply deliver_spec in Hd as (_ & Hcl & _); [|apply Hc]. apply disconnect_inv.
    split; by rewrite Hcl.
Qed.

Lemma broadcast_loop_inv subs msg s s' :
  broadcast_loop send subs msg s = Ok s' →
  Forall (λ fc, is_Some (sv_clients s !! fc.1) ∧ client_inv fc.2) subs →
  server_inv s → server_inv s'.
Proof.
  revert s. induction subs as [|[fd c] subs IH]; intros s H Hall Hinv; cbn [broadcast_loop] in H.
  { naive_solver. }
  inversion Hall as [|? ? [Hfd Hc] Hrest]; subst. cbn in Hfd, Hc.
  destruct (deliver send false fd c msg s) as [[c1 s1]|] eqn:Hd; [|done].
  apply deliver_spec in Hd as (-> & Hcl & _); [|apply Hc].
  cbn [mbind result_bind] in H. rewrite Hcl in H.
  eapply IH; [exact H| |].
  - eapply Forall_impl; [exact Hrest|]. intros [fd' c'] [[c0 Hin] Hc']. split; [|done].
    cbn in *. destruct (decide (fd = fd')) as [->|]; [by rewrite lookup_insert_eq|].
    rewrite lookup_insert_ne by done. eauto.
  - destruct Hinv as [H1 H2]. split; cbn; [by apply insert_size_le|by apply map_Forall_insert_2].
Qed.

Lemma server_exec_inv op s st s' st' :
  server_exec op s st = Ok (s', st') → server_inv s → server_inv s'.
Proof.
  destruct op as [fd a t|fd chunk|fd|e]; cbn [server_exec].
  - intros [= <- <-]. apply accept_inv.
  - apply receive_inv.
  - intros [= <- <-]. apply disconnect_inv.
  - unfold broadcast. destruct (encoded _) as [msg|]; [|done]. cbn [mbind result_bind].
    destruct (broadcast_loop _ _ _ _) as [s1|] eqn:Hb; [|done].
    intros [= <- <-] Hinv. eapply broadcast_loop_inv; [done| |done].
    apply Forall_forall. intros [fd c] [Hfd _]%subscribers_spec. destruct Hinv as [_ H2].
    split; [eauto|]. exact (map_Forall_lookup_1 _ _ _ _ H2 Hfd).
Qed.
End machine.

(** ** What is written, and to whom

    [P] is a predicate on the handler's state that every request keeps, [A] one
    on its answers.  The other replies are made by the server itself: they say
    what is wrong with the frame that they answer. *)
Inductive protocol_error {L : JsonLib} : Response → Prop :=
  | perr_parse frame e :
      parse_request frame kMaxRequestBytes = Err e → protocol_error (mkResponse [] false [] e)
  | perr_framing : protocol_error (mkResponse [] false [] too_large)
  | perr_shutdown frame rq :
      parse_request frame kMaxRequestBytes = Ok rq → rq_operation rq = Shutdown →
      protocol_error (mkResponse (rq_request_id rq) false [] (mkIpcError OperationNotAllowed
        "shutdown must be issued by the service owner locally")).

Section written.
Context `{JL : JsonLib} {St : Type} (handler : Request → St → result abort (Response * St)).
Context (send : Z → cstring → option bool) (P : St → Prop).
Context (A : Response → Prop).
Hypothesis handler_keeps : ∀ rq st rs st', handler rq st = Ok (rs, st') → P st → P st'.
Hypothesis handler_answers : ∀ rq st rs st', handler rq st = Ok (rs, st') → P st → A rs.

Definition reply_line (line : Z * cstring) : Prop :=
  ∃ r text, (protocol_error r ∨ A r) ∧ encode_response r = Some text ∧
    line.2 = text ++ [newline].

Definition written (Q : Z * cstring → Prop) (s s' : Server) : Prop :=
  ∃ new, sv_sent s' = sv_sent s ++ new ∧ Forall Q new.

Lemma written_refl Q s : written Q s s.
Proof. exists []. by rewrite app_nil_r. Qed.

Lemma written_trans Q s1 s2 s3 : written Q s1 s2 → written Q s2 s3 → written Q s1 s3.
Proof.
  intros (n1 & H1 & F1) (n2 & H2 & F2). exists (n1 ++ n2).
  rewrite H2, H1, (assoc_L (++)). split; [done|]. by apply Forall_app_2.
Qed.

Lemma deliver_written Q fd c msg s c' s' :
  deliver send false fd c msg s = Ok (c', s') → cl_out_queue c = [] →
  Q (fd, msg ++ [newline]) → written Q s s'.
Proof.
  intros H Hc HQ. destruct (deliver_spec _ _ _ _ _ _ _ H Hc) as (_ & _ & _ & Hs).
  eexists. split; [exact Hs|]. unfold line_written. case_decide; by repeat constructor.
Qed.

Lemma handle_frame_written fd c frame s st c' s' st' :
  handle_frame handler send fd c frame s st = Ok (c', s', st') → client_inv c → P st →
  written reply_line s s' ∧ P st'.
Proof.
  unfold handle_frame, subscription_limit, shutdown_refused, encode_error. intros H Hc HP.
  assert (Hdel : ∀ c1 rs st1 r, protocol_error rs ∨ A rs → client_inv c1 → P st1 →
    (m ← encoded (encode_response rs); '(c2, s2) ← deliver send false fd c1 m s;
     Ok (c2, s2, st1)) = Ok r → written reply_line s r.1.2 ∧ P r.2).
  { intros c1 rs st1 r HA Hc1 HP1 Hr. destruct (encode_response rs) as [m|] eqn:Hm; [|done].
    cbn [encoded mbind result_bind] in Hr.
    destruct (deliver send false fd c1 m s) as [[c2 s2]|] eqn:Hd; [|done].
    injection Hr as <-. split; [|done]. eapply deliver_written; [done|apply Hc1|].
    by exists rs, m. }
  destruct (parse_request frame kMaxRequestBytes) as [rq|err] eqn:Hrq.
  - destruct (bool_decide (rq_operation rq = Subscribe) && _) eqn:Hlim.
    { by destruct (encoded _). }
    case_bool_decide; [apply Hdel in H; [done|left; by eapply perr_shutdown|done..]|].
    destruct (handler rq st) as [[rs st1]|] eqn:Hh; [|done]. cbn [mbind result_bind] in H.
    apply Hdel in H; [done|right; by eapply handler_answers| |by eapply handler_keeps].
    apply update_subscriptions_inv; [|done]. intros Hop.
    rewrite bool_decide_true in Hlim by done. cbn [andb] in Hlim. lia.
  - apply Hdel in H; [done|left; by eapply perr_parse|done..].
Qed.

Lemma handle_frames_written fd frames c s st c' s' st' :
  handle_frames handler send fd c frames s st = Ok (c', s', st') → client_inv c → P st →
  written reply_line s s' ∧ P st'.
Proof.
  revert c s st. induction frames as [|f frames IH]; intros c s st; cbn [handle_frames].
  { intros [= <- <- <-] _ HP. split; [apply written_refl|done]. }
  destruct (handle_frame handler send fd c f s st) as [[[c1 s1] st1]|] eqn:Hf; [|done].
  cbn [mbind result_bind]. intros H Hc HP.
  destruct (handle_frame_inv _ _ _ _ _ _ _ _ _ _ Hf Hc) as [Hc1 _].
  apply handle_frame_written in Hf as [H1 HP1]; [|done..].
  apply IH in H as [H2 HP2]; [|done..]. split; [by eapply written_trans|done].
Qed.

Lemma receive_written fd chunk s st s' st' :
  receive handler send fd chunk s st = Ok (s', st') → server_inv s → P st →
  written reply_line s s' ∧ P st'.
Proof.
  unfold receive. intros H [_ Hinv] HP.
  destruct (sv_clients s !! fd) as [c|] eqn:Hfd;
    [|injection H as <- <-; split; [apply written_refl|done]].
  assert (Hc := map_Forall_lookup_1 _ _ _ _ Hinv Hfd). cbn in Hc.
  destruct (split_frames _ _ []) as [[[u|err] frames] rx] eqn:Hs.
  - destruct u. pose proof (split_frames_ok_lines _ _ _ _ _ Hs) as [Hf _].
    rewrite Hf in Hs. apply split_frames_iff in Hs as (_ & _ & Hrx).
    destruct (handle_frames _ _ _ _ _ _ _) as [[[c1 s1] st1]|] eqn:Hh; [|done].
    injection H as <- <-.
    apply handle_frames_written in Hh as [[new Hn] HP1];
      [|by split; [apply Hc|apply Hc|]|done].
    split; [by exists new|done].
  - destruct (encode_error [] err) as [msg|] eqn:Hm; [|done]. cbn [encoded mbind result_bind] in H.
    destruct (deliver _ _ _ _ _ _) as [[c1 s1]|] eqn:Hd; [|done]. injection H as <- <-.
    split; [|done].
    assert (Hw : written reply_line s s1) by (eapply deliver_written; [exact Hd|apply Hc|];
      exists (mkResponse [] false [] err), msg; split; [left; apply split_frames_error in Hs as ->;
      constructor|done]).
    destruct Hw as [new Hn]. by exists new.
Qed.

(** The handler's state and the [running_] flag need no invariant of the server. *)
Lemma deliver_running held fd c msg s c' s' :
  deliver send held fd c msg s = Ok (c', s') → sv_running s' = sv_running s.
Proof.
  unfold deliver. destruct held; [done|]. destruct (_ <=? _); [by intros [= _ <-]|].
  destruct (send_queue _ _) as [[]|]; [by intros [= _ <-]|done].
Qed.

Lemma handle_frame_keeps fd c frame s st c' s' st' :
  handle_frame handler send fd c frame s st = Ok (c', s', st') → P st →
  P st' ∧ sv_running s' = sv_running s.
Proof.
  assert (Hdel : ∀ held c1 m st1, (m1 ← encoded m; '(c2, s2) ← deliver send held fd c1 m1 s;
    Ok (c2, s2, st1)) = Ok (c', s', st') → P st1 → P st' ∧ sv_running s' = sv_running s).
  { intros held c1 m st1 H HP. destruct m as [m|]; [|done]. cbn [encoded mbind result_bind] in H.
    destruct (deliver _ _ _ _ _ _) as [[c2 s2]|] eqn:Hd; [|done].
    injection H as <- <- <-. split; [done|]. by eapply deliver_running. }
  unfold handle_frame. destruct (parse_request _ _) as [rq|err]; [|by apply Hdel].
  destruct (_ && _); [by apply Hdel|]. destruct (bool_decide _); [by apply Hdel|].
  destruct (handler rq st) as [[rs st2]|] eqn:Hh; [|done]. cbn [mbind result_bind].
  intros H HP. eapply Hdel; [exact H|]. by eapply handler_keeps.
Qed.

Lemma handle_frames_keeps fd frames c s st c' s' st' :
  handle_frames handler send fd c frames s st = Ok (c', s', st') → P st →
  P st' ∧ sv_running s' = sv_running s.
Proof.
  revert c s st. induction frames as [|f frames IH]; intros c s st; cbn [handle_frames].
  { by intros [= <- <- <-]. }
  destruct (handle_frame handler send fd c f s st) as [[[c1 s1] st1]|] eqn:Hf; [|done].
  cbn [mbind result_bind]. intros H HP. apply handle_frame_keeps in Hf as [HP1 Hs]; [|done].
  rewrite <-Hs. by eapply IH.
Qed.

Lemma receive_keeps fd chunk s st s' st' :
  receive handler send fd chunk s st = Ok (s', st') → P st →
  P st' ∧ sv_running s' = sv_running s.
Proof.
  unfold receive. destruct (sv_clients s !! fd) as [c|]; [|by intros [= <- <-]].
  destruct (split_frames _ _ []) as [[[u|err] frames] rx].
  - destruct (handle_frames _ _ _ _ _ _ _) as [[[c1 s1] st1]|] eqn:Hh; [|done].
    intros [= <- <-] HP. apply handle_frames_keeps in Hh; done.
  - destruct (encoded _); [|done]. cbn [mbind result_bind].
    destruct (deliver _ _ _ _ _ _) as [[]|] eqn:Hd; [|done]. intros [= <- <-] HP.
    split; [done|]. by eapply deliver_running in Hd.
Qed.

Lemma broadcast_running e s s' : broadcast send e s = Ok s' → sv_running s' = sv_running s.
Proof.
  unfold broadcast. destruct (encoded _) as [msg|]; [|done]. cbn [mbind result_bind].
  generalize (subscribers s). intros subs. revert s.
  induction subs as [|[fd c] subs IH]; intros s; cbn [broadcast_loop]; [by intros [= <-]|].
  destruct (deliver _ _ _ _ _ _) as [[c1 s1]|] eqn:Hd; [|done]. cbn [mbind result_bind].
  intros H. apply IH in H. rewrite H. by eapply deliver_running in Hd.
Qed.

Lemma broadcast_written (Q : Z * cstring → Prop) e s s' :
  broadcast send e s = Ok s' → server_inv s →
  (∀ fd msg, encode_event e = Some msg → Q (fd, msg ++ [newline])) → written Q s s'.
Proof.
  unfold broadcast. intros H [_ Hinv] HQ.
  destruct (encode_event e) as [msg|]; [|done]. cbn [encoded mbind result_bind] in H.
  assert (Hsubs : Forall (λ fc, client_inv fc.2) (subscribers s)).
  { apply Forall_forall. intros [fd c] Hin. apply subscribers_spec in Hin as [Hfd _].
    exact (map_Forall_lookup_1 _ _ _ _ Hinv Hfd). }
  clear Hinv. revert H Hsubs. generalize (subscribers s). intros subs. revert s.
  induction subs as [|[fd c] subs IH]; intros s H Hsubs; cbn [broadcast_loop] in H.
  { injection H as <-. apply written_refl. }
  inversion Hsubs as [|? ? Hc Hrest]; subst.
  destruct (deliver send false fd c msg s) as [[c1 s1]|] eqn:Hd; [|done].
  cbn [mbind result_bind] in H. apply IH in H; [|done].
  eapply written_trans; [|exact H].
  destruct (deliver_written Q _ _ _ _ _ _ Hd (ci_queue _ Hc)) as (new & Hn & HF); [by apply HQ|].
  by exists new.
Qed.
End written.

Lemma server_reachable_inv {L : JsonLib} {St}
    (handler : Request → St → result abort (Response * St)) send st0 s st :
  server_reachable handler send st0 s st → server_inv s.
Proof.
  induction 1 as [|op s st s' st' _ IH Hx].
  - split; [done|]. apply map_Forall_empty.
  - by eapply server_exec_inv.
Qed.

(** C10: In every reachable state the server has at most 16 clients, each with
    at most 8 subscriptions and with less than one maximal request of buffered
    input.  (The outgoing queue is empty between two calls of the server;
    [Delivery] bounds it while calls interleave.) *)
Theorem server_limits (L : JsonLib) St (handler : Request → St → result abort (Response * St)) send st0 s st :
  server_reachable handler send st0 s st →
  Z.of_nat (size (sv_clients s)) ≤ 16 ∧
  ∀ fd c, sv_clients s !! fd = Some c →
    Z.of_nat (size (cl_subscriptions c)) ≤ 8 ∧ zlen (cl_rx_buffer c) < 65536.
Proof.
  intros [Hn Hall]%server_reachable_inv. split; [done|]. intros fd c Hfd.
  destruct (map_Forall_lookup_1 _ _ _ _ Hall Hfd) as [Hs _ Hr]. done.
Qed.

(** A request that arrives whole, from a client below its limits. *)
Definition one_reply (fd : Z) (s s' : Server) : Prop :=
  ∃ msg, (newline ∉ msg) ∧ sv_sent s' = sv_sent s ++ [(fd, msg ++ [newline])].

Lemma encode_response_line {L : JsonLib} {HL : JsonLaws L} r msg :
  encode_response r = Some msg → newline ∉ msg.
Proof. apply dump_one_line. Qed.

(** C9: Every frame that is handled gets exactly one reply, written as a single
    line to the client that sent it, and no frame is handed to the daemon more
    than once: a malformed frame or a shutdown request never reaches it. *)
Theorem handle_frame_one_reply (L : JsonLib) (HL : JsonLaws L) St
    (handler : Request → St → result abort (Response * St)) send fd c frame s st c' s' st' :
  handle_frame handler send fd c frame s st = Ok (c', s', st') →
  client_inv c → (∀ m, send fd m = Some true) →
  one_reply fd s s' ∧
  match parse_request frame kMaxRequestBytes with
  | Ok rq =>
      if bool_decide (rq_operation rq = Shutdown) then c' = c ∧ st' = st
      else ∃ rs, handler rq st = Ok (rs, st') ∧ c' = update_subscriptions rq rs c
  | Err _ => c' = c ∧ st' = st
  end.
Proof.
  intros H Hc Hsend. unfold handle_frame, subscription_limit, shutdown_refused in H.
  assert (Hdel : ∀ (c1 : Client) (msg : option cstring) (k : St) r,
    cl_out_queue c1 = [] → (∀ m, msg = Some m → newline ∉ m) →
    (m ← encoded msg; '(c2, s2) ← deliver send false fd c1 m s; Ok (c2, s2, k)) = Ok r →
    r.1.1 = c1 ∧ r.2 = k ∧ one_reply fd s r.1.2).
  { intros c1 [m|] k r Hq Hm Hr; [|done]. cbn [encoded mbind result_bind] in Hr.
    destruct (deliver_sends send fd c1 m s Hq (Hsend _)) as (s1 & Hd & _ & _ & Hsent).
    rewrite Hd in Hr. injection Hr as <-.
    cbn. split_and!; [done..|]. exists m. auto. }
  destruct (parse_request frame kMaxRequestBytes) as [rq|err].
  - destruct (_ && _) eqn:Hlim.
    { destruct (encoded _); [|done]. done. }
    destruct (bool_decide (rq_operation rq = Shutdown)).
    + apply Hdel in H as (H1 & H2 & Hr); [cbn in H1, H2; by subst|apply Hc|apply encode_response_line].
    + destruct (handler rq st) as [[rs st1]|]; [|done]. cbn [mbind result_bind] in H.
      apply Hdel in H as (H1 & H2 & Hr);
        [cbn in H1, H2; subst; eauto| |apply encode_response_line].
      unfold update_subscriptions. repeat case_match; apply Hc.
  - apply Hdel in H as (H1 & H2 & Hr); [cbn in H1, H2; by subst|apply Hc|apply encode_response_line].
Qed.

(** C21: A subscribe request from a client that already has 8 subscriptions
    makes the reader thread wait for a mutex it holds: the limit reply is
    delivered with [out_mutex] locked, and [deliver] locks it again. *)
Theorem ninth_subscription_deadlocks (L : JsonLib) (HL : JsonLaws L) St
    (handler : Request → St → result abort (Response * St)) send fd c frame s st rq :
  parse_request frame kMaxRequestBytes = Ok rq → rq_operation rq = Subscribe →
  kMaxSubscriptionsPerClient ≤ Z.of_nat (size (cl_subscriptions c)) →
  handle_frame handler send fd c frame s st = Err Deadlock.
Proof.
  intros Hp Hop Hn. unfold handle_frame. rewrite Hp, bool_decide_true by done.
  rewrite (proj2 (Z.leb_le _ _) Hn). cbn [andb].
  destruct (dump_defined (response_json (mkResponse (rq_request_id rq) false []
    (mkIpcError TooManySubscriptions "subscription limit reached")))) as [m Hm].
  { apply parse_request_id_utf8 in Hp. apply jobject_utf8.
    by repeat (apply Forall_cons_2; [split; [reflexivity|]|]). }
  unfold subscription_limit, encode_error, encode_response. rewrite Hm. done.
Qed.

Lemma broadcast_loop_sent {L : JsonLib} send subs msg s :
  (∀ fd m, send fd m = Some true) →
  Forall (λ fc, sv_clients s !! fc.1 = Some fc.2 ∧ client_inv fc.2) subs →
  ∃ s', broadcast_loop send subs msg s = Ok s' ∧
    sv_sent s' = sv_sent s ++ ((λ fc, (fc.1, msg ++ [newline])) <$> subs) ∧
    sv_clients s' = sv_clients s.
Proof.
  intros Hsend. revert s. induction subs as [|[fd c] subs IH]; intros s Hall.
  { exists s. cbn. by rewrite app_nil_r. }
  inversion Hall as [|? ? [Hfd Hc] Hrest]; subst. cbn in Hfd, Hc. cbn [broadcast_loop].
  destruct (deliver_sends send fd c msg s) as (s1 & Hd & Hcl & _ & Hsent); [apply Hc|done|].
  rewrite Hd. cbn [mbind result_bind]. rewrite Hcl, insert_id by done.
  destruct (IH (set_clients s1 (sv_clients s))) as (s2 & Hb & H1 & H2); [done|].
  exists s2. split; [done|]. cbn in H1, H2. rewrite H1, H2, Hsent.
  by rewrite <-(assoc_L (++)).
Qed.

(** A broadcast writes the encoded event once to every client that has a
    subscription and to no other, and changes no client. *)
Theorem broadcast_reaches_subscribers (L : JsonLib) send e s msg :
  server_inv s → (∀ fd m, send fd m = Some true) → encode_event e = Some msg →
  ∃ s' new, broadcast send e s = Ok s' ∧ sv_sent s' = sv_sent s ++ new ∧
    sv_clients s' = sv_clients s ∧ NoDup new.*1 ∧
    ∀ fd m, (fd, m) ∈ new ↔
      m = msg ++ [newline] ∧ ∃ c, sv_clients s !! fd = Some c ∧ cl_subscriptions c ≠ ∅.
Proof.
  intros [_ Hinv] Hsend He. unfold broadcast. rewrite He. cbn [encoded mbind result_bind].
  assert (Hsubs : Forall (λ fc, sv_clients s !! fc.1 = Some fc.2 ∧ client_inv fc.2)
    (subscribers s)).
  { apply Forall_forall. intros [fd c] Hin. apply subscribers_spec in Hin as [Hfd _].
    split; [done|]. exact (map_Forall_lookup_1 _ _ _ _ Hinv Hfd). }
  destruct (broadcast_loop_sent send (subscribers s) msg s Hsend Hsubs)
    as (s' & Hb & H1 & H2).
  exists s', ((λ fc, (fc.1, msg ++ [newline])) <$> subscribers s).
  split_and!; [done..| |].
  - rewrite <-list_fmap_compose. unfold compose. cbn [fst].
    apply NoDup_fmap_fst.
    + intros fd c1 c2 H3 H4. apply subscribers_spec in H3 as [H3 _].
      apply subscribers_spec in H4 as [H4 _]. congruence.
    + apply NoDup_filter, NoDup_map_to_list.
  - intros fd m. rewrite list_elem_of_fmap. split.
    + intros ([fd' c] & [= -> ->] & [Hfd Hs]%subscribers_spec). split; [done|].
      exists c. split; [done|]. unfold subscribed in Hs. by case_bool_decide.
    + intros (-> & c & Hfd & Hne). exists (fd, c). split; [done|]. apply subscribers_spec.
      split; [done|]. unfold subscribed. by rewrite bool_decide_false.
Qed.

(** ** Instances *)
Definition echo (rq : Request) (st : nat) : result abort (Response * nat) :=
  Ok (mkResponse (rq_request_id rq) true [] (mkIpcError InternalError []), S st).
Definition reliable (fd : Z) (m : cstring) : option bool := Some true.
Definition subscribe_frame : cstring :=
  default [] (json_dump (JsonLib := TreeJson.lib) (request_json Subscribe "s-1" None)).
Definition full_client : Client :=
  mkClient [] (list_to_set (lit <$> ["1"; "2"; "3"; "4"; "5"; "6"; "7"; "8"]%string)) [].
Definition one_client : Server :=
  mkServer true {[ 5 := mkClient [] {[ lit "s-1" ]} [] ]} 0 [].

Lemma subscribe_frame_parses :
  parse_request (JL := TreeJson.lib) subscribe_frame kMaxRequestBytes
  = Ok (mkRequest 1 Subscribe "s-1" []).
Proof. vm_compute. reflexivity. Qed.

Lemma handle_frame_one_reply_witness :
  ∃ c' s', handle_frame (JL := TreeJson.lib) echo reliable 5 new_Client subscribe_frame
      new_Server 0%nat = Ok (c', s', 1%nat) ∧
    one_reply 5 new_Server s' ∧ lit "s-1" ∈ cl_subscriptions c'.
Proof.
  destruct (handle_frame (JL := TreeJson.lib) echo reliable 5 new_Client subscribe_frame
    new_Server 0%nat) as [[[c' s'] st']|] eqn:Hh; [|exfalso; vm_compute in Hh; discriminate Hh].
  destruct (handle_frame_one_reply TreeJson.lib TreeJson.laws nat echo reliable 5 new_Client
    subscribe_frame new_Server 0%nat c' s' st' Hh) as [Hr Hm].
  - split; [by vm_compute|reflexivity|by vm_compute].
  - reflexivity.
  - rewrite subscribe_frame_parses in Hm. destruct Hm as (rs & Hrs & ->).
    injection Hrs as <- <-. eexists _, s'. split; [reflexivity|]. split; [exact Hr|].
    cbn. set_solver.
Defined.

Lemma ninth_subscription_deadlocks_witness :
  handle_frame (JL := TreeJson.lib) echo reliable 5 full_client subscribe_frame
    new_Server 0%nat = Err Deadlock.
Proof.
  apply (ninth_subscription_deadlocks TreeJson.lib TreeJson.laws nat echo reliable 5 full_client
    subscribe_frame new_Server 0%nat (mkRequest 1 Subscribe "s-1" [])).
  - apply subscribe_frame_parses.
  - reflexivity.
  - vm_compute. discriminate.
Defined.

Lemma server_limits_witness :
  ∃ s, server_reachable (JL := TreeJson.lib) echo reliable 0%nat s 0%nat ∧
    size (sv_clients s) = 1%nat ∧ Z.of_nat (size (sv_clients s)) ≤ 16.
Proof.
  exists (accept_connection 5 true true new_Server).
  assert (H : server_reachable (JL := TreeJson.lib) echo reliable 0%nat
    (accept_connection 5 true true new_Server) 0%nat).
  { eapply (reach_step _ _ _ (OpAccept 5 (Some 1000) 1000 true)); [apply reach_init|reflexivity]. }
  split; [exact H|]. split; [reflexivity|].
  apply (server_limits TreeJson.lib nat echo reliable 0%nat _ 0%nat H).
Defined.

Lemma broadcast_reaches_subscribers_witness :
  ∃ msg s', encode_event (JL := TreeJson.lib) default_Event = Some msg ∧
    broadcast (JL := TreeJson.lib) reliable default_Event one_client = Ok s' ∧
    (5, msg ++ [newline]) ∈ sv_sent s'.
Proof.
  destruct (encode_event (JL := TreeJson.lib) default_Event) as [msg|] eqn:He;
    [|exfalso; vm_compute in He; discriminate He].
  destruct (broadcast_reaches_subscribers TreeJson.lib reliable default_Event one_client msg)
    as (s' & new & Hb & Hsent & _ & _ & Hnew).
  - split; [by vm_compute|]. apply map_Forall_singleton. split; [by vm_compute|reflexivity|by vm_compute].
  - reflexivity.
  - exact He.
  - exists msg, s'. split; [reflexivity|]. split; [exact Hb|]. rewrite Hsent.
    apply elem_of_app. right. apply Hnew. split; [reflexivity|].
    eexists. split; [apply lookup_singleton_eq|]. cbn [cl_subscriptions].
    apply (non_empty_singleton_L (C := gset cstring)).
Defined.

Definition stale_fs : filesystem :=
  <[lit "s" := Socket 0]> {[ lit "d" := Directory ]}.

Lemma server_start_preserves_files_witness :
  ∃ s' fs', server_start (mkSocketEnv true true true true true) "s" new_Server stale_fs
      = (Ok (), s', fs') ∧
    fs' !! lit "d" = Some Directory ∧ fs' !! lit "s" = Some (Socket 0x180).
Proof.
  assert (Hs : server_start (mkSocketEnv true true true true true) "s" new_Server stale_fs
    = (Ok (), mkServer true ∅ 0 [], <[lit "s" := Socket 0x180]> (delete (lit "s") stale_fs))).
  { unfold server_start. cbn [sv_running new_Server].
    change (lit "s" =s kDefaultSocketPath) with false. cbv iota beta.
    unfold stale_fs at 1. rewrite lookup_insert_eq. cbn [unlink_ok socket_ok negb].
    change (kSunPathSize <=? zlen (lit "s")) with false. cbv iota.
    unfold bind_socket. rewrite lookup_delete_eq. reflexivity. }
  eexists _, _. split; [exact Hs|].
  destruct (server_start_preserves_files _ _ _ _ _ _ _ Hs) as [Hkeep Hnew].
  split; [|by apply Hnew].
  apply Hkeep; [|discriminate]. unfold stale_fs. rewrite lookup_insert_ne by discriminate.
  apply lookup_singleton_eq.
Defined.
