(* ===== verification/Config.v ===== *)
(** * Daemon configuration ([src/daemon/config.cpp])

    Validation of the JSON configuration and its serialization.  A failure is
    an error message, or the exception that [json::value] throws on a policy
    that is not an object. *)
From S2P Require Import Prelude Double Json Types PolicyEngine.
Open Scope Z_scope.

Record Config := mkConfig {
  cf_socket_path : cstring;
  cf_log_level : cstring;
  cf_log_file : cstring;
  cf_prefer_ebpf : bool;
  cf_pcap_fallback : bool;
  cf_interfaces : list cstring;
  cf_pcap_filter : cstring;
  cf_policy : Policy;
  cf_storage_enabled : bool;
  cf_storage_path : cstring;
  cf_storage_retention : Z;
  cf_status_interval : Z;
  cf_max_events_per_second : Z;
}.

Definition default_Config : Config :=
  {| cf_socket_path := "/run/ezcap/ezcap.sock"; cf_log_level := "info";
     cf_log_file := []; cf_prefer_ebpf := true; cf_pcap_fallback := true;
     cf_interfaces := []; cf_pcap_filter := "ip or ip6";
     cf_policy := default_Policy; cf_storage_enabled := false;
     cf_storage_path := "/var/lib/ezcap/events.db";
     cf_storage_retention := 86400 * 7; cf_status_interval := 1000;
     cf_max_events_per_second := 0 |}.

Inductive config_error := ConfigError (m : cstring) | ConfigThrow.
Definition cerr (s : string) : config_error := ConfigError s.

(** ** Field updates *)
Definition set_socket_path v c := mkConfig v (cf_log_level c) (cf_log_file c)
  (cf_prefer_ebpf c) (cf_pcap_fallback c) (cf_interfaces c) (cf_pcap_filter c)
  (cf_policy c) (cf_storage_enabled c) (cf_storage_path c) (cf_storage_retention c)
  (cf_status_interval c) (cf_max_events_per_second c).
Definition set_log_level v c := mkConfig (cf_socket_path c) v (cf_log_file c)
  (cf_prefer_ebpf c) (cf_pcap_fallback c) (cf_interfaces c) (cf_pcap_filter c)
  (cf_policy c) (cf_storage_enabled c) (cf_storage_path c) (cf_storage_retention c)
  (cf_status_interval c) (cf_max_events_per_second c).
Definition set_log_file v c := mkConfig (cf_socket_path c) (cf_log_level c) v
  (cf_prefer_ebpf c) (cf_pcap_fallback c) (cf_interfaces c) (cf_pcap_filter c)
  (cf_policy c) (cf_storage_enabled c) (cf_storage_path c) (cf_storage_retention c)
  (cf_status_interval c) (cf_max_events_per_second c).
Definition set_prefer_ebpf v c := mkConfig (cf_socket_path c) (cf_log_level c)
  (cf_log_file c) v (cf_pcap_fallback c) (cf_interfaces c) (cf_pcap_filter c)
  (cf_policy c) (cf_storage_enabled c) (cf_storage_path c) (cf_storage_retention c)
  (cf_status_interval c) (cf_max_events_per_second c).
Definition set_pcap_fallback v c := mkConfig (cf_socket_path c) (cf_log_level c)
  (cf_log_file c) (cf_prefer_ebpf c) v (cf_interfaces c) (cf_pcap_filter c)
  (cf_policy c) (cf_storage_enabled c) (cf_storage_path c) (cf_storage_retention c)
  (cf_status_interval c) (cf_max_events_per_second c).
Definition set_interfaces v c := mkConfig (cf_socket_path c) (cf_log_level c)
  (cf_log_file c) (cf_prefer_ebpf c) (cf_pcap_fallback c) v (cf_pcap_filter c)
  (cf_policy c) (cf_storage_enabled c) (cf_storage_path c) (cf_storage_retention c)
  (cf_status_interval c) (cf_max_events_per_second c).
Definition set_pcap_filter v c := mkConfig (cf_socket_path c) (cf_log_level c)
  (cf_log_file c) (cf_prefer_ebpf c) (cf_pcap_fallback c) (cf_interfaces c) v
  (cf_policy c) (cf_storage_enabled c) (cf_storage_path c) (cf_storage_retention c)
  (cf_status_interval c) (cf_max_events_per_second c).
Definition set_policy v c := mkConfig (cf_socket_path c) (cf_log_level c)
  (cf_log_file c) (cf_prefer_ebpf c) (cf_pcap_fallback c) (cf_interfaces c)
  (cf_pcap_filter c) v (cf_storage_enabled c) (cf_storage_path c)
  (cf_storage_retention c) (cf_status_interval c) (cf_max_events_per_second c).
Definition set_storage e p r c := mkConfig (cf_socket_path c) (cf_log_level c)
  (cf_log_file c) (cf_prefer_ebpf c) (cf_pcap_fallback c) (cf_interfaces c)
  (cf_pcap_filter c) (cf_policy c) e p r (cf_status_interval c)
  (cf_max_events_per_second c).
Definition set_limits i m c := mkConfig (cf_socket_path c) (cf_log_level c)
  (cf_log_file c) (cf_prefer_ebpf c) (cf_pcap_fallback c) (cf_interfaces c)
  (cf_pcap_filter c) (cf_policy c) (cf_storage_enabled c) (cf_storage_path c)
  (cf_storage_retention c) i m.

(** ** Validation *)
Definition valid_path (path : cstring) : result config_error () :=
  _ ← ensure (match path with c :: _ => is_char "/" c | [] => false end)
        (cerr "path must be absolute");
  _ ← ensure (match find_sub ".." path with None => true | Some _ => false end)
        (cerr "path must not contain '..'");
  ensure (zlen path <=? 104) (cerr "path too long for a unix socket").

Definition short_name (max : Z) (s : cstring) : bool :=
  negb (is_empty s) && (zlen s <=? max).

Definition policy_keys : list cstring :=
  lit <$> ["redaction_mode"; "strip_query_string"; "strip_fragment";
           "sensitive_domains"; "capture_interfaces"; "pcap_filter"]%string.

Definition set_strip_query (b : bool) (p : Policy) : Policy :=
  mkPolicy (po_redaction_mode p) b (po_strip_fragment p) (po_sensitive_domains p)
    (po_persistence_enabled p) (po_retention p) (po_capture_interfaces p) (po_pcap_filter p).
Definition set_strip_fragment (b : bool) (p : Policy) : Policy :=
  mkPolicy (po_redaction_mode p) (po_strip_query_string p) b (po_sensitive_domains p)
    (po_persistence_enabled p) (po_retention p) (po_capture_interfaces p) (po_pcap_filter p).
Definition set_capture_interfaces (l : list cstring) (p : Policy) : Policy :=
  mkPolicy (po_redaction_mode p) (po_strip_query_string p) (po_strip_fragment p)
    (po_sensitive_domains p) (po_persistence_enabled p) (po_retention p) l (po_pcap_filter p).
Definition set_policy_filter (s : cstring) (p : Policy) : Policy :=
  mkPolicy (po_redaction_mode p) (po_strip_query_string p) (po_strip_fragment p)
    (po_sensitive_domains p) (po_persistence_enabled p) (po_retention p)
    (po_capture_interfaces p) s.

(** The body of the loop over [redaction.items()]. *)
Definition parse_policy_key (kv : cstring * json) (p : Policy) :
    result config_error Policy :=
  let '(key, value) := kv in
  if negb (mem key policy_keys) then Err (ConfigError ("unknown policy key: " ++ key))
  else if key =s "redaction_mode" then
    match value with
    | JString s =>
        match redaction_mode_from_name s with
        | Some m => Ok (set_mode m p)
        | None => Err (cerr "unknown redaction_mode")
        end
    | _ => Err (cerr "policy.redaction.redaction_mode must be a string")
    end
  else if (key =s "strip_query_string") || (key =s "strip_fragment") then
    match value with
    | JBool b =>
        Ok (if key =s "strip_query_string" then set_strip_query b p
            else set_strip_fragment b p)
    | _ => Err (ConfigError ("policy.redaction." ++ key ++ " must be a boolean"))
    end
  else if key =s "sensitive_domains" then
    match value with
    | JArray l =>
        ds ← read_strings (short_name 253)
               (cerr "policy.redaction.sensitive_domains entries must be non-empty strings (max 253 chars)") l;
        Ok (set_domains ds p)
    | _ => Err (cerr "policy.redaction.sensitive_domains must be an array")
    end
  else if key =s "capture_interfaces" then
    match value with
    | JArray l =>
        ifs ← read_strings (short_name 16)
               (cerr "policy.redaction.capture_interfaces entries must be non-empty interface names (max 16 chars)") l;
        Ok (set_capture_interfaces ifs p)
    | _ => Err (cerr "policy.redaction.capture_interfaces must be an array")
    end
  else
    match value with
    | JString s =>
        if zlen s <=? 256 then Ok (set_policy_filter s p)
        else Err (cerr "policy.redaction.pcap_filter must be a string (max 256 chars)")
    | _ => Err (cerr "policy.redaction.pcap_filter must be a string (max 256 chars)")
    end.

Fixpoint parse_policy_keys (kvs : list (cstring * json)) (p : Policy) :
    result config_error Policy :=
  match kvs with
  | [] => Ok p
  | kv :: kvs => p ← parse_policy_key kv p; parse_policy_keys kvs p
  end.

(** [doc.value("redaction", json::object())] throws unless [doc] is an object. *)
Definition parse_policy (doc : json) (p : Policy) : result config_error Policy :=
  match doc with
  | JObject _ =>
      match default (JObject []) (member "redaction" doc) with
      | JObject kvs => parse_policy_keys kvs p
      | _ => Err (cerr "policy.redaction must be an object")
      end
  | _ => Err ConfigThrow
  end.

Definition top_keys : list cstring :=
  lit <$> ["socket_path"; "log_level"; "log_file"; "prefer_ebpf"; "pcap_fallback";
           "interfaces"; "pcap_filter"; "policy"; "storage"; "status_interval_ms";
           "max_events_per_second"]%string.
Definition storage_keys : list cstring :=
  lit <$> ["enabled"; "path"; "retention_seconds"]%string.

(** The first key that is not allowed, in key order. *)
Definition check_keys (what : string) (allowed : list cstring) (doc : json) :
    result config_error () :=
  match doc with
  | JObject kvs =>
      match find_pred (λ kv, negb (mem kv.1 allowed)) kvs with
      | Some i => Err (ConfigError (lit what ++ from_option fst [] (kvs !! i)))
      | None => Ok ()
      end
  | _ => Ok ()
  end.

Definition step_socket_path (v : json) (c : Config) : result config_error Config :=
  match v with
  | JString s => _ ← valid_path s; Ok (set_socket_path s c)
  | _ => Err (cerr "invalid socket_path")
  end.

Definition config_levels : list cstring :=
  lit <$> ["trace"; "debug"; "info"; "warn"; "error"; "off"]%string.

Definition step_log_level (v : json) (c : Config) : result config_error Config :=
  match v with
  | JString s =>
      if mem s config_levels then Ok (set_log_level s c)
      else Err (cerr "log_level must be one of trace|debug|info|warn|error|off")
  | _ => Err (cerr "log_level must be a string")
  end.

Definition step_log_file (v : json) (c : Config) : result config_error Config :=
  match v with
  | JString s => Ok (set_log_file s c)
  | _ => Err (cerr "log_file must be a string")
  end.

Definition step_bool (m : string) (set : bool → Config → Config) (v : json) (c : Config) :
    result config_error Config :=
  match v with JBool b => Ok (set b c) | _ => Err (cerr m) end.

Definition step_interfaces (v : json) (c : Config) : result config_error Config :=
  match v with
  | JArray l =>
      ifs ← read_strings (short_name 16)
             (cerr "interfaces entries must be non-empty names (max 16 chars)") l;
      Ok (set_interfaces ifs c)
  | _ => Err (cerr "interfaces must be an array")
  end.

Definition step_pcap_filter (v : json) (c : Config) : result config_error Config :=
  match v with
  | JString s =>
      if zlen s <=? 256 then Ok (set_pcap_filter s c)
      else Err (cerr "pcap_filter must be a string (max 256 chars)")
  | _ => Err (cerr "pcap_filter must be a string (max 256 chars)")
  end.

Definition step_policy (v : json) (c : Config) : result config_error Config :=
  p ← parse_policy v (cf_policy c); Ok (set_policy p c).

(** An unsigned number in a range. *)
Definition unsigned_in (lo hi : Z) (v : json) : option Z :=
  match v with
  | JUint z => if (z <? lo) || (hi <? z) then None else Some z
  | _ => None
  end.

Definition step_storage_path (v : json) (c : Config) : result config_error Config :=
  match v with
  | JString s =>
      if is_empty s then Err (cerr "storage.path must be a non-empty string")
      else Ok (set_storage (cf_storage_enabled c) s (cf_storage_retention c) c)
  | _ => Err (cerr "storage.path must be a non-empty string")
  end.

Definition step_retention (v : json) (c : Config) : result config_error Config :=
  match unsigned_in 60 31536000 v with
  | Some z => Ok (set_storage (cf_storage_enabled c) (cf_storage_path c) z c)
  | None => Err (cerr "storage.retention_seconds must be between 60 and 31536000")
  end.

Definition step_storage (v : json) (c : Config) : result config_error Config :=
  _ ← ensure (is_object v) (cerr "storage must be an object");
  _ ← check_keys "unknown storage key: " storage_keys v;
  c ← if_member "enabled" v (step_bool "storage.enabled must be a boolean"
        (λ b c, set_storage b (cf_storage_path c) (cf_storage_retention c) c)) c;
  c ← if_member "path" v step_storage_path c;
  if_member "retention_seconds" v step_retention c.

Definition step_status_interval (v : json) (c : Config) : result config_error Config :=
  match unsigned_in 100 3600000 v with
  | Some z => Ok (set_limits z (cf_max_events_per_second c) c)
  | None => Err (cerr "status_interval_ms must be between 100 and 3600000")
  end.

Definition step_max_events (v : json) (c : Config) : result config_error Config :=
  match v with
  | JUint z => Ok (set_limits (cf_status_interval c) z c)
  | _ => Err (cerr "max_events_per_second must be a non-negative integer")
  end.

Definition parse_document (doc : json) (c : Config) : result config_error Config :=
  _ ← ensure (is_object doc) (cerr "configuration must be a JSON object");
  _ ← check_keys "unknown configuration key: " top_keys doc;
  c ← if_member "socket_path" doc step_socket_path c;
  c ← if_member "log_level" doc step_log_level c;
  c ← if_member "log_file" doc step_log_file c;
  c ← if_member "prefer_ebpf" doc
        (step_bool "prefer_ebpf must be a boolean" set_prefer_ebpf) c;
  c ← if_member "pcap_fallback" doc
        (step_bool "pcap_fallback must be a boolean" set_pcap_fallback) c;
  c ← if_member "interfaces" doc step_interfaces c;
  c ← if_member "pcap_filter" doc step_pcap_filter c;
  c ← if_member "policy" doc step_policy c;
  c ← if_member "storage" doc step_storage c;
  c ← if_member "status_interval_ms" doc step_status_interval c;
  c ← if_member "max_events_per_second" doc step_max_events c;
  _ ← ensure (negb (cf_storage_enabled c && is_empty (cf_storage_path c)))
        (cerr "storage.enabled requires storage.path");
  Ok c.

(** [Config::parse] and [Config::load]; [file] is the file's content. *)
Definition config_parse `{JL : JsonLib} (text : cstring) (c : Config) :
    result config_error Config :=
  match json_parse text with
  | None => Err (cerr "configuration is not valid JSON")
  | Some doc => parse_document doc c
  end.

Definition config_load `{JL : JsonLib} (path : cstring) (file : option cstring)
    (c : Config) : result config_error Config :=
  match file with
  | None => Err (ConfigError ("cannot open configuration file: " ++ path))
  | Some text =>
      if 256 * 1024 <? zlen text then Err (cerr "configuration file too large")
      else config_parse text c
  end.

(** ** Serialization *)
Definition config_json (c : Config) : json :=
  let p := cf_policy c in
  jobject
    [(lit "socket_path", JString (cf_socket_path c));
     (lit "log_level", JString (cf_log_level c));
     (lit "log_file", JString (cf_log_file c));
     (lit "prefer_ebpf", JBool (cf_prefer_ebpf c));
     (lit "pcap_fallback", JBool (cf_pcap_fallback c));
     (lit "interfaces", JArray (JString <$> cf_interfaces c));
     (lit "pcap_filter", JString (cf_pcap_filter c));
     (lit "policy", jobject
        [(lit "redaction_mode", JString (redaction_mode_name (po_redaction_mode p)));
         (lit "strip_query_string", JBool (po_strip_query_string p));
         (lit "strip_fragment", JBool (po_strip_fragment p));
         (lit "sensitive_domains", JArray (JString <$> po_sensitive_domains p));
         (lit "capture_interfaces", JArray (JString <$> po_capture_interfaces p))]);
     (lit "storage", jobject
        [(lit "enabled", JBool (cf_storage_enabled c));
         (lit "path", JString (cf_storage_path c));
         (lit "retention_seconds", JUint (u64 (cf_storage_retention c)))])].

Definition to_json_text `{JL : JsonLib} (c : Config) : option cstring :=
  json_dump (config_json c).

(** ** What a loaded configuration guarantees *)
Record policy_ok (p : Policy) : Prop := mkPolicyOk {
  pk_domains : Forall (λ d, short_name 253 d = true) (po_sensitive_domains p);
  pk_interfaces : Forall (λ d, short_name 16 d = true) (po_capture_interfaces p);
  pk_filter : zlen (po_pcap_filter p) ≤ 256;
}.

Record config_ok (c : Config) : Prop := mkConfigOk {
  ck_socket : valid_path (cf_socket_path c) = Ok ();
  ck_level : mem (cf_log_level c) config_levels = true;
  ck_interfaces : Forall (λ s, short_name 16 s = true) (cf_interfaces c);
  ck_filter : zlen (cf_pcap_filter c) ≤ 256;
  ck_policy : policy_ok (cf_policy c);
  ck_retention : 60 ≤ cf_storage_retention c ≤ 31536000;
  ck_interval : 100 ≤ cf_status_interval c ≤ 3600000;
}.

(** A validation step keeps the guarantees. *)
Definition keeps (step : json → Config → result config_error Config) : Prop :=
  ∀ v c c', step v c = Ok c' → config_ok c → config_ok c'.

Lemma if_member_keeps k doc step c c' :
  keeps step → if_member k doc step c = Ok c' → config_ok c → config_ok c'.
Proof. intros Hs. unfold if_member. destruct (member k doc); [apply Hs|naive_solver]. Qed.

Lemma parse_policy_key_ok kv p p' :
  parse_policy_key kv p = Ok p' → policy_ok p → policy_ok p'.
Proof.
  destruct kv as [key value]. unfold parse_policy_key. intros H [H1 H2 H3].
  destruct (negb (mem key policy_keys)); [done|].
  destruct (key =s "redaction_mode"); [split_cases; by split|].
  destruct (_ || _); [split_cases; by split|].
  destruct (key =s "sensitive_domains").
  { destruct value; try done. destruct (read_strings _ _ _) as [ds|] eqn:Hr; [|done].
    injection H as <-. apply read_strings_Ok in Hr as [_ Hr]. by split. }
  destruct (key =s "capture_interfaces").
  { destruct value; try done. destruct (read_strings _ _ _) as [ds|] eqn:Hr; [|done].
    injection H as <-. apply read_strings_Ok in Hr as [_ Hr]. by split. }
  destruct value; try done. destruct (Z.leb_spec (zlen s) 256); simplify_eq. by split.
Qed.

Lemma parse_policy_ok doc p p' : parse_policy doc p = Ok p' → policy_ok p → policy_ok p'.
Proof.
  unfold parse_policy. destruct doc; try done.
  destruct (default _ _) as [| | | | | | |kvs']; try done. clear kvs. revert p.
  induction kvs' as [|kv kvs IH]; intros p; cbn [parse_policy_keys]; [naive_solver|].
  destruct (parse_policy_key kv p) as [p1|] eqn:Hk; [|done]. cbn [mbind result_bind].
  intros H Hp. eapply IH; [done|]. by eapply parse_policy_key_ok.
Qed.

Lemma unsigned_in_spec lo hi v z : unsigned_in lo hi v = Some z → v = JUint z ∧ lo ≤ z ≤ hi.
Proof.
  destruct v as [| | |z'| | | |]; try done. cbn.
  destruct (Z.ltb_spec z' lo), (Z.ltb_spec hi z'); cbn; intros; simplify_eq; split; [done|lia].
Qed.

Lemma steps_keep :
  keeps step_socket_path ∧ keeps step_log_level ∧ keeps step_log_file ∧
  (∀ m, keeps (step_bool m set_prefer_ebpf)) ∧ (∀ m, keeps (step_bool m set_pcap_fallback)) ∧
  keeps step_interfaces ∧ keeps step_pcap_filter ∧ keeps step_policy ∧ keeps step_storage ∧
  keeps step_status_interval ∧ keeps step_max_events.
Proof.
  split_and!; [..|intros m|intros m| | | | | |]; intros v c c' H Hc;
    pose proof Hc as [H1 H2 H3 H4 H5 H6 H7].
  - destruct v; try done. unfold step_socket_path in H. destruct (valid_path s) as [[]|] eqn:Hv; [|done].
    injection H as <-. by split.
  - destruct v; try done. unfold step_log_level in H. destruct (mem s config_levels) eqn:Hm; [|done].
    injection H as <-. by split.
  - destruct v; try done. injection H as <-. by split.
  - destruct v; try done. injection H as <-. by split.
  - destruct v; try done. injection H as <-. by split.
  - destruct v; try done. unfold step_interfaces in H. destruct (read_strings _ _ _) as [l'|] eqn:Hr; [|done].
    injection H as <-. apply read_strings_Ok in Hr as [_ Hr]. by split.
  - destruct v; try done. unfold step_pcap_filter in H. destruct (Z.leb_spec (zlen s) 256); [|done].
    injection H as <-. by split.
  - unfold step_policy in H. destruct (parse_policy v (cf_policy c)) as [p|] eqn:Hp; [|done].
    injection H as <-. apply parse_policy_ok in Hp; [|done]. by split.
  - unfold step_storage in H.
    destruct (ensure _ _); [|done]. cbn [mbind result_bind] in H.
    destruct (check_keys _ _ _); [|done]. cbn [mbind result_bind] in H.
    destruct (if_member (lit "enabled") _ _ _) as [c1|] eqn:E1; [|done].
    cbn [mbind result_bind] in H.
    apply if_member_keeps in E1; [|intros [] ? ? [= <-] []; by split|done].
    destruct (if_member (lit "path") _ _ _) as [c2|] eqn:E2; [|done].
    cbn [mbind result_bind] in H.
    apply if_member_keeps in E2;
      [|intros [] ? ? Hs []; cbn in Hs; try done; destruct (is_empty _); simplify_eq; by split|done].
    apply if_member_keeps in H; [done| |done]. intros v' c0 c3 Hs [].
    unfold step_retention in Hs. destruct (unsigned_in _ _ _) eqn:Hu; [|done].
    apply unsigned_in_spec in Hu as [_ Hu]. injection Hs as <-. by split.
  - unfold step_status_interval in H. destruct (unsigned_in _ _ _) eqn:Hu; [|done].
    apply unsigned_in_spec in Hu as [_ Hu]. injection H as <-. by split.
  - destruct v; try done. injection H as <-. by split.
Qed.

Lemma check_keys_ok what allowed kvs :
  check_keys what allowed (JObject kvs) = Ok () ↔ Forall (λ kv, kv.1 ∈ allowed) kvs.
Proof.
  unfold check_keys. destruct (find_pred _ kvs) as [i|] eqn:Hf.
  - split; [done|]. apply find_pred_Some in Hf as (kv & l1 & l2 & -> & _ & Hn & _).
    intros Hall. apply Forall_app in Hall as [_ Hall]. inv Hall.
    apply negb_true_iff, mem_false in Hn. done.
  - split; [intros _|done]. apply find_pred_None in Hf.
    eapply Forall_impl; [done|]. intros kv Hkv. cbn in Hkv.
    by apply negb_false_iff, mem_spec in Hkv.
Qed.

Lemma default_config_ok : config_ok default_Config.
Proof. split; try done; repeat constructor; try done; vm_compute; congruence. Qed.

Lemma parse_document_ok kvs c :
  parse_document (JObject kvs) default_Config = Ok c →
  config_ok c ∧ Forall (λ kv, kv.1 ∈ top_keys) kvs ∧
  (cf_storage_enabled c = true → cf_storage_path c ≠ []).
Proof.
  unfold parse_document. cbn [is_object ensure mbind result_bind]. intros H.
  destruct (check_keys _ _ _) as [[]|] eqn:Hk; [|done]. apply check_keys_ok in Hk.
  cbn [mbind result_bind] in H.
  destruct steps_keep as (S1 & S2 & S3 & S4 & S5 & S6 & S7 & S8 & S9 & S10 & S11).
  pose proof default_config_ok as Hc0. revert H Hc0. generalize default_Config. intros c0 H Hc0.
  repeat match type of H with
  | mbind _ (if_member _ _ _ _) = _ =>
      match type of H with mbind _ ?m = _ =>
        let E := fresh "E" in
        destruct m as [?|] eqn:E; [|done]; cbn [mbind result_bind] in H;
        apply if_member_keeps in E; [|by auto|done]
      end
  end.
  destruct (ensure _ _) eqn:He; [|done]. injection H as <-.
  split; [done|]. split; [done|]. unfold ensure in He. intros Hen.
  rewrite Hen in He. cbn in He. by destruct (cf_storage_path _).
Qed.

(** A section of the document is present only with members from its list. *)
Definition known_section (k : cstring) (allowed : list cstring) (doc : json) : Prop :=
  ∀ v, member k doc = Some v → ∃ kvs, v = JObject kvs ∧ Forall (λ kv, kv.1 ∈ allowed) kvs.

Lemma parse_policy_keys_known kvs p p' :
  parse_policy_keys kvs p = Ok p' → Forall (λ kv, kv.1 ∈ policy_keys) kvs.
Proof.
  revert p. induction kvs as [|[key value] kvs IH]; intros p; cbn [parse_policy_keys]; [done|].
  destruct (parse_policy_key (key, value) p) as [p1|] eqn:Hk; [|done]. cbn [mbind result_bind].
  intros H. constructor; [|by eapply IH]. cbn [fst]. apply mem_spec.
  unfold parse_policy_key in Hk. by destruct (mem key policy_keys).
Qed.

Lemma step_policy_known doc c c' :
  step_policy doc c = Ok c' → known_section "redaction" policy_keys doc.
Proof.
  unfold step_policy, parse_policy. intros H v Hv. destruct doc; try done.
  rewrite Hv in H. cbn [default] in H. unfold default, id in H.
  destruct v as [| | | | | | |kvs']; try done. exists kvs'. split; [done|].
  destruct (parse_policy_keys kvs' (cf_policy c)) eqn:Hk; [|done].
  by eapply parse_policy_keys_known.
Qed.

Lemma step_storage_known doc c c' :
  step_storage doc c = Ok c' → ∃ kvs, doc = JObject kvs ∧ Forall (λ kv, kv.1 ∈ storage_keys) kvs.
Proof.
  unfold step_storage. destruct doc as [| | | | | | |kvs]; try done.
  cbn [is_object ensure mbind result_bind].
  destruct (check_keys _ _ _) as [[]|] eqn:Hk; [|done]. apply check_keys_ok in Hk. eauto.
Qed.

(** Every section that is present was accepted by its step. *)
Lemma parse_document_sections doc c0 c :
  parse_document doc c0 = Ok c →
  (∃ c1 c2, if_member "policy" doc step_policy c1 = Ok c2) ∧
  (∃ c1 c2, if_member "storage" doc step_storage c1 = Ok c2).
Proof.
  unfold parse_document. destruct (ensure _ _); [|done]. cbn [mbind result_bind].
  destruct (check_keys _ _ _); [|done]. cbn [mbind result_bind]. intros H.
  repeat match type of H with
  | mbind _ (if_member _ _ _ _) = _ =>
      match type of H with mbind _ ?m = _ =>
        let E := fresh "E" in
        destruct m as [?|] eqn:E; [|done]; cbn [mbind result_bind] in H
      end
  end.
  split; do 2 eexists; eassumption.
Qed.

Lemma parse_document_known kvs c0 c :
  parse_document (JObject kvs) c0 = Ok c →
  (∀ v, member "policy" (JObject kvs) = Some v → known_section "redaction" policy_keys v) ∧
  known_section "storage" storage_keys (JObject kvs).
Proof.
  intros [(c1 & c2 & Hp) (c3 & c4 & Hs)]%parse_document_sections. unfold if_member in Hp, Hs.
  split; intros v Hv.
  - rewrite Hv in Hp. by eapply step_policy_known.
  - rewrite Hv in Hs. by eapply step_storage_known.
Qed.


Definition sample_settings : list (cstring * json) :=
  [(lit "log_level", JString "debug"); (lit "status_interval_ms", JUint 250);
   (lit "storage", JObject [(lit "enabled", JBool true)])].


(** What is not checked: the log file and the storage path may be any strings
    (the path non-empty), relative ones too and of any length; a list of
    interfaces may have any length; and a policy section may have members
    beside [redaction], which are ignored. *)
Lemma unchecked_settings_load file path names key value :
  path ≠ [] → Forall (λ s, short_name 16 s = true) names → key ≠ lit "redaction" →
  ∃ c, parse_document
      (JObject [(lit "interfaces", JArray (JString <$> names)); (lit "log_file", JString file);
                (lit "policy", JObject [(key, value)]);
                (lit "storage", JObject [(lit "path", JString path)])]) default_Config = Ok c ∧
    cf_log_file c = file ∧ cf_storage_path c = path ∧ cf_interfaces c = names ∧
    cf_policy c = default_Policy.
Proof.
  intros Hp%is_empty_false Hn Hk.
  assert (Hm : member "redaction" (JObject [(key, value)]) = None).
  { cbn [member assoc_get]. by rewrite (proj2 (str_eqb_neq _ _)) by done. }
  assert (H1 : ∀ c, step_interfaces (JArray (JString <$> names)) c = Ok (set_interfaces names c)).
  { intros c. unfold step_interfaces. by rewrite (proj2 (read_strings_Ok _ _ _ names)). }
  assert (H2 : ∀ c, step_policy (JObject [(key, value)]) c = Ok (set_policy (cf_policy c) c)).
  { intros c. unfold step_policy, parse_policy. by rewrite Hm. }
  assert (H3 : ∀ c, step_storage (JObject [(lit "path", JString path)]) c
    = Ok (set_storage (cf_storage_enabled c) path (cf_storage_retention c) c)).
  { intros c. transitivity (c ← step_storage_path (JString path) c; Ok c); [reflexivity|].
    unfold step_storage_path. by rewrite Hp. }
  eexists (set_storage _ path _ (set_policy _ (set_interfaces names (set_log_file file
    default_Config)))). split; [|split_and!; reflexivity].
  transitivity (c ← step_interfaces (JArray (JString <$> names)) (set_log_file file default_Config);
    c ← step_policy (JObject [(key, value)]) c;
    c ← step_storage (JObject [(lit "path", JString path)]) c;
    _ ← ensure (negb (cf_storage_enabled c && is_empty (cf_storage_path c)))
        (cerr "storage.enabled requires storage.path");
    Ok c); [reflexivity|].
  rewrite H1. cbn [mbind result_bind]. rewrite H2. cbn [mbind result_bind]. by rewrite H3.
Qed.

(** ** Serialization *)
Lemma read_strings_canon {E} ok (e : E) (l : list cstring) :
  Forall (λ s, ok s = true) l → read_strings ok e (map json_canon (JString <$> l)) = Ok l.
Proof.
  intros H. apply read_strings_Ok. split; [|done].
  induction H as [|s l _ _ IH]; csimpl; [done|]. by f_equal.
Qed.

Definition reloaded (base c : Config) : Config :=
  set_policy (cf_policy base)
    (set_limits (cf_status_interval base) (cf_max_events_per_second base) c).

Lemma step_storage_reload (e : bool) (p : cstring) (r : Z) base :
  p ≠ [] → 60 ≤ r ≤ 31536000 →
  step_storage (json_canon (jobject
    [(lit "enabled", JBool e); (lit "path", JString p);
     (lit "retention_seconds", JUint (u64 r))])) base = Ok (set_storage e p r base).
Proof.
  intros Hp Hr. set (v := json_canon _).
  assert (He : member "enabled" v = Some (JBool e)) by (unfold v; by rewrite member_canon).
  assert (Hpa : member "path" v = Some (JString p)) by (unfold v; by rewrite member_canon).
  assert (Hre : member "retention_seconds" v = Some (JUint (u64 r)))
    by (unfold v; by rewrite member_canon).
  unfold step_storage, if_member. rewrite He, Hpa, Hre.
  change (ensure (is_object v) _) with (@Ok config_error () ()).
  change (check_keys _ _ v) with (@Ok config_error () ()).
  cbn [mbind result_bind step_bool step_storage_path].
  apply is_empty_false in Hp. rewrite Hp. cbn [mbind result_bind].
  unfold step_retention, unsigned_in, u64. rewrite Z.mod_small by lia.
  rewrite (proj2 (Z.ltb_ge r 60)), (proj2 (Z.ltb_ge 31536000 r)) by lia. done.
Qed.

Lemma parse_document_reload base c :
  config_ok c → cf_storage_path c ≠ [] →
  parse_document (json_canon (config_json c)) base = Ok (reloaded base c).
Proof.
  intros [H1 H2 H3 H4 _ H6 _] Hpath. set (doc := json_canon (config_json c)).
  assert (E1 : member "socket_path" doc = Some (JString (cf_socket_path c)))
    by (unfold doc; by rewrite member_canon).
  assert (E2 : member "log_level" doc = Some (JString (cf_log_level c)))
    by (unfold doc; by rewrite member_canon).
  assert (E3 : member "log_file" doc = Some (JString (cf_log_file c)))
    by (unfold doc; by rewrite member_canon).
  assert (E4 : member "prefer_ebpf" doc = Some (JBool (cf_prefer_ebpf c)))
    by (unfold doc; by rewrite member_canon).
  assert (E5 : member "pcap_fallback" doc = Some (JBool (cf_pcap_fallback c)))
    by (unfold doc; by rewrite member_canon).
  assert (E6 : member "interfaces" doc
    = Some (JArray (map json_canon (JString <$> cf_interfaces c))))
    by (unfold doc; by rewrite member_canon).
  assert (E7 : member "pcap_filter" doc = Some (JString (cf_pcap_filter c)))
    by (unfold doc; by rewrite member_canon).
  assert (E8 : ∃ kvs, member "policy" doc = Some (JObject kvs) ∧
    assoc_get "redaction" kvs = None)
    by (unfold doc; rewrite member_canon; by eexists).
  assert (E9 : member "storage" doc = Some (json_canon (jobject
    [(lit "enabled", JBool (cf_storage_enabled c)); (lit "path", JString (cf_storage_path c));
     (lit "retention_seconds", JUint (u64 (cf_storage_retention c)))])))
    by (unfold doc; by rewrite member_canon).
  assert (E10 : member "status_interval_ms" doc = None) by (unfold doc; by rewrite member_canon).
  assert (E11 : member "max_events_per_second" doc = None) by (unfold doc; by rewrite member_canon).
  destruct E8 as (kvs & E8 & Hno).
  unfold parse_document, if_member. rewrite E1, E2, E3, E4, E5, E6, E7, E8, E9, E10, E11.
  change (ensure (is_object doc) _) with (@Ok config_error () ()).
  change (check_keys _ _ doc) with (@Ok config_error () ()).
  cbn [mbind result_bind step_socket_path step_log_file step_bool].
  rewrite H1. cbn [mbind result_bind]. unfold step_log_level. rewrite H2.
  cbn [mbind result_bind]. unfold step_interfaces. rewrite read_strings_canon by done.
  cbn [mbind result_bind]. unfold step_pcap_filter. rewrite (proj2 (Z.leb_le _ _) H4).
  cbn [mbind result_bind]. unfold step_policy, parse_policy. cbn [member]. rewrite Hno.
  cbn [default parse_policy_keys mbind result_bind].
  rewrite step_storage_reload by done. cbn [mbind result_bind].
  apply is_empty_false in Hpath. cbn [cf_storage_path set_storage]. rewrite Hpath.
  rewrite andb_false_r. by destruct c.
Qed.

(** A valid configuration that is serialized and loaded again comes back
    with every capture, logging, socket and storage setting; its privacy policy
    and its rate limits do not come back: they take the values of the
    configuration it is loaded into. *)
Theorem config_reload (L : JsonLib) (HL : JsonLaws L) base c text :
  config_ok c → cf_storage_path c ≠ [] → to_json_text c = Some text →
  config_parse text base = Ok (reloaded base c).
Proof.
  intros Hc Hp Ht. unfold config_parse.
  rewrite (parse_dump (config_json c) text); [by apply parse_document_reload| |done].
  apply jobject_wf. repeat constructor; cbn [json_wf snd]; try done.
  - induction (cf_interfaces c) as [|s l IH]; [done|]. by csimpl.
  - apply jobject_wf. repeat constructor; cbn [json_wf snd]; try done.
    + induction (po_sensitive_domains (cf_policy c)) as [|s l IH]; [done|]. by csimpl.
    + induction (po_capture_interfaces (cf_policy c)) as [|s l IH]; [done|]. by csimpl.
  - apply jobject_wf. repeat constructor; cbn [json_wf snd]; try done.
    apply andb_true_intro. unfold u64. pose proof (Z.mod_pos_bound (cf_storage_retention c) (2 ^ 64)).
    split; lia.
Qed.

(** A configuration with a privacy policy that must not be lost. *)
Definition strict_config : Config :=
  set_policy (mkPolicy HostnameOnly true true [lit "bank.example"] false 604800 [] "ip or ip6")
    default_Config.

Lemma config_reload_witness :
  ∃ text, to_json_text (JL := TreeJson.lib) strict_config = Some text ∧
    config_parse (JL := TreeJson.lib) text default_Config = Ok default_Config.
Proof.
  eexists. split; [reflexivity|].
  refine (config_reload TreeJson.lib TreeJson.laws default_Config strict_config _ _ _ _).
  - split; try done; repeat constructor; try done; vm_compute; congruence.
  - done.
  - reflexivity.
Defined.
