(* ===== verification/Storage.v ===== *)
(** * The event store ([src/storage/])

    Migrations, the bounded write queue and the writer thread.  SQLite is
    third-party code: the class [Sqlite] has the statements the store issues,
    [SqliteLaws] their documented behaviour, and [TableDb] is an instance. *)
From S2P Require Import Prelude Double Json Types Time IpcCodec.
Open Scope Z_scope.

(** ** Rows and the database interface *)
Record PendingWrite := mkPendingWrite {
  pw_event_id : cstring;
  pw_schema_version : Z;
  pw_event_type : cstring;
  pw_source : cstring;
  pw_confidence : double;
  pw_timestamp_ms : Z;
  pw_process_name : cstring;
  pw_remote_address : cstring;
  pw_remote_port : Z;
  pw_url : cstring;
  pw_event_json : cstring;
}.

(** A row of the [events] table: the columns of the insert statement, with
    [None] for NULL. *)
Record EventRow := mkEventRow {
  er_event_id : cstring;
  er_schema_version : Z;
  er_event_type : cstring;
  er_source : cstring;
  er_confidence : double;
  er_timestamp_unix_ms : Z;
  er_process_name : option cstring;
  er_remote_address : option cstring;
  er_remote_port : option Z;
  er_url : option cstring;
  er_event_json : cstring;
}.

(** The binding of a text that may be absent.  Texts are bound up to their first
    NUL ([c_str()] with length [-1]). *)
Definition bind_optional_text (s : cstring) : option cstring :=
  if is_empty s then None else Some (c_string s).

(** The eleven parameters that [write_one] binds. *)
Definition bind_row (w : PendingWrite) : EventRow :=
  {| er_event_id := c_string (pw_event_id w);
     er_schema_version := i32 (pw_schema_version w);
     er_event_type := c_string (pw_event_type w);
     er_source := c_string (pw_source w);
     er_confidence := pw_confidence w;
     er_timestamp_unix_ms := pw_timestamp_ms w;
     er_process_name := bind_optional_text (pw_process_name w);
     er_remote_address := bind_optional_text (pw_remote_address w);
     er_remote_port := if pw_remote_port w <? 0 then None else Some (i32 (pw_remote_port w));
     er_url := bind_optional_text (pw_url w);
     er_event_json := c_string (pw_event_json w) |}.

(** [sqlite_exec] is [sqlite3_exec] of a fixed statement, with the error message
    it may set; [sqlite_user_version] the row that [PRAGMA user_version] yields,
    if it can be prepared and stepped; [db_insert] prepares and steps the
    parameterized insert of [write_one]; [db_delete_before] is the parameterized
    delete of [prune], with the number of rows it changed. *)
Class Sqlite (DB : Type) := {
  sqlite_exec : cstring → DB → result (option cstring) DB;
  sqlite_user_version : DB → option Z;
  db_insert : EventRow → DB → option DB;
  db_delete_before : Z → DB → option (DB * Z);
}.

Definition sql_begin : cstring := "BEGIN".
Definition sql_commit : cstring := "COMMIT".
Definition sql_rollback : cstring := "ROLLBACK".
Definition sql_set_version (v : Z) : cstring :=
  lit "PRAGMA user_version = " ++ to_string v.

(** ** Migrations ([migrations.cpp]) *)
Record Migration := mkMigration { mg_version : Z; mg_statements : list cstring }.

Definition kMigrations : list Migration :=
  [mkMigration 1
     [lit "CREATE TABLE IF NOT EXISTS events ( id INTEGER PRIMARY KEY AUTOINCREMENT, event_id TEXT NOT NULL UNIQUE, schema_version INTEGER NOT NULL, event_type TEXT NOT NULL, source TEXT NOT NULL, confidence REAL NOT NULL, timestamp_unix_ms INTEGER NOT NULL, process_name TEXT, remote_address TEXT, remote_port INTEGER, url TEXT, event_json TEXT NOT NULL )";
      lit "CREATE INDEX IF NOT EXISTS idx_events_timestamp ON events (timestamp_unix_ms)";
      lit "CREATE INDEX IF NOT EXISTS idx_events_type ON events (event_type, timestamp_unix_ms)"];
   mkMigration 2
     [lit "CREATE TABLE IF NOT EXISTS storage_meta ( key TEXT PRIMARY KEY, value TEXT NOT NULL )";
      lit "INSERT OR REPLACE INTO storage_meta (key, value) VALUES ('created_by', 'ezcap-daemon')"]].

Definition current_version : Z :=
  match last kMigrations with Some m => mg_version m | None => 0 end.

(** The statements a migration runs, its version stamp last. *)
Definition migration_script (m : Migration) : list cstring :=
  mg_statements m ++ [sql_set_version (mg_version m)].

Section store.
Context {DB : Type} `{SQL : Sqlite DB} `{JL : JsonLib}.

Definition exec_fixed (sql : cstring) (d : DB) : result cstring DB :=
  match sqlite_exec sql d with
  | Ok d' => Ok d'
  | Err errmsg => Err (default (lit "sqlite3_exec failed") errmsg)
  end.

Definition read_version (d : DB) : Z :=
  match sqlite_user_version d with Some v => u32 v | None => 0 end.

(** Statements in order, up to the first failure. *)
Fixpoint exec_all (sqls : list cstring) (d : DB) : result cstring DB * DB :=
  match sqls with
  | [] => (Ok d, d)
  | sql :: sqls =>
      match exec_fixed sql d with
      | Ok d' => exec_all sqls d'
      | Err e => (Err e, d)
      end
  end.

(** [exec_fixed(db, "ROLLBACK", error)]: its own failure replaces the
    message, and leaves the database as it is. *)
Definition rollback (e : cstring) (d : DB) : cstring * DB :=
  match exec_fixed sql_rollback d with
  | Ok d' => (e, d')
  | Err e' => (e', d)
  end.

Definition apply_migrations (d : DB) : result cstring () * DB :=
  let from := read_version d in
  let target := current_version in
  if target <? from then
    (Err (lit "database schema version " ++ to_string from
          ++ " is newer than this daemon supports (" ++ to_string target ++ ")"), d)
  else if from =? target then (Ok (), d)
  else
    match exec_fixed sql_begin d with
    | Err e => (Err e, d)
    | Ok d1 =>
        let pending := filter (λ m, from < mg_version m) kMigrations in
        match exec_all (pending ≫= migration_script) d1 with
        | (Err e, d2) => let '(e, d3) := rollback e d2 in (Err e, d3)
        | (Ok d2, _) =>
            match exec_fixed sql_commit d2 with
            | Ok d3 => (Ok (), d3)
            | Err e => let '(e, d3) := rollback e d2 in (Err e, d3)
            end
        end
    end.

(** ** The store object *)
Definition kMaxQueuedWrites : Z := 4096.

Record Store := mkStore {
  ss_db : DB;
  ss_queue : list PendingWrite;
  ss_batch : list PendingWrite;  (** the writer's local vector *)
  ss_shutdown : bool;
  ss_failed : bool;
  ss_stored : Z;
  ss_dropped : Z;
  ss_version : Z;
}.

(** The constructor after [sqlite3_open_v2], whose failure may come with a
    message; [Err] is a null [impl_]. *)
Definition open_store (opened : result (option cstring) DB) (thread_ok : bool) :
    result cstring Store * option DB :=
  match opened with
  | Err m => (Err (default (lit "sqlite3_open failed") m), None)
  | Ok d =>
      match exec_all [lit "PRAGMA journal_mode = TRUNCATE";
                      lit "PRAGMA synchronous = NORMAL";
                      lit "PRAGMA foreign_keys = ON"] d with
      | (Err e, d) => (Err e, Some d)
      | (Ok d, _) =>
          match apply_migrations d with
          | (Err e, d) => (Err e, Some d)
          | (Ok _, d) =>
              if thread_ok
              then (Ok (mkStore d [] [] false false 0 0 (read_version d)), Some d)
              else (Err (lit "cannot start storage writer thread"), Some d)
          end
      end
  end.

(** ** Queuing an event *)

(** [uninit] is the indeterminate value [remote_port] keeps when the event
    has no network part. *)
Definition pending_write (uninit : Z) (event : Event) (event_json : cstring) :
    PendingWrite :=
  {| pw_event_id := ev_event_id event;
     pw_schema_version := ev_schema_version event;
     pw_event_type := event_type_name (ev_type event);
     pw_source := event_source_name (ev_source event);
     pw_confidence := ev_confidence event;
     pw_timestamp_ms := Z.quot (ev_timestamp event) (10 ^ 6);
     pw_process_name := match ev_process event with Some p => proc_name p | None => [] end;
     pw_remote_address :=
       match ev_network event with Some n => net_remote_address n | None => [] end;
     pw_remote_port :=
       match ev_network event with Some n => net_remote_port n | None => uninit end;
     pw_url := match ev_browser event with Some b => br_url b | None => [] end;
     pw_event_json := event_json |}.

Definition enqueue (w : PendingWrite) (s : Store) : bool * Store :=
  if kMaxQueuedWrites <=? zlen (ss_queue s) then
    (false, mkStore (ss_db s) (ss_queue s) (ss_batch s) (ss_shutdown s) (ss_failed s)
              (ss_stored s) (u64 (ss_dropped s + 1)) (ss_version s))
  else
    (true, mkStore (ss_db s) (ss_queue s ++ [w]) (ss_batch s) (ss_shutdown s)
             (ss_failed s) (ss_stored s) (ss_dropped s) (ss_version s)).

(** [store] is [noexcept]: an encoder that throws terminates the process,
    which is [None]. *)
Definition store (uninit : Z) (event : Event) (s : Store) : option (bool * Store) :=
  if ss_failed s then Some (false, s)
  else
    event_json ← encode_event event;
    Some (enqueue (pending_write uninit event event_json) s).

(** ** The writer thread *)

Definition write_one (w : PendingWrite) (d : DB) : option DB := db_insert (bind_row w) d.

(** The inserts of one batch: the database, how many were stored, and
    whether all were. *)
Fixpoint write_batch (batch : list PendingWrite) (d : DB) : DB * Z * bool :=
  match batch with
  | [] => (d, 0, true)
  | w :: batch =>
      match write_one w d with
      | None => (d, 0, false)
      | Some d' => let '(d'', n, ok) := write_batch batch d' in (d'', 1 + n, ok)
      end
  end.

(** The wait condition of the writer, and whether it leaves its loop. *)
Definition writer_ready (s : Store) : bool :=
  negb (ss_failed s) && (ss_shutdown s || negb (is_empty (ss_queue s))).
Definition writer_exits (s : Store) : bool := is_empty (ss_queue s) && ss_shutdown s.

(** One round of [writer_loop]: the local batch and the queue change places,
    and the batch is written. *)
Definition writer_round (s : Store) : Store :=
  if negb (writer_ready s) || writer_exits s then s
  else
    let batch := ss_queue s in
    let queue := ss_batch s in
    let '(d, n, ok) := write_batch batch (ss_db s) in
    mkStore d queue batch (ss_shutdown s) (negb ok) (u64 (ss_stored s + n))
      (ss_dropped s) (ss_version s).

(** The destructor: [shutdown] is set, and the writer goes on until it leaves
    its loop; [fuel] bounds its rounds. *)
Definition request_shutdown (s : Store) : Store :=
  mkStore (ss_db s) (ss_queue s) (ss_batch s) true (ss_failed s) (ss_stored s) (ss_dropped s)
    (ss_version s).
Definition writer_stopped (s : Store) : bool := ss_failed s || writer_exits s.

Fixpoint writer_drain (fuel : nat) (s : Store) : Store :=
  match fuel with
  | O => s
  | S fuel => if writer_stopped s then s else writer_drain fuel (writer_round s)
  end.

Definition close_store (s : Store) : Store := writer_drain 3 (request_shutdown s).

(** ** Retention *)
Definition prune (now retention : Z) (s : Store) : Z * Store :=
  if ss_failed s then (-1, s)
  else
    let cutoff := Z.quot (now - retention * 10 ^ 9) (10 ^ 6) in
    match db_delete_before cutoff (ss_db s) with
    | None => (-1, s)
    | Some (d, changes) =>
        (changes, mkStore d (ss_queue s) (ss_batch s) (ss_shutdown s) (ss_failed s)
                    (ss_stored s) (ss_dropped s) (ss_version s))
    end.
End store.
Arguments Store : clear implicits.

(** ** What SQLite documents

    [db_rows] is the content of the [events] table and [db_snapshot] the state
    a transaction would be rolled back to. *)
Class SqliteLaws (DB : Type) `{SQL : Sqlite DB} := {
  db_rows : DB → list EventRow;
  db_snapshot : DB → option DB;
  insert_unique r d :
    er_event_id r ∈ (er_event_id <$> db_rows d) → db_insert r d = None;
  insert_rows r d d' : db_insert r d = Some d' → db_rows d' = db_rows d ++ [r];
  delete_rows c d d' n :
    db_delete_before c d = Some (d', n) →
    db_rows d' = filter (λ r, c ≤ er_timestamp_unix_ms r) (db_rows d) ∧
    n = zlen (db_rows d) - zlen (db_rows d');
  begin_snapshot d d' :
    sqlite_exec sql_begin d = Ok d' →
    db_snapshot d' = Some d ∧ sqlite_user_version d' = sqlite_user_version d;
  version_exec v d d' :
    sqlite_exec (sql_set_version v) d = Ok d' →
    sqlite_user_version d' = Some v ∧ db_snapshot d' = db_snapshot d;
  ddl_exec m sql d d' :
    m ∈ kMigrations → sql ∈ mg_statements m → sqlite_exec sql d = Ok d' →
    sqlite_user_version d' = sqlite_user_version d ∧ db_snapshot d' = db_snapshot d;
  commit_exec d d' :
    sqlite_exec sql_commit d = Ok d' →
    sqlite_user_version d' = sqlite_user_version d ∧ db_snapshot d' = None;
  rollback_exec d d' s :
    sqlite_exec sql_rollback d = Ok d' → db_snapshot d = Some s → d' = s;
}.

(** ** Lemmas *)
Section store_lemmas.
Context {DB : Type} `{SL : SqliteLaws DB} `{JL : JsonLib}.

Lemma exec_fixed_ok sql (d d' : DB) : exec_fixed sql d = Ok d' → sqlite_exec sql d = Ok d'.
Proof. unfold exec_fixed. destruct (sqlite_exec sql d); [|done]. by intros [= <-]. Qed.

Lemma write_batch_ok b d d' n :
  write_batch b d = (d', n, true) → db_rows d' = db_rows d ++ (bind_row <$> b) ∧ n = zlen b.
Proof.
  revert d d' n. induction b as [|w b IH]; intros d d' n; cbn [write_batch].
  { intros [= <- <-]. by rewrite app_nil_r. }
  destruct (write_one w d) as [d1|] eqn:Hi; [|done].
  destruct (write_batch b d1) as [[d2 n2] ok] eqn:Hw. intros [= <- <- ->].
  apply IH in Hw as [-> ->]. rewrite (insert_rows _ _ _ Hi), <-(assoc_L (++)).
  split; [done|]. unfold zlen. cbn [length]. lia.
Qed.

Lemma write_batch_duplicate w b d :
  er_event_id (bind_row w) ∈ (er_event_id <$> db_rows d) →
  write_batch (w :: b) d = (d, 0, false).
Proof. intros H. cbn [write_batch]. unfold write_one. by rewrite insert_unique. Qed.

(** Events queued by other threads between two rounds of the writer. *)
Definition push (ws : list PendingWrite) (s : Store DB) : Store DB :=
  mkStore (ss_db s) (ss_queue s ++ ws) (ss_batch s) (ss_shutdown s) (ss_failed s)
    (ss_stored s) (ss_dropped s) (ss_version s).

Lemma writer_round_ok s :
  ss_failed s = false → ss_queue s ≠ [] → ss_failed (writer_round s) = false →
  db_rows (ss_db (writer_round s)) = db_rows (ss_db s) ++ (bind_row <$> ss_queue s) ∧
  ss_queue (writer_round s) = ss_batch s ∧ ss_batch (writer_round s) = ss_queue s ∧
  ss_stored (writer_round s) = u64 (ss_stored s + zlen (ss_queue s)).
Proof.
  intros Hf Hq. unfold writer_round, writer_ready, writer_exits. rewrite Hf.
  apply is_empty_false in Hq. rewrite Hq. rewrite orb_true_r. cbn [negb andb orb].
  destruct (write_batch (ss_queue s) (ss_db s)) as [[d n] ok] eqn:Hw. cbn.
  intros Hok. apply negb_false_iff in Hok as ->.
  apply write_batch_ok in Hw as [-> ->]. done.
Qed.

Lemma writer_round_duplicate w ws s :
  ss_failed s = false → ss_queue s = w :: ws →
  er_event_id (bind_row w) ∈ (er_event_id <$> db_rows (ss_db s)) →
  ss_failed (writer_round s) = true.
Proof.
  intros Hf Hq Hd. unfold writer_round, writer_ready, writer_exits. rewrite Hf, Hq.
  cbn [is_empty]. rewrite orb_true_r. cbn [negb andb orb].
  by rewrite write_batch_duplicate.
Qed.

(** *** Migrations *)
Lemma migration_version m : m ∈ kMigrations → u32 (mg_version m) = mg_version m.
Proof.
  intros Hm. repeat (apply elem_of_cons in Hm as [->|Hm]; [done|]). by apply not_elem_of_nil in Hm.
Qed.

Lemma migration_script_exec m sqls d d' :
  m ∈ kMigrations → (∀ sql, sql ∈ sqls → sql ∈ mg_statements m) →
  (exec_all (sqls ++ [sql_set_version (mg_version m)]) d).1 = Ok d' →
  read_version d' = mg_version m.
Proof.
  intros Hm. revert d. induction sqls as [|sql sqls IH]; intros d Hin; cbn [exec_all app].
  - destruct (exec_fixed _ d) as [d1|] eqn:He; [|done]. intros [= <-].
    apply exec_fixed_ok, version_exec in He as [He _]. unfold read_version. rewrite He.
    by apply migration_version.
  - destruct (exec_fixed sql d) as [d1|]; [|done]. apply IH.
    intros s Hs. apply Hin. by right.
Qed.

Lemma exec_all_app a b d :
  exec_all (a ++ b) d =
    match exec_all a d with
    | (Ok d', _) => exec_all b d'
    | (Err e, d') => (Err e, d')
    end.
Proof.
  revert d. induction a as [|sql a IH]; intros d; cbn [app exec_all]; [done|].
  destruct (exec_fixed sql d); [apply IH|done].
Qed.

(** No statement of a migration script ends the transaction. *)
Lemma exec_all_snapshot sqls d :
  Forall (λ sql, (∃ m, m ∈ kMigrations ∧ sql ∈ mg_statements m) ∨
                 ∃ v, sql = sql_set_version v) sqls →
  db_snapshot (exec_all sqls d).2 = db_snapshot d ∧
  (∀ d', (exec_all sqls d).1 = Ok d' → db_snapshot d' = db_snapshot d).
Proof.
  intros Hall. revert d. induction Hall as [|sql sqls Hs _ IH]; intros d; cbn [exec_all].
  { split; [done|]. naive_solver. }
  destruct (exec_fixed sql d) as [d1|] eqn:He; [|naive_solver].
  assert (db_snapshot d1 = db_snapshot d) as <-; [|apply IH].
  destruct Hs as [(m & Hm & Hin)|[v ->]].
  - by apply (ddl_exec m sql d d1), exec_fixed_ok.
  - by apply (version_exec v d d1), exec_fixed_ok.
Qed.

Lemma scripts_are_ddl ms :
  (∀ m, m ∈ ms → m ∈ kMigrations) →
  Forall (λ sql, (∃ m, m ∈ kMigrations ∧ sql ∈ mg_statements m) ∨
                 ∃ v, sql = sql_set_version v) (ms ≫= migration_script).
Proof.
  intros Hms. apply Forall_forall. intros sql (m & Hs & Hm)%list_elem_of_bind.
  unfold migration_script in Hs. apply elem_of_app in Hs as [Hs|Hs]; [left; eauto|].
  apply list_elem_of_singleton in Hs. eauto.
Qed.

(** The last script to run decides the version. *)
Lemma scripts_version m ms d d' :
  (∀ m', m' ∈ ms ++ [m] → m' ∈ kMigrations) →
  (exec_all ((ms ++ [m]) ≫= migration_script) d).1 = Ok d' → read_version d' = mg_version m.
Proof.
  intros Hin. rewrite bind_app. cbn [mbind list_bind]. rewrite app_nil_r, exec_all_app.
  destruct (exec_all (ms ≫= migration_script) d) as [[d1|e] d2]; [|done].
  intros H. eapply migration_script_exec; [|done|exact H].
  apply Hin, elem_of_app. right. by apply list_elem_of_singleton.
Qed.

Lemma pending_split from :
  from < current_version →
  ∃ ms m, filter (λ m, from < mg_version m) kMigrations = ms ++ [m] ∧
    mg_version m = current_version ∧ ∀ m', m' ∈ ms ++ [m] → m' ∈ kMigrations.
Proof.
  intros Hlt. change current_version with 2 in *.
  assert (∃ ms, filter (λ m, from < mg_version m) kMigrations
    = ms ++ [mkMigration 2 (mg_statements (List.nth 1 kMigrations (mkMigration 0 [])))])
    as [ms Hms].
  { unfold kMigrations. rewrite filter_cons. case_decide; rewrite filter_cons.
    - rewrite decide_True by (cbn; lia). rewrite filter_nil. by eexists [_].
    - rewrite decide_True by (cbn; lia). rewrite filter_nil. by eexists []. }
  eexists ms, _. split; [exact Hms|]. split; [done|].
  intros m' Hm'. rewrite <-Hms in Hm'. by apply list_elem_of_filter in Hm' as [_ Hm'].
Qed.
End store_lemmas.

(** ** An instance: a table in memory *)
Module TableDb.
Record table := mkTable {
  tb_rows : list EventRow;
  tb_version : Z;
  tb_saved : option (list EventRow * Z);
}.
Definition empty : table := mkTable [] 0 None.

Definition exec (sql : cstring) (t : table) : result (option cstring) table :=
  if sql =s sql_begin then
    match tb_saved t with
    | None => Ok (mkTable (tb_rows t) (tb_version t) (Some (tb_rows t, tb_version t)))
    | Some _ => Err (Some (lit "cannot start a transaction within a transaction"))
    end
  else if sql =s sql_commit then
    match tb_saved t with
    | Some _ => Ok (mkTable (tb_rows t) (tb_version t) None)
    | None => Err (Some (lit "cannot commit - no transaction is active"))
    end
  else if sql =s sql_rollback then
    match tb_saved t with
    | Some (rows, v) => Ok (mkTable rows v None)
    | None => Err (Some (lit "cannot rollback - no transaction is active"))
    end
  else if sql =s sql_set_version 1 then Ok (mkTable (tb_rows t) 1 (tb_saved t))
  else if sql =s sql_set_version 2 then Ok (mkTable (tb_rows t) 2 (tb_saved t))
  else if is_prefix "PRAGMA user_version" sql then Err (Some (lit "unsupported version"))
  else Ok t.

Definition insert (r : EventRow) (t : table) : option table :=
  if mem (er_event_id r) (er_event_id <$> tb_rows t) then None
  else Some (mkTable (tb_rows t ++ [r]) (tb_version t) (tb_saved t)).

Definition delete_before (c : Z) (t : table) : option (table * Z) :=
  let rows := filter (λ r, c ≤ er_timestamp_unix_ms r) (tb_rows t) in
  Some (mkTable rows (tb_version t) (tb_saved t), zlen (tb_rows t) - zlen rows).

#[local] Instance lib : Sqlite table := {
  sqlite_exec := exec;
  sqlite_user_version t := Some (tb_version t);
  db_insert := insert;
  db_delete_before := delete_before;
}.

Lemma set_version_inj a b : sql_set_version a = sql_set_version b → a = b.
Proof.
  unfold sql_set_version, to_string. intros H%app_inv_head.
  apply (inj pretty). rewrite <-(String.string_of_list_ascii_of_string (pretty a)).
  rewrite <-(String.string_of_list_ascii_of_string (pretty b)). by f_equal.
Qed.

Lemma exec_version v t t' :
  exec (sql_set_version v) t = Ok t' → tb_version t' = v ∧ tb_saved t' = tb_saved t.
Proof.
  unfold exec.
  change (sql_set_version v =s sql_begin) with false.
  change (sql_set_version v =s sql_commit) with false.
  change (sql_set_version v =s sql_rollback) with false. cbv iota.
  destruct (str_eqb_spec (sql_set_version v) (sql_set_version 1)) as [->%set_version_inj|].
  { by intros [= <-]. }
  destruct (str_eqb_spec (sql_set_version v) (sql_set_version 2)) as [->%set_version_inj|].
  { by intros [= <-]. }
  by change (is_prefix "PRAGMA user_version" (sql_set_version v)) with true.
Qed.

Lemma exec_ddl m sql t t' :
  m ∈ kMigrations → sql ∈ mg_statements m → exec sql t = Ok t' → t' = t.
Proof.
  intros Hm Hs. repeat (apply elem_of_cons in Hm as [->|Hm];
    [cbn [mg_statements] in Hs;
     repeat (apply elem_of_cons in Hs as [->|Hs]; [by intros [= <-]|]);
     by apply not_elem_of_nil in Hs|]).
  by apply not_elem_of_nil in Hm.
Qed.

#[local] Instance laws : SqliteLaws table.
Proof.
  refine {| db_rows := tb_rows;
            db_snapshot t := (λ s, mkTable s.1 s.2 None) <$> tb_saved t |};
    cbn [sqlite_exec db_insert db_delete_before sqlite_user_version lib].
  - intros w t H%mem_spec. unfold insert. by rewrite H.
  - intros w t t'. unfold insert. destruct (mem _ _); [done|]. by intros [= <-].
  - intros c t t' n [= <- <-]. done.
  - intros [rows v [s|]] t'; cbn; [done|]. by intros [= <-].
  - intros v t t' [-> ->]%exec_version. done.
  - intros m sql t t' Hm Hs ->%(exec_ddl m); done.
  - intros [rows v [s|]] t'; cbn; [|done]. by intros [= <-].
  - intros [rows v [[r v0]|]] t' s; cbn; [|done]. intros [= <-] [= <-]. done.
Defined.
End TableDb.

(** ** Theorems *)

(** C26: The migrations run as one transaction: success means the database is at
    the current schema version, and failure at any statement, or a database
    newer than the daemon, leaves it exactly as it was (given that a rollback
    of an open transaction succeeds). *)
Theorem apply_migrations_atomic (DB : Type) (SQL : Sqlite DB) (SL : SqliteLaws DB) d r d' :
  (∀ x s, db_snapshot x = Some s → ∃ y, exec_fixed sql_rollback x = Ok y) →
  apply_migrations d = (r, d') →
  match r with Ok _ => read_version d' = current_version | Err _ => d' = d end.
Proof.
  intros Hroll. unfold apply_migrations.
  destruct (Z.ltb_spec current_version (read_version d)); [by intros [= <- <-]|].
  destruct (Z.eqb_spec (read_version d) current_version); [by intros [= <- <-]|].
  destruct (exec_fixed sql_begin d) as [d1|e] eqn:Hb; [|by intros [= <- <-]].
  apply exec_fixed_ok, begin_snapshot in Hb as [Hsnap Hv].
  destruct (pending_split (read_version d)) as (ms & m & -> & Hcur & Hin); [lia|].
  destruct (exec_all_snapshot ((ms ++ [m]) ≫= migration_script) d1) as [Hs2 Hs1];
    [by apply scripts_are_ddl|].
  pose proof (scripts_version m ms d1) as Hver.
  assert (Hrb : ∀ e x, db_snapshot x = Some d → (rollback e x).2 = d).
  { intros e x Hx. unfold rollback. destruct (Hroll x d Hx) as [y Hy]. rewrite Hy.
    apply exec_fixed_ok in Hy. by apply (rollback_exec x y). }
  destruct (exec_all _ d1) as [[d2|e] d2']; cbn [fst snd] in *.
  - destruct (exec_fixed sql_commit d2) as [d3|e] eqn:Hc.
    + intros [= <- <-]. apply exec_fixed_ok, commit_exec in Hc as [Hc _].
      unfold read_version. rewrite Hc, <-Hcur. by apply Hver.
    + specialize (Hrb e d2). destruct (rollback e d2) as [e' d3]. intros [= <- <-].
      apply Hrb. by rewrite (Hs1 d2 eq_refl).
  - specialize (Hrb e d2'). destruct (rollback e d2') as [e' d3]. intros [= <- <-].
    apply Hrb. by rewrite Hs2.
Qed.

Lemma apply_migrations_atomic_witness :
  ∃ d', @apply_migrations _ TableDb.lib TableDb.empty = (Ok (), d') ∧
    read_version (SQL := TableDb.lib) d' = 2.
Proof.
  eexists. split; [vm_compute; reflexivity|].
  refine (apply_migrations_atomic TableDb.table TableDb.lib TableDb.laws
    TableDb.empty (Ok ()) _ _ _).
  - intros [rows v [[r v0]|]] s H; [|discriminate H]. eexists. reflexivity.
  - vm_compute. reflexivity.
Defined.

(** Pruning deletes the rows older than the retention period and no other,
    and reports how many they were. *)
Theorem prune_exact (DB : Type) (SQL : Sqlite DB) (SL : SqliteLaws DB) now retention
    (s s' : Store DB) n :
  prune now retention s = (n, s') → 0 ≤ n →
  let cutoff := Z.quot (now - retention * 10 ^ 9) (10 ^ 6) in
  db_rows (ss_db s') = filter (λ r, cutoff ≤ er_timestamp_unix_ms r) (db_rows (ss_db s)) ∧
  n = zlen (db_rows (ss_db s)) - zlen (db_rows (ss_db s')) ∧ ss_queue s' = ss_queue s.
Proof.
  unfold prune. destruct (ss_failed s); [intros [= <- <-]; lia|].
  destruct (db_delete_before _ _) as [[d changes]|] eqn:Hd; [|intros [= <- <-]; lia].
  intros [= <- <-] _. by destruct (delete_rows _ _ _ _ Hd) as [H1 H2].
Qed.

(** What a pruning of a working store leaves, when the database takes it. *)
Lemma prune_leaves_recent {DB} {SQL : Sqlite DB} {SL : SqliteLaws DB} now retention (s : Store DB) :
  (∀ c db, is_Some (db_delete_before c db)) → ss_failed (prune now retention s).2 = false →
  Forall (λ r, Z.quot (now - retention * 10 ^ 9) (10 ^ 6) ≤ er_timestamp_unix_ms r)
    (db_rows (ss_db (prune now retention s).2)).
Proof.
  intros Hdel. unfold prune. destruct (ss_failed s) eqn:Hf; [cbn; congruence|].
  destruct (Hdel (Z.quot (now - retention * 10 ^ 9) (10 ^ 6)) (ss_db s)) as [[d n] Hd].
  rewrite Hd. cbn [snd ss_db]. intros _. apply delete_rows in Hd as [-> _].
  apply Forall_forall. intros r. by intros [? _]%list_elem_of_filter.
Qed.

(** C28: The writer never empties its local batch before swapping it with the
    queue: after two successful rounds the first batch is back in the queue,
    the third round inserts its events again, the unique event id refuses them,
    and the store disables itself. *)
Theorem writer_third_round_fails (DB : Type) (SQL : Sqlite DB) (SL : SqliteLaws DB)
    (s : Store DB) b c :
  ss_failed s = false → ss_batch s = [] → ss_queue s ≠ [] → b ≠ [] →
  let s1 := writer_round s in
  let s2 := writer_round (push b s1) in
  ss_failed s1 = false → ss_failed s2 = false →
  db_rows (ss_db s2) = db_rows (ss_db s) ++ (bind_row <$> ss_queue s ++ b) ∧
  ss_queue (push c s2) = ss_queue s ++ c ∧ writer_ready (push c s2) = true ∧
  ss_failed (writer_round (push c s2)) = true.
Proof.
  intros Hf Hb0 Hq Hb s1 s2 Hf1 Hf2.
  destruct (writer_round_ok s Hf Hq Hf1) as (R1 & Q1 & B1 & _).
  destruct (writer_round_ok (push b s1)) as (R2 & Q2 & B2 & _); [done| |done|].
  { cbn. fold s1 in Q1. rewrite Q1, Hb0. by destruct b. }
  fold s1 in R1, Q1, B1. fold s2 in R2, Q2, B2. cbn in R2, Q2, B2.
  rewrite Q1, Hb0, R1 in R2. rewrite B1 in Q2. cbn [app] in R2.
  split; [by rewrite R2, fmap_app, <-(assoc_L (++))|]. cbn [ss_queue push]. rewrite Q2.
  split; [done|]. destruct (ss_queue s) as [|w ws] eqn:Hqs; [done|]. split.
  - unfold writer_ready. cbn. rewrite Hf2, Q2. cbn. apply orb_true_r.
  - eapply (writer_round_duplicate w (ws ++ c)); [done|cbn; by rewrite Q2|].
    cbn. rewrite R2, !fmap_app. set_solver.
Qed.

(** One round of a writer that has been asked to stop. *)
Lemma shutdown_round {DB} {SQL : Sqlite DB} {SL : SqliteLaws DB} (s : Store DB) :
  ss_shutdown s = true → ss_failed s = false → ss_queue s ≠ [] →
  let s' := writer_round s in
  ss_shutdown s' = true ∧ ss_failed s' = negb (write_batch (ss_queue s) (ss_db s)).2 ∧
  (ss_failed s' = false →
   db_rows (ss_db s') = db_rows (ss_db s) ++ (bind_row <$> ss_queue s) ∧
   ss_queue s' = ss_batch s ∧ ss_batch s' = ss_queue s) ∧
  db_rows (ss_db s) `prefix_of` db_rows (ss_db s').
Proof.
  intros Hsh Hf Hq. cbv zeta.
  assert (Hrun : writer_round s = let '(d, n, ok) := write_batch (ss_queue s) (ss_db s) in
    mkStore d (ss_batch s) (ss_queue s) (ss_shutdown s) (negb ok) (u64 (ss_stored s + n))
      (ss_dropped s) (ss_version s)).
  { unfold writer_round, writer_ready, writer_exits. rewrite Hf. apply is_empty_false in Hq.
    by rewrite Hq, orb_true_r. }
  split; [rewrite Hrun; by destruct (write_batch _ _) as [[d n] ok]|].
  split; [rewrite Hrun; by destruct (write_batch _ _) as [[d n] ok]|]. split.
  - intros Hok. destruct (writer_round_ok s Hf Hq Hok) as (H1 & H2 & H3 & _). done.
  - rewrite Hrun. clear. generalize (ss_queue s) as q, (ss_db s) as d. intros q.
    induction q as [|w q IH]; intros d; cbn [write_batch]; [done|].
    destruct (write_one w d) as [d1|] eqn:Hw; [|done].
    specialize (IH d1). destruct (write_batch q d1) as [[d2 n] ok]. cbn in IH |- *.
    etransitivity; [|exact IH]. rewrite (insert_rows _ _ _ Hw). by eexists.
Qed.

Lemma close_store_accepted {DB} {SQL : Sqlite DB} {SL : SqliteLaws DB} (s : Store DB) :
  ss_failed s = false → (write_batch (ss_queue s) (ss_db s)).2 = true →
  writer_stopped (close_store s) = true ∧
  db_rows (ss_db s) ++ (bind_row <$> ss_queue s) `prefix_of` db_rows (ss_db (close_store s)).
Proof.
  intros Hf Hw. unfold close_store. set (s0 := request_shutdown s).
  assert (Hstop : ∀ x : Store DB, ss_failed x = false → ss_shutdown x = true →
    writer_stopped x = is_empty (ss_queue x)).
  { intros x H1 H2. unfold writer_stopped, writer_exits. by rewrite H1, H2, andb_true_r. }
  cbn [writer_drain]. rewrite (Hstop s0) by done. change (ss_queue s0) with (ss_queue s).
  destruct (ss_queue s) as [|w q] eqn:Hq; cbn [is_empty].
  { split; [rewrite (Hstop s0) by done; unfold s0; cbn; by rewrite Hq|]. by rewrite app_nil_r. }
  destruct (shutdown_round s0) as (Sh1 & F1 & Ok1 & _); [done..|cbn; by rewrite Hq|].
  set (s1 := writer_round s0) in *. cbn [s0 request_shutdown ss_queue ss_db] in F1.
  rewrite Hq, Hw in F1. cbn [negb] in F1.
  destruct (Ok1 F1) as (R1 & Q1 & B1). cbn in R1, Q1, B1. rewrite Hq in R1, B1.
  rewrite (Hstop s1), Q1 by done.
  destruct (ss_batch s) as [|v b] eqn:Hb; cbn [is_empty].
  { split; [by rewrite (Hstop s1), Q1|]. by rewrite R1. }
  destruct (shutdown_round s1) as (Sh2 & _ & Ok2 & P2); [done..|by rewrite Q1|].
  set (s2 := writer_round s1) in *. rewrite R1 in P2.
  destruct (ss_failed s2) eqn:F2.
  { assert (writer_stopped s2 = true) as Hs2 by (unfold writer_stopped; by rewrite F2).
    by rewrite Hs2. }
  destruct (Ok2 eq_refl) as (R2 & Q2 & B2). rewrite B1 in Q2.
  rewrite (Hstop s2), Q2 by done. cbn [is_empty].
  assert (F3 : ss_failed (writer_round s2) = true).
  { apply (writer_round_duplicate w q); [done..|]. rewrite R2, R1, !fmap_app. set_solver. }
  destruct (shutdown_round s2) as (_ & _ & _ & P3); [done..|by rewrite Q2|].
  split; [unfold writer_stopped; by rewrite F3|]. by etransitivity.
Qed.

(** A batch that the database refuses is written up to the event it refuses. *)
Lemma write_batch_refused {DB} {SQL : Sqlite DB} {SL : SqliteLaws DB} q (d d' : DB) n :
  write_batch q d = (d', n, false) →
  ∃ written w lost, q = written ++ w :: lost ∧ write_one w d' = None ∧
    db_rows d' = db_rows d ++ (bind_row <$> written).
Proof.
  revert d n. induction q as [|w q IH]; intros d n; cbn [write_batch]; [done|].
  destruct (write_one w d) as [d1|] eqn:Hw.
  - destruct (write_batch q d1) as [[d2 n2] ok] eqn:Hq. intros [= -> _ ->].
    destruct (IH d1 n2 Hq) as (written & w' & lost & -> & Hno & Hrows).
    exists (w :: written), w', lost. split_and!; [done..|].
    rewrite Hrows, (insert_rows _ _ _ Hw). by rewrite <-(assoc_L (++)).
  - intros [= <- _]. exists [], w, q. split_and!; [done..|]. by rewrite app_nil_r.
Qed.

Lemma close_store_refused {DB} {SQL : Sqlite DB} (s : Store DB) :
  ss_failed s = false → (write_batch (ss_queue s) (ss_db s)).2 = false →
  close_store s = writer_round (request_shutdown s) ∧ ss_failed (close_store s) = true ∧
  ss_db (close_store s) = (write_batch (ss_queue s) (ss_db s)).1.1.
Proof.
  intros Hf Hw. destruct (write_batch (ss_queue s) (ss_db s)) as [[d n] ok] eqn:Hb.
  cbn in Hw. subst ok. destruct (ss_queue s) as [|w q] eqn:Hq; [discriminate Hb|].
  assert (E : writer_round (request_shutdown s) = mkStore d (ss_batch s) (w :: q) true true
    (u64 (ss_stored s + n)) (ss_dropped s) (ss_version s)).
  { unfold writer_round, writer_ready, writer_exits. cbn. by rewrite Hf, Hq, Hb. }
  assert (Hs : writer_stopped (request_shutdown s) = false).
  { unfold writer_stopped, writer_exits. cbn. by rewrite Hf, Hq. }
  unfold close_store. cbn [writer_drain]. by rewrite Hs, E.
Qed.

(** C27: Closing a store that has not failed ends its writer within three rounds.
    If the database takes the events that are queued, all of them are in the
    table afterwards, even when the batch that returns to the queue makes the
    last round fail.  If it refuses one of them, those before it are in the
    table and it and those behind it are lost. *)
Theorem close_store_drains (DB : Type) (SQL : Sqlite DB) (SL : SqliteLaws DB) (s : Store DB) :
  ss_failed s = false →
  writer_stopped (close_store s) = true ∧
  if (write_batch (ss_queue s) (ss_db s)).2
  then db_rows (ss_db s) ++ (bind_row <$> ss_queue s) `prefix_of` db_rows (ss_db (close_store s))
  else ∃ written w lost, ss_queue s = written ++ w :: lost ∧
         write_one w (ss_db (close_store s)) = None ∧
         db_rows (ss_db (close_store s)) = db_rows (ss_db s) ++ (bind_row <$> written).
Proof.
  intros Hf. destruct (write_batch (ss_queue s) (ss_db s)).2 eqn:Hw.
  { by apply close_store_accepted. }
  destruct (close_store_refused s Hf Hw) as (_ & Hfail & Hdb). split.
  { unfold writer_stopped. by rewrite Hfail. }
  rewrite Hdb. destruct (write_batch (ss_queue s) (ss_db s)) as [[d n] ok] eqn:Hb.
  cbn in Hw |- *. subst ok. by eapply write_batch_refused.
Qed.

(** A row with the given id, as the store would queue it. *)
Definition sample_row (id : cstring) (ms : Z) : PendingWrite :=
  pending_write (-1) (mkEvent 1 id Connection Pcap (ms * 10 ^ 6) (dint 0) [] None None None
    default_PrivacyInfo [] [] []) [].

Definition sample_store : Store TableDb.table :=
  mkStore (TableDb.mkTable [bind_row (sample_row "old" 5)] 2 None) [sample_row "a" 100] [] false false 0 0 2.

Definition pruned_store : Store TableDb.table :=
  (prune (SQL := TableDb.lib) (10 ^ 9) 0 sample_store).2.

Lemma prune_exact_witness :
  1 = zlen (db_rows (SqliteLaws := TableDb.laws) (ss_db sample_store))
      - zlen (db_rows (SqliteLaws := TableDb.laws) (ss_db pruned_store)).
Proof.
  apply (prune_exact TableDb.table TableDb.lib TableDb.laws (10 ^ 9) 0
    sample_store pruned_store 1).
  - vm_compute. reflexivity.
  - lia.
Defined.

Lemma writer_third_round_fails_witness :
  ss_failed (writer_round (SQL := TableDb.lib) (push [] (writer_round (SQL := TableDb.lib)
    (push [sample_row "b" 101] (writer_round (SQL := TableDb.lib) sample_store))))) = true.
Proof.
  refine (proj2 (proj2 (proj2 (writer_third_round_fails TableDb.table TableDb.lib TableDb.laws
    sample_store [sample_row "b" 101] [] _ _ _ _ _ _)))).
  all: vm_compute; congruence.
Defined.

(** A queue whose second event the table has already. *)
Definition refused_store : Store TableDb.table :=
  mkStore (TableDb.mkTable [bind_row (sample_row "old" 5)] 2 None)
    [sample_row "a" 100; sample_row "old" 101; sample_row "b" 102] [] false false 0 0 2.

Lemma close_store_drains_witness :
  (writer_stopped (close_store (SQL := TableDb.lib) sample_store) = true ∧
   db_rows (SqliteLaws := TableDb.laws) (ss_db sample_store) ++ [bind_row (sample_row "a" 100)]
     `prefix_of` db_rows (SqliteLaws := TableDb.laws)
       (ss_db (close_store (SQL := TableDb.lib) sample_store))) ∧
  ∃ written w lost, ss_queue refused_store = written ++ w :: lost ∧
    db_rows (SqliteLaws := TableDb.laws) (ss_db (close_store (SQL := TableDb.lib) refused_store))
    = db_rows (SqliteLaws := TableDb.laws) (ss_db refused_store) ++ (bind_row <$> written).
Proof.
  split.
  - exact (close_store_drains TableDb.table TableDb.lib TableDb.laws sample_store eq_refl).
  - destruct (close_store_drains TableDb.table TableDb.lib TableDb.laws refused_store eq_refl)
      as (_ & written & w & lost & Hq & _ & Hrows).
    exists written, w, lost. split; [exact Hq|exact Hrows].
Defined.

(** *** The queue bound *)
Inductive store_op (DB : Type) :=
  | StoreEvent (uninit : Z) (e : Event)
  | WriterRound
  | Prune (now retention : Z)
  | SetShutdown.
Arguments StoreEvent {DB} uninit e.
Arguments WriterRound {DB}.
Arguments Prune {DB} now retention.
Arguments SetShutdown {DB}.

Definition store_exec {DB} {SQL : Sqlite DB} {L : JsonLib} (op : store_op DB) (s : Store DB) :
    option (Store DB) :=
  match op with
  | StoreEvent uninit e => snd <$> store uninit e s
  | WriterRound => Some (writer_round s)
  | Prune now retention => Some (prune now retention s).2
  | SetShutdown =>
      Some (mkStore (ss_db s) (ss_queue s) (ss_batch s) true (ss_failed s)
              (ss_stored s) (ss_dropped s) (ss_version s))
  end.

Definition queue_inv {DB} (s : Store DB) : Prop :=
  zlen (ss_queue s) ≤ kMaxQueuedWrites ∧ zlen (ss_batch s) ≤ kMaxQueuedWrites.

Fixpoint store_run {DB} {SQL : Sqlite DB} {L : JsonLib} (ops : list (store_op DB))
    (s : Store DB) : option (Store DB) :=
  match ops with
  | [] => Some s
  | op :: ops => s ← store_exec op s; store_run ops s
  end.

Lemma store_exec_inv {DB} {SQL : Sqlite DB} {L : JsonLib} op (s s' : Store DB) :
  queue_inv s → store_exec op s = Some s' → queue_inv s'.
Proof.
  intros [H1 H2] Hx. destruct op as [u e| |now ret|]; cbn [store_exec] in Hx.
  - unfold store, enqueue in Hx. destruct (ss_failed s); [by simplify_eq/=|].
    destruct (encode_event e); [|done]. cbn in Hx.
    destruct (Z.leb_spec kMaxQueuedWrites (zlen (ss_queue s))); simplify_eq/=; [done|].
    split; [|done]. cbn [ss_queue]. rewrite zlen_app. change (zlen [_]) with 1. lia.
  - injection Hx as <-. unfold writer_round. destruct (_ || _); [done|].
    by destruct (write_batch _ _) as [[d n] ok].
  - injection Hx as <-. unfold prune. destruct (ss_failed s); [done|].
    by destruct (db_delete_before _ _) as [[d n]|].
  - by injection Hx as <-.
Qed.

Lemma store_run_inv {DB} {SQL : Sqlite DB} {L : JsonLib} ops (s s' : Store DB) :
  queue_inv s → store_run ops s = Some s' → queue_inv s'.
Proof.
  revert s. induction ops as [|op ops IH]; intros s Hi Hr; [by injection Hr as <-|].
  cbn [store_run] in Hr. destruct (store_exec op s) as [s1|] eqn:Hx; [|done].
  eapply IH; [by eapply store_exec_inv|done].
Qed.

Lemma open_store_queue {DB} {SQL : Sqlite DB} opened thread_ok (s : Store DB) :
  (open_store opened thread_ok).1 = Ok s → queue_inv s.
Proof.
  unfold open_store. intros H. split_cases; by simplify_eq/=.
Qed.

(** However the capture thread, the writer and pruning are interleaved, the
    write queue of a store that was opened never holds more than 4096 events,
    and an event is refused only when the queue is full or the store has
    failed. *)
Theorem store_queue_bounded (DB : Type) (SQL : Sqlite DB) (L : JsonLib)
    opened thread_ok ops (s0 s : Store DB) :
  (open_store opened thread_ok).1 = Ok s0 → store_run ops s0 = Some s →
  zlen (ss_queue s) ≤ kMaxQueuedWrites ∧
  ∀ uninit e s1, store uninit e s = Some (false, s1) →
    ss_failed s = true ∨ zlen (ss_queue s) = kMaxQueuedWrites.
Proof.
  intros Ho Hr. assert (Hi : queue_inv s).
  { eapply store_run_inv; [|done]. by apply open_store_queue in Ho. }
  split; [apply Hi|]. intros u e s1. unfold store, enqueue. destruct (ss_failed s); [auto|].
  destruct (encode_event e); [|done]. cbn [mbind option_bind].
  destruct (Z.leb_spec kMaxQueuedWrites (zlen (ss_queue s))); [|done].
  intros _. right. destruct Hi. lia.
Qed.

Definition opened_store : option (Store TableDb.table) :=
  match (open_store (SQL := TableDb.lib) (Ok TableDb.empty) true).1 with
  | Ok s => store_run (SQL := TableDb.lib) (L := TreeJson.lib)
              [StoreEvent 0 default_Event; WriterRound] s
  | Err _ => None
  end.

Lemma store_queue_bounded_witness :
  ∃ s, opened_store = Some s ∧ zlen (ss_queue s) ≤ kMaxQueuedWrites.
Proof.
  destruct (open_store (SQL := TableDb.lib) (Ok TableDb.empty) true).1 as [s0|] eqn:Ho;
    [|exfalso; vm_compute in Ho; discriminate Ho].
  assert (Hr : is_Some opened_store) by (vm_compute; eauto).
  destruct Hr as [s Hs]. exists s. split; [exact Hs|].
  unfold opened_store in Hs. rewrite Ho in Hs.
  apply (store_queue_bounded TableDb.table TableDb.lib TreeJson.lib _ _ _ s0 s Ho Hs).
Defined.
