(* ===== verification/Daemon.v ===== *)
(** * The daemon ([src/daemon/daemon.cpp], [src/daemon/main.cpp])

    Composition of the components: the capture pipeline, the request dispatch,
    status, start-up and the run loop.  The state the request handler sees is
    [Core]; the server is kept beside it.  [dm_published] records the events
    handed to subscribers and storage. *)
From S2P Require Import Prelude Double Json Types Time Redactor PolicyEngine Correlator.
From S2P Require Import PacketParser EventNormalizer PcapCapture EbpfCapture.
From S2P Require Import IpcCodec IpcServer Config Storage.
Open Scope Z_scope.

(** ** Interface selection *)
Record ifaddr := mkIfaddr { if_name : option cstring; if_up : bool; if_loopback : bool }.

(** The four candidates of [default_interface], each empty until found. *)
Record ifchoice := mkChoice {
  non_loopback_up : cstring; non_loopback_any : cstring;
  loopback_up : cstring; loopback_any : cstring;
}.

Definition keep_first (old new : cstring) : cstring := if is_empty old then new else old.

Definition ifaddr_step (ch : ifchoice) (ifa : ifaddr) : ifchoice :=
  match if_name ifa with
  | None => ch
  | Some name =>
      if if_loopback ifa then
        mkChoice (non_loopback_up ch) (non_loopback_any ch)
          (if if_up ifa then keep_first (loopback_up ch) name else loopback_up ch)
          (keep_first (loopback_any ch) name)
      else
        mkChoice
          (if if_up ifa then keep_first (non_loopback_up ch) name else non_loopback_up ch)
          (keep_first (non_loopback_any ch) name)
          (loopback_up ch) (loopback_any ch)
  end.

Definition default_interface (ifas : option (list ifaddr)) : cstring :=
  match ifas with
  | None => []
  | Some l =>
      let ch := foldl ifaddr_step (mkChoice [] [] [] []) l in
      if negb (is_empty (non_loopback_up ch)) then non_loopback_up ch
      else if negb (is_empty (non_loopback_any ch)) then non_loopback_any ch
      else if negb (is_empty (loopback_up ch)) then loopback_up ch
      else loopback_any ch
  end.

(** [trim] of [start]. *)
Definition is_trim_char (c : ascii) : bool :=
  is_char " " c || is_char "009" c || is_char "013" c || is_char "010" c.

Definition trim (value : cstring) : cstring :=
  match find_pred (λ c, negb (is_trim_char c)) value with
  | None => []
  | Some begin =>
      match find_last (λ c, negb (is_trim_char c)) value with
      | None => []
      | Some end_ => substr begin (Some (end_ - begin + 1)%nat) value
      end
  end.

Definition IFNAMSIZ : Z := 16.

Definition add_candidate (iface : cstring) (l : list cstring) : list cstring :=
  if is_empty iface then l else if mem iface l then l else l ++ [iface].

(** [env] is the value of [EZCAP_INTERFACE]. *)
Definition candidate_interfaces (env : option cstring) (configured : list cstring)
    (default_if : cstring) : list cstring :=
  let l :=
    match env with
    | Some value =>
        let iface := trim value in
        if negb (is_empty iface) && (zlen iface <? IFNAMSIZ)
        then add_candidate iface [] else []
    | None => []
    end in
  let l := match configured with f :: _ => add_candidate f l | [] => l end in
  add_candidate "any" (add_candidate default_if l).

(** ** State *)
Section daemon.
Context `{JL : JsonLib} {DB : Type} `{SQL : Sqlite DB}.
Context {EB EE PB PE : Type} `{!CaptureBackend EB EE} `{!CaptureBackend PB PE}.

(** [dm_store]: [Some None] is a store object whose [impl_] is null. *)
Record Core := mkCore {
  dm_config : Config;
  dm_policy : Policy;
  dm_correlator : Correlator;
  dm_backend : option (EB + PB);
  dm_store : option (option (Store DB));
  dm_running : bool;
  dm_started_at : Z;
  dm_events_seen : Z;
  dm_events_published : Z;
  dm_events_dropped : Z;
  dm_published : list Event;
}.

Definition new_Core (config : Config) : Core :=
  mkCore config new_PolicyEngine new_Correlator None None false 0 0 0 0 [].

Definition set_engine (p : Policy) (d : Core) : Core :=
  mkCore (dm_config d) p (dm_correlator d) (dm_backend d) (dm_store d) (dm_running d)
    (dm_started_at d) (dm_events_seen d) (dm_events_published d) (dm_events_dropped d)
    (dm_published d).
Definition set_correlator (c : Correlator) (d : Core) : Core :=
  mkCore (dm_config d) (dm_policy d) c (dm_backend d) (dm_store d) (dm_running d)
    (dm_started_at d) (dm_events_seen d) (dm_events_published d) (dm_events_dropped d)
    (dm_published d).
Definition set_store (s : option (option (Store DB))) (d : Core) : Core :=
  mkCore (dm_config d) (dm_policy d) (dm_correlator d) (dm_backend d) s (dm_running d)
    (dm_started_at d) (dm_events_seen d) (dm_events_published d) (dm_events_dropped d)
    (dm_published d).
Definition set_counters (seen published dropped : Z) (log : list Event) (d : Core) : Core :=
  mkCore (dm_config d) (dm_policy d) (dm_correlator d) (dm_backend d) (dm_store d)
    (dm_running d) (dm_started_at d) seen published dropped log.

(** ** The capture pipeline *)

(** [SqliteStore::store] on the object; a null [impl_] refuses. *)
Definition store_object (uninit : Z) (e : Event) (s : option (Store DB)) :
    result abort (bool * option (Store DB)) :=
  match s with
  | None => Ok (false, None)
  | Some s =>
      match store uninit e s with
      | Some (ok, s) => Ok (ok, Some s)
      | None => Err Uncaught
      end
  end.

(** [if (server_) server_->broadcast(correlated);] *)
Definition broadcast_if (send : Z → cstring → option bool) (e : Event) (server : option Server) :
    result abort (option Server) :=
  match server with
  | None => Ok None
  | Some s => Some <$> broadcast send e s
  end.

(** [if (store_) ...]: a refused event is accounted as dropped. *)
Definition store_if (uninit : Z) (e : Event) (d : Core) : result abort Core :=
  match dm_store d with
  | None => Ok d
  | Some s =>
      match store_object uninit e s with
      | Err a => Err a
      | Ok (ok, s) =>
          let d := set_store (Some s) d in
          Ok (if ok then d
              else set_counters (dm_events_seen d) (dm_events_published d)
                     (u64 (dm_events_dropped d + 1)) (dm_published d) d)
      end
  end.

(** [now] is read by the correlator; [send] and [uninit] as in the server
    and the store. *)
Definition on_capture_event (send : Z → cstring → option bool) (now uninit : Z) (event : Event)
    (d : Core) (server : option Server) : result abort (Core * option Server) :=
  let d := set_counters (u64 (dm_events_seen d + 1)) (dm_events_published d)
             (dm_events_dropped d) (dm_published d) d in
  let '(co, correlated) := correlate (dm_correlator d) now event in
  let d := set_correlator co d in
  let '(decision, correlated) := apply (dm_policy d) correlated in
  if bool_decide (decision = Drop) then
    Ok (set_counters (dm_events_seen d) (dm_events_published d)
          (u64 (dm_events_dropped d + 1)) (dm_published d) d, server)
  else
    server ← broadcast_if send correlated server;
    d ← store_if uninit correlated d;
    Ok (set_counters (dm_events_seen d) (u64 (dm_events_published d + 1))
          (dm_events_dropped d) (dm_published d ++ [correlated]) d, server).

Definition daemon_record_navigation (obs : NavigationObservation) (d : Core) : Core :=
  set_correlator (record_navigation (dm_correlator d) obs) d.
Definition daemon_set_browser_processes (ps : list BrowserProcess) (d : Core) : Core :=
  set_correlator (set_browser_processes (dm_correlator d) ps) d.

(** ** Status *)
Definition backend_entry (b : EB + PB) : json :=
  jobject [(lit "name", JString (match b with inl _ => lit "ebpf" | inr _ => lit "pcap" end));
           (lit "active", JBool (match b with
                                 | inl b => backend_running b
                                 | inr b => backend_running b
                                 end))].

Definition store_entry (s : option (Store DB)) : json :=
  jobject
    [(lit "enabled", JBool true);
     (lit "stored", JUint (match s with Some s => ss_stored s | None => 0 end));
     (lit "dropped", JUint (match s with Some s => ss_dropped s | None => 0 end));
     (lit "schema_version", JUint (match s with Some s => ss_version s | None => 0 end))].

(** [now] is the steady clock in nanoseconds. *)
Definition status_json (now : Z) (d : Core) : json :=
  jobject
    [(lit "state", JString (if dm_running d then lit "running" else lit "stopped"));
     (lit "version", JString kVersionString);
     (lit "uptime_seconds",
      JInt (if dm_started_at d =? 0 then 0 else Z.quot (now - dm_started_at d) (10 ^ 9)));
     (lit "metadata_only", JBool true);
     (lit "backends", JArray (match dm_backend d with Some b => [backend_entry b] | None => [] end));
     (lit "counters", jobject
        [(lit "events_seen", JUint (dm_events_seen d));
         (lit "events_published", JUint (dm_events_published d));
         (lit "events_dropped", JUint (dm_events_dropped d))]);
     (lit "storage", match dm_store d with
                     | Some s => store_entry s
                     | None => jobject [(lit "enabled", JBool false)]
                     end)].

(** ** Requests *)
Definition ok_response (id : cstring) (doc : json) (d : Core) :
    result abort (Response * Core) :=
  text ← encoded (json_dump doc);
  Ok (mkResponse id true text (mkIpcError InternalError []), d).
Definition err_response (id : cstring) (e : IpcError) (d : Core) :
    result abort (Response * Core) := Ok (mkResponse id false [] e, d).

Definition handle_request (now : Z) (request : Request) (d : Core) :
    result abort (Response * Core) :=
  let id := rq_request_id request in
  match rq_operation request with
  | Hello =>
      ok_response id (jobject
        [(lit "daemon", JString "ezcap"); (lit "version", JString kVersionString);
         (lit "protocol_version", JUint kProtocolVersion);
         (lit "metadata_only", JBool true)]) d
  | GetStatus => ok_response id (status_json now d) d
  | Subscribe => ok_response id (jobject [(lit "subscription_id", JString id)]) d
  | Unsubscribe =>
      ok_response id (jobject [(lit "subscription_id", JString id);
                               (lit "removed", JBool true)]) d
  | GetPolicy => ok_response id (to_json (dm_policy d)) d
  | SetPolicy =>
      match json_parse (rq_params_json request) with
      | Some (JObject kvs) =>
          match update_from_json (dm_policy d) (JObject kvs) with
          | Err error => err_response id (mkIpcError PolicyViolation error) d
          | Ok p => ok_response id (to_json p) (set_engine p d)
          end
      | _ => err_response id
               (mkIpcError SchemaViolation "set_policy params must be an object") d
      end
  | Shutdown =>
      err_response id (mkIpcError OperationNotAllowed "shutdown is not available over IPC") d
  end.

(** ** Start and stop *)
Context (new_ebpf : EB) (new_pcap : PB).

(** What the system answers during one [start]. *)
Record StartEnv := mkStartEnv {
  se_db : result (option cstring) DB;  (** [sqlite3_open_v2] *)
  se_writer_thread : bool;
  se_ebpf : EE;
  se_pcap : cstring → PE;         (** per interface *)
  se_ifaddrs : option (list ifaddr);
  se_interface : option cstring;  (** [EZCAP_INTERFACE] *)
  se_socket : SocketEnv;
  se_now : Z;
}.

(** The loop over the candidate interfaces; the backend object of a failed
    attempt is destroyed. *)
Fixpoint try_pcap (penv : cstring → PE) (candidates : list cstring) (last : cstring) :
    option (result cstring PB) :=
  match candidates with
  | [] => Some (Err (lit "pcap backend failed on all candidate interfaces: " ++ last))
  | iface :: candidates =>
      match backend_start (penv iface) new_pcap with
      | None => None
      | Some (Ok _, b) => Some (Ok b)
      | Some (Err m, b) =>
          match backend_destroy b with
          | None => None
          | Some _ => try_pcap penv candidates m
          end
      end
  end.

(** Backend selection; the first component is the eBPF error, if any. *)
Definition try_ebpf (env : StartEnv) (config : Config) :
    option (result cstring EB) :=
  if cf_prefer_ebpf config then
    match backend_start (se_ebpf env) new_ebpf with
    | None => None
    | Some (Ok _, b) => Some (Ok b)
    | Some (Err m, b) =>
        match backend_destroy b with None => None | Some _ => Some (Err m) end
    end
  else Some (Err []).

Definition select_backend (env : StartEnv) (config : Config) :
    option (result cstring (EB + PB)) :=
  match try_ebpf env config with
  | None => None
  | Some (Ok b) => Some (Ok (inl b))
  | Some (Err degraded) =>
      if cf_pcap_fallback config then
        let candidates := candidate_interfaces (se_interface env) (cf_interfaces config)
                            (default_interface (se_ifaddrs env)) in
        if is_empty candidates then Some (Err (lit "no capture interface available"))
        else
          match try_pcap (se_pcap env) candidates degraded with
          | None => None
          | Some (Ok b) => Some (Ok (inr b))
          | Some (Err m) => Some (Err m)
          end
      else
        Some (Err (lit "no capture backend available"
                   ++ if is_empty degraded then [] else lit " (" ++ degraded ++ ")"))
  end.

(** The store is constructed when enabled; [make_unique] never yields a null
    pointer, so a failed open leaves an object with a null [impl_]. *)
Definition open_if_enabled (env : StartEnv) (config : Config) :
    option (option (Store DB)) :=
  if cf_storage_enabled config then
    match open_store (se_db env) (se_writer_thread env) with
    | (Ok s, _) => Some (Some s)
    | (Err _, _) => Some None
    end
  else None.

Definition stop_backend (b : EB + PB) : option () :=
  match b with
  | inl b => backend_destroy (backend_stop b)
  | inr b => backend_destroy (backend_stop b)
  end.

(** [stop]: the server, then the backend, then the store; [None] is
    [std::terminate]. *)
Definition daemon_stop (d : Core) (server : option Server) (fs : filesystem) :
    option (Core * option Server * filesystem) :=
  let fs := match server with
            | Some s => (server_stop (cf_socket_path (dm_config d)) s fs).2
            | None => fs
            end in
  match match dm_backend d with Some b => stop_backend b | None => Some () end with
  | None => None
  | Some _ =>
      Some (mkCore (dm_config d) (dm_policy d) (dm_correlator d) None None false
              (dm_started_at d) (dm_events_seen d) (dm_events_published d)
              (dm_events_dropped d) (dm_published d), None, fs)
  end.

Definition daemon_start (env : StartEnv) (d : Core) (server : option Server)
    (fs : filesystem) :
    option (result cstring () * Core * option Server * filesystem) :=
  if dm_running d then Some (Ok (), d, server, fs)
  else
    let config := dm_config d in
    let d := set_store (open_if_enabled env config) d in
    match select_backend env config with
    | None => None
    | Some (Err m) => Some (Err m, d, server, fs)
    | Some (Ok b) =>
        let d := mkCore config (dm_policy d) (dm_correlator d) (Some b) (dm_store d) false
                   (dm_started_at d) (dm_events_seen d) (dm_events_published d)
                   (dm_events_dropped d) (dm_published d) in
        match server_start (se_socket env) (cf_socket_path config) new_Server fs with
        | (Err m, s, fs) =>
            match daemon_stop d (Some s) fs with
            | None => None
            | Some (d, server, fs) => Some (Err m, d, server, fs)
            end
        | (Ok _, s, fs) =>
            Some (Ok (), mkCore config (dm_policy d) (dm_correlator d) (Some b) (dm_store d)
                           true (se_now env) (dm_events_seen d) (dm_events_published d)
                           (dm_events_dropped d) (dm_published d), Some s, fs)
        end
    end.

(** ** The run loop *)

(** The status document is built and discarded: only its possible exception
    remains. *)
Definition publish_status (now : Z) (d : Core) (server : option Server) : result abort () :=
  match server with
  | None => Ok ()
  | Some _ => _ ← encoded (json_dump (status_json now d)); Ok ()
  end.

(** One round of [run] after the sleep: [now] is the steady clock, [wall] the
    system clock.  Returns the next deadlines. *)
Definition run_tick (now wall : Z) (next_status next_prune : Z) (d : Core)
    (server : option Server) : result abort (Core * Z * Z) :=
  next_status ←
    (if next_status <=? now then
       _ ← publish_status now d server;
       Ok (now + cf_status_interval (dm_config d) * 10 ^ 6)
     else Ok next_status : result abort Z);
  let '(d, next_prune) :=
    match dm_store d with
    | Some s =>
        if next_prune <=? now then
          (match s with
           | Some s => set_store (Some (Some
               (prune wall (cf_storage_retention (dm_config d)) s).2)) d
           | None => d
           end, now + 300 * 10 ^ 9)
        else (d, next_prune)
    | None => (d, next_prune)
    end in
  Ok (match server with
      | Some s => set_counters (dm_events_seen d) (dm_events_published d)
                    (sv_dropped_events s) (dm_published d) d
      | None => d
      end, next_status, next_prune).
End daemon.
Arguments Core : clear implicits.
Arguments StartEnv : clear implicits.

(** ** The program ([main.cpp]) *)
Record Args := mkArgs { ar_config_path : cstring; ar_check_only : bool }.

(** Argument parsing: an exit code, or the arguments. *)
Fixpoint parse_args (argv : list cstring) (a : Args) : result Z Args :=
  match argv with
  | [] => Ok a
  | arg :: rest =>
      match rest with
      | value :: rest' =>
          if arg =s "--config" then parse_args rest' (mkArgs value (ar_check_only a))
          else if arg =s "--check-config" then parse_args rest' (mkArgs value true)
          else if (arg =s "--help") || (arg =s "-h") then Err 0
          else Err 2
      | [] =>
          if (arg =s "--help") || (arg =s "-h") then Err 0 else Err 2
      end
  end.

Definition default_args : Args := mkArgs "/etc/ezcap/ezcap.conf.json" false.

Inductive main_outcome := Exits (code : Z) | RunsDaemon (c : Config).

(** The steps of [main] before [run]; [start_ok], [dropped] and [sandboxed] are
    the results of [Daemon::start], [PrivilegeDropper::drop_all] and
    [Sandbox::install]. *)
Definition main_program `{JL : JsonLib} (argv : list cstring)
    (files : cstring → option cstring) (start_ok : Config → bool)
    (dropped sandboxed : bool) : result config_error main_outcome :=
  match parse_args argv default_args with
  | Err code => Ok (Exits code)
  | Ok args =>
      match config_load (ar_config_path args) (files (ar_config_path args)) default_Config with
      | Err ConfigThrow => Err ConfigThrow
      | Err (ConfigError _) => Ok (Exits 2)
      | Ok config =>
          if ar_check_only args then Ok (Exits 0)
          else if negb (bool_decide (is_Some (level_from_name (cf_log_level config))))
          then Ok (Exits 2)
          else if negb (start_ok config) then Ok (Exits 1)
          else if negb dropped then Ok (Exits 1)
          else if negb sandboxed then Ok (Exits 1)
          else Ok (RunsDaemon config)
      end
  end.

(** ** The running daemon as a state machine *)
Inductive daemon_op :=
  | DCapture (now uninit : Z) (e : Event)
  | DNavigate (obs : NavigationObservation)
  | DProcesses (ps : list BrowserProcess)
  | DAccept (fd : Z) (authorized thread_ok : bool)
  | DReceive (now fd : Z) (chunk : cstring)
  | DDisconnect (fd : Z)
  | DWriter
  | DPrune (wall : Z).

Section machine.
Context {L : JsonLib} {DB : Type} {SQL : Sqlite DB}.
Context {EB EE PB PE : Type} {CE : CaptureBackend EB EE} {CP : CaptureBackend PB PE}.
Context (send : Z → cstring → option bool).

Abbreviation core := (Core DB EB PB).

Definition map_store (f : Store DB → Store DB) (d : core) : core :=
  match dm_store d with
  | Some (Some s) => set_store (Some (Some (f s))) d
  | _ => d
  end.

Definition daemon_exec (op : daemon_op) (d : core) (s : Server) :
    result abort (core * Server) :=
  match op with
  | DCapture now uninit e =>
      match on_capture_event send now uninit e d (Some s) with
      | Ok (d, Some s) => Ok (d, s)
      | Ok (d, None) => Ok (d, s)
      | Err a => Err a
      end
  | DNavigate obs => Ok (daemon_record_navigation obs d, s)
  | DProcesses ps => Ok (daemon_set_browser_processes ps d, s)
  | DAccept fd a t => Ok (d, accept_connection fd a t s)
  | DReceive now fd chunk =>
      '(s, d) ← receive (handle_request now) send fd chunk s d; Ok (d, s)
  | DDisconnect fd => Ok (d, disconnect fd s)
  | DWriter => Ok (map_store writer_round d, s)
  | DPrune wall =>
      Ok (map_store (λ st, (prune wall (cf_storage_retention (dm_config d)) st).2) d, s)
  end.

(** A sequence of steps. *)
Fixpoint daemon_execs (ops : list daemon_op) (d : core) (s : Server) :
    result abort (core * Server) :=
  match ops with
  | [] => Ok (d, s)
  | op :: ops => '(d, s) ← daemon_exec op d s; daemon_execs ops d s
  end.

Inductive daemon_reachable (d0 : core) (s0 : Server) : core → Server → Prop :=
  | dreach_init : daemon_reachable d0 s0 d0 s0
  | dreach_step op d s d' s' :
      daemon_reachable d0 s0 d s → daemon_exec op d s = Ok (d', s') →
      daemon_reachable d0 s0 d' s'.

(** *** Privacy invariant *)
Definition clean_text (u : cstring) : Prop := ("?"%char ∉ u) ∧ ("#"%char ∉ u).
Definition clean_event (e : Event) : Prop :=
  ∀ b, ev_browser e = Some b → clean_text (br_url b).
Definition strips (p : Policy) : Prop :=
  po_strip_query_string p = true ∧ po_strip_fragment p = true.
Definition event_line (published : list Event) (line : Z * cstring) : Prop :=
  ∃ e text, e ∈ published ∧ encode_event e = Some text ∧ line.2 = text ++ [newline].

Context {SL : SqliteLaws DB}.

(** A queued write is the record of a clean event in every field, the
    serialized event included; a row is what is bound of such a write. *)
Definition clean_write (w : PendingWrite) : Prop :=
  ∃ uninit e text, clean_event e ∧ encode_event e = Some text ∧ w = pending_write uninit e text.
Definition clean_row (r : EventRow) : Prop :=
  (∀ url, er_url r = Some url → clean_text url) ∧ ∃ w, clean_write w ∧ r = bind_row w.
Definition clean_store (s : Store DB) : Prop :=
  Forall clean_write (ss_queue s) ∧ Forall clean_write (ss_batch s) ∧
  Forall clean_row (db_rows (ss_db s)).

Definition core_clean (d : core) : Prop :=
  strips (dm_policy d) ∧ Forall clean_event (dm_published d) ∧
  ∀ s, dm_store d = Some (Some s) → clean_store s.

(** The daemon without what it knows of the browser: no navigation, no browser
    process, no published event. *)
Definition blind (d : core) : core :=
  set_correlator new_Correlator
    (set_counters (dm_events_seen d) (dm_events_published d) (dm_events_dropped d) [] d).

(** An answer that such a daemon gives. *)
Definition blind_answer (rs : Response) : Prop :=
  ∃ now rq d d', core_clean d ∧ blind d = d ∧ handle_request now rq d = Ok (rs, d').

Definition daemon_inv (d : core) (s : Server) : Prop :=
  server_inv s ∧ core_clean d ∧
  Forall (λ line, event_line (dm_published d) line ∨ reply_line blind_answer line) (sv_sent s).

(** Requests are answered without looking at the browser's data. *)
Lemma handle_request_blind now rq (d : core) rs d' :
  handle_request now rq d = Ok (rs, d') → handle_request now rq (blind d) = Ok (rs, blind d').
Proof.
  unfold handle_request, ok_response, err_response. intros H.
  change (status_json now (blind d)) with (status_json now d).
  change (dm_policy (blind d)) with (dm_policy d).
  destruct (rq_operation rq); try (destruct (encoded _); [|done]; by injection H as <- <-).
  - destruct (json_parse _) as [[| | | | | | |kvs]|]; try (by injection H as <- <-).
    destruct (update_from_json (dm_policy d) (JObject kvs)) as [p|e]; [|by injection H as <- <-].
    destruct (encoded _); [|done]. by injection H as <- <-.
  - by injection H as <- <-.
Qed.

Lemma handle_request_answer now rq (d : core) rs d' :
  handle_request now rq d = Ok (rs, d') → core_clean d → blind_answer rs.
Proof.
  intros H%handle_request_blind (Hp & _ & Hs). exists now, rq, (blind d), (blind d').
  split; [|done]. split; [done|]. split; [by constructor|done].
Qed.

Lemma handle_request_keeps now rq (d : core) rs d' log :
  handle_request now rq d = Ok (rs, d') →
  core_clean d ∧ dm_published d = log → core_clean d' ∧ dm_published d' = log.
Proof.
  unfold handle_request, ok_response, err_response. intros H Hd.
  destruct (rq_operation rq); try (destruct (encoded _); [|done]; by injection H as <- <-).
  - destruct (json_parse _) as [[| | | | | | |kvs]|];
      try (by injection H as <- <-).
    destruct (update_from_json (dm_policy d) (JObject kvs)) as [p|e] eqn:Hu;
      [|by injection H as <- <-].
    destruct (encoded _); [|done]. injection H as <- <-.
    apply update_from_json_good in Hu as [_ (Hq & Hf & _)].
    destruct Hd as [((H1 & H2) & H3) H4]. split; [|done]. split; [|done].
    split; cbn; congruence.
  - by injection H as <- <-.
Qed.

Lemma write_batch_rows b (d d' : DB) n ok :
  write_batch b d = (d', n, ok) →
  ∃ b', db_rows d' = db_rows d ++ (bind_row <$> b') ∧ b' `prefix_of` b.
Proof.
  revert d d' n. induction b as [|w b IH]; intros d d' n; cbn [write_batch].
  { intros [= <- <- <-]. exists []. by rewrite app_nil_r. }
  destruct (write_one w d) as [d1|] eqn:Hi.
  - destruct (write_batch b d1) as [[d2 n2] ok2] eqn:Hw. intros [= <- <- <-].
    apply IH in Hw as (b' & -> & Hp). rewrite (insert_rows _ _ _ Hi), <-(assoc_L (++)).
    exists (w :: b'). split; [done|]. by apply prefix_cons.
  - intros [= <- <- <-]. exists []. rewrite app_nil_r. split; [done|apply prefix_nil].
Qed.

Lemma clean_bind_row w : clean_write w → clean_row (bind_row w).
Proof.
  intros Hw. split; [|by exists w]. destruct Hw as (u & e & text & He & _ & ->). intros url.
  cbn [bind_row er_url pending_write pw_url]. unfold bind_optional_text.
  destruct (ev_browser e) as [b|] eqn:Hb; [|done]. destruct (He b Hb) as [H1 H2].
  destruct (is_empty (br_url b)); [done|]. intros [= <-].
  by split; intros Hin%c_string_elem.
Qed.

Lemma writer_round_clean (s : Store DB) : clean_store s → clean_store (writer_round s).
Proof.
  intros (H1 & H2 & H3). unfold writer_round. destruct (_ || _); [done|].
  destruct (write_batch _ _) as [[d n] ok] eqn:Hw.
  apply write_batch_rows in Hw as (b & Hr & [k Hk]). split_and!; [done..|].
  cbn [ss_db]. rewrite Hr. apply Forall_app_2; [done|].
  rewrite Hk in H1. apply Forall_app in H1 as [H1 _].
  apply Forall_fmap. by eapply Forall_impl; [|apply clean_bind_row].
Qed.

Lemma prune_clean now ret (s : Store DB) : clean_store s → clean_store (prune now ret s).2.
Proof.
  intros (H1 & H2 & H3). unfold prune. destruct (ss_failed s); [done|].
  destruct (db_delete_before _ _) as [[d n]|] eqn:Hd; [|done].
  destruct (delete_rows _ _ _ _ Hd) as [Hr _]. split_and!; [done..|].
  cbn [ss_db snd]. rewrite Hr. apply Forall_forall. intros w Hw.
  apply list_elem_of_filter in Hw as [_ Hw]. rewrite Forall_forall in H3. by apply H3.
Qed.

Lemma map_store_clean f (d : core) :
  (∀ s, clean_store s → clean_store (f s)) → core_clean d →
  core_clean (map_store f d) ∧ dm_published (map_store f d) = dm_published d.
Proof.
  intros Hf Hd. pose proof Hd as (H1 & H2 & H3). unfold map_store.
  destruct (dm_store d) as [[s|]|] eqn:Hs; [|done..].
  split; [|done]. split; [done|]. split; [done|]. intros s' [= <-]. by apply Hf, H3.
Qed.

Lemma store_if_clean uninit e (d d' : core) :
  store_if uninit e d = Ok d' → core_clean d → clean_event e →
  core_clean d' ∧ dm_published d' = dm_published d.
Proof.
  unfold store_if. intros H Hd He.
  destruct (dm_store d) as [so|] eqn:Hs; [|by injection H as <-].
  destruct Hd as (H1 & H2 & H3).
  destruct (store_object uninit e so) as [[ok so']|] eqn:Ho; [|done].
  assert (Hso : ∀ s, so' = Some s → clean_store s).
  { intros s ->. destruct so as [s0|]; [|done]. cbn [store_object] in Ho.
    destruct (store uninit e s0) as [[ok0 s1]|] eqn:Hst; [|done]. injection Ho as -> ->.
    destruct (H3 s0 Hs) as (Q & B & R). unfold store, enqueue in Hst.
    destruct (ss_failed s0); [by injection Hst as <- <-|].
    destruct (encode_event e) as [txt|] eqn:Htxt; [|done]. cbn [mbind option_bind] in Hst.
    destruct (_ <=? _); injection Hst as <- <-; [done|].
    split_and!; [|done..]. cbn [ss_queue]. apply Forall_app_2; [done|].
    apply Forall_singleton. by exists uninit, e, txt. }
  destruct ok; injection H as <-; (split; [|done]); (split; [done|]); (split; [done|]);
    intros s [= ->]; by apply Hso.
Qed.

Lemma capture_keeps now uninit e (d d' : core) s so :
  on_capture_event send now uninit e d (Some s) = Ok (d', so) → daemon_inv d s →
  ∃ s', so = Some s' ∧ daemon_inv d' s'.
Proof.
  unfold on_capture_event. intros H (Hsi & Hcc & Hsent).
  cbn [dm_correlator set_counters] in H.
  destruct (correlate (dm_correlator d) now e) as [co e1].
  cbn [dm_policy set_correlator set_counters] in H.
  destruct (apply (dm_policy d) e1) as [dec e2] eqn:Ha.
  case_bool_decide as Hdrop.
  { injection H as <- <-. exists s. done. }
  assert (Hclean : clean_event e2).
  { intros b Hb. destruct Hcc as ((S1 & S2) & _ & _).
    apply (apply_url_clean (dm_policy d) e1 b S1 S2); rewrite Ha; [done|exact Hb]. }
  cbn [broadcast_if] in H.
  destruct (broadcast send e2 s) as [s1|] eqn:Hb; [|done].
  cbn [fmap result_fmap mbind result_bind] in H.
  match type of H with context [store_if uninit e2 ?x] =>
    destruct (store_if uninit e2 x) as [d1|] eqn:Hst; [|done] end.
  cbn [mbind result_bind] in H. injection H as <- <-. exists s1. split; [done|].
  apply store_if_clean in Hst as [(C1 & C2 & C3) Hp]; [|done..].
  cbn [dm_published set_correlator set_counters] in Hp.
  split; [|split].
  - destruct (server_exec_inv (St := ()) (λ _ st, Err Uncaught) send (OpBroadcast e2) s () s1 ());
      [|done..]. cbn [server_exec]. by rewrite Hb.
  - split; [done|]. split; [|done]. cbn [dm_published set_counters].
    apply Forall_app_2; [done|]. by apply Forall_singleton.
  - destruct (broadcast_written send (event_line (dm_published d1 ++ [e2])) e2 s s1 Hb Hsi)
      as (new & Hn & HF).
    { intros fd msg Hm. exists e2, msg. split; [|done]. set_solver. }
    rewrite Hn. cbn [dm_published set_counters]. apply Forall_app_2.
    + eapply Forall_impl; [exact Hsent|]. intros line [(x & t & Hx & Ht)|Hr]; [left|by right].
      exists x, t. split; [|done]. rewrite Hp. set_solver.
    + eapply Forall_impl; [exact HF|]. auto.
Qed.

Lemma daemon_exec_inv op (d d' : core) s s' :
  daemon_exec op d s = Ok (d', s') → daemon_inv d s → daemon_inv d' s'.
Proof.
  intros H Hinv. pose proof Hinv as (Hsi & Hcc & Hsent).
  destruct op as [now u e|obs|ps|fd a t|now fd chunk|fd| |wall]; cbn [daemon_exec] in H.
  - destruct (on_capture_event send now u e d (Some s)) as [[d1 so]|] eqn:Hc; [|done].
    apply capture_keeps in Hc as (s1 & -> & Hi); [|done]. by injection H as <- <-.
  - by injection H as <- <-.
  - by injection H as <- <-.
  - injection H as <- <-. split; [by apply accept_inv|]. split; [done|].
    unfold accept_connection. destruct (negb a); [done|]. destruct (_ <=? _); [done|].
    by destruct t.
  - destruct (receive _ _ _ _ _ _) as [[s1 d1]|] eqn:Hr; [|done].
    injection H as <- <-. pose proof (receive_inv _ _ _ _ _ _ _ _ Hr Hsi) as Hsi1.
    pose proof (receive_written (handle_request now) send
      (λ x, core_clean x ∧ dm_published x = dm_published d) blind_answer) as Hw.
    apply Hw in Hr as [(new & Hn & HF) [Hcc1 Hp]];
      [|intros; by eapply handle_request_keeps|intros ? ? ? ? ? []; by eapply handle_request_answer|done..].
    split; [done|]. split; [done|]. rewrite Hn, Hp. apply Forall_app_2; [done|].
    eapply Forall_impl; [exact HF|]. auto.
  - injection H as <- <-. split; [by apply disconnect_inv|done].
  - injection H as <- <-.
    destruct (map_store_clean writer_round d writer_round_clean Hcc) as [Hc1 Hp].
    split; [done|]. split; [done|]. by rewrite Hp.
  - injection H as <- <-.
    destruct (map_store_clean (λ st, (prune wall (cf_storage_retention (dm_config d)) st).2) d
      (prune_clean _ _) Hcc) as [Hc1 Hp].
    split; [done|]. split; [done|]. by rewrite Hp.
Qed.

Lemma daemon_reachable_inv d0 s0 (d : core) s :
  daemon_reachable d0 s0 d s → daemon_inv d0 s0 → daemon_inv d s.
Proof. induction 1; [done|]. eauto using daemon_exec_inv. Qed.
End machine.

(** C1: End to end: whatever clients request (policy changes included), whatever
    the browser bridge records and whatever is captured, every line the daemon
    writes to a socket is the encoding of an event whose URL has no query string
    and no fragment, or an answer that it would give just so without any
    navigation, browser process or published event, or a protocol error about
    the client's own frame; every write it queues is, in every field and in its
    serialized event, the record of an event with such a URL, and every row it
    stores is what was bound of such a write. *)
Theorem no_query_or_fragment_leaves (L : JsonLib) (DB : Type) (SQL : Sqlite DB)
    (SL : SqliteLaws DB) (EB EE PB PE : Type) (CE : CaptureBackend EB EE)
    (CP : CaptureBackend PB PE) send (d0 d : Core DB EB PB) s0 s :
  server_inv s0 → sv_sent s0 = [] → dm_published d0 = [] → strips (dm_policy d0) →
  (∀ st, dm_store d0 = Some (Some st) → clean_store st) →
  daemon_reachable send d0 s0 d s →
  Forall (λ line, reply_line (blind_answer (DB := DB) (EB := EB) (PB := PB)) line ∨
            ∃ e text, clean_event e ∧ encode_event e = Some text ∧
              line.2 = text ++ [newline]) (sv_sent s) ∧
  ∀ st, dm_store d = Some (Some st) → clean_store st.
Proof.
  intros Hs0 Hsent0 Hp0 Hstrip Hst0 Hr.
  assert (Hinv : daemon_inv d s) by
    (eapply (daemon_reachable_inv send); [exact Hr|];
     split; [done|]; rewrite Hsent0; split; [|by constructor];
     split; [done|]; rewrite Hp0; split; [by constructor|done]).
  destruct Hinv as (_ & (_ & Hpub & Hst) & Hsent).
  split; [|done]. eapply Forall_impl; [exact Hsent|].
  intros line [(e & text & Hin & Ht)|Hreply]; [right|by left].
  exists e, text. split; [|done]. rewrite Forall_forall in Hpub. by apply Hpub.
Qed.

(** A daemon that has started, with an empty table as its store, and a
    navigation to a URL with a query string. *)
Definition sample_nav : NavigationObservation :=
  mkNav (10 ^ 18) 7 1 "example.org" "https://example.org/p?q=secret#f" "t" "n1" 0.
Definition sample_core : Core TableDb.table EbpfBackend PcapBackend :=
  set_store (Some (Some (mkStore TableDb.empty [] [] false false 0 0 2)))
    (daemon_set_browser_processes [mkBrowserProcess 42 "firefox"]
       (daemon_record_navigation sample_nav (new_Core default_Config))).
Definition sample_event : Event :=
  mkEvent 1 "id-1" Connection Ebpf (10 ^ 18) (dint 0) [] (Some (mkProcessInfo 42 [] None))
    (Some default_NetworkInfo) None default_PrivacyInfo [] [] [].

Definition stepped_core : result abort (Core TableDb.table EbpfBackend PcapBackend * Server) :=
  daemon_exec (L := TreeJson.lib) (SQL := TableDb.lib) (CE := ebpf_backend) (CP := pcap_backend)
    (λ _ _, Some true) (DCapture (10 ^ 18) 0 sample_event) sample_core new_Server.

Definition queued_urls (r : result abort (Core TableDb.table EbpfBackend PcapBackend * Server)) :
    list cstring :=
  match r with
  | Ok (d, _) =>
      match dm_store d with Some (Some st) => pw_url <$> ss_queue st | _ => [] end
  | Err _ => []
  end.

Lemma no_query_or_fragment_leaves_witness :
  ∃ d s st, stepped_core = Ok (d, s) ∧ dm_store d = Some (Some st) ∧
    pw_url <$> ss_queue st = [lit "https://example.org/p"] ∧
    clean_store (L := TreeJson.lib) (SL := TableDb.laws) st.
Proof.
  assert (Hq : queued_urls stepped_core = [lit "https://example.org/p"])
    by (vm_compute; reflexivity).
  destruct stepped_core as [[d s]|] eqn:Hstep; [|discriminate Hq]. cbn [queued_urls] in Hq.
  destruct (dm_store d) as [[st|]|] eqn:Hst; [|discriminate Hq..].
  exists d, s, st. split; [reflexivity|]. split; [exact Hst|]. split; [exact Hq|].
  eapply (no_query_or_fragment_leaves TreeJson.lib TableDb.table TableDb.lib TableDb.laws
    EbpfBackend EbpfEnv PcapBackend PcapEnv ebpf_backend pcap_backend (λ _ _, Some true)
    sample_core d new_Server s).
  - split; [vm_compute; congruence|]. apply map_Forall_empty.
  - reflexivity.
  - reflexivity.
  - split; reflexivity.
  - intros st' [= <-]. repeat split; constructor.
  - apply (dreach_step (λ _ _, Some true) sample_core new_Server
      (DCapture (10 ^ 18) 0 sample_event) sample_core new_Server); [apply dreach_init|].
    exact Hstep.
  - exact Hst.
Defined.

(** ** Requests *)
Lemma json_strings_utf8 (l : list cstring) :
  Forall (λ s, utf8_valid s = true) l → json_utf8 (JArray (JString <$> l)) = true.
Proof.
  intros H. cbn [json_utf8]. induction H as [|s l Hs _ IH]; [done|].
  cbn [fmap list_fmap forallb json_utf8]. by rewrite Hs, IH.
Qed.

Definition policy_utf8 (p : Policy) : Prop :=
  Forall (λ s, utf8_valid s = true) (po_sensitive_domains p).

Lemma to_json_utf8 p : policy_utf8 p → json_utf8 (to_json p) = true.
Proof.
  intros Hp. unfold to_json. apply jobject_utf8.
  repeat (apply Forall_cons_2; [split; [reflexivity|]|]); [done| |done|done]; cbn [snd].
  apply jobject_utf8.
  repeat (apply Forall_cons_2; [split; [reflexivity|]|]); [| |done]; cbn [snd].
  - by destruct (po_redaction_mode p).
  - by apply json_strings_utf8.
Qed.

(** Names read from a parsed document are well encoded. *)
Definition utf8_step (step : json → Policy → result cstring Policy) : Prop :=
  ∀ j p p', json_utf8 j = true → step j p = Ok p' → policy_utf8 p → policy_utf8 p'.

Lemma if_member_utf8 k doc step p p' :
  utf8_step step → json_utf8 doc = true → if_member k doc step p = Ok p' →
  policy_utf8 p → policy_utf8 p'.
Proof.
  intros Hs Hu. unfold if_member. destruct (member k doc) as [v|] eqn:Hm.
  - apply Hs. by eapply member_utf8.
  - by intros [= <-].
Qed.

Lemma then_utf8 k1 k2 doc s1 s2 p p' :
  utf8_step s1 → utf8_step s2 → json_utf8 doc = true →
  (q ← if_member k1 doc s1 p; if_member k2 doc s2 q) = Ok p' → policy_utf8 p → policy_utf8 p'.
Proof.
  intros H1 H2 Hu. destruct (if_member k1 doc s1 p) as [q|] eqn:E; [|done].
  cbn [mbind result_bind]. intros H Hp.
  apply (if_member_utf8 _ _ _ _ _ H2 Hu H), (if_member_utf8 _ _ _ _ _ H1 Hu E Hp).
Qed.

Lemma update_domains_utf8 : utf8_step update_domains.
Proof.
  intros j p p' Hu H _. destruct j as [| | | | | |l|]; try done. cbn [update_domains] in H.
  destruct (256 <? zlen l); [done|].
  destruct (read_strings _ _ l) as [ds|] eqn:Hr; [|done]. injection H as <-.
  apply read_strings_Ok in Hr as [-> _]. unfold policy_utf8. cbn [po_sensitive_domains set_domains].
  apply Forall_forall. intros d Hd. cbn [json_utf8] in Hu. rewrite forallb_forall in Hu.
  apply (Hu (JString d)). by apply list_elem_of_In, list_elem_of_fmap_2.
Qed.

Lemma other_steps_utf8 :
  utf8_step check_metadata_only ∧ utf8_step update_mode ∧ utf8_step update_enabled ∧
  utf8_step update_retention.
Proof.
  split_and!; intros j p p' _ H Hp.
  - destruct j as [|[]| | | | | |]; try done. by injection H as <-.
  - destruct j; try done. cbn [update_mode] in H.
    destruct (redaction_mode_from_name s); [|done]. by injection H as <-.
  - destruct j; try done. by injection H as <-.
  - unfold update_retention in H. destruct (negb _); [done|]. destruct (_ || _); [done|].
    by injection H as <-.
Qed.

Lemma update_from_json_utf8 p doc p' :
  json_utf8 doc = true → update_from_json p doc = Ok p' → policy_utf8 p → policy_utf8 p'.
Proof.
  destruct other_steps_utf8 as (S1 & S2 & S3 & S4). unfold update_from_json. intros Hu H Hp.
  destruct (negb (is_object doc)); [done|].
  destruct (if_member (lit "metadata_only") _ _ _) as [q|] eqn:E; [|done].
  cbn [mbind result_bind] in H.
  apply (if_member_utf8 _ _ _ _ _ S1 Hu) in E; [|done].
  apply (then_utf8 (lit "redaction") (lit "persistence") doc update_redaction
    update_persistence q p'); [..|done|done].
  - intros j r r' Hj Hr. unfold update_redaction in Hr. destruct (negb _); [done|].
    by apply (then_utf8 _ _ _ _ _ _ _ S2 update_domains_utf8 Hj Hr).
  - intros j r r' Hj Hr. unfold update_persistence in Hr. destruct (negb _); [done|].
    by apply (then_utf8 _ _ _ _ _ _ _ S3 S4 Hj Hr).
  - done.
Qed.

Section requests.
Context {L : JsonLib} {HL : JsonLaws L} {DB : Type} {SQL : Sqlite DB}.
Context {EB EE PB PE : Type} {CE : CaptureBackend EB EE} {CP : CaptureBackend PB PE}.

Lemma status_json_utf8 now (d : Core DB EB PB) : json_utf8 (status_json now d) = true.
Proof.
  unfold status_json. apply jobject_utf8.
  repeat (apply Forall_cons_2; [split; [reflexivity|]|]); try done; cbn [snd].
  - by destruct (dm_running d).
  - destruct (dm_backend d) as [[b|b]|]; reflexivity.
  - destruct (dm_store d); reflexivity.
Qed.

Lemma ok_response_total id doc (d : Core DB EB PB) :
  json_utf8 doc = true →
  ∃ text, ok_response id doc d = Ok (mkResponse id true text (mkIpcError InternalError []), d) ∧
    json_dump doc = Some text.
Proof.
  intros Hu. destruct (dump_defined doc Hu) as [text Ht]. exists text.
  unfold ok_response. by rewrite Ht.
Qed.

Lemma handle_request_total now rq (d : Core DB EB PB) :
  utf8_valid (rq_request_id rq) = true → policy_utf8 (dm_policy d) →
  ∃ rs d', handle_request now rq d = Ok (rs, d') ∧
    rs_request_id rs = rq_request_id rq ∧ policy_utf8 (dm_policy d') ∧
    (rs_ok rs = false → d' = d) ∧
    (rq_operation rq ≠ SetPolicy → d' = d) ∧
    (rs_ok rs = true → rq_operation rq = SetPolicy ∨ rq_operation rq = GetPolicy →
     json_dump (to_json (dm_policy d')) = Some (rs_result_json rs)).
Proof.
  intros Hid Hp. unfold handle_request.
  assert (Hsub : json_utf8 (jobject [(lit "subscription_id", JString (rq_request_id rq))]) = true).
  { apply jobject_utf8. by repeat (apply Forall_cons_2; [split; [reflexivity|]|]). }
  assert (Hunsub : json_utf8 (jobject [(lit "subscription_id", JString (rq_request_id rq));
    (lit "removed", JBool true)]) = true).
  { apply jobject_utf8. by repeat (apply Forall_cons_2; [split; [reflexivity|]|]). }
  assert (Hok : ∀ doc d1, json_utf8 doc = true → ∃ text,
    ok_response (rq_request_id rq) doc d1 = Ok (mkResponse (rq_request_id rq) true text
      (mkIpcError InternalError []), d1) ∧ json_dump doc = Some text)
    by (intros; by apply ok_response_total).
  destruct (rq_operation rq) eqn:Hop.
  1: destruct (Hok (jobject [(lit "daemon", JString "ezcap");
       (lit "version", JString kVersionString);
       (lit "protocol_version", JUint kProtocolVersion);
       (lit "metadata_only", JBool true)]) d) as (t & -> & Ht); [reflexivity|].
  2: destruct (Hok (status_json now d) d) as (t & -> & Ht); [apply status_json_utf8|].
  3: destruct (Hok _ d Hsub) as (t & -> & Ht).
  4: destruct (Hok _ d Hunsub) as (t & -> & Ht).
  6: destruct (Hok (to_json (dm_policy d)) d) as (t & -> & Ht); [by apply to_json_utf8|].
  1-4, 6-7: do 2 eexists; split; [done|]; naive_solver.
  destruct (json_parse (rq_params_json rq)) as [doc|] eqn:Hparse.
  - destruct doc as [| | | | | | |kvs]; try (do 2 eexists; split; [done|]; naive_solver).
    destruct (update_from_json (dm_policy d) (JObject kvs)) as [p|e] eqn:Hu;
      [|do 2 eexists; split; [done|]; naive_solver].
    apply parse_wf in Hparse as [_ Hj].
    assert (Hp' : policy_utf8 p) by by eapply update_from_json_utf8.
    destruct (Hok (to_json p) (set_engine p d)) as (t & -> & Ht); [by apply to_json_utf8|].
    do 2 eexists. split; [done|]. split_and!; [done..|]. by intros.
  - do 2 eexists. split; [done|]. naive_solver.
Qed.
End requests.

(** Every accepted request is answered without an exception, under its own
    id; only a successful [set_policy] changes the daemon's state, and the
    answer to [set_policy] or [get_policy] is the policy then in force. *)
Theorem handle_request_answers (L : JsonLib) (HL : JsonLaws L) (DB : Type) (SQL : Sqlite DB)
    (EB EE PB PE : Type) (CE : CaptureBackend EB EE) (CP : CaptureBackend PB PE)
    now rq (d : Core DB EB PB) :
  utf8_valid (rq_request_id rq) = true → policy_utf8 (dm_policy d) →
  ∃ rs d', handle_request now rq d = Ok (rs, d') ∧
    rs_request_id rs = rq_request_id rq ∧ policy_utf8 (dm_policy d') ∧
    (rs_ok rs = false → d' = d) ∧
    (rq_operation rq ≠ SetPolicy → d' = d) ∧
    (rs_ok rs = true → rq_operation rq = SetPolicy ∨ rq_operation rq = GetPolicy →
     json_dump (to_json (dm_policy d')) = Some (rs_result_json rs)).
Proof. apply handle_request_total. Qed.

Lemma handle_request_answers_witness :
  ∃ rs d', handle_request (JL := TreeJson.lib) (EB := EbpfBackend) (PB := PcapBackend)
      0 (mkRequest 1 GetPolicy "r" []) sample_core = Ok (rs, d') ∧ rs_request_id rs = lit "r".
Proof.
  destruct (handle_request_answers TreeJson.lib TreeJson.laws TableDb.table TableDb.lib
    EbpfBackend EbpfEnv PcapBackend PcapEnv ebpf_backend pcap_backend 0
    (mkRequest 1 GetPolicy "r" []) sample_core) as (rs & d' & H & Hid & _).
  - reflexivity.
  - constructor.
  - exists rs, d'. split; [exact H|exact Hid].
Defined.

(** ** Start-up *)
Lemma try_pcap_running {PB PE} {CP : CaptureBackend PB PE} {LP : CaptureBackendLaws PB PE}
    (new_pcap : PB) (penv : cstring → PE) candidates last b :
  try_pcap new_pcap penv candidates last = Some (Ok b) → backend_running b = true.
Proof.
  revert last. induction candidates as [|iface l IH]; intros last; cbn [try_pcap]; [done|].
  destruct (backend_start (penv iface) new_pcap) as [[[[]|m] b']|] eqn:Hs; [|destruct (backend_destroy b'); [apply IH|done]|done].
  intros [= <-]. by eapply start_ok_running.
Qed.

Lemma select_backend_running {DB EB EE PB PE} {CE : CaptureBackend EB EE}
    {CP : CaptureBackend PB PE} {LE : CaptureBackendLaws EB EE} {LP : CaptureBackendLaws PB PE}
    new_ebpf new_pcap (env : StartEnv DB EE PE) c b :
  select_backend new_ebpf new_pcap env c = Some (Ok b) →
  match b with inl b => backend_running b | inr b => backend_running b end = true.
Proof.
  unfold select_backend, try_ebpf. destruct (cf_prefer_ebpf c).
  - destruct (backend_start (se_ebpf env) new_ebpf) as [[[[]|m] b']|] eqn:Hs; [|..|done].
    + intros [= <-]. by eapply start_ok_running.
    + destruct (backend_destroy b'); [|done]. destruct (cf_pcap_fallback c); [|done].
      destruct (is_empty _); [done|].
      destruct (try_pcap _ _ _ _) as [[b1|]|] eqn:Ht; [|done..]. intros [= <-].
      by eapply try_pcap_running.
  - destruct (cf_pcap_fallback c); [|done]. destruct (is_empty _); [done|].
    destruct (try_pcap _ _ _ _) as [[b1|]|] eqn:Ht; [|done..]. intros [= <-].
    by eapply try_pcap_running.
Qed.

(** C22: A start that reports success leaves a capture backend running and the
    socket server listening, for any backends that keep the interface's
    promises; the server has no client yet. *)
Theorem daemon_start_running (L : JsonLib) (DB : Type) (SQL : Sqlite DB)
    (EB EE PB PE : Type) (CE : CaptureBackend EB EE) (CP : CaptureBackend PB PE)
    (LE : CaptureBackendLaws EB EE) (LP : CaptureBackendLaws PB PE)
    new_ebpf new_pcap env (d d' : Core DB EB PB) sv sv' fs fs' :
  daemon_start new_ebpf new_pcap env d sv fs = Some (Ok (), d', sv', fs') →
  dm_running d = false →
  dm_running d' = true ∧
  (∃ b, dm_backend d' = Some b ∧
     match b with inl b => backend_running b | inr b => backend_running b end = true) ∧
  (∃ s, sv' = Some s ∧ sv_running s = true ∧ sv_clients s = ∅).
Proof.
  unfold daemon_start. intros H Hr. rewrite Hr in H.
  destruct (select_backend _ _ _ _) as [[b|m]|] eqn:Hb; [|done..].
  apply select_backend_running in Hb.
  destruct (server_start _ _ _ _) as [[[u|m] s] fs1] eqn:Hs.
  - injection H as <- <- <-. split; [done|]. split; [by eexists|]. exists s. split; [done|].
    destruct u. apply server_start_running in Hs as [H1 H2]; [|done]. by rewrite H2.
  - destruct (daemon_stop _ _ _) as [[[? ?] ?]|]; done.
Qed.

(** A start on a host where eBPF is unavailable and pcap works. *)
Definition sample_start_env (db : result (option cstring) TableDb.table) :
    StartEnv TableDb.table EbpfEnv PcapEnv :=
  mkStartEnv db true (mkEbpfEnv false [] OpenNull false [] false false) (λ _, all_ok)
    (Some [mkIfaddr (Some (lit "lo")) true true; mkIfaddr (Some (lit "eth0")) true false]) None
    (mkSocketEnv true true true true true) 5.
Definition no_files : filesystem := ∅.
Definition storage_core : Core TableDb.table EbpfBackend PcapBackend :=
  new_Core (set_storage true "/var/lib/ezcap/events.db" 604800 default_Config).

Definition started (db : result (option cstring) TableDb.table) :=
  daemon_start (SQL := TableDb.lib) new_EbpfBackend new_PcapBackend
    (sample_start_env db) storage_core None no_files.
Definition start_succeeded {A B C} (r : option (result cstring () * A * B * C)) : bool :=
  match r with Some (Ok _, _, _, _) => true | _ => false end.

Lemma daemon_start_running_witness :
  ∃ d' sv' fs', started (Ok TableDb.empty) = Some (Ok (), d', sv', fs') ∧ dm_running d' = true.
Proof.
  assert (Hok : start_succeeded (started (Ok TableDb.empty)) = true)
    by (vm_compute; reflexivity).
  destruct (started (Ok TableDb.empty)) as [[[[[[]|] d'] sv'] fs']|] eqn:Hs;
    [|discriminate Hok..].
  exists d', sv', fs'. split; [reflexivity|].
  apply (proj1 (daemon_start_running TreeJson.lib TableDb.table TableDb.lib EbpfBackend EbpfEnv
    PcapBackend PcapEnv ebpf_backend pcap_backend ebpf_backend_laws pcap_backend_laws
    new_EbpfBackend new_PcapBackend (sample_start_env (Ok TableDb.empty)) storage_core d'
    None sv' no_files fs' Hs eq_refl)).
Defined.

(** Storage is not fail-closed: when it is enabled and the database cannot
    be opened, starting goes on exactly as with an object that refuses every
    event; the error message is lost. *)
Theorem start_ignores_storage_failure (DB : Type) (SQL : Sqlite DB)
    (EB EE PB PE : Type) (CE : CaptureBackend EB EE) (CP : CaptureBackend PB PE)
    new_ebpf new_pcap (env : StartEnv DB EE PE) (d d' : Core DB EB PB) sv sv' fs fs' msg :
  dm_running d = false → cf_storage_enabled (dm_config d) = true → se_db env = Err msg →
  daemon_start new_ebpf new_pcap env d sv fs = Some (Ok (), d', sv', fs') →
  dm_store d' = Some None ∧
  ∀ (L : JsonLib) uninit e, store_if uninit e d' =
    Ok (set_counters (dm_events_seen d') (dm_events_published d')
          (u64 (dm_events_dropped d' + 1)) (dm_published d') (set_store (Some None) d')).
Proof.
  unfold daemon_start. intros Hr He Hdb H. rewrite Hr in H.
  assert (Hst : dm_store d' = Some None).
  { destruct (select_backend _ _ _ _) as [[b|m]|]; [|done..].
    destruct (server_start _ _ _ _) as [[[u|m] s] fs1];
      [|by destruct (daemon_stop _ _ _) as [[[? ?] ?]|]].
    injection H as <- <- <-. cbn. unfold open_if_enabled, open_store. by rewrite He, Hdb. }
  split; [done|]. intros L uninit e. unfold store_if. by rewrite Hst.
Qed.

Lemma start_ignores_storage_failure_witness :
  ∃ d' sv' fs', started (Err None) = Some (Ok (), d', sv', fs') ∧ dm_store d' = Some None.
Proof.
  assert (Hok : start_succeeded (started (Err None)) = true) by (vm_compute; reflexivity).
  destruct (started (Err None)) as [[[[[[]|] d'] sv'] fs']|] eqn:Hs; [|discriminate Hok..].
  exists d', sv', fs'. split; [reflexivity|].
  apply (proj1 (start_ignores_storage_failure TableDb.table TableDb.lib EbpfBackend EbpfEnv
    PcapBackend PcapEnv ebpf_backend pcap_backend new_EbpfBackend new_PcapBackend
    (sample_start_env (Err None)) storage_core d' None sv' no_files fs' None eq_refl eq_refl eq_refl Hs)).
Defined.

(** The program reaches its run loop only after the configuration was read
    and validated, its log level is known to the logger, the daemon started,
    privileges were dropped and the sandbox was installed. *)
Theorem main_fail_closed (L : JsonLib) argv files start_ok dropped sandboxed c :
  main_program argv files start_ok dropped sandboxed = Ok (RunsDaemon c) →
  config_ok c ∧ (cf_storage_enabled c = true → cf_storage_path c ≠ []) ∧
  is_Some (level_from_name (cf_log_level c)) ∧
  start_ok c = true ∧ dropped = true ∧ sandboxed = true.
Proof.
  unfold main_program. destruct (parse_args argv default_args) as [args|]; [|done].
  destruct (config_load _ _ _) as [c'|[]] eqn:Hl; [|done..].
  destruct (ar_check_only args); [done|].
  case_bool_decide as Hlv; cbn [negb]; [|done].
  destruct (start_ok c') eqn:Hs; [|done]. destruct dropped, sandboxed; try done.
  cbn [negb]. intros [= <-]. unfold config_load, config_parse in Hl.
  destruct (files _) as [text|]; [|done]. destruct (_ <? _); [done|].
  destruct (json_parse text) as [doc|]; [|done].
  destruct doc as [| | | | | | |kvs]; try done.
  apply parse_document_ok in Hl as (H1 & _ & H3). done.
Qed.

Lemma main_fail_closed_witness :
  ∃ text, json_dump (JsonLib := TreeJson.lib) (JObject []) = Some text ∧
    main_program (JL := TreeJson.lib) [] (λ _, Some text) (λ _, true) true true
    = Ok (RunsDaemon default_Config) ∧ config_ok default_Config.
Proof.
  eexists. split; [vm_compute; reflexivity|]. split; [vm_compute; reflexivity|].
  refine (proj1 (main_fail_closed TreeJson.lib [] (λ _, Some _) (λ _, true) true true
    default_Config _)).
  instantiate (1 := default [] (json_dump (JsonLib := TreeJson.lib) (JObject []))).
  vm_compute. reflexivity.
Defined.

(** The level ["off"] passes validation and [--check-config], and then stops the
    program at start. *)
Example log_level_off_rejected_at_start :
  mem "off" config_levels = true ∧ level_from_name "off" = None.
Proof. split; reflexivity. Qed.

(** ** Drop accounting: the run loop replaces the daemon's own count of dropped
    events by the server's. *)
Lemma run_tick_overwrites_drops {L : JsonLib} {DB} {SQL : Sqlite DB} {EB EE PB PE}
    {CE : CaptureBackend EB EE} {CP : CaptureBackend PB PE} now wall ns np
    (d d' : Core DB EB PB) s ns' np' :
  run_tick now wall ns np d (Some s) = Ok (d', ns', np') →
  dm_events_dropped d' = sv_dropped_events s.
Proof.
  unfold run_tick. destruct (if ns <=? now then _ else _) as [n|]; [|done].
  cbn [mbind result_bind]. destruct (dm_store d) as [[st|]|]; [destruct (np <=? now)..|];
    by intros [= <- _ _].
Qed.

(** ** An eBPF DNS record that ends the process *)
Definition dns_record : list Z :=
  [1; 2; 0; 0] ++ [42; 0; 0; 0] ++ replicate 16 0 ++ replicate 20 0
  ++ [53; 0; 0; 0; 0; 17; 1; 0] ++ [255] ++ replicate 275 0.

Definition dns_record_event : Event :=
  match handle_record hex_ntop hex_ntop 0 dns_record with
  | Some (Some e) => e
  | _ => default_Event
  end.

(** A ring-buffer DNS record whose name has a byte outside UTF-8 is passed
    on as a DNS event; under the default policy the pipeline then throws while
    encoding it for subscribers, on the capture thread, which nothing catches. *)
Theorem ebpf_dns_name_aborts (L : JsonLib) (HL : JsonLaws L) (DB EB PB : Type) send now :
  handle_record hex_ntop hex_ntop 0 dns_record = Some (Some dns_record_event) ∧
  on_capture_event send now 0 dns_record_event (new_Core default_Config : Core DB EB PB)
    (Some new_Server) = Err Uncaught.
Proof.
  split; [reflexivity|]. unfold on_capture_event.
  cbn [dm_correlator set_counters new_Core dm_policy set_correlator].
  destruct (correlate new_Correlator now dns_record_event) as [co e1] eqn:Hc.
  assert (He : e1 = (correlate new_Correlator 0 dns_record_event).2)
    by (injection Hc as _ <-; reflexivity).
  destruct (apply new_PolicyEngine e1) as [dec e2] eqn:Ha.
  assert (Hd : dec = Allow ∧ json_utf8 (event_json e2) = false).
  { rewrite He in Ha. vm_compute in Ha. injection Ha as <- <-. by vm_compute. }
  destruct Hd as [-> Hu]. cbn [broadcast_if]. unfold broadcast, encode_event.
  by rewrite (dump_throws _ Hu).
Qed.

Lemma ebpf_dns_name_aborts_witness :
  on_capture_event (JL := TreeJson.lib) (λ _ _, Some true) 0 0 dns_record_event
    (new_Core default_Config : Core TableDb.table EbpfBackend PcapBackend)
    (Some new_Server) = Err Uncaught.
Proof.
  apply (ebpf_dns_name_aborts TreeJson.lib TreeJson.laws TableDb.table EbpfBackend PcapBackend
    (λ _ _, Some true) 0).
Defined.

(** ** Attribution as it is wired

    No code calls [record_navigation] or [set_browser_processes]: the protocol
    has no operation for them.  These are the steps that do occur; captured
    events come without tab data ([PcapCapture.handle_packet_metadata_only],
    [EbpfCapture.handle_record_safe]). *)
Definition wired (op : daemon_op) : Prop :=
  match op with
  | DNavigate _ | DProcesses _ => False
  | DCapture _ _ e => ev_browser e = None
  | _ => True
  end.

Definition unattributed (e : Event) : Prop :=
  ev_browser e = None ∧ (is_network_event e = true → ev_confidence e = dint 0).

Lemma correlate_nothing now e :
  ev_browser e = None →
  (correlate new_Correlator now e).1 = new_Correlator ∧
  unattributed (correlate new_Correlator now e).2.
Proof.
  intros Hb. unfold correlate, unattributed. destruct (is_network_event e) eqn:Hn; cbn [negb].
  - split; [done|]. unfold process_evidence. cbn [fst snd with_attribution ev_browser].
    destruct (ev_process e), (bool_decide (ev_source e = Pcap)); cbn; (split; [done|]); intros _;
      vm_compute; reflexivity.
  - cbn [fst snd]. rewrite Hn. done.
Qed.

Lemma apply_unattributed p e : unattributed e → unattributed (apply p e).2.
Proof.
  intros [Hb Hc]. unfold apply. destruct (negb _); [done|].
  destruct (apply_network _ _) as [[net r1] red1]. rewrite Hb. by cbn.
Qed.

Section wired_daemon.
Context {L : JsonLib} {DB : Type} {SQL : Sqlite DB}.
Context {EB EE PB PE : Type} {CE : CaptureBackend EB EE} {CP : CaptureBackend PB PE}.
Context (send : Z → cstring → option bool).

Definition wired_inv (d : Core DB EB PB) : Prop :=
  dm_correlator d = new_Correlator ∧ Forall unattributed (dm_published d).

Lemma store_if_wired uninit e (d d' : Core DB EB PB) :
  store_if uninit e d = Ok d' → wired_inv d → wired_inv d' ∧ dm_published d' = dm_published d.
Proof.
  unfold store_if. destruct (dm_store d); [|by intros [= <-]].
  destruct (store_object _ _ _) as [[[] so]|]; [by intros [= <-]..|done].
Qed.

Lemma handle_request_wired now rq (d : Core DB EB PB) rs d' :
  handle_request now rq d = Ok (rs, d') → wired_inv d → wired_inv d'.
Proof.
  unfold handle_request, ok_response, err_response. intros H Hd.
  destruct (rq_operation rq);
    repeat (case_match; try done);
    try (by injection H as <- <-);
    repeat match type of H with context [json_dump ?x] => destruct (json_dump x) end;
    try done; cbn in H; by injection H as <- <-.
Qed.

Lemma daemon_exec_wired op (d d' : Core DB EB PB) s s' :
  daemon_exec send op d s = Ok (d', s') → wired op → wired_inv d → wired_inv d'.
Proof.
  intros H Hop [Hco Hpub].
  destruct op as [now u e|obs|ps|fd a t|now fd chunk|fd| |wall]; cbn [daemon_exec wired] in *;
    try done; try (by injection H as <- <-).
  - destruct (on_capture_event send now u e d (Some s)) as [[d1 so]|] eqn:Hc; [|done].
    assert (wired_inv d1) as Hd1; [|by destruct so; injection H as <- <-].
    unfold on_capture_event in Hc. cbn [dm_correlator set_counters] in Hc. rewrite Hco in Hc.
    destruct (correlate_nothing now e Hop) as [H1 H2].
    destruct (correlate new_Correlator now e) as [co e1]. cbn [fst snd] in H1, H2. subst co.
    cbn [dm_policy set_correlator set_counters] in Hc.
    pose proof (apply_unattributed (dm_policy d) e1 H2) as H3.
    destruct (apply (dm_policy d) e1) as [dec e2]. cbn [snd] in H3.
    case_bool_decide; [by injection Hc as <- <-|].
    destruct (broadcast_if send e2 (Some s)) as [so1|]; [|done]. cbn [mbind result_bind] in Hc.
    match type of Hc with context [store_if u e2 ?x] =>
      destruct (store_if u e2 x) as [d2|] eqn:Hst; [|done] end.
    cbn [mbind result_bind] in Hc. injection Hc as <- <-.
    apply store_if_wired in Hst as [[Hco2 Hpub2] Hp]; [|done].
    split; [done|]. cbn [dm_published set_counters]. apply Forall_app_2; [done|].
    by apply Forall_singleton.
  - destruct (receive _ _ _ _ _ _) as [[s1 d1]|] eqn:Hr; [|done]. injection H as <- <-.
    eapply (receive_keeps _ _ wired_inv) in Hr as [H1 _]; [done| |done]. intros. by eapply handle_request_wired.
  - injection H as <- <-. unfold map_store. by destruct (dm_store d) as [[]|].
  - injection H as <- <-. unfold map_store. by destruct (dm_store d) as [[]|].
Qed.

Lemma daemon_execs_wired ops (d d' : Core DB EB PB) s s' :
  daemon_execs send ops d s = Ok (d', s') → Forall wired ops → wired_inv d → wired_inv d'.
Proof.
  intros H Hops. revert d s H. induction Hops as [|op ops Hop _ IH]; intros d s; cbn [daemon_execs].
  { by intros [= <- <-]. }
  destruct (daemon_exec send op d s) as [[d1 s1]|] eqn:H1; [|done]. cbn [mbind result_bind].
  intros H Hd. eapply IH; [exact H|]. by eapply daemon_exec_wired.
Qed.
End wired_daemon.

(** C20: Whatever connections, requests, captured events, writer rounds and
    prunings follow the construction of the daemon, in whatever order, no event
    it publishes carries tab data, and every published network event has the
    confidence 0 whatever its backend gave it: of the steps of the daemon only
    [record_navigation] and [set_browser_processes] feed the correlator, and no
    request leads to them. *)
Theorem attribution_never_happens (L : JsonLib) (DB : Type) (SQL : Sqlite DB)
    (EB EE PB PE : Type) (CE : CaptureBackend EB EE) (CP : CaptureBackend PB PE)
    (send : Z → cstring → option bool) (config : Config) (store : option (option (Store DB)))
    (ops : list daemon_op) (d : Core DB EB PB) (s : Server) :
  Forall wired ops →
  daemon_execs send ops (set_store store (new_Core config)) new_Server = Ok (d, s) →
  Forall unattributed (dm_published d).
Proof.
  intros Hops H. eapply (daemon_execs_wired send ops _ d _ s H Hops). by split.
Qed.

(** The report of a navigation that the extension sends, a [subscribe] whose
    parameters hold the observation, and a connection of the browser's process. *)
Definition navigation_report : cstring :=
  default [] (json_dump (JsonLib := TreeJson.lib) (request_json Subscribe "n-1"
    (Some (jobject [(lit "observation", jobject
      [(lit "kind", JString "navigation"); (lit "tab_id", JUint 7);
       (lit "url", JString "https://example.org/p")])])))) ++ [newline].

Definition captured_connection : Event :=
  mkEvent 1 "id-1" Connection Ebpf (10 ^ 18) (dint 1) [] (Some (mkProcessInfo 42 [] None))
    (Some default_NetworkInfo) None default_PrivacyInfo [] [] [].

Definition wired_run : list daemon_op :=
  [DAccept 5 true true; DReceive (10 ^ 18) 5 navigation_report;
   DCapture (10 ^ 18) 0 captured_connection].

Lemma attribution_never_happens_witness :
  ∃ d s, daemon_execs (L := TreeJson.lib) (SQL := TableDb.lib) (CE := ebpf_backend)
      (CP := pcap_backend) (λ _ _, Some true) wired_run
      (set_store (Some None) (new_Core default_Config)) new_Server = Ok (d, s) ∧
    length (dm_published d) = 1%nat ∧ length (sv_sent s) = 2%nat ∧
    Forall unattributed (dm_published d).
Proof.
  destruct (daemon_execs (L := TreeJson.lib) (SQL := TableDb.lib) (CE := ebpf_backend)
    (CP := pcap_backend) (λ _ _, Some true) wired_run
    (set_store (Some None) (new_Core default_Config)) new_Server) as [[d s]|] eqn:Hr.
  - exists d, s. split; [reflexivity|]. split; [|split].
    1, 2: revert Hr; vm_compute; by intros [= <- <-].
    eapply (attribution_never_happens TreeJson.lib TableDb.table TableDb.lib EbpfBackend EbpfEnv
      PcapBackend PcapEnv ebpf_backend pcap_backend (λ _ _, Some true) default_Config (Some None)
      wired_run d s); [|exact Hr].
    repeat constructor.
  - exfalso. vm_compute in Hr. discriminate Hr.
Defined.
