(* ===== verification/RunLoop.v ===== *)
(** The run loop of the daemon ([Daemon::run] in [src/src/daemon/daemon.cpp]).

    The loop sleeps, publishes the status, prunes the store and copies the drop
    counter of the server, until a signal asks it to stop or the daemon is no
    longer running; it then calls [stop].  The other threads work during the
    sleep: a round of the loop is the list of the steps they took, and the
    readings of the clocks.  The theorems show that no round can end the
    program by itself, that the end of the loop leaves nothing behind, and that
    the retention period is enforced at least every five minutes, as long as
    the store has not given up. *)
From S2P Require Import Prelude Double Json Types Time Redactor PolicyEngine Correlator.
From S2P Require Import PacketParser EventNormalizer PcapCapture EbpfCapture.
From S2P Require Import IpcCodec IpcServer Config Storage Daemon.
Open Scope Z_scope.

Section run_loop.
Context {L : JsonLib} {DB : Type} {SQL : Sqlite DB}.
Context {EB EE PB PE : Type} {CE : CaptureBackend EB EE} {CP : CaptureBackend PB PE}.
Context (send : Z → cstring → option bool).

Abbreviation core := (Core DB EB PB).

(** One round: the steps of the other threads while [run] sleeps, then the
    steady clock and the system clock. *)
Record RunTick := mkRunTick { rt_ops : list daemon_op; rt_now : Z; rt_wall : Z }.

(** The rounds before [stop_requested_] is seen; the loop also ends when the
    daemon is not running.  Returns the deadlines too. *)
Fixpoint run_rounds (ticks : list RunTick) (next_status next_prune : Z) (d : core)
    (s : Server) : result abort (core * Server * Z * Z) :=
  match ticks with
  | [] => Ok (d, s, next_status, next_prune)
  | t :: ticks =>
      if negb (dm_running d) then Ok (d, s, next_status, next_prune)
      else
        '(d, s) ← daemon_execs send (rt_ops t) d s;
        '(d, next_status, next_prune) ←
          run_tick (rt_now t) (rt_wall t) next_status next_prune d (Some s);
        run_rounds ticks next_status next_prune d s
  end.

Definition kPruneInterval : Z := 300 * 10 ^ 9.

(** [run]: [t0] and [t1] are the readings of the steady clock at its start. *)
Definition daemon_run (t0 t1 : Z) (ticks : list RunTick) (d : core) (s : Server)
    (fs : filesystem) : result abort (core * option Server * filesystem) :=
  '(d, s, _, _) ← run_rounds ticks (t0 + cf_status_interval (dm_config d) * 10 ^ 6)
                    (t1 + kPruneInterval) d s;
  match daemon_stop d (Some s) fs with
  | None => Err Uncaught
  | Some r => Ok r
  end.

(** ** What a step keeps *)
Definition frozen (d : core) (st : Store DB) : Prop :=
  dm_store d = Some (Some st) ∧ ss_failed st = true.
Definition kept (d d' : core) : Prop :=
  dm_running d' = dm_running d ∧ dm_backend d' = dm_backend d ∧
  dm_config d' = dm_config d ∧ (is_Some (dm_store d) → is_Some (dm_store d')) ∧
  (∀ st, frozen d st → frozen d' st).

Lemma kept_refl d : kept d d.
Proof. done. Qed.
Lemma kept_trans d1 d2 d3 : kept d1 d2 → kept d2 d3 → kept d1 d3.
Proof.
  unfold kept. intros (A1 & A2 & A3 & A4 & A5) (B1 & B2 & B3 & B4 & B5).
  split_and!; [congruence..|auto|auto].
Qed.

Lemma map_store_kept f d : (∀ st, ss_failed st = true → f st = st) → kept d (map_store f d).
Proof.
  intros Hf. unfold map_store. destruct (dm_store d) as [[st|]|] eqn:H; unfold kept, frozen; cbn;
    rewrite ?H; try by eauto.
  split_and!; [done..|eauto|]. intros st' [[= <-] Hst]. by rewrite Hf.
Qed.

(** A store that has failed refuses events, is not written and not pruned. *)
Lemma store_failed u e (st : Store DB) : ss_failed st = true → store u e st = Some (false, st).
Proof. unfold store. by intros ->. Qed.
Lemma writer_round_failed (st : Store DB) : ss_failed st = true → writer_round st = st.
Proof. unfold writer_round, writer_ready. by intros ->. Qed.
Lemma prune_failed wall r (st : Store DB) : ss_failed st = true → prune wall r st = (-1, st).
Proof. unfold prune. by intros ->. Qed.

Lemma on_capture_event_kept now u e d s d' so' :
  on_capture_event send now u e d (Some s) = Ok (d', so') →
  kept d d' ∧ ∃ s', so' = Some s' ∧ sv_running s' = sv_running s.
Proof.
  unfold on_capture_event. destruct (correlate _ _ _) as [co e1].
  destruct (apply _ _) as [dec e2]. case_bool_decide; [intros [= <- <-]; split; [done|by eexists]|].
  unfold broadcast_if. destruct (broadcast _ _ _) as [s1|] eqn:Hb; [|done].
  apply broadcast_running in Hb. cbn [mbind result_bind].
  unfold store_if. cbn [dm_store set_correlator set_counters].
  destruct (dm_store d) as [st|] eqn:Hst.
  - destruct (store_object u e2 st) as [[ok so2]|] eqn:Ho; cbn [mbind result_bind]; [|done].
    intros [= <- <-]. split; [|by eexists].
    assert (∀ st0, st = Some st0 → ss_failed st0 = true → so2 = Some st0) as Hfr.
    { intros st0 -> Hf. cbn [store_object] in Ho. rewrite store_failed in Ho by done. congruence. }
    destruct ok; unfold kept, frozen; cbn; rewrite Hst; (split_and!; [done..|eauto|]);
      intros st0 [[= ->] Hf]; by rewrite (Hfr st0).
  - cbn [mbind result_bind]. intros [= <- <-]. split; [|by eexists].
    unfold kept, frozen; cbn. by rewrite Hst.
Qed.

Lemma handle_request_kept now rq d rs d' : handle_request now rq d = Ok (rs, d') → kept d d'.
Proof.
  unfold handle_request, ok_response, err_response. intros H.
  destruct (rq_operation rq); repeat (case_match; try done); try (by injection H as <- <-);
    repeat match type of H with context [json_dump ?x] => destruct (json_dump x) end;
    try done; cbn in H; by injection H as <- <-.
Qed.

Lemma daemon_exec_kept op d s d' s' :
  daemon_exec send op d s = Ok (d', s') → kept d d' ∧ sv_running s' = sv_running s.
Proof.
  destruct op; cbn [daemon_exec]; try (by intros [= <- <-]).
  - destruct (on_capture_event _ _ _ _ _ _) as [[d1 so]|] eqn:H; [|done].
    apply on_capture_event_kept in H as (Hk & s1 & -> & Hs). by intros [= <- <-].
  - intros [= <- <-]. split; [done|]. unfold accept_connection.
    destruct authorized; [|done]. cbn [negb]. destruct (_ <=? _); [done|]. by destruct thread_ok.
  - destruct (receive _ _ _ _ _ _) as [[s1 d1]|] eqn:H; [|done]. intros [= <- <-].
    eapply (receive_keeps _ _ (kept d)) in H; [done| |apply kept_refl].
    intros rq st rs st' Hh Hk. eapply kept_trans; [exact Hk|by eapply handle_request_kept].
  - intros [= <- <-]. split; [|done]. apply map_store_kept, writer_round_failed.
  - intros [= <- <-]. split; [|done]. apply map_store_kept. intros st Hf. by rewrite prune_failed.
Qed.

Lemma daemon_execs_kept ops d s d' s' :
  daemon_execs send ops d s = Ok (d', s') → kept d d' ∧ sv_running s' = sv_running s.
Proof.
  revert d s. induction ops as [|op ops IH]; intros d s; cbn [daemon_execs].
  { intros [= <- <-]. split; [apply kept_refl|done]. }
  destruct (daemon_exec send op d s) as [[d1 s1]|] eqn:H1; [|done]. cbn [mbind result_bind].
  intros H. apply daemon_exec_kept in H1 as [K1 R1]. apply IH in H as [K2 R2].
  split; [by eapply kept_trans|congruence].
Qed.

(** ** One round *)
Lemma run_tick_kept now wall ns np d s d' ns' np' :
  run_tick now wall ns np d (Some s) = Ok (d', ns', np') →
  kept d d' ∧
  (is_Some (dm_store d) → np' = if np <=? now then now + kPruneInterval else np) ∧
  (np ≤ now → ∀ st', dm_store d' = Some (Some st') →
     ∃ st, st' = (prune wall (cf_storage_retention (dm_config d')) st).2).
Proof.
  unfold run_tick. destruct (if ns <=? now then _ else _) as [n|]; [|done].
  cbn [mbind result_bind]. destruct (dm_store d) as [[st|]|] eqn:Hst; cycle 2.
  { intros [= <- _ <-]. split_and!; unfold kept, frozen; cbn; rewrite ?Hst; done || by intros []. }
  all: destruct (Z.leb_spec np now); intros [= <- _ <-]; split_and!; unfold kept, frozen; cbn;
    rewrite ?Hst; try done; try lia; eauto.
  - split_and!; [done..|eauto|]. intros st' [[= <-] Hf]. by rewrite prune_failed.
  - intros _ st' [= <-]. eauto.
Qed.

Lemma run_tick_total {HL : JsonLaws L} now wall ns np (d : core) s :
  ∃ r, run_tick now wall ns np d (Some s) = Ok r.
Proof.
  unfold run_tick, publish_status. destruct (dump_defined (status_json now d)) as [t Ht].
  { apply status_json_utf8. }
  rewrite Ht. destruct (ns <=? now); cbn [encoded mbind result_bind];
    (destruct (match dm_store d with Some _ => _ | None => _ end); by eexists).
Qed.

(** ** The whole loop *)
Lemma run_rounds_app a b ns np d s :
  run_rounds (a ++ b) ns np d s =
  '(d, s, ns, np) ← run_rounds a ns np d s;
  if dm_running d then run_rounds b ns np d s else Ok (d, s, ns, np).
Proof.
  revert ns np d s. induction a as [|t a IH]; intros ns np d s; cbn [app run_rounds].
  - cbn [mbind result_bind]. destruct b; cbn [run_rounds]; by destruct (dm_running d).
  - destruct (dm_running d) eqn:Hr; cbn [negb].
    2:{ cbn [mbind result_bind]. by rewrite Hr. }
    destruct (daemon_execs _ _ _ _) as [[d1 s1]|]; [|done]. cbn [mbind result_bind].
    destruct (run_tick _ _ _ _ _ _) as [[[d2 ns2] np2]|]; [|done]. cbn [mbind result_bind].
    apply IH.
Qed.

Lemma run_rounds_kept ticks ns np d s d' s' ns' np' :
  run_rounds ticks ns np d s = Ok (d', s', ns', np') →
  kept d d' ∧ sv_running s' = sv_running s.
Proof.
  revert ns np d s. induction ticks as [|t ticks IH]; intros ns np d s; cbn [run_rounds].
  { intros [= <- <- <- <-]. split; [apply kept_refl|done]. }
  destruct (negb _); [intros [= <- <- <- <-]; split; [apply kept_refl|done]|].
  destruct (daemon_execs _ _ _ _) as [[d1 s1]|] eqn:H1; [|done]. cbn [mbind result_bind].
  destruct (run_tick _ _ _ _ _ _) as [[[d2 ns2] np2]|] eqn:H2; [|done]. cbn [mbind result_bind].
  intros H. apply daemon_execs_kept in H1 as [K1 R1]. apply run_tick_kept in H2 as [K2 _].
  apply IH in H as [K3 R3]. split; [|congruence].
  eapply kept_trans; [exact K1|]. by eapply kept_trans.
Qed.

(** Once the store has given up, its table stays as it is for the rest of the
    run: what it holds is never pruned, however old it gets. *)
Lemma failed_store_frozen ticks ns np d s d' s' ns' np' st :
  run_rounds ticks ns np d s = Ok (d', s', ns', np') →
  dm_store d = Some (Some st) → ss_failed st = true → dm_store d' = Some (Some st).
Proof.
  intros H Hst Hf. apply run_rounds_kept in H as [(_ & _ & _ & _ & Hk) _].
  by destruct (Hk st).
Qed.

(** A round that fails is one whose steps fail. *)
Lemma run_rounds_fail {HL : JsonLaws L} ticks ns np d s e :
  run_rounds ticks ns np d s = Err e →
  ∃ a t b d1 s1 ns1 np1, ticks = a ++ t :: b ∧
    run_rounds a ns np d s = Ok (d1, s1, ns1, np1) ∧
    daemon_execs send (rt_ops t) d1 s1 = Err e.
Proof.
  revert ns np d s. induction ticks as [|t ticks IH]; intros ns np d s; cbn [run_rounds]; [done|].
  destruct (dm_running d) eqn:Hr; cbn [negb]; [|done].
  destruct (daemon_execs _ _ _ _) as [[d1 s1]|e1] eqn:H1; cbn [mbind result_bind].
  - destruct (run_tick_total (rt_now t) (rt_wall t) ns np d1 s1) as [[[d2 ns2] np2] H2].
    rewrite H2. cbn [mbind result_bind]. intros H.
    destruct (IH _ _ _ _ H) as (a & t' & b & d3 & s3 & ns3 & np3 & -> & Ha & He).
    exists (t :: a), t', b, d3, s3, ns3, np3. split; [done|]. split; [|done].
    cbn [run_rounds]. rewrite Hr, H1. cbn [negb mbind result_bind]. by rewrite H2.
  - intros [= <-]. by exists [], t, ticks, d, s, ns, np.
Qed.

(** The last pruning is less than the interval before the last round. *)
Lemma run_rounds_prunes {HL : JsonLaws L} ticks t ns np d s d' s' ns' np' :
  run_rounds (ticks ++ [t]) ns np d s = Ok (d', s', ns', np') →
  dm_running d = true → is_Some (dm_store d) → np ≤ rt_now t →
  ∃ a u b d1 s1 ns1 np1 d2 s2 ns2 np2, ticks ++ [t] = a ++ u :: b ∧
    rt_now t - kPruneInterval < rt_now u ∧
    run_rounds a ns np d s = Ok (d1, s1, ns1, np1) ∧ np1 ≤ rt_now u ∧
    run_rounds (a ++ [u]) ns np d s = Ok (d2, s2, ns2, np2).
Proof.
  intros H Hr Hst Hnp.
  (* either the last round prunes, or the deadline was moved by an earlier one *)
  revert ns np d s H Hr Hst Hnp. induction ticks as [|v ticks IH]; intros ns np d s H Hr Hst Hnp.
  { exists [], t, [], d, s, ns, np, d', s', ns', np'. split_and!; try done. unfold kPruneInterval. lia. }
  cbn [app run_rounds] in H. rewrite Hr in H. cbn [negb] in H.
  destruct (daemon_execs _ _ _ _) as [[d1 s1]|] eqn:H1; [|done]. cbn [mbind result_bind] in H.
  destruct (run_tick _ _ _ _ _ _) as [[[d2 ns2] np2]|] eqn:H2; [|done].
  cbn [mbind result_bind] in H.
  pose proof (daemon_execs_kept _ _ _ _ _ H1) as [(R1 & _ & _ & S1 & _) _].
  pose proof (run_tick_kept _ _ _ _ _ _ _ _ _ H2) as ((R2 & _ & _ & S2 & _) & Hnp2 & _).
  specialize (Hnp2 (S1 Hst)).
  assert (Hhead : run_rounds [v] ns np d s = Ok (d2, s1, ns2, np2)).
  { cbn [run_rounds]. rewrite Hr, H1. cbn [negb mbind result_bind]. by rewrite H2. }
  destruct (Z.le_gt_cases np2 (rt_now t)) as [Hle|Hgt].
  - destruct (IH _ _ _ _ H) as (a & u & b & d3 & s3 & ns3 & np3 & d4 & s4 & ns4 & np4 & Heq &
      Hlt & Ha & Hp & Hau); [congruence|auto|done|].
    exists (v :: a), u, b, d3, s3, ns3, np3, d4, s4, ns4, np4. cbn [app run_rounds].
    rewrite Hr, H1, Heq. cbn [negb mbind result_bind]. rewrite H2. done.
  - destruct (Z.leb_spec np (rt_now v)); [|lia].
    exists [], v, (ticks ++ [t]), d, s, ns, np, d2, s1, ns2, np2. split_and!; try done. lia.
Qed.
End run_loop.

(** The run loop cannot end the program by itself.  Whatever the other threads
    do during its rounds, [run] either returns, and then the daemon is not
    running, has no backend and no store, and the socket file of a server that
    was listening is gone and no other file is touched; or one of the steps of
    the other threads already ended the program. *)
Theorem run_ends_cleanly (L : JsonLib) (HL : JsonLaws L) (DB : Type) (SQL : Sqlite DB)
    (EB EE PB PE : Type) (CE : CaptureBackend EB EE) (CP : CaptureBackend PB PE)
    (send : Z → cstring → option bool) t0 t1 ticks (d : Core DB EB PB) s fs b :
  dm_backend d = Some b → stop_backend b = Some () → sv_running s = true →
  (∃ d', daemon_run send t0 t1 ticks d s fs
         = Ok (d', None, delete (cf_socket_path (dm_config d)) fs) ∧
     dm_running d' = false ∧ dm_backend d' = None ∧ dm_store d' = None) ∨
  (∃ a t rest d1 s1 ns1 np1 e, ticks = a ++ t :: rest ∧
     run_rounds send a (t0 + cf_status_interval (dm_config d) * 10 ^ 6) (t1 + kPruneInterval)
       d s = Ok (d1, s1, ns1, np1) ∧
     daemon_execs send (rt_ops t) d1 s1 = Err e ∧
     daemon_run send t0 t1 ticks d s fs = Err e).
Proof.
  intros Hb Hstop Hsv. unfold daemon_run.
  destruct (run_rounds _ ticks _ _ d s) as [[[[d1 s1] ns1] np1]|e] eqn:H.
  - left. apply run_rounds_kept in H as [(_ & Hb1 & Hc & _) Hs]. cbn [mbind result_bind].
    unfold daemon_stop, server_stop. rewrite Hb1, Hb, Hstop, Hs, Hsv, Hc. cbn [negb snd]. by eexists.
  - right. destruct (run_rounds_fail _ _ _ _ _ _ _ H) as (a & t & r & d1 & s1 & ns1 & np1 & -> & Ha & He).
    exists a, t, r, d1, s1, ns1, np1, e. cbn [mbind result_bind]. done.
Qed.

(** C19: Retention.  From five minutes after the start of [run], at every round
    the last pruning is less than five minutes old, and it left no row in the
    table that was past the retention period when it ran, provided the store
    had not given up and the database takes the deletion. *)
Theorem retention_enforced (L : JsonLib) (HL : JsonLaws L) (DB : Type) (SQL : Sqlite DB)
    (SL : SqliteLaws DB) (EB EE PB PE : Type) (CE : CaptureBackend EB EE)
    (CP : CaptureBackend PB PE) (send : Z → cstring → option bool) ticks t ns t1
    (d d' : Core DB EB PB) s s' ns' np' :
  (∀ c db, is_Some (db_delete_before c db)) →
  dm_running d = true → is_Some (dm_store d) → t1 + kPruneInterval ≤ rt_now t →
  run_rounds send (ticks ++ [t]) ns (t1 + kPruneInterval) d s = Ok (d', s', ns', np') →
  ∃ a u b d2 s2 ns2 np2, ticks ++ [t] = a ++ u :: b ∧
    rt_now t - kPruneInterval < rt_now u ∧
    run_rounds send (a ++ [u]) ns (t1 + kPruneInterval) d s = Ok (d2, s2, ns2, np2) ∧
    ∀ st, dm_store d2 = Some (Some st) → ss_failed st = false →
      Forall (λ r, Z.quot (rt_wall u - cf_storage_retention (dm_config d) * 10 ^ 9) (10 ^ 6)
                   ≤ er_timestamp_unix_ms r) (db_rows (ss_db st)).
Proof.
  intros Hdel Hr Hst Ht H.
  destruct (run_rounds_prunes _ _ _ _ _ _ _ _ _ _ _ H Hr Hst Ht)
    as (a & u & b & d1 & s1 & ns1 & np1 & d2 & s2 & ns2 & np2 & Heq & Hlt & Ha & Hp & Hau).
  exists a, u, b, d2, s2, ns2, np2. split_and!; try done.
  intros st Hs Hf. pose proof (run_rounds_kept _ _ _ _ _ _ _ _ _ _ Hau) as [(_ & _ & Hc & _) _].
  rewrite run_rounds_app, Ha in Hau. cbn [mbind result_bind] in Hau.
  apply run_rounds_kept in Ha as [(Hr1 & _) _]. rewrite Hr1, Hr in Hau.
  cbn [run_rounds] in Hau. rewrite Hr1, Hr in Hau. cbn [negb] in Hau.
  destruct (daemon_execs _ _ _ _) as [[d3 s3]|]; [|done]. cbn [mbind result_bind] in Hau.
  destruct (run_tick _ _ _ _ _ _) as [[[d4 ns4] np4]|] eqn:Hk; [|done].
  injection Hau as <- <- <- <-. apply run_tick_kept in Hk as (_ & _ & Hk).
  destruct (Hk Hp st Hs) as [st0 ->]. rewrite Hc in *. by apply prune_leaves_recent.
Qed.

(** A daemon that captures with pcap and stores, and two rounds of its loop: one
    in which an event is captured and written, one five minutes later. *)
Definition running_pcap : PcapBackend :=
  match backend_start all_ok new_PcapBackend with Some (_, b) => b | None => new_PcapBackend end.
Definition running_core : Core TableDb.table EbpfBackend PcapBackend :=
  mkCore (dm_config storage_core) new_PolicyEngine new_Correlator (Some (inr running_pcap))
    (Some (Some sample_store)) true 5 0 0 0 [].
Definition listening : Server := mkServer true ∅ 0 [].
Definition sample_ticks : list RunTick :=
  [mkRunTick [DAccept 5 true true; DCapture 6 0 sample_event; DWriter] (10 ^ 8) (10 ^ 18)].
Definition late_tick : RunTick := mkRunTick [] (301 * 10 ^ 9) (10 ^ 18 + 301 * 10 ^ 9).

Lemma run_ends_cleanly_witness :
  ∃ d', daemon_run (L := TreeJson.lib) (SQL := TableDb.lib) (CE := ebpf_backend)
      (CP := pcap_backend) (λ _ _, Some true) 5 5 (sample_ticks ++ [late_tick]) running_core listening
      {[ cf_socket_path default_Config := Socket 0x180 ]} = Ok (d', None, ∅) ∧
    dm_store d' = None.
Proof.
  destruct (run_ends_cleanly TreeJson.lib TreeJson.laws TableDb.table TableDb.lib EbpfBackend
    EbpfEnv PcapBackend PcapEnv ebpf_backend pcap_backend (λ _ _, Some true) 5 5
    (sample_ticks ++ [late_tick]) running_core listening
    {[ cf_socket_path default_Config := Socket 0x180 ]} (inr running_pcap))
    as [(d' & H & _ & _ & Hs)|(a & t & r & d1 & s1 & ns1 & np1 & e & _ & _ & _ & H)].
  - reflexivity.
  - reflexivity.
  - reflexivity.
  - exists d'. split; [rewrite H; by vm_compute|done].
  - exfalso. vm_compute in H. discriminate H.
Defined.

Lemma retention_enforced_witness :
  ∃ a u b d2 s2 ns2 np2, sample_ticks ++ [late_tick] = a ++ u :: b ∧
    rt_now late_tick - kPruneInterval < rt_now u ∧
    run_rounds (L := TreeJson.lib) (SQL := TableDb.lib) (CE := ebpf_backend)
      (CP := pcap_backend) (λ _ _, Some true) (a ++ [u]) 1000 (0 + kPruneInterval) running_core
      listening = Ok (d2, s2, ns2, np2) ∧
    ∀ st, dm_store d2 = Some (Some st) → ss_failed st = false →
      Forall (λ r, Z.quot (rt_wall u - 604800 * 10 ^ 9) (10 ^ 6) ≤ er_timestamp_unix_ms r)
        (db_rows (SqliteLaws := TableDb.laws) (ss_db st)).
Proof.
  destruct (run_rounds (L := TreeJson.lib) (SQL := TableDb.lib) (CE := ebpf_backend)
    (CP := pcap_backend) (λ _ _, Some true) (sample_ticks ++ [late_tick]) 1000 (0 + kPruneInterval)
    running_core listening) as [[[[d' s'] ns'] np']|] eqn:H;
    [|exfalso; vm_compute in H; discriminate H].
  eapply (retention_enforced TreeJson.lib TreeJson.laws TableDb.table TableDb.lib TableDb.laws
    EbpfBackend EbpfEnv PcapBackend PcapEnv ebpf_backend pcap_backend (λ _ _, Some true)
    sample_ticks late_tick 1000 0 running_core d' listening s' ns' np').
  - intros c db. by eexists.
  - reflexivity.
  - by eexists.
  - vm_compute. discriminate.
  - exact H.
Defined.
