(* ===== verification/Shutdown.v ===== *)
(** * Stopping while the other threads run ([Daemon::stop])

    [Daemon.daemon_stop] runs [stop] to its end; here its steps interleave with
    the accept thread and the detached reader threads of the socket server and
    with the capture thread.  What matters is which object a thread is inside
    of, which objects still exist and who holds [clients_mutex_]:
    [server_.reset()], [backend_.reset()] and [store_.reset()] destroy them one
    after the other, and only the accept thread and the capture thread are
    joined.  The data the threads compute is modelled in [IpcServer] and
    [Daemon]. *)
From S2P Require Import Prelude.
Open Scope Z_scope.

(** ** The threads *)

(** The capture thread: in the loop of the backend; in [on_capture_event]
    before [if (server_)]; in [server_->broadcast] before it has collected the
    subscribers; waiting there, with [clients_mutex_] locked, for the
    [out_mutex] of a client; encoding the event and sending it; before
    [if (store_)]; inside [store_->store]; returned. *)
Inductive capture_pc :=
  CDispatch | CEvent | CCollect | CStuck | CSend | CBeforeStore | CStore | CReturned.

(** The accept thread: at the test of [running_]; in [accept4]; with a client
    to enter into [clients_]; returned. *)
Inductive accept_pc := ATest | AAccept | AInsert | AReturned.

(** A reader thread: before it looks its client up; in the loop of
    [client_loop]; in [handle_frame] and the handler; inside
    [backend_->running()] and inside [store_->stored_count()] of
    [build_status_json]; after the loop, before it removes its client; waiting
    for the [out_mutex] that it holds itself; returned. *)
Inductive reader_pc :=
  RLookup | RLoop | RFrame | RBackend | RBeforeStore | RStore | RLeave | RStuck | RReturned.

(** What [stop] has left to do. *)
Inductive stop_action :=
  | ServerClear     (** [running_ = false], [shutdown] and [close] of the listening socket *)
  | ServerJoin      (** [accept_thread_->join()] *)
  | ServerSwap      (** [to_close.swap(clients_)] under [clients_mutex_], [shutdown] of the clients *)
  | ServerUnlink
  | ServerReset     (** [server_.reset()] *)
  | BackendClear    (** [running_ = false], or the early return when it is false already *)
  | BackendJoin     (** [thread_->join()] *)
  | BackendReset    (** [backend_.reset()]: terminates when the thread was not joined *)
  | StoreReset.     (** [store_.reset()] *)

#[global] Instance capture_pc_eq_dec : EqDecision capture_pc.
Proof. solve_decision. Defined.
#[global] Instance accept_pc_eq_dec : EqDecision accept_pc.
Proof. solve_decision. Defined.
#[global] Instance reader_pc_eq_dec : EqDecision reader_pc.
Proof. solve_decision. Defined.
#[global] Instance stop_action_eq_dec : EqDecision stop_action.
Proof. solve_decision. Defined.

Record World := mkWorld {
  w_stop : list stop_action;
  w_unlink : bool;            (** the kernel lets the main thread [unlink] *)
  w_server : bool;            (** the server exists *)
  w_server_running : bool;
  w_socket : bool;            (** the socket file exists *)
  w_swapped : bool;           (** [clients_] was emptied *)
  w_accept : accept_pc;
  w_readers : list reader_pc;
  w_backend : bool;           (** the backend exists *)
  w_backend_running : bool;
  w_joined : bool;            (** the capture thread was joined *)
  w_capture : capture_pc;
  w_store : bool;             (** the store exists *)
  w_terminated : bool;        (** [std::terminate] *)
}.

Definition stop_actions : list stop_action :=
  [ServerClear; ServerJoin; ServerSwap; ServerUnlink; ServerReset;
   BackendClear; BackendJoin; BackendReset; StoreReset].

(** A started daemon whose main thread enters [stop]. *)
Definition running_world (unlink : bool) : World :=
  mkWorld stop_actions unlink true true true false ATest [] true true false CDispatch true false.

Definition set_capture (c : capture_pc) (w : World) : World :=
  mkWorld (w_stop w) (w_unlink w) (w_server w) (w_server_running w) (w_socket w) (w_swapped w)
    (w_accept w) (w_readers w) (w_backend w) (w_backend_running w) (w_joined w) c (w_store w)
    (w_terminated w).
Definition set_threads (a : accept_pc) (rs : list reader_pc) (w : World) : World :=
  mkWorld (w_stop w) (w_unlink w) (w_server w) (w_server_running w) (w_socket w) (w_swapped w) a rs
    (w_backend w) (w_backend_running w) (w_joined w) (w_capture w) (w_store w) (w_terminated w).
Definition set_backend (exists_ running joined : bool) (w : World) : World :=
  mkWorld (w_stop w) (w_unlink w) (w_server w) (w_server_running w) (w_socket w) (w_swapped w)
    (w_accept w) (w_readers w) exists_ running joined (w_capture w) (w_store w) (w_terminated w).
Definition set_server (exists_ running socket swapped : bool) (w : World) : World :=
  mkWorld (w_stop w) (w_unlink w) exists_ running socket swapped (w_accept w) (w_readers w)
    (w_backend w) (w_backend_running w) (w_joined w) (w_capture w) (w_store w) (w_terminated w).
Definition set_stop (l : list stop_action) (w : World) : World :=
  mkWorld l (w_unlink w) (w_server w) (w_server_running w) (w_socket w) (w_swapped w) (w_accept w)
    (w_readers w) (w_backend w) (w_backend_running w) (w_joined w) (w_capture w) (w_store w)
    (w_terminated w).
Definition set_end (store terminated : bool) (w : World) : World :=
  mkWorld (w_stop w) (w_unlink w) (w_server w) (w_server_running w) (w_socket w) (w_swapped w)
    (w_accept w) (w_readers w) (w_backend w) (w_backend_running w) (w_joined w) (w_capture w)
    store terminated.

(** [clients_mutex_] is held between two steps only by a [broadcast] that waits
    for the [out_mutex] of a client; the other critical sections are one step. *)
Definition clients_mutex_free (w : World) : bool := bool_decide (w_capture w ≠ CStuck).

(** *** [stop]: the next action, [None] when it must wait. *)
Definition stop_step (w : World) : option World :=
  match w_stop w with
  | [] => None
  | a :: rest =>
      let free := clients_mutex_free w in
      let w := set_stop rest w in
      match a with
      | ServerClear => Some (set_server true false (w_socket w) false w)
      | ServerJoin => if decide (w_accept w = AReturned) then Some w else None
      | ServerSwap => if free then Some (set_server true false (w_socket w) true w) else None
      | ServerUnlink => Some (set_server true false (w_socket w && negb (w_unlink w)) true w)
      | ServerReset => Some (set_server false false (w_socket w) true w)
      | BackendClear =>
          if w_backend_running w then Some (set_backend true false false w)
          else Some (set_stop [BackendReset; StoreReset] w)
      | BackendJoin =>
          if decide (w_capture w = CReturned) then Some (set_backend true false true w) else None
      | BackendReset =>
          if w_joined w then Some (set_backend false false true w)
          else Some (set_end (w_store w) true w)
      | StoreReset => Some (set_end false (w_terminated w) w)
      end
  end.

(** *** The capture thread *)
Inductive capture_move :=
  | CaptureEvent     (** a packet or record reaches the callback *)
  | CaptureDrop      (** the policy drops the event *)
  | CaptureGo        (** the thread goes on; in [CSend], every [send] has returned *)
  | CaptureThrows    (** [encode_event] throws: text that is not UTF-8 *)
  | CaptureFails.    (** [pcap_dispatch] or [ring_buffer__poll] fails *)

Definition capture_step (m : capture_move) (w : World) : option World :=
  match w_capture w, m with
  | CDispatch, CaptureEvent => Some (set_capture CEvent w)
  | CDispatch, CaptureFails =>
      Some (set_capture CReturned (set_backend (w_backend w) false (w_joined w) w))
  | CDispatch, CaptureGo => if w_backend_running w then None else Some (set_capture CReturned w)
  | CEvent, CaptureDrop => Some (set_capture CDispatch w)
  | CEvent, CaptureGo => Some (set_capture (if w_server w then CCollect else CBeforeStore) w)
  | CCollect, CaptureGo =>
      Some (set_capture (if negb (w_swapped w) && bool_decide (RStuck ∈ w_readers w)
                         then CStuck else CSend) w)
  | CSend, CaptureGo => Some (set_capture CBeforeStore w)
  | CSend, CaptureThrows | CStore, CaptureThrows => Some (set_end (w_store w) true w)
  | CBeforeStore, CaptureGo => Some (set_capture (if w_store w then CStore else CDispatch) w)
  | CStore, CaptureGo => Some (set_capture CDispatch w)
  | _, _ => None
  end.

(** *** The accept thread *)
Inductive accept_move :=
  | AcceptClient   (** [accept4] gives an authorised client *)
  | AcceptRetry    (** a client that is refused, or an interrupted call *)
  | AcceptFails    (** any other failure of [accept4] *)
  | AcceptGo.      (** the test of the loop; the entry of the client and its thread *)

Definition accept_step (m : accept_move) (w : World) : option World :=
  match w_accept w, m with
  | ATest, AcceptGo =>
      Some (set_threads (if w_server_running w then AAccept else AReturned) (w_readers w) w)
  | AAccept, AcceptClient => Some (set_threads AInsert (w_readers w) w)
  | AAccept, AcceptRetry => Some (set_threads ATest (w_readers w) w)
  | AAccept, AcceptFails =>
      Some (set_threads (if w_server_running w then ATest else AReturned) (w_readers w) w)
  | AInsert, AcceptGo =>
      if clients_mutex_free w then Some (set_threads ATest (w_readers w ++ [RLookup]) w) else None
  | AInsert, AcceptRetry =>
      if clients_mutex_free w then Some (set_threads ATest (w_readers w) w) else None
  | _, _ => None
  end.

(** *** A reader thread *)
Inductive reader_move :=
  | ReaderFrame     (** a complete frame arrives *)
  | ReaderStatus    (** the frame is a [get_status] request *)
  | ReaderNinth     (** the frame is a ninth subscription *)
  | ReaderHangup    (** [recv] gives nothing more *)
  | ReaderGo.

Definition reader_next (m : reader_move) (w : World) (r : reader_pc) : option reader_pc :=
  match r, m with
  | RLookup, ReaderGo =>
      if clients_mutex_free w then Some (if w_swapped w then RReturned else RLoop) else None
  | RLoop, ReaderFrame => Some RFrame
  | RLoop, ReaderHangup => Some RLeave
  | RLoop, ReaderGo => if w_server_running w then None else Some RLeave
  | RFrame, ReaderGo => Some RLoop
  | RFrame, ReaderStatus => Some (if w_backend w then RBackend else RBeforeStore)
  | RFrame, ReaderNinth => Some RStuck
  | RBackend, ReaderGo => Some RBeforeStore
  | RBeforeStore, ReaderGo => Some (if w_store w then RStore else RLoop)
  | RStore, ReaderGo => Some RLoop
  | RLeave, ReaderGo => if clients_mutex_free w then Some RReturned else None
  | _, _ => None
  end.

Definition reader_step (i : nat) (m : reader_move) (w : World) : option World :=
  r ← w_readers w !! i;
  r' ← reader_next m w r;
  Some (set_threads (w_accept w) (<[i := r']> (w_readers w)) w).

(** *** Interleavings *)
Inductive move :=
  | MStop
  | MCapture (m : capture_move)
  | MAccept (m : accept_move)
  | MReader (i : nat) (m : reader_move).

#[global] Instance capture_move_eq_dec : EqDecision capture_move.
Proof. solve_decision. Defined.
#[global] Instance accept_move_eq_dec : EqDecision accept_move.
Proof. solve_decision. Defined.
#[global] Instance reader_move_eq_dec : EqDecision reader_move.
Proof. solve_decision. Defined.
#[global] Instance move_eq_dec : EqDecision move.
Proof. solve_decision. Defined.

Definition world_step (m : move) (w : World) : option World :=
  if w_terminated w then None
  else match m with
       | MStop => stop_step w
       | MCapture m => capture_step m w
       | MAccept m => accept_step m w
       | MReader i m => reader_step i m w
       end.

Fixpoint world_run (ms : list move) (w : World) : option World :=
  match ms with
  | [] => Some w
  | m :: ms => w ← world_step m w; world_run ms w
  end.

Lemma world_run_app ms1 ms2 w :
  world_run (ms1 ++ ms2) w = w ← world_run ms1 w; world_run ms2 w.
Proof.
  revert w. induction ms1 as [|m ms1 IH]; intros w; cbn [app world_run]; [done|].
  destruct (world_step m w); [|done]. apply IH.
Qed.

(** ** Invariants

    [phase n w]: the first [n] actions of [stop] are done. *)
Record phase (n : nat) (w : World) : Prop := {
  ph_bound : (n ≤ 9)%nat;
  ph_stop : w_stop w = drop n stop_actions;
  ph_flag : (1 ≤ n)%nat → w_server_running w = false;
  ph_accept : (2 ≤ n)%nat → w_accept w = AReturned;
  ph_swapped : w_swapped w = (3 <=? n)%nat;
  ph_stuck : w_capture w = CStuck → (n ≤ 2)%nat;
  ph_socket : w_socket w = (n <=? 3)%nat || negb (w_unlink w);
  ph_server : w_server w = (n <=? 4)%nat;
  ph_backend_flag : (6 ≤ n)%nat → w_backend_running w = false;
  ph_joined : w_joined w = true → w_capture w = CReturned;
  ph_backend : w_backend w = false → w_joined w = true;
  ph_reset : (8 ≤ n)%nat → w_terminated w = false → w_joined w = true ∧ w_backend w = false;
  ph_store : w_store w = (n <=? 8)%nat;
  ph_end : (9 ≤ n)%nat → w_terminated w = false;
}.

Lemma phase_start unlink : phase 0 (running_world unlink).
Proof. split; cbn; try done; lia. Qed.

(** The threads other than the main one. *)
Lemma phase_capture n w m w' :
  phase n w → w_terminated w = false → capture_step m w = Some w' → phase n w'.
Proof.
  intros [] Ht H.
  assert (Hr : (8 ≤ n)%nat → w_capture w = CReturned) by (intros; apply ph_joined0; by apply ph_reset0).
  assert (Hj : w_capture w ≠ CReturned → w_joined w = false).
  { intros Hc. destruct (w_joined w); [by destruct Hc; apply ph_joined0|done]. }
  unfold capture_step in H. destruct (w_capture w) eqn:Hc, m; try discriminate H;
    repeat case_match; simplify_eq; split; cbn; try done;
    rewrite ?Hj in * by done; try (intuition congruence);
    intros; try (exfalso; by discriminate (Hr ltac:(lia))).
  apply andb_prop in H0 as [Hs _]. rewrite ph_swapped0 in Hs. apply negb_true_iff, Nat.leb_gt in Hs. lia.
Qed.

Lemma phase_thread n w m w' :
  phase n w → world_step m w = Some w' → m ≠ MStop → phase n w'.
Proof.
  intros Hp H Hm. unfold world_step in H. destruct (w_terminated w) eqn:Ht; [done|].
  destruct m as [|m|m|i m]; [done|by eapply phase_capture|..].
  - destruct Hp. unfold accept_step in H. destruct (w_accept w) eqn:Hc, m; try discriminate H;
      repeat case_match; simplify_eq; split; cbn; try done; intros Hn;
      first [by intros _; apply ph_reset0 | by auto | discriminate (ph_accept0 Hn) | discriminate (ph_flag0 Hn)].
  - destruct Hp. unfold reader_step in H. destruct (w_readers w !! i) as [r|]; [|done]. cbn in H.
    destruct (reader_next m w r) as [r'|]; [|done]. cbn in H. simplify_eq.
    split; cbn; try done.
Qed.

Lemma phase_stop n w w' :
  phase n w → w_terminated w = false → stop_step w = Some w' →
  ∃ n', phase n' w' ∧ (n < n')%nat.
Proof.
  intros [] Ht H. unfold stop_step in H. rewrite ph_stop0 in H.
  exists (9 - length (w_stop w'))%nat. unfold clients_mutex_free in H.
  destruct n as [|[|[|[|[|[|[|[|[|[|n]]]]]]]]]]; [..|lia]; cbn in H;
    repeat case_match; simplify_eq; cbn;
    (split; [split; cbn; try done; try lia; intros;
      first [apply ph_flag0; lia | apply ph_accept0; lia | by auto | congruence
             | by (rewrite ph_socket0; cbn; rewrite ?andb_true_l)
             | (exfalso; by apply bool_decide_eq_true in H0)
             | (exfalso; specialize (ph_stuck0 ltac:(done)); lia)
             | rewrite H0; by auto]|lia]).
Qed.

Lemma world_step_phase n w m w' :
  phase n w → world_step m w = Some w' → ∃ n', phase n' w' ∧ (n ≤ n')%nat.
Proof.
  intros Hp H. destruct m as [| | |]; [|eexists; split; [by eapply phase_thread|done]..].
  unfold world_step in H. destruct (w_terminated w) eqn:Ht; [done|].
  destruct (phase_stop n w w') as (n' & ? & ?); [done..|]. exists n'. split; [done|lia].
Qed.

Lemma world_run_phase ms n w w' :
  phase n w → world_run ms w = Some w' → ∃ n', phase n' w'.
Proof.
  revert n w. induction ms as [|m ms IH]; intros n w Hp; cbn [world_run]; [intros [= <-]; eauto|].
  destruct (world_step m w) as [w1|] eqn:H; [|done]. cbn [mbind option_bind].
  destruct (world_step_phase _ _ _ _ Hp H) as (n1 & Hp1 & _). by eapply IH.
Qed.

(** The capture loop fails, or an event cannot be encoded. *)
Definition failure (m : move) : bool :=
  match m with MCapture (CaptureFails | CaptureThrows) => true | _ => false end.
Definition no_failure (ms : list move) : Prop := Forall (λ m, failure m = false) ms.

(** As long as neither happens, the flag of the backend is cleared by [stop]
    only, and the capture thread is joined. *)
Record quiet (w : World) : Prop := {
  qu_running : (4 ≤ length (w_stop w))%nat → w_backend_running w = true;
  qu_joined : (length (w_stop w) ≤ 2)%nat → w_joined w = true;
  qu_terminated : w_terminated w = false;
}.

Lemma quiet_start unlink : quiet (running_world unlink).
Proof. split; cbn; try done; lia. Qed.

Lemma world_step_quiet n w m w' :
  phase n w → quiet w → world_step m w = Some w' → failure m = false → quiet w'.
Proof.
  intros [] [] H Hm. unfold world_step in H. rewrite qu_terminated0 in H.
  destruct m as [|m|m|i m].
  - unfold stop_step in H. rewrite ph_stop0 in H, qu_running0, qu_joined0.
    destruct n as [|[|[|[|[|[|[|[|[|[|n]]]]]]]]]]; [..|lia]; cbn in H, qu_running0, qu_joined0;
      rewrite ?qu_running0, ?qu_joined0 in H by lia;
      repeat case_match; simplify_eq; split; cbn; try done; try lia; intros; auto with lia.
  - unfold capture_step in H. destruct (w_capture w), m; try discriminate H; try discriminate Hm;
      repeat case_match; simplify_eq; split; cbn; rewrite ?H0; auto.
  - unfold accept_step in H. destruct (w_accept w), m; try discriminate H; repeat case_match;
      simplify_eq; by split.
  - unfold reader_step in H. destruct (w_readers w !! i) as [r|]; [|done]. cbn in H.
    destruct (reader_next m w r) as [r'|]; [|done]. cbn in H. simplify_eq. by split.
Qed.

Lemma world_run_quiet ms n w w' :
  phase n w → quiet w → world_run ms w = Some w' → no_failure ms → quiet w'.
Proof.
  revert n w. induction ms as [|m ms IH]; intros n w Hp Hq; cbn [world_run]; [by intros [= <-]|].
  destruct (world_step m w) as [w1|] eqn:H; [|done]. cbn [mbind option_bind].
  intros Hr [Hm Hms]%Forall_cons.
  destruct (world_step_phase _ _ _ _ Hp H) as (n1 & Hp1 & _).
  eapply IH; [exact Hp1|by eapply (world_step_quiet n w m)|done..].
Qed.

(** ** A broadcast that waits stops everything *)
Lemma stuck_step w m w' :
  w_capture w = CStuck → world_step m w = Some w' → w_capture w' = CStuck.
Proof.
  intros Hc H. unfold world_step in H. destruct (w_terminated w); [done|].
  destruct m as [|m|m|i m].
  - unfold stop_step in H. destruct (w_stop w) as [|[] rest]; repeat case_match; by simplify_eq.
  - unfold capture_step in H. rewrite Hc in H. by destruct m.
  - unfold accept_step in H. destruct (w_accept w), m; repeat case_match; by simplify_eq.
  - unfold reader_step in H. destruct (w_readers w !! i) as [r|]; [|done]. cbn in H.
    destruct (reader_next m w r) as [r1|]; [|done]. cbn in H. by simplify_eq.
Qed.

Lemma stuck_run ms n w w' :
  phase n w → w_capture w = CStuck → world_run ms w = Some w' → w_stop w' ≠ [].
Proof.
  intros Hp Hc H. destruct (world_run_phase _ _ _ _ Hp H) as [n' Hp'].
  assert (Hc' : w_capture w' = CStuck).
  { clear Hp Hp'. revert w Hc H. induction ms as [|m ms IH]; intros w Hc; cbn [world_run];
      [by intros [= <-]|]. destruct (world_step m w) as [w1|] eqn:H; [|done].
    cbn [mbind option_bind]. apply IH. by eapply stuck_step. }
  pose proof (ph_stuck _ _ Hp' Hc'). rewrite (ph_stop _ _ Hp').
  destruct n' as [|[|[|n']]]; [done..|lia].
Qed.

(** ** Use of destroyed objects *)
Definition in_broadcast (c : capture_pc) : bool :=
  match c with CCollect | CStuck | CSend => true | _ => false end.

(** A reader that still runs code of the server; one that waits for its own
    lock does not touch the server any more. *)
Definition in_server (r : reader_pc) : bool :=
  match r with RStuck | RReturned => false | _ => true end.

Definition uses_destroyed (w : World) : bool :=
  negb (w_server w) && (in_broadcast (w_capture w) || existsb in_server (w_readers w)).

(** A run in which no thread is ever inside a server that was destroyed. *)
Fixpoint safe_run (ms : list move) (w : World) : option World :=
  if uses_destroyed w then None
  else match ms with
       | [] => Some w
       | m :: ms => w ← world_step m w; safe_run ms w
       end.

Lemma safe_run_world ms w w' : safe_run ms w = Some w' → world_run ms w = Some w'.
Proof.
  revert w. induction ms as [|m ms IH]; intros w; cbn [safe_run world_run];
    destruct (uses_destroyed w); try done.
  destruct (world_step m w); [|done]. apply IH.
Qed.

Lemma safe_run_app ms1 ms2 w w1 w2 :
  safe_run ms1 w = Some w1 → safe_run ms2 w1 = Some w2 → safe_run (ms1 ++ ms2) w = Some w2.
Proof.
  revert w. induction ms1 as [|m ms1 IH]; intros w; cbn [app safe_run].
  { destruct (uses_destroyed w); [done|]. by intros [= <-]. }
  destruct (uses_destroyed w); [done|]. destruct (world_step m w); [|done]. cbn. apply IH.
Qed.

(** ** [stop] can always go on *)

(** A few steps of the other threads, without a failure, that change the world
    in the way that is given. *)
Definition reaches (k : nat) (w w' : World) : Prop :=
  ∃ ms, (length ms ≤ k)%nat ∧ no_failure ms ∧ (MStop ∉ ms) ∧ safe_run ms w = Some w'.

Lemma reaches_refl k w : uses_destroyed w = false → reaches k w w.
Proof.
  intros H. exists []. split; [cbn; lia|]. split; [constructor|]. split; [set_solver|].
  cbn. by rewrite H.
Qed.

Lemma reaches_trans k1 k2 w w1 w2 :
  reaches k1 w w1 → reaches k2 w1 w2 → reaches (k1 + k2) w w2.
Proof.
  intros (m1 & L1 & F1 & S1 & R1) (m2 & L2 & F2 & S2 & R2). exists (m1 ++ m2).
  split; [rewrite length_app; lia|]. split; [by apply Forall_app_2|]. split; [set_solver|].
  by eapply safe_run_app.
Qed.

Lemma reaches_moves (l : list move) k w w' :
  safe_run l w = Some w' → forallb (λ m, negb (failure m) && bool_decide (m ≠ MStop)) l = true →
  (length l ≤ k)%nat → reaches k w w'.
Proof.
  intros Hr Hb Hl. exists l. split; [done|]. rewrite forallb_forall in Hb.
  assert (Hm : ∀ m, m ∈ l → failure m = false ∧ m ≠ MStop).
  { intros m Hm%list_elem_of_In. specialize (Hb m Hm). apply andb_prop in Hb as [H1 H2].
    apply negb_true_iff in H1. by apply bool_decide_eq_true in H2. }
  split; [apply Forall_forall; intros m Hin; by apply Hm|]. split; [|done].
  intros Hin. by apply (Hm MStop).
Qed.

Lemma accept_returns w :
  w_server w = true → w_server_running w = false → w_terminated w = false →
  w_capture w ≠ CStuck → reaches 2 w (set_threads AReturned (w_readers w) w).
Proof.
  destruct w as [? ? ? ? ? ? a ? ? ? ? c ? ?]. cbn. intros -> -> -> Hc.
  apply (reaches_moves (match a with
    | ATest => [MAccept AcceptGo] | AAccept => [MAccept AcceptFails]
    | AInsert => [MAccept AcceptRetry; MAccept AcceptGo] | AReturned => [] end));
    destruct a; try (cbn; lia); try reflexivity; by destruct c.
Qed.

(** Once the clients are out of the table and their sockets shut down, a reader
    that does not wait for its own lock returns. *)
Definition settle (r : reader_pc) : reader_pc :=
  match r with RStuck => RStuck | _ => RReturned end.

Definition reader_moves (store : bool) (r : reader_pc) : list reader_move :=
  let leave := [ReaderHangup; ReaderGo] in
  match r with
  | RLookup | RLeave => [ReaderGo]
  | RLoop => leave
  | RFrame | RStore => ReaderGo :: leave
  | RBackend => (if store then [ReaderGo; ReaderGo; ReaderGo] else [ReaderGo; ReaderGo]) ++ leave
  | RBeforeStore => (if store then [ReaderGo; ReaderGo] else [ReaderGo]) ++ leave
  | RStuck | RReturned => []
  end.

Fixpoint reader_run (ms : list reader_move) (w : World) (r : reader_pc) : option reader_pc :=
  match ms with [] => Some r | m :: ms => r ← reader_next m w r; reader_run ms w r end.

Lemma reader_returns w r :
  w_swapped w = true → w_capture w ≠ CStuck →
  reader_run (reader_moves (w_store w) r) w r = Some (settle r).
Proof.
  destruct w as [? ? ? ? ? ? ? ? ? ? ? c st ?]. cbn. intros -> Hc.
  destruct r, st; cbn; unfold clients_mutex_free; cbn; rewrite ?bool_decide_true by done; done.
Qed.

Lemma reader_run_threads ms a rs w r : reader_run ms (set_threads a rs w) r = reader_run ms w r.
Proof.
  revert r. induction ms as [|m ms IH]; intros r; [done|]. cbn [reader_run].
  change (reader_next m (set_threads a rs w) r) with (reader_next m w r).
  destruct (reader_next m w r); [|done]. apply IH.
Qed.

Lemma reader_run_reaches ms w i r r' :
  w_server w = true → w_terminated w = false → w_readers w !! i = Some r →
  reader_run ms w r = Some r' →
  reaches (length ms) w (set_threads (w_accept w) (<[i := r']> (w_readers w)) w).
Proof.
  intros Hs Ht. intros Hi Hr. exists (MReader i <$> ms). rewrite length_fmap. split; [done|].
  split; [apply Forall_fmap; by apply Forall_true|].
  split; [intros (? & ? & _)%list_elem_of_fmap; done|].
  revert w r Hs Ht Hi Hr. induction ms as [|m ms IH]; intros w r Hs Ht Hi; cbn [reader_run].
  { intros [= <-]. cbn. unfold uses_destroyed. rewrite Hs. cbn. rewrite list_insert_id by done.
    by destruct w. }
  destruct (reader_next m w r) as [r1|] eqn:Hn; [|done]. cbn [mbind option_bind]. intros Hr.
  cbn [fmap list_fmap safe_run]. unfold uses_destroyed. rewrite Hs. cbn [negb andb].
  unfold world_step, reader_step. rewrite Ht, Hi. cbn [mbind option_bind]. rewrite Hn.
  cbn [mbind option_bind].
  rewrite (IH (set_threads (w_accept w) (<[i:=r1]> (w_readers w)) w) r1); [|done|done| |].
  - cbn. by rewrite list_insert_insert_eq.
  - cbn. apply list_lookup_insert_eq. by eapply lookup_lt_Some.
  - by rewrite reader_run_threads.
Qed.

Lemma readers_return w :
  w_server w = true → w_terminated w = false → w_swapped w = true → w_capture w ≠ CStuck →
  reaches (5 * length (w_readers w)) w (set_threads (w_accept w) (settle <$> w_readers w) w).
Proof.
  intros Hs Ht Hw Hc.
  assert (Hk : ∀ k, (k ≤ length (w_readers w))%nat → reaches (5 * k) w
    (set_threads (w_accept w) ((settle <$> take k (w_readers w)) ++ drop k (w_readers w)) w)).
  { induction k as [|k IH]; intros Hk.
    - cbn [take fmap list_fmap app drop]. replace (set_threads _ _ w) with w by by destruct w.
      apply reaches_refl. unfold uses_destroyed. by rewrite Hs.
    - destruct (lookup_lt_is_Some_2 (w_readers w) k) as [r Hr]; [lia|].
      replace (5 * S k)%nat with (5 * k + 5)%nat by lia.
      eapply reaches_trans; [apply IH; lia|].
      set (w1 := set_threads _ _ w).
      assert (Hi : w_readers w1 !! k = Some r).
      { unfold w1. cbn. rewrite lookup_app_r; rewrite length_fmap, length_take_le by lia; [|lia].
        by rewrite Nat.sub_diag, lookup_drop, Nat.add_0_r. }
      destruct (reader_run_reaches (reader_moves (w_store w1) r) w1 k r (settle r)) as
        (ms & Hl & Hf & Hm & Hx); [done..|by apply reader_returns|].
      exists ms. split_and!; [|done..|].
      + etrans; [exact Hl|]. destruct r, (w_store w1); cbn; lia.
      + rewrite Hx. unfold w1, set_threads. cbn. f_equal. f_equal.
        rewrite (take_S_r _ _ r), (drop_S _ r) by done. rewrite fmap_app, insert_app_r_alt
          by (rewrite length_fmap, length_take; lia).
        rewrite length_fmap, length_take_le, Nat.sub_diag by lia. cbn.
        by rewrite <-(assoc_L (++)). }
  specialize (Hk (length (w_readers w)) ltac:(lia)).
  by rewrite firstn_all, drop_all, app_nil_r in Hk.
Qed.

Definition leave_broadcast (c : capture_pc) : capture_pc :=
  if in_broadcast c then CBeforeStore else c.

Lemma broadcast_returns w :
  w_server w = true → w_terminated w = false → w_swapped w = true → w_capture w ≠ CStuck →
  reaches 2 w (set_capture (leave_broadcast (w_capture w)) w).
Proof.
  destruct w as [? ? ? ? ? ? ? ? ? ? ? c ? ?]. cbn. intros -> -> -> Hc.
  apply (reaches_moves (match c with
    | CCollect => [MCapture CaptureGo; MCapture CaptureGo] | CSend => [MCapture CaptureGo]
    | _ => [] end)); destruct c; try (cbn; lia); done.
Qed.

Lemma capture_returns w :
  w_server w = false → uses_destroyed w = false → w_backend_running w = false →
  w_terminated w = false → reaches 4 w (set_capture CReturned w).
Proof.
  destruct w as [? ? ? ? ? ? ? rs ? ? ? c st ?]. cbn. intros -> Hu -> ->.
  unfold uses_destroyed in Hu. cbn in Hu. apply orb_false_iff in Hu as [Hb Hr].
  apply (reaches_moves (match c with
    | CDispatch => [MCapture CaptureGo]
    | CEvent => (if st then [MCapture CaptureGo; MCapture CaptureGo; MCapture CaptureGo]
                 else [MCapture CaptureGo; MCapture CaptureGo]) ++ [MCapture CaptureGo]
    | CBeforeStore => (if st then [MCapture CaptureGo; MCapture CaptureGo]
                       else [MCapture CaptureGo]) ++ [MCapture CaptureGo]
    | CStore => [MCapture CaptureGo; MCapture CaptureGo]
    | _ => [] end));
    destruct c; try discriminate Hb; destruct st; try (cbn; lia); try done;
    cbn; unfold uses_destroyed; cbn; rewrite Hr; reflexivity.
Qed.

Lemma settled_readers rs : existsb in_server (settle <$> rs) = false.
Proof. induction rs as [|r rs IH]; [done|]. cbn. rewrite IH. by destruct r. Qed.

(** Before [server_.reset()] nothing is destroyed. *)
Lemma server_exists n w : phase n w → (n ≤ 4)%nat → w_server w = true ∧ uses_destroyed w = false.
Proof.
  intros Hp Hn. assert (Hs : w_server w = true).
  { rewrite (ph_server _ _ Hp). apply Nat.leb_le. lia. }
  split; [done|]. unfold uses_destroyed. by rewrite Hs.
Qed.

(** The state in which [stop] takes its next step: the threads that it waits
    for, or that would use what it destroys, have returned. *)
Lemma stop_prepared n w :
  phase n w → (n < 9)%nat → w_terminated w = false → w_capture w ≠ CStuck →
  uses_destroyed w = false →
  ∃ w1, reaches (5 * length (w_readers w) + 4) w w1 ∧ phase n w1 ∧ w_terminated w1 = false ∧
    w_capture w1 ≠ CStuck ∧ length (w_readers w1) = length (w_readers w) ∧
    (n = 1%nat → w_accept w1 = AReturned) ∧ (n = 6%nat → w_capture w1 = CReturned) ∧
    (n = 4%nat → in_broadcast (w_capture w1) || existsb in_server (w_readers w1) = false) ∧
    uses_destroyed w1 = false.
Proof.
  intros Hp Hn Ht Hc Hu.
  assert (Hph : ∀ k w1, reaches k w w1 → phase n w1).
  { intros k w1 (ms & _ & _ & Hm & Hr%safe_run_world). revert Hm Hr. clear -Hp. revert w Hp.
    induction ms as [|m ms IH]; intros w Hp; cbn [world_run]; [by intros _ [= <-]|].
    intros [Hm Hms]%not_elem_of_cons. destruct (world_step m w) as [w2|] eqn:H; [|done].
    cbn [mbind option_bind]. apply IH; [|done]. by eapply phase_thread. }
  assert (Hle : ∀ k w1, reaches k w w1 → (k ≤ 5 * length (w_readers w) + 4)%nat →
    reaches (5 * length (w_readers w) + 4) w w1).
  { intros k w1 (ms & Hl & H) Hk. exists ms. split; [lia|done]. }
  destruct (decide (n = 1%nat)) as [->|H1].
  { destruct (server_exists _ _ Hp) as [Hs _]; [lia|].
    pose proof (accept_returns w Hs (ph_flag _ _ Hp ltac:(lia)) Ht Hc) as Hr.
    eexists. split; [eapply Hle; [exact Hr|lia]|]. split; [by eapply Hph|].
    by split_and!. }
  destruct (decide (n = 6%nat)) as [->|H6].
  { assert (Hs : w_server w = false) by by rewrite (ph_server _ _ Hp).
    pose proof (capture_returns w Hs Hu (ph_backend_flag _ _ Hp ltac:(lia)) Ht) as Hr.
    eexists. split; [eapply Hle; [exact Hr|lia]|]. split; [by eapply Hph|].
    split_and!; try done. unfold uses_destroyed in *. cbn. rewrite Hs in *. cbn in *.
    by apply orb_false_iff in Hu as [_ ->]. }
  destruct (decide (n = 4%nat)) as [->|H4].
  { destruct (server_exists _ _ Hp) as [Hs _]; [lia|].
    assert (Hw : w_swapped w = true) by by rewrite (ph_swapped _ _ Hp).
    pose proof (readers_return w Hs Ht Hw Hc) as R1.
    pose proof (broadcast_returns (set_threads (w_accept w) (settle <$> w_readers w) w)
      Hs Ht Hw Hc) as R2.
    pose proof (reaches_trans _ _ _ _ _ R1 R2) as Hr.
    eexists. split; [eapply Hle; [exact Hr|lia]|]. split; [by eapply Hph|].
    split_and!; try done.
    - cbn. unfold leave_broadcast. destruct (w_capture w); done.
    - cbn. apply length_fmap.
    - intros _. cbn. rewrite settled_readers. unfold leave_broadcast. by destruct (w_capture w).
    - unfold uses_destroyed. cbn. by rewrite Hs. }
  exists w. split; [by apply reaches_refl|]. by split_and!.
Qed.

Lemma stop_step_keeps w w' :
  stop_step w = Some w' → w_capture w' = w_capture w ∧ w_readers w' = w_readers w.
Proof.
  unfold stop_step. destruct (w_stop w) as [|[] rest]; [done|..]; repeat case_match; by intros [= <-].
Qed.

Lemma stop_enabled n w :
  phase n w → (n < 9)%nat → w_capture w ≠ CStuck →
  (n = 1%nat → w_accept w = AReturned) → (n = 6%nat → w_capture w = CReturned) →
  is_Some (stop_step w).
Proof.
  intros Hp Hn Hc H1 H6. unfold stop_step, clients_mutex_free. rewrite (ph_stop _ _ Hp).
  rewrite bool_decide_true by done.
  destruct n as [|[|[|[|[|[|[|[|[|n]]]]]]]]]; try lia; cbn; repeat case_match; try (by eexists);
    exfalso; auto.
Qed.

Lemma stop_safe n w w' :
  phase n w → stop_step w = Some w' → uses_destroyed w = false →
  (n = 4%nat → in_broadcast (w_capture w) || existsb in_server (w_readers w) = false) →
  uses_destroyed w' = false.
Proof.
  intros Hp Hs Hu H4. destruct (stop_step_keeps _ _ Hs) as [Hc Hr].
  unfold uses_destroyed in *. rewrite Hc, Hr.
  destruct (decide (n = 4%nat)) as [->|Hn]; [rewrite H4 by done; apply andb_false_r|].
  assert (w_server w' = w_server w) as ->; [|done].
  unfold stop_step in Hs. rewrite (ph_stop _ _ Hp) in Hs. pose proof (ph_server _ _ Hp) as Hsv.
  destruct n as [|[|[|[|[|[|[|[|[|n]]]]]]]]]; try lia; cbn in Hs, Hsv; rewrite Hsv;
    repeat case_match; simplify_eq; cbn; try congruence; by destruct n.
Qed.

Lemma stop_finishes n w :
  phase n w → w_terminated w = false → w_capture w ≠ CStuck → uses_destroyed w = false →
  ∃ ms w', (length ms ≤ (9 - n) * (5 + 5 * length (w_readers w)))%nat ∧ no_failure ms ∧
    safe_run ms w = Some w' ∧ (w_terminated w' = true ∨ phase 9 w').
Proof.
  remember (9 - n)%nat as k eqn:Hk. revert n w Hk.
  induction k as [k IH] using lt_wf_ind; intros n w -> Hp Ht Hc Hu.
  pose proof (ph_bound _ _ Hp). destruct (decide (n = 9%nat)) as [->|Hn].
  { exists [], w. split; [cbn; lia|]. split; [constructor|]. split; [cbn; by rewrite Hu|by right]. }
  destruct (stop_prepared n w) as (w1 & (ms & Hl & Hf & _ & Hr) & Hp1 & Ht1 & Hc1 & Hlen & A1 & A6 & A4 & Hu1);
    [done|lia|done..|].
  destruct (stop_enabled n w1) as [w2 Hs]; [done|lia|done..|].
  pose proof (stop_safe n w1 w2 Hp1 Hs Hu1 A4) as Hu2.
  destruct (stop_step_keeps _ _ Hs) as [Hc2 Hr2].
  assert (Hx : safe_run (ms ++ [MStop]) w = Some w2).
  { eapply safe_run_app; [exact Hr|]. cbn. rewrite Hu1. unfold world_step. rewrite Ht1, Hs. cbn.
    by rewrite Hu2. }
  assert (Hf' : no_failure (ms ++ [MStop])) by (apply Forall_app_2; [done|by repeat constructor]).
  destruct (phase_stop n w1 w2 Hp1 Ht1 Hs) as (n2 & Hp2 & Hlt). pose proof (ph_bound _ _ Hp2).
  destruct (w_terminated w2) eqn:Ht2.
  - exists (ms ++ [MStop]), w2. rewrite length_app. cbn [length]. split_and!; [nia|done|done|by left].
  - destruct (IH (9 - n2)%nat ltac:(lia) n2 w2) as (ms' & w' & Hl' & Hf2 & Hr' & He);
      [done..|congruence|done|].
    exists ((ms ++ [MStop]) ++ ms'), w'. rewrite !length_app. cbn [length].
    rewrite Hr2, Hlen in Hl'.
    split_and!; [|by apply Forall_app_2|by eapply safe_run_app|done].
    assert ((9 - n2 + 1) * (5 + 5 * length (w_readers w)) ≤
      (9 - n) * (5 + 5 * length (w_readers w)))%nat by (apply Nat.mul_le_mono_r; lia). lia.
Qed.

(** ** Theorems *)


(** An event is captured while [stop] runs. *)
Definition sample_moves : list move :=
  [MCapture CaptureEvent; MStop; MAccept AcceptGo; MStop; MStop; MStop; MStop].
Definition sample_world : World :=
  mkWorld [BackendClear; BackendJoin; BackendReset; StoreReset] false false false true true
    AReturned [] true true false CEvent true false.




(** The deadlock is reached: a client sends its ninth subscription, and the next
    event is broadcast. *)
Lemma ninth_subscription_blocks_stop :
  ∃ w, world_run [MAccept AcceptGo; MAccept AcceptClient; MAccept AcceptGo; MReader 0 ReaderGo;
      MReader 0 ReaderFrame; MReader 0 ReaderNinth; MCapture CaptureEvent; MCapture CaptureGo;
      MCapture CaptureGo] (running_world true) = Some w ∧
    ∀ ms' w', world_run ms' w = Some w' → w_stop w' ≠ [].
Proof.
  eexists. split; [vm_compute; reflexivity|]. intros ms' w'.
  apply (stuck_run _ 0); [|done]. split; cbn; try done; lia.
Qed.

(** The server does not outlive its users: there are interleavings without
    any failure in which the capture thread is inside [broadcast], and in which
    a detached reader is inside its loop, of a server that was destroyed, and
    one in which a reader that answers [get_status] is inside a store that was
    destroyed. *)
Theorem server_used_after_reset :
  (∃ ms w, no_failure ms ∧ world_run ms (running_world true) = Some w ∧
     w_server w = false ∧ w_capture w = CCollect) ∧
  (∃ ms w, no_failure ms ∧ world_run ms (running_world true) = Some w ∧
     w_server w = false ∧ w_readers w = [RLoop]) ∧
  (∃ ms w, no_failure ms ∧ world_run ms (running_world true) = Some w ∧
     w_store w = false ∧ w_readers w = [RStore]).
Proof.
  split; [|split].
  - exists ([MCapture CaptureEvent; MCapture CaptureGo; MStop; MAccept AcceptGo]
      ++ replicate 4 MStop). eexists. split; [by repeat constructor|].
    by split; [vm_compute; reflexivity|].
  - exists ([MAccept AcceptGo; MAccept AcceptClient; MAccept AcceptGo; MReader 0 ReaderGo; MStop;
      MAccept AcceptGo] ++ replicate 4 MStop). eexists. split; [by repeat constructor|].
    by split; [vm_compute; reflexivity|].
  - exists ([MAccept AcceptGo; MAccept AcceptClient; MAccept AcceptGo; MReader 0 ReaderGo;
      MReader 0 ReaderFrame; MReader 0 ReaderStatus; MReader 0 ReaderGo; MReader 0 ReaderGo;
      MStop; MAccept AcceptGo] ++ replicate 5 MStop ++ [MCapture CaptureGo] ++ replicate 3 MStop).
    eexists. split; [by repeat constructor|]. by split; [vm_compute; reflexivity|].
Qed.
