(* ===== verification/NativeHost.v ===== *)
(** * The native messaging host ([native_host/src/])

    Frames from and to the browser (a 4-byte little-endian length and the
    message), the validation of browser messages, and the forwarding to the
    daemon.  Reads may deliver the stream in arbitrary pieces. *)
From S2P Require Import Prelude Double Json Types PacketParser EventNormalizer IpcCodec IpcServer.
Open Scope Z_scope.

(** ** Reading frames ([message_reader.cpp]) *)
Definition kMaxMessageBytes : Z := 1024 * 1024.

(** What successive [read] calls deliver: a chunk (cut to the space that is
    left), or [EINTR] or another error; the end of the list is end of file. *)
Inductive read_result := Chunk (bytes : cstring) | Interrupted | ReadError.

(** The bytes and the reads that remain; a chunk longer than what was asked for
    stays in the descriptor. *)
Fixpoint read_exact (count : nat) (reads : list read_result) :
    option (cstring * list read_result) :=
  match count with
  | O => Some ([], reads)
  | _ =>
      match reads with
      | [] => None
      | ReadError :: _ => None
      | Interrupted :: reads => read_exact count reads
      | Chunk [] :: _ => None
      | Chunk c :: reads =>
          if (count <? length c)%nat then Some (take count c, Chunk (drop count c) :: reads)
          else
            match read_exact (count - length c) reads with
            | None => None
            | Some (rest, reads) => Some (c ++ rest, reads)
            end
      end
  end.

Definition le32 (p : cstring) : Z :=
  let b i := ord (nth i p "000"%char) in
  Z.lor (Z.lor (Z.lor (b 0%nat) (Z.shiftl (b 1%nat) 8)) (Z.shiftl (b 2%nat) 16))
    (Z.shiftl (b 3%nat) 24).

(** The validation loop, on the bytes from position [i] on; [fuel] bounds the
    number of characters. *)
Definition lead_extra (c : Z) : option nat :=
  if Z.land c 0xE0 =? 0xC0 then Some 1%nat
  else if Z.land c 0xF0 =? 0xE0 then Some 2%nat
  else if Z.land c 0xF8 =? 0xF0 then Some 3%nat
  else None.
Definition continuation (c : ascii) : bool := Z.land (ord c) 0xC0 =? 0x80.

Fixpoint utf8_check (fuel : nat) (s : cstring) : bool :=
  match fuel with
  | O => is_empty s
  | S fuel =>
      match s with
      | [] => true
      | c :: rest =>
          if ord c <? 0x80 then utf8_check fuel rest
          else
            match lead_extra (ord c) with
            | None => false
            | Some extra =>
                if (length s <=? extra)%nat then false
                else if forallb continuation (take extra rest)
                then utf8_check fuel (drop extra rest)
                else false
            end
      end
  end.

Definition read_message (reads : list read_result) :
    result cstring (cstring * list read_result) :=
  match read_exact 4 reads with
  | None => Err (lit "eof")
  | Some (prefix, reads) =>
      let length := le32 prefix in
      if length =? 0 then Err (lit "invalid_framing")
      else if kMaxMessageBytes <? length then Err (lit "message_too_large")
      else
        match read_exact (Z.to_nat length) reads with
        | None => Err (lit "eof")
        | Some (out, reads) =>
            if utf8_check (List.length out) out then Ok (out, reads)
            else Err (lit "invalid_json")
        end
  end.

(** ** Writing frames ([message_writer.cpp]) *)
Definition length_prefix (length : Z) : cstring :=
  chr <$> [Z.land length 0xFF; Z.land (Z.shiftr length 8) 0xFF;
           Z.land (Z.shiftr length 16) 0xFF; Z.land (Z.shiftr length 24) 0xFF].

(** The bytes written, or [None] when the payload is refused. *)
Definition write_message (payload : cstring) : option cstring :=
  if is_empty payload || (1024 * 1024 <? zlen payload) then None
  else Some (length_prefix (u32 (zlen payload)) ++ payload).

(** ** The daemon connection ([daemon_client.cpp]) *)

(** [fd_] ([None] is -1) and the receive buffer. *)
Record DaemonClient := mkDaemonClient { dc_fd : option Z; dc_rx : cstring }.
Definition new_DaemonClient : DaemonClient := mkDaemonClient None [].

Definition ENOENT : Z := 2.
Definition EACCES : Z := 13.
Definition kSunPathMax : Z := 108.

(** What [socket], [connect] (an [errno] on failure) and [SO_PEERCRED] answer,
    and the effective uid of the host. *)
Record ConnectEnv := mkConnectEnv {
  ce_socket : option Z;
  ce_connect : result Z ();
  ce_peer_uid : option Z;
  ce_euid : Z;
}.

Definition client_close (c : DaemonClient) : DaemonClient := new_DaemonClient.

Definition client_connect (e : ConnectEnv) (c : DaemonClient) :
    result cstring () * DaemonClient :=
  match dc_fd c with
  | Some _ => (Ok (), c)
  | None =>
      match ce_socket e with
      | None => (Err (lit "socket creation failed"), c)
      | Some fd =>
          let c := mkDaemonClient (Some fd) (dc_rx c) in
          if kSunPathMax <=? zlen kDefaultSocketPath
          then (Err (lit "socket path too long"), client_close c)
          else
            match ce_connect e with
            | Err errno =>
                (Err (if errno =? ENOENT then lit "daemon not running (socket missing)"
                      else if errno =? EACCES
                      then lit "permission denied connecting to daemon"
                      else lit "connect failed"), client_close c)
            | Ok _ =>
                match ce_peer_uid e with
                | Some uid =>
                    if negb (uid =? ce_euid e)
                    then (Err (lit "daemon socket peer uid mismatch"), client_close c)
                    else (Ok (), c)
                | None => (Ok (), c)
                end
            end
      end
  end.

Fixpoint extract_loop (fuel : nat) (buffer : cstring) (start : nat) (frames : list cstring) :
    list cstring * nat :=
  match fuel with
  | O => (frames, start)
  | S fuel =>
      match find_from (is_char newline) start buffer with
      | None => (frames, start)
      | Some nl =>
          extract_loop fuel buffer (nl + 1)
            (frames ++ [substr start (Some (nl - start)%nat) buffer])
      end
  end.

Definition extract_frames (buffer : cstring) : list cstring * cstring :=
  let '(frames, start) := extract_loop (S (length buffer)) buffer 0 [] in
  (frames, drop start buffer).

Section host.
Context `{JL : JsonLib}.

(** [send_request]: the frame it sends, or [None] when it is too large; an
    exception leaves the [noexcept] function as [Err]. *)
Definition request_frame (rq : Request) : result () (option cstring) :=
  let params :=
    if is_empty (rq_params_json rq) then None
    else Some (default JNull (json_parse (rq_params_json rq))) in
  match json_dump (request_json (rq_operation rq) (rq_request_id rq) params) with
  | None => Err ()
  | Some frame =>
      if kMaxRequestBytes <? zlen frame then Ok None else Ok (Some (frame ++ [newline]))
  end.

(** The size of the buffer given to [recv]. *)
Definition kRecvBytes : nat := Z.to_nat 8192.

(** What [poll] and [recv] find on the socket; [RecvData] holds the bytes that
    have arrived, of which one call takes at most [kRecvBytes]. *)
Inductive poll_outcome :=
  | PollInterrupted | PollFailed | PollTimeout | PollHangup
  | RecvAgain | RecvFailed | RecvEof | RecvData (bytes : cstring).

(** The frames delivered and the buffer kept, or the error. *)
Definition client_poll (rx : cstring) (o : poll_outcome) :
    result cstring (list cstring * cstring) :=
  let '(frames, rx) := extract_frames rx in
  if negb (is_empty frames) then Ok (frames, rx)
  else
    match o with
    | PollInterrupted | PollTimeout | RecvAgain => Ok ([], rx)
    | PollFailed => Err (lit "poll failed")
    | PollHangup | RecvEof => Err (lit "daemon closed the connection")
    | RecvFailed => Err (lit "recv failed")
    | RecvData bytes =>
        let rx := rx ++ take kRecvBytes bytes in
        if kMaxEventBytes <? zlen rx then Err (lit "oversized frame from daemon")
        else Ok (extract_frames rx)
    end.

(** ** Messages ([main.cpp]) *)
Definition kAllowedOperations : list cstring :=
  lit <$> ["hello"; "get_status"; "subscribe"; "unsubscribe"; "set_policy"; "get_policy"]%string.
Definition kHostForbidden : list cstring :=
  lit <$> ["payload"; "body"; "cookies"; "authorization"; "password"; "api_key";
           "execute"; "run"; "eval"; "command"; "shell"]%string.

Definition operation_allowed (name : cstring) : bool := mem name kAllowedOperations.

Definition envelope (kind : cstring) (payload : json) : json :=
  jobject [(lit "protocol_version", JUint kProtocolVersion);
           (lit "kind", JString kind); (lit "payload", payload)].

(** The frames written to the browser: none when the writer refuses the
    size, whose result is ignored; [Err] is an uncaught exception. *)
Definition send_envelope (kind : cstring) (payload : json) : result () (list cstring) :=
  match json_dump (envelope kind payload) with
  | None => Err ()
  | Some text => Ok (match write_message text with Some f => [f] | None => [] end)
  end.

Definition error_json (request_id code message : cstring) : json :=
  jobject (when (negb (is_empty request_id)) [(lit "request_id", JString request_id)]
           ++ [(lit "code", JString code); (lit "message", JString (take 256 message))]).
Definition send_error (request_id code message : cstring) : result () (list cstring) :=
  send_envelope "error" (error_json request_id code message).

(** [doc.value("protocol_version", 0)] as an [int]: a number is converted, a
    boolean too, any other type throws. *)
Definition dtrunc (d : double) : Z :=
  match d with
  | S754_finite s m e =>
      let v := if 0 <=? e then Zpos m * 2 ^ e else Zpos m / 2 ^ (- e) in
      if s then - v else v
  | _ => 0
  end.
Definition version_value (doc : json) : result () Z :=
  match member "protocol_version" doc with
  | None => Ok 0
  | Some (JInt z) | Some (JUint z) => Ok (i32 z)
  | Some (JFloat d) => Ok (dtrunc d)
  | Some (JBool b) => Ok (if b then 1 else 0)
  | Some _ => Err ()
  end.

(** What happened with one message: whether the host goes on, the frames
    written to the browser and the frame sent to the daemon. *)
Record handled := mkHandled {
  hd_continue : bool;
  hd_browser : list cstring;
  hd_daemon : option cstring;
}.

Definition answer (continue : bool) (sent : option cstring)
    (r : result () (list cstring)) : result () handled :=
  out ← r; Ok (mkHandled continue out sent).

(** The outcomes of the daemon connection for one message: the result of
    [client_connect], whether the frame could be sent, and what [poll] then
    finds, which may depend on the frame. *)
Record DaemonIo := mkDaemonIo {
  io_connect : result cstring ();
  io_send_ok : bool;
  io_poll : cstring → poll_outcome;
}.

(** One frame from the daemon, rewrapped for the browser. *)
Definition relay_frame (request_id frame : cstring) : result () (list cstring) :=
  match json_parse frame with
  | None => Ok []
  | Some parsed =>
      if negb (contains "ok" parsed) && contains "event_type" parsed
      then send_envelope "event" parsed
      else if negb (is_object parsed) then Err ()
      else
        match member "ok" parsed with
        | Some (JBool _) | None =>
            send_envelope "response" (jobject
              ([(lit "request_id", JString request_id);
                (lit "ok", JBool (match member "ok" parsed with
                                  | Some (JBool b) => b | _ => false end))]
               ++ match member "result" parsed with
                  | Some r => [(lit "result", r)] | None => [] end))
        | Some _ => Err ()
        end
  end.

Fixpoint relay_frames (request_id : cstring) (frames : list cstring) :
    result () (list cstring) :=
  match frames with
  | [] => Ok []
  | f :: frames =>
      a ← relay_frame request_id f; b ← relay_frames request_id frames; Ok (a ++ b)
  end.

Definition forward (io : DaemonIo) (operation request_id : cstring) (payload : json) :
    result () handled :=
  match io_connect io with
  | Err error => answer true None (send_error request_id "daemon_unavailable" error)
  | Ok _ =>
      match operation_from_name operation with
      | None => answer true None (send_error request_id "unknown_operation" operation)
      | Some op =>
          let params :=
            match member "params" payload with
            | Some p => if is_object p && (jsize p <=? 8) then Some p else None
            | None => None
            end in
          match match params with Some p => json_dump p | None => Some [] end with
          | None => Err ()
          | Some params_json =>
              frame ← request_frame (mkRequest kProtocolVersion op request_id params_json);
              match frame with
              | None =>
                  answer true None (send_error request_id "daemon_unavailable"
                                      "failed to send request to daemon")
              | Some f =>
                  if negb (io_send_ok io) then
                    answer true (Some f) (send_error request_id "daemon_unavailable"
                                            "failed to send request to daemon")
                  else
                    match client_poll [] (io_poll io f) with
                    | Err error =>
                        answer true (Some f) (send_error request_id "daemon_error" error)
                    | Ok (frames, _) => answer true (Some f) (relay_frames request_id frames)
                    end
              end
          end
      end
  end.

Definition handle_message (io : DaemonIo) (doc : json) : result () handled :=
  let malformed := answer false None (send_error [] "schema_violation" "malformed envelope") in
  if negb (is_object doc) then malformed
  else
    version ← version_value doc;
    if negb (version =? 1) then malformed
    else
      match string_member "kind" doc, member "payload" doc with
      | Some kind, Some (JObject kvs) =>
          let payload := JObject kvs in
          if kind <>s "request" then
            answer true None (send_error [] "schema_violation"
                                "only 'request' messages are accepted")
          else
            match string_member "operation" payload, string_member "request_id" payload with
            | Some operation, Some request_id =>
                if is_empty request_id || (64 <? zlen request_id) then
                  answer true None (send_error [] "schema_violation"
                                      "request_id must be 1-64 characters")
                else
                  match find_pred (λ kv, mem kv.1 kHostForbidden) kvs with
                  | Some i =>
                      answer true None (send_error request_id "schema_violation"
                        (lit "forbidden field: " ++ from_option fst [] (kvs !! i)))
                  | None =>
                      if negb (operation_allowed operation) then
                        answer true None (send_error request_id "unknown_operation"
                          "operation not available through the native host")
                      else forward io operation request_id payload
                  end
            | _, _ =>
                answer true None (send_error [] "schema_violation"
                                    "request requires operation and request_id")
            end
      | _, _ => malformed
      end.

(** One round of the loop of [main]: [None] when the host exits. *)
Definition host_round (io : DaemonIo) (reads : list read_result) :
    result () (option (handled * list read_result)) :=
  match read_message reads with
  | Err _ => Ok None
  | Ok (message, reads) =>
      match json_parse message with
      | None =>
          out ← send_error [] "invalid_json" "message is not valid JSON";
          Ok (Some (mkHandled false out None, reads))
      | Some doc => h ← handle_message io doc; Ok (Some (h, reads))
      end
  end.
End host.

(** ** Framing: round trip *)
Definition stream (reads : list read_result) : cstring :=
  reads ≫= λ r, match r with Chunk c => c | _ => [] end.

(** Reads that make progress or are interrupted. *)
Definition progressing (reads : list read_result) : Prop :=
  Forall (λ r, match r with Chunk c => c ≠ [] | Interrupted => True | ReadError => False end) reads.

Lemma read_exact_stream count reads :
  progressing reads → (count ≤ length (stream reads))%nat →
  ∃ reads', read_exact count reads = Some (take count (stream reads), reads') ∧
    progressing reads' ∧ stream reads' = drop count (stream reads).
Proof.
  revert count. induction reads as [|r reads IH]; intros count Hp Hc.
  { cbn in Hc. replace count with 0%nat by lia. by exists []. }
  inversion Hp as [|? ? Hr Hrest]; subst.
  destruct count as [|count]; [by exists (r :: reads)|].
  destruct r as [c| |]; [|by apply (IH (S count))|done].
  destruct c as [|x c]; [done|]. cbn [read_exact].
  unfold stream in Hc |- *. cbn [mbind list_bind] in Hc |- *. fold (stream reads) in Hc |- *.
  destruct (Nat.ltb_spec (S count) (length (x :: c))) as [Hlt|Hge].
  - eexists. split; [|split].
    + rewrite take_app_le by lia. reflexivity.
    + constructor; [|done]. intros H%(f_equal length). rewrite length_drop in H. cbn in *. lia.
    + unfold stream. cbn [mbind list_bind]. rewrite drop_app_le by lia. done.
  - rewrite length_app in Hc.
    destruct (IH (S count - length (x :: c))%nat Hrest) as (reads' & -> & Hp' & Hs'); [lia|].
    exists reads'. rewrite take_app_ge, drop_app_ge by lia. done.
Qed.

Lemma lor_le32 a b c d :
  0 ≤ a < 256 → 0 ≤ b < 256 → 0 ≤ c < 256 → 0 ≤ d < 256 →
  Z.lor (Z.lor (Z.lor a (Z.shiftl b 8)) (Z.shiftl c 16)) (Z.shiftl d 24)
  = a + b * 256 + c * 65536 + d * 16777216.
Proof.
  intros. rewrite (lor_shiftl_add a b 8) by lia. change (2 ^ 8) with 256.
  rewrite (lor_shiftl_add _ c 16) by lia. change (2 ^ 16) with 65536.
  rewrite (lor_shiftl_add _ d 24) by lia. done.
Qed.

Lemma le32_prefix n rest : 0 ≤ n < 2 ^ 32 → le32 (length_prefix n ++ rest) = n.
Proof.
  intros Hn. unfold le32, length_prefix. cbn [fmap list_fmap app nth].
  rewrite !ord_chr. change 0xFF with (Z.ones 8). rewrite !Z.land_ones, !Z.shiftr_div_pow2 by lia.
  unfold u8. change (2 ^ 8) with 256. change (2 ^ 16) with 65536.
  change (2 ^ 24) with 16777216. change (2 ^ 32) with 4294967296 in Hn.
  rewrite lor_le32 by (apply Z.mod_pos_bound; lia). rewrite !Z.mod_mod by lia.
  Z.to_euclidean_division_equations. lia.
Qed.

Lemma lead_bytes c :
  ((194 <=? ord c) && (ord c <? 224) = true → lead_extra (ord c) = Some 1%nat) ∧
  ((224 <=? ord c) && (ord c <? 240) = true → lead_extra (ord c) = Some 2%nat) ∧
  ((240 <=? ord c) && (ord c <? 245) = true → lead_extra (ord c) = Some 3%nat) ∧
  continuation c = cont_byte c.
Proof. all_bytes c; vm_compute; intuition congruence. Qed.

Lemma utf8_valid_checked fuel s :
  (length s ≤ fuel)%nat → utf8_valid s = true → utf8_check fuel s = true.
Proof.
  revert s. induction fuel as [|fuel IH]; intros s Hf Hv.
  { by destruct s; [|cbn in Hf; lia]. }
  destruct s as [|c1 s1]; [done|]. cbn [utf8_check utf8_valid length] in *.
  destruct (ord c1 <? 128) eqn:H1; [apply IH; [lia|done]|].
  destruct s1 as [|c2 s2]; [done|].
  destruct ((194 <=? ord c1) && (ord c1 <? 224)) eqn:H2.
  { rewrite (proj1 (lead_bytes c1) H2). apply andb_prop in Hv as [Hc Hv].
    cbn [length Nat.leb take forallb drop].
    rewrite (proj2 (proj2 (proj2 (lead_bytes c2)))), Hc, take_0, drop_0. cbn [forallb andb].
    cbn in Hf. apply IH; [lia|done]. }
  destruct s2 as [|c3 s3]; [done|].
  destruct ((224 <=? ord c1) && (ord c1 <? 240)) eqn:H3.
  { rewrite (proj1 (proj2 (lead_bytes c1)) H3). rewrite !andb_true_iff in Hv.
    destruct Hv as [[[Hc2 _] Hc3] Hv].
    cbn [length Nat.leb take forallb drop].
    rewrite !(proj2 (proj2 (proj2 (lead_bytes _)))), Hc2, Hc3, take_0, drop_0.
    cbn [forallb andb].
    cbn in Hf. apply IH; [lia|done]. }
  destruct s3 as [|c4 s4]; [done|]. rewrite !andb_true_iff in Hv.
  destruct Hv as [[[[[[H4 H5] Hc2] _] Hc3] Hc4] Hv].
  rewrite (proj1 (proj2 (proj2 (lead_bytes c1)))) by by rewrite H4, H5.
  cbn [length Nat.leb take forallb drop].
  rewrite !(proj2 (proj2 (proj2 (lead_bytes _)))), Hc2, Hc3, Hc4, take_0, drop_0.
  cbn [forallb andb].
  cbn in Hf. apply IH; [lia|done].
Qed.

Lemma frame_read_back payload frame reads rest :
  write_message payload = Some frame → utf8_valid payload = true →
  progressing reads → stream reads = frame ++ rest →
  ∃ reads', read_message reads = Ok (payload, reads') ∧
    progressing reads' ∧ stream reads' = rest.
Proof.
  unfold write_message. intros Hw Hu Hp Hs.
  destruct (is_empty payload) eqn:He; [done|]. cbn [orb] in Hw.
  destruct (Z.ltb_spec (1024 * 1024) (zlen payload)) as [|Hmax]; [done|].
  apply (inj Some) in Hw as <-. assert (Hn : 0 < zlen payload).
  { apply is_empty_false in He. unfold zlen. destruct payload; [done|]. cbn. lia. }
  unfold u32 in Hs. rewrite Z.mod_small in Hs by lia.
  rewrite <-List.app_assoc in Hs.
  destruct (read_exact_stream 4 reads Hp) as (r1 & E1 & Hp1 & Hs1).
  { rewrite Hs, length_app. cbn. lia. }
  unfold read_message. rewrite E1, Hs.
  rewrite Hs in Hs1. change 4%nat with (length (length_prefix (zlen payload))) in Hs1 |- *.
  rewrite drop_app_length in Hs1. rewrite take_app_length.
  rewrite <-(app_nil_r (length_prefix _)), le32_prefix by lia.
  rewrite (proj2 (Z.eqb_neq _ _)) by lia.
  unfold kMaxMessageBytes. rewrite (proj2 (Z.ltb_ge _ _)) by lia.
  destruct (read_exact_stream (Z.to_nat (zlen payload)) r1 Hp1) as (r2 & E2 & Hp2 & Hs2).
  { rewrite Hs1, length_app. unfold zlen. lia. }
  rewrite E2, Hs1. rewrite Hs1 in Hs2.
  replace (Z.to_nat (zlen payload)) with (length payload) in Hs2 |- * by (unfold zlen; lia).
  rewrite take_app_length. rewrite drop_app_length in Hs2.
  rewrite utf8_valid_checked by done. by exists r2.
Qed.

(** C33: Every UTF-8 message the writer accepts is read back unchanged, however
    the pipe splits or interrupts the reads, and the rest of the stream is left
    for the next frame. *)
Theorem native_frame_roundtrip payload frame reads rest :
  write_message payload = Some frame → utf8_valid payload = true →
  progressing reads → stream reads = frame ++ rest →
  ∃ reads', read_message reads = Ok (payload, reads') ∧
    progressing reads' ∧ stream reads' = rest.
Proof. apply frame_read_back. Qed.

Lemma native_frame_roundtrip_witness :
  ∃ reads', read_message [Chunk (length_prefix 2 ++ ["{"%char]); Interrupted;
      Chunk (lit "}x")] = Ok (lit "{}", reads') ∧
    progressing reads' ∧ stream reads' = lit "x".
Proof.
  apply (native_frame_roundtrip (lit "{}") (length_prefix 2 ++ lit "{}")
    [Chunk (length_prefix 2 ++ ["{"%char]); Interrupted; Chunk (lit "}x")] (lit "x")).
  - reflexivity.
  - reflexivity.
  - repeat constructor; discriminate.
  - reflexivity.
Defined.

(** The check lets overlong forms and surrogates through. *)
Example utf8_check_overlong :
  utf8_check 2 ["192"; "128"]%char = true ∧ utf8_valid ["192"; "128"]%char = false ∧
  utf8_check 3 ["237"; "160"; "128"]%char = true ∧ utf8_valid ["237"; "160"; "128"]%char = false.
Proof. repeat split. Qed.

(** ** Frames from the daemon *)
Lemma line_fits (ls : list cstring) r l :
  l ∈ ls → zlen l ≤ zlen (concat ((λ l, l ++ [newline]) <$> ls) ++ r).
Proof.
  unfold zlen. rewrite length_app. induction 1 as [l ls|l l' ls _ IH]; csimpl;
    rewrite !length_app in *; lia.
Qed.

Lemma extract_loop_split fuel buffer start frames :
  (length buffer < fuel + start)%nat → (start ≤ length buffer)%nat →
  extract_loop fuel buffer start frames =
    ((split_loop fuel buffer (zlen buffer) start frames).1.2,
     (split_loop fuel buffer (zlen buffer) start frames).2).
Proof.
  revert start frames. induction fuel as [|fuel IH]; intros start frames Hf Hs; [lia|].
  cbn [extract_loop split_loop]. unfold find_from.
  destruct (find_pred (is_char newline) (drop start buffer)) as [i|] eqn:Hi; [|done].
  apply find_pred_lt in Hi. rewrite length_drop in Hi. cbn [fmap option_fmap option_map].
  rewrite (proj2 (Z.ltb_ge _ _)) by (unfold zlen; lia). apply IH; lia.
Qed.

(** The host cuts the daemon's stream exactly into its lines: it is the
    daemon's own [split_frames] without the limit. *)
Lemma extract_frames_lines buffer : extract_frames buffer = lines buffer.
Proof.
  unfold extract_frames. rewrite extract_loop_split by lia.
  pose proof (split_loop_spec (S (length buffer)) buffer (zlen buffer) 0 []) as Hs.
  rewrite drop_0 in Hs. specialize (Hs ltac:(lia) ltac:(lia)).
  pose proof (lines_rest_suffix buffer) as [Hd _]. pose proof (lines_concat buffer) as Hc.
  destruct (lines buffer) as [ls r]. cbn [fst snd] in *. rewrite Hs.
  rewrite (proj2 (forallb_forall _ ls)); [cbn [fst snd app]; by rewrite Hd|].
  intros l Hl%list_elem_of_In. apply Z.leb_le. rewrite Hc. by apply line_fits.
Qed.

(** ** What reaches the daemon *)
Section forwarding.
Context {JL : JsonLib} {HL : JsonLaws JL}.

(** [f] is one line, which the daemon's codec takes for the request [op] with
    the id [id].  The daemon's reader delivers it as one frame, into whatever
    pieces the reads cut it; except that a line of exactly the limit is refused
    when its last byte arrives without the newline, as it does with full reads
    of 4096 bytes. *)
Definition daemon_accepts (f : cstring) (op : Operation) (id : cstring) : Prop :=
  ∃ frame p, f = frame ++ [newline] ∧ (newline ∉ frame) ∧
    parse_request frame kMaxRequestBytes = Ok (mkRequest kProtocolVersion op id p) ∧
    zlen frame ≤ kMaxRequestBytes ∧
    (zlen frame < kMaxRequestBytes →
     ∀ reads, concat reads = f → feed kMaxRequestBytes [] [] reads = Ok ([frame], [])) ∧
    (zlen frame = kMaxRequestBytes →
     ∀ reads rest, concat reads = frame →
       feed kMaxRequestBytes [] [] (reads ++ rest) = Err too_large).

Lemma answer_daemon c sent r h : answer c sent r = Ok h → hd_daemon h = sent.
Proof. unfold answer. destruct r; [|done]. by intros [= <-]. Qed.

Lemma dumped_params params text :
  params_ok params → from_option json_dump (Some []) params = Some text →
  (if is_empty text then None else Some (default JNull (json_parse text)))
  = json_canon <$> params.
Proof.
  intros Hok. destruct params as [p|]; [|by intros [= <-]]. cbn [from_option fmap option_fmap].
  intros Hd. destruct (Hok p eq_refl) as (_ & Hwf & _).
  assert (is_empty text = false) as ->
    by (destruct text; [by apply dump_nonempty in Hd|done]).
  by rewrite (parse_dump p text Hwf Hd).
Qed.

Lemma params_ok_canon params : params_ok params → params_ok (json_canon <$> params).
Proof.
  intros Hok q. destruct params as [p|]; [|done]. intros [= <-].
  destruct (Hok p eq_refl) as (Ho & Hw & Hs).
  rewrite is_object_canon, jsize_canon_object by done. eauto using json_canon_wf.
Qed.

Lemma request_frame_accepted op id params text f :
  params_ok params → from_option json_dump (Some []) params = Some text →
  1 ≤ zlen id ≤ 64 →
  request_frame (mkRequest kProtocolVersion op id text) = Ok (Some f) →
  daemon_accepts f op id.
Proof.
  intros Hok Ht Hid. unfold request_frame. cbn [rq_params_json rq_operation rq_request_id].
  rewrite (dumped_params params text Hok Ht).
  destruct (json_dump _) as [frame|] eqn:Hd; [|done].
  destruct (Z.ltb_spec kMaxRequestBytes (zlen frame)) as [|Hle]; [done|]. intros [= <-].
  destruct (parse_request_accepts op id (json_canon <$> params) frame kMaxRequestBytes)
    as (p & _ & Hp); [by apply params_ok_canon|done..|].
  assert (Hn : newline ∉ frame) by by eapply dump_one_line.
  exists frame, p. split_and!; [done..| |].
  - intros Hlt reads Hr. apply (feed_complete _ [] []); [done| |by repeat constructor|done].
    cbn [app]. rewrite Hr. by apply lines_terminated.
  - intros Heq reads rest Hr. by apply (feed_limit_refused _ frame).
Qed.

Lemma forward_daemon io operation id payload h f :
  json_wf payload = true → 1 ≤ zlen id ≤ 64 →
  forward io operation id payload = Ok h → hd_daemon h = Some f →
  ∃ op, operation_from_name operation = Some op ∧ daemon_accepts f op id.
Proof.
  intros Hwf Hid. unfold forward.
  destruct (io_connect io); [|by intros ->%answer_daemon].
  destruct (operation_from_name operation) as [op|]; [|by intros ->%answer_daemon].
  set (params := match member "params" payload with Some _ => _ | None => None end).
  assert (Hok : params_ok params).
  { intros p. unfold params. destruct (member "params" payload) as [q|] eqn:Hq; [|done].
    destruct (is_object q) eqn:Ho, (Z.leb_spec (jsize q) 8); cbn [andb]; try done.
    intros [= <-]. eauto using member_wf. }
  change (match params with Some p => json_dump p | None => Some [] end)
    with (from_option json_dump (Some []) params).
  destruct (from_option json_dump (Some []) params) as [text|] eqn:Ht; [|done].
  destruct (request_frame _) as [[g|]|] eqn:Hr; cbn [mbind result_bind];
    [|by intros ->%answer_daemon|done].
  intros Hh Hf. exists op. split; [done|].
  eapply (request_frame_accepted op id params text); [done..|]. rewrite Hr. do 2 f_equal.
  destruct (io_send_ok io); cbn [negb] in Hh; [|apply answer_daemon in Hh; congruence].
  destruct (client_poll [] (io_poll io g)) as [[frames ?]|];
    apply answer_daemon in Hh; congruence.
Qed.

Lemma allowed_operation name op :
  operation_allowed name = true → operation_from_name name = Some op →
  op ≠ Shutdown ∧ operation_name op = name.
Proof.
  intros H ->%operation_from_name_spec. split; [|done]. by intros ->.
Qed.

Lemma handle_message_daemon io doc h f :
  json_wf doc = true → handle_message io doc = Ok h → hd_daemon h = Some f →
  ∃ payload id op, member "payload" doc = Some payload ∧
    string_member "request_id" payload = Some id ∧
    string_member "operation" payload = Some (operation_name op) ∧
    op ≠ Shutdown ∧ daemon_accepts f op id.
Proof.
  intros Hwf. unfold handle_message.
  destruct (is_object doc); cbn [negb]; [|by intros ->%answer_daemon].
  destruct (version_value doc) as [v|]; cbn [mbind result_bind]; [|done].
  destruct (v =? 1); cbn [negb]; [|by intros ->%answer_daemon].
  destruct (string_member "kind" doc) as [kind|]; [|by intros ->%answer_daemon].
  destruct (member "payload" doc) as [pl|] eqn:Hpl; [|by intros ->%answer_daemon].
  destruct pl as [| | | | | | |kvs]; try by intros ->%answer_daemon.
  destruct (kind <>s "request"); [by intros ->%answer_daemon|].
  destruct (string_member "operation" _) as [operation|] eqn:Hop; [|by intros ->%answer_daemon].
  destruct (string_member "request_id" _) as [id|] eqn:Hid; [|by intros ->%answer_daemon].
  destruct (is_empty id || (64 <? zlen id)) eqn:Hlen; [by intros ->%answer_daemon|].
  apply orb_false_iff in Hlen as [Hne Hmax].
  destruct (find_pred _ kvs); [by intros ->%answer_daemon|].
  destruct (operation_allowed operation) eqn:Ha; cbn [negb]; [|by intros ->%answer_daemon].
  assert (1 ≤ zlen id ≤ 64).
  { apply Z.ltb_ge in Hmax. split; [|done]. unfold zlen. destruct id; [done|cbn; lia]. }
  intros Hh Hf. destruct (forward_daemon io operation id (JObject kvs) h f) as (op & Ho & Hacc);
    [by eapply member_wf|done..|].
  destruct (allowed_operation operation op Ha Ho) as [? <-]. eauto 10.
Qed.
End forwarding.

(** C8: Whatever the browser writes, a frame the host sends to the daemon is
    one line within the request limit that the daemon's codec accepts as a
    request for the operation and the request id of the browser's message, never
    [shutdown]; below 65536 bytes the daemon's reader reassembles it from any
    pieces, and at exactly 65536 bytes it refuses it whenever the newline does
    not arrive together with the byte before it. *)
Theorem host_forwards_valid_requests (L : JsonLib) (HL : JsonLaws L) io reads h reads' f :
  host_round io reads = Ok (Some (h, reads')) → hd_daemon h = Some f →
  ∃ message rest doc payload id op,
    read_message reads = Ok (message, rest) ∧ json_parse message = Some doc ∧
    member "payload" doc = Some payload ∧
    string_member "request_id" payload = Some id ∧
    string_member "operation" payload = Some (operation_name op) ∧
    op ≠ Shutdown ∧ daemon_accepts f op id.
Proof.
  unfold host_round. destruct (read_message reads) as [[message rest]|]; [|done].
  destruct (json_parse message) as [doc|] eqn:Hp.
  - destruct (handle_message io doc) as [h'|] eqn:Hh; [|done]. intros [= -> ->] Hf.
    destruct (handle_message_daemon io doc h f) as (payload & id & op & H); [|done..|].
    { by eapply parse_wf. }
    exists message, reads', doc, payload, id, op. naive_solver.
  - destruct (send_error _ _ _); [|done]. by intros [= <- _].
Qed.

Definition sample_message : json :=
  jobject [(lit "protocol_version", JUint 1); (lit "kind", JString "request");
    (lit "payload", jobject [(lit "operation", JString "get_status");
                             (lit "request_id", JString "r-1")])].
Definition sample_reads : list read_result :=
  from_option (λ text, [Chunk (default [] (write_message text))]) []
    (json_dump (JsonLib := TreeJson.lib) sample_message).
Definition quiet_daemon : DaemonIo := mkDaemonIo (Ok ()) true (λ _, PollTimeout).

Definition sample_round : option cstring :=
  match host_round (JL := TreeJson.lib) quiet_daemon sample_reads with
  | Ok (Some (h, _)) => hd_daemon h
  | _ => None
  end.

Lemma host_forwards_valid_requests_witness :
  ∃ f op, sample_round = Some f ∧ op ≠ Shutdown ∧
    daemon_accepts (JL := TreeJson.lib) f op "r-1".
Proof.
  assert (Hs : is_Some sample_round) by (vm_compute; eauto).
  destruct Hs as [f Hf]. pose proof Hf as Hd. unfold sample_round in Hd.
  destruct (host_round _ _) as [[[h reads']|]|] eqn:Hh in Hd; [|discriminate..].
  destruct (host_forwards_valid_requests TreeJson.lib TreeJson.laws _ _ h reads' f Hh Hd)
    as (message & rest & doc & payload & id & op & Hm & Hp & Hpl & Hid & _ & Hns & Hacc).
  exists f, op. split; [exact Hf|]. split; [exact Hns|].
  enough (id = lit "r-1") as -> by exact Hacc.
  assert (Hdoc : match read_message sample_reads with
    | Ok (m, _) => json_parse (JsonLib := TreeJson.lib) m | _ => None end = Some sample_message)
    by (vm_compute; reflexivity).
  rewrite Hm, Hp in Hdoc. apply (inj Some) in Hdoc. subst doc.
  vm_compute in Hpl. apply (inj Some) in Hpl. subst payload.
  vm_compute in Hid. by apply (inj Some) in Hid.
Defined.

(** A response that has not arrived in full when the single [poll] returns is
    dropped: nothing is relayed. *)
Example partial_response_dropped :
  client_poll [] (RecvData (lit "{")) = Ok ([], lit "{").
Proof. reflexivity. Qed.

(** The two ends of the socket agree on whom they trust: a host with effective
    uid [h] keeps its connection to a daemon with effective uid [d] exactly when
    that daemon admits it, and a failed connection leaves no descriptor. *)
Lemma mutual_authentication fd h d :
  let r := client_connect (mkConnectEnv (Some fd) (Ok ()) (Some d) h) new_DaemonClient in
  is_ok r.1 = peer_authorized (Some h) d ∧
  dc_fd r.2 = if peer_authorized (Some h) d then Some fd else None.
Proof.
  cbn. rewrite Z.eqb_sym. by destruct (h =? d).
Qed.

Lemma client_connect_failed e c m c' :
  client_connect e c = (Err m, c') → dc_fd c' = None.
Proof.
  unfold client_connect. destruct (dc_fd c) eqn:Hc; [done|].
  destruct (ce_socket e); [|by intros [= _ <-]].
  destruct (kSunPathMax <=? _); [by intros [= _ <-]|].
  destruct (ce_connect e); [|by intros [= _ <-]].
  destruct (ce_peer_uid e); [|done]. destruct (negb _); [by intros [= _ <-]|done].
Qed.
