(* ===== verification/Delivery.v ===== *)
(** * Concurrent delivery ([UnixSocketServer::deliver] and [send_all])

    The capture threads (through [broadcast]) and the reader thread of a client
    (through [handle_frame]) call [deliver] for the same client.  [IpcServer]
    runs each call to completion; here the calls interleave at the points the
    code allows: the push under [out_mutex], the swap under [out_mutex], and
    every single [send], which happens without the lock.  [dl_log] and
    [dl_lost] are histories: the messages whose last byte was written, and
    those that were cleared or given up. *)
From S2P Require Import Prelude Double Json Types IpcCodec IpcServer NativeHost.
Open Scope Z_scope.

(** A thread inside [deliver]: before the first lock; between the two locks;
    in the sending loop, with the size of [to_send], the offset in the first
    message that is left ([send_all]'s [sent]) and the messages that are left;
    or returned. *)
Inductive pc :=
  | Start (msg : cstring)
  | Queued
  | Sending (total : Z) (offset : nat) (msgs : list cstring)
  | Returned.

#[global] Instance pc_eq_dec : EqDecision pc.
Proof. solve_decision. Defined.

Record Delivery := mkDelivery {
  dl_queue : list cstring;
  dl_wire : cstring;
  dl_dropped : Z;
  dl_threads : list pc;
  dl_log : list cstring;
  dl_lost : list cstring;
}.

Definition new_Delivery (encoded : list cstring) : Delivery :=
  mkDelivery [] [] 0 (Start <$> encoded) [] [].

(** What a thread does next; [Send n] is a [send] call that takes [n] bytes,
    [SendFails] one that fails with an error other than [EINTR]. *)
Inductive action := Push | Swap | Send (n : nat) | SendFails | Return.

Definition to_thread (i : nat) (p : pc) (st : Delivery) : Delivery :=
  mkDelivery (dl_queue st) (dl_wire st) (dl_dropped st) (<[i := p]> (dl_threads st))
    (dl_log st) (dl_lost st).

Definition thread_step (i : nat) (a : action) (st : Delivery) : option Delivery :=
  match dl_threads st !! i, a with
  | Some (Start msg), Push =>
      Some (to_thread i (if kMaxOutgoingQueue <=? zlen (dl_queue st) then Returned else Queued)
        (if kMaxOutgoingQueue <=? zlen (dl_queue st) then
           mkDelivery [] (dl_wire st) (u64 (dl_dropped st + 1)) (dl_threads st) (dl_log st)
             (dl_lost st ++ dl_queue st ++ [msg ++ [newline]])
         else
           mkDelivery (dl_queue st ++ [msg ++ [newline]]) (dl_wire st) (dl_dropped st)
             (dl_threads st) (dl_log st) (dl_lost st)))
  | Some Queued, Swap =>
      Some (to_thread i (Sending (zlen (dl_queue st)) 0 (dl_queue st))
        (mkDelivery [] (dl_wire st) (dl_dropped st) (dl_threads st) (dl_log st) (dl_lost st)))
  | Some (Sending total offset (m :: ms)), Send n =>
      if (0 <? n)%nat && (offset + n <=? length m)%nat then
        let wire := dl_wire st ++ take n (drop offset m) in
        let whole := (offset + n =? length m)%nat in
        Some (to_thread i (if whole then Sending total 0 ms
                           else Sending total (offset + n) (m :: ms))
          (mkDelivery (dl_queue st) wire (dl_dropped st) (dl_threads st)
             (if whole then dl_log st ++ [m] else dl_log st) (dl_lost st)))
      else None
  | Some (Sending total _ (m :: ms)), SendFails =>
      Some (to_thread i Returned
        (mkDelivery (dl_queue st) (dl_wire st) (u64 (dl_dropped st + total)) (dl_threads st)
           (dl_log st) (dl_lost st ++ m :: ms)))
  | Some (Sending _ _ []), Return => Some (to_thread i Returned st)
  | _, _ => None
  end.

(** A schedule: which thread takes which step. *)
Fixpoint run_schedule (schedule : list (nat * action)) (st : Delivery) : option Delivery :=
  match schedule with
  | [] => Some st
  | (i, a) :: schedule =>
      match thread_step i a st with
      | Some st => run_schedule schedule st
      | None => None
      end
  end.

(** ** Every message is delivered once *)

(** The messages a thread has not written in full. *)
Definition pending (p : pc) : list cstring :=
  match p with
  | Start msg => [msg ++ [newline]]
  | Sending _ _ ms => ms
  | Queued | Returned => []
  end.

Definition accounted (st : Delivery) : list cstring :=
  (dl_threads st ≫= pending) ++ dl_queue st ++ dl_log st ++ dl_lost st.

Lemma pending_update (ts : list pc) i p p' :
  ts !! i = Some p → ∃ rest, (ts ≫= pending) ≡ₚ pending p ++ rest ∧
    (<[i := p']> ts ≫= pending) ≡ₚ pending p' ++ rest.
Proof.
  intros Hi. exists ((take i ts ≫= pending) ++ (drop (S i) ts ≫= pending)). split.
  - rewrite <-(take_drop_middle ts i p Hi) at 1. rewrite bind_app. cbn [mbind list_bind].
    apply Permutation_app_swap_app.
  - rewrite insert_take_drop by by eapply lookup_lt_Some.
    rewrite bind_app. cbn [mbind list_bind]. apply Permutation_app_swap_app.
Qed.

Ltac perm_by_count :=
  apply (Permutation_count_occ (λ x y : cstring, decide (x = y))); intros ?;
  rewrite ?count_occ_app, ?count_occ_nil; lia.

Lemma thread_step_accounted i a st st' :
  thread_step i a st = Some st' → accounted st' ≡ₚ accounted st.
Proof.
  unfold thread_step, accounted. destruct (dl_threads st !! i) as [p|] eqn:Hi; [|done].
  intros H.
  assert (Hup : ∀ p', ∃ rest, (dl_threads st ≫= pending) ≡ₚ pending p ++ rest ∧
    (<[i := p']> (dl_threads st) ≫= pending) ≡ₚ pending p' ++ rest)
    by (intros; by apply pending_update).
  destruct p as [msg| |total off [|m ms]|], a as [| |n| |]; try discriminate H.
  - destruct (_ <=? _); apply (inj Some) in H as <-; cbn [to_thread dl_threads dl_queue dl_log dl_lost].
    + destruct (Hup Returned) as (rest & -> & ->). cbn [pending]. perm_by_count.
    + destruct (Hup Queued) as (rest & -> & ->). cbn [pending]. perm_by_count.
  - apply (inj Some) in H as <-. cbn [to_thread dl_threads dl_queue dl_log dl_lost].
    destruct (Hup (Sending (zlen (dl_queue st)) 0 (dl_queue st))) as (rest & -> & ->).
    cbn [pending]. perm_by_count.
  - apply (inj Some) in H as <-. cbn [to_thread dl_threads dl_queue dl_log dl_lost].
    destruct (Hup Returned) as (rest & -> & ->). done.
  - destruct (_ && _); [|done]. cbv zeta in H. destruct (_ =? _)%nat;
      apply (inj Some) in H as <-; cbn [to_thread dl_threads dl_queue dl_log dl_lost].
    + destruct (Hup (Sending total 0 ms)) as (rest & -> & ->). cbn [pending].
      change (m :: ms) with ([m] ++ ms). perm_by_count.
    + destruct (Hup (Sending total (off + n) (m :: ms))) as (rest & -> & ->). done.
  - apply (inj Some) in H as <-. cbn [to_thread dl_threads dl_queue dl_log dl_lost].
    destruct (Hup Returned) as (rest & -> & ->). cbn [pending].
    perm_by_count.
Qed.

(** ** The queue is bounded, for any number of threads *)
Lemma outgoing_queue_bounded schedule msgs st :
  run_schedule schedule (new_Delivery msgs) = Some st → zlen (dl_queue st) ≤ kMaxOutgoingQueue.
Proof.
  assert (H0 : zlen (dl_queue (new_Delivery msgs)) ≤ kMaxOutgoingQueue) by done.
  revert H0. generalize (new_Delivery msgs). induction schedule as [|[i a] sch IH]; intros st0 H0;
    cbn [run_schedule]; [by intros [= <-]|].
  destruct (thread_step i a st0) as [st1|] eqn:H; [|done]. apply IH. clear IH.
  unfold thread_step in H. destruct (dl_threads st0 !! i) as [p|]; [|done].
  destruct p as [msg| |total off [|m ms]|], a as [| |n| |]; try discriminate H.
  - destruct (Z.leb_spec kMaxOutgoingQueue (zlen (dl_queue st0))); apply (inj Some) in H as <-;
      cbn; [done|]. rewrite zlen_app. change (zlen [msg ++ [newline]]) with 1. lia.
  - by apply (inj Some) in H as <-.
  - by apply (inj Some) in H as <-.
  - destruct (_ && _); [|done]. by apply (inj Some) in H as <-.
  - by apply (inj Some) in H as <-.
Qed.

(** ** With fewer threads than the bound it is never met *)
Definition is_queued (p : pc) : bool := match p with Queued => true | _ => false end.

(** Every queued message belongs to a thread between the two locks; a thread in
    the sending loop is inside its first message, and no message is empty. *)
Definition thread_ok (p : pc) : Prop :=
  match p with
  | Sending _ offset (m :: ms) => (offset < length m)%nat ∧ Forall (λ m, m ≠ []) ms
  | _ => True
  end.

Record delivery_inv (st : Delivery) : Prop := mkDeliveryInv {
  di_queue : (length (dl_queue st) ≤ length (filter (λ p, is_queued p = true) (dl_threads st)))%nat;
  di_messages : Forall (λ m, m ≠ []) (dl_queue st);
  di_threads : Forall thread_ok (dl_threads st);
}.

Lemma queued_update (ts : list pc) i p p' :
  ts !! i = Some p →
  (length (filter (λ p, is_queued p = true) (<[i := p']> ts)) + (if is_queued p then 1 else 0) =
   length (filter (λ p, is_queued p = true) ts) + (if is_queued p' then 1 else 0))%nat.
Proof.
  intros Hi. rewrite insert_take_drop by by eapply lookup_lt_Some.
  rewrite <-(take_drop_middle ts i p Hi) at 3. rewrite !filter_app, !length_app, !filter_cons.
  destruct (is_queued p), (is_queued p'); repeat case_decide; try done; cbn; lia.
Qed.

Lemma sending_ok total ms : Forall (λ m, m ≠ []) ms → thread_ok (Sending total 0 ms).
Proof. intros [|m ms' Hm Hms]; [done|]. destruct m; [done|]. cbn. split; [lia|done]. Qed.

Lemma thread_step_inv i a st st' :
  thread_step i a st = Some st' → delivery_inv st → delivery_inv st'.
Proof.
  unfold thread_step. intros H [Hq Hm Ht]. destruct (dl_threads st !! i) as [p|] eqn:Hi; [|done].
  pose proof (λ p', queued_update (dl_threads st) i p p' Hi) as Hup.
  assert (Hok : ∀ p', thread_ok p' → Forall thread_ok (<[i := p']> (dl_threads st)))
    by (intros; by apply Forall_insert).
  pose proof (Forall_lookup_1 _ _ _ _ Ht Hi) as Hp.
  destruct p as [msg| |total off [|m ms]|], a as [| |n| |]; try discriminate H.
  - destruct (_ <=? _); apply (inj Some) in H as <-; split;
      cbn [to_thread dl_threads dl_queue]; try by apply Hok.
    + cbn. lia.
    + constructor.
    + specialize (Hup Queued). cbn in Hup. rewrite length_app. cbn. lia.
    + apply Forall_app_2; [done|]. constructor; [by destruct msg|constructor].
  - apply (inj Some) in H as <-. split; cbn [to_thread dl_threads dl_queue];
      [cbn; lia|constructor|by apply Hok, sending_ok].
  - apply (inj Some) in H as <-. specialize (Hup Returned). cbn in Hup.
    split; cbn [to_thread dl_threads dl_queue]; [lia|done|by apply Hok].
  - destruct (_ && _) eqn:Hn; [|done]. cbv zeta in H. destruct (Nat.eqb_spec (off + n) (length m));
      apply (inj Some) in H as <-.
    + specialize (Hup (Sending total 0 ms)). cbn in Hup.
      split; cbn [to_thread dl_threads dl_queue]; [lia|done|by apply Hok, sending_ok, Hp].
    + specialize (Hup (Sending total (off + n) (m :: ms))). cbn in Hup.
      split; cbn [to_thread dl_threads dl_queue]; [lia|done|apply Hok].
      apply andb_prop in Hn as [_ Hn%Nat.leb_le]. split; [lia|apply Hp].
  - apply (inj Some) in H as <-. specialize (Hup Returned). cbn in Hup.
    split; cbn [to_thread dl_threads dl_queue]; [lia|done|by apply Hok].
Qed.

Lemma new_delivery_inv msgs : delivery_inv (new_Delivery msgs).
Proof. split; [cbn; lia|constructor|]. apply Forall_fmap, Forall_true. done. Qed.

(** With at most 1024 callers the clearing branch is dead: only a failing
    socket loses messages. *)
Definition no_failure (schedule : list (nat * action)) : Prop :=
  Forall (λ ia, ia.2 ≠ SendFails) schedule.

Lemma queue_room i msg st :
  delivery_inv st → zlen (dl_threads st) ≤ kMaxOutgoingQueue →
  dl_threads st !! i = Some (Start msg) → zlen (dl_queue st) < kMaxOutgoingQueue.
Proof.
  intros [Hq _ _] Hlen Hi.
  pose proof (queued_update (dl_threads st) i (Start msg) Queued Hi) as Hup. cbn in Hup.
  assert (length (filter (λ p, is_queued p = true) (<[i := Queued]> (dl_threads st)))
    ≤ length (dl_threads st))%nat.
  { etransitivity; [apply length_filter|]. by rewrite length_insert. }
  unfold zlen in *. lia.
Qed.

Lemma thread_step_lossless i a st st' :
  thread_step i a st = Some st' → a ≠ SendFails → delivery_inv st →
  zlen (dl_threads st) ≤ kMaxOutgoingQueue →
  dl_lost st' = dl_lost st ∧ dl_dropped st' = dl_dropped st.
Proof.
  unfold thread_step. intros H Ha Hinv Hlen.
  destruct (dl_threads st !! i) as [p|] eqn:Hi; [|done].
  destruct p as [msg| |total off [|m ms]|], a as [| |n| |]; try discriminate H; try done.
  - pose proof (queue_room i msg st Hinv Hlen Hi) as Hr.
    rewrite (proj2 (Z.leb_gt kMaxOutgoingQueue (zlen (dl_queue st)))) in H by done.
    by apply (inj Some) in H as <-.
  - by apply (inj Some) in H as <-.
  - by apply (inj Some) in H as <-.
  - destruct (_ && _); [|done]. by apply (inj Some) in H as <-.
Qed.

Lemma thread_step_threads i a st st' :
  thread_step i a st = Some st' → length (dl_threads st') = length (dl_threads st).
Proof.
  unfold thread_step. intros H. destruct (dl_threads st !! i) as [p|]; [|done].
  destruct p as [msg| |total off [|m ms]|], a as [| |n| |]; try discriminate H;
    try (apply (inj Some) in H as <-; cbn [to_thread dl_threads]; apply length_insert).
  - apply (inj Some) in H as <-. destruct (_ <=? _); apply length_insert.
  - destruct (_ && _); [|done]. apply (inj Some) in H as <-. apply length_insert.
Qed.

(** ** What is on the wire *)

(** Every [send] of the schedule takes all the bytes it is offered. *)
Definition takes_all (i : nat) (a : action) (st : Delivery) : bool :=
  match dl_threads st !! i, a with
  | Some (Sending _ offset (m :: _)), Send n => (offset + n =? length m)%nat
  | _, _ => true
  end.

Fixpoint whole_sends (schedule : list (nat * action)) (st : Delivery) : bool :=
  match schedule with
  | [] => true
  | (i, a) :: schedule =>
      takes_all i a st &&
      match thread_step i a st with Some st => whole_sends schedule st | None => true end
  end.

Definition at_boundary (p : pc) : Prop :=
  match p with Sending _ offset _ => offset = 0%nat | _ => True end.

Lemma thread_step_wire i a st st' :
  thread_step i a st = Some st' → takes_all i a st = true →
  Forall at_boundary (dl_threads st) → dl_wire st = concat (dl_log st) →
  Forall at_boundary (dl_threads st') ∧ dl_wire st' = concat (dl_log st').
Proof.
  unfold thread_step, takes_all. intros H Hall Hb Hw.
  destruct (dl_threads st !! i) as [p|] eqn:Hi; [|done].
  pose proof (Forall_lookup_1 _ _ _ _ Hb Hi) as Hp.
  assert (Hok : ∀ p', at_boundary p' → Forall at_boundary (<[i := p']> (dl_threads st)))
    by (intros; by apply Forall_insert).
  destruct p as [msg| |total off [|m ms]|], a as [| |n| |]; try discriminate H;
    try (apply (inj Some) in H as <-; split; [by apply Hok|done]).
  - apply (inj Some) in H as <-. split; [|by destruct (_ <=? _)].
    by destruct (_ <=? _); apply Hok.
  - destruct (_ && _); [|done]. cbv zeta in H. rewrite Hall in H. apply (inj Some) in H as <-.
    split; [by apply Hok|]. cbn in Hp. subst off. apply Nat.eqb_eq in Hall. cbn in Hall. subst n.
    cbn [to_thread dl_wire dl_log]. rewrite drop_0, firstn_all, Hw, concat_app. cbn.
    by rewrite app_nil_r.
Qed.

(** The invariants along a schedule. *)
Lemma run_invariants schedule st st' :
  run_schedule schedule st = Some st' → delivery_inv st →
  delivery_inv st' ∧ accounted st' ≡ₚ accounted st ∧
  length (dl_threads st') = length (dl_threads st).
Proof.
  revert st. induction schedule as [|[i a] schedule IH]; intros st; cbn [run_schedule].
  { by intros [= <-]. }
  destruct (thread_step i a st) as [st1|] eqn:Hs; [|done]. intros H Hinv.
  pose proof (thread_step_inv _ _ _ _ Hs Hinv) as Hinv1.
  destruct (IH st1 H Hinv1) as (H1 & H2 & H3).
  rewrite H2, H3, (thread_step_accounted _ _ _ _ Hs), (thread_step_threads _ _ _ _ Hs). done.
Qed.

Lemma run_lossless schedule st st' :
  run_schedule schedule st = Some st' → no_failure schedule → delivery_inv st →
  zlen (dl_threads st) ≤ kMaxOutgoingQueue →
  dl_lost st' = dl_lost st ∧ dl_dropped st' = dl_dropped st.
Proof.
  revert st. induction schedule as [|[i a] schedule IH]; intros st; cbn [run_schedule].
  { by intros [= <-]. }
  destruct (thread_step i a st) as [st1|] eqn:Hs; [|done].
  intros H [Ha Hnf]%Forall_cons Hinv Hlen. cbn in Ha.
  destruct (thread_step_lossless _ _ _ _ Hs Ha Hinv Hlen) as [<- <-].
  apply IH; [done..|by eapply thread_step_inv|].
  unfold zlen in *. by rewrite (thread_step_threads _ _ _ _ Hs).
Qed.

Lemma run_wire schedule st st' :
  run_schedule schedule st = Some st' → whole_sends schedule st = true →
  Forall at_boundary (dl_threads st) → dl_wire st = concat (dl_log st) →
  dl_wire st' = concat (dl_log st').
Proof.
  revert st. induction schedule as [|[i a] schedule IH]; intros st; cbn [run_schedule whole_sends].
  { by intros [= <-]. }
  destruct (thread_step i a st) as [st1|] eqn:Hs; [|done].
  intros H [Ht Hws]%andb_prop Hb Hw.
  destruct (thread_step_wire _ _ _ _ Hs Ht Hb Hw). by apply (IH st1).
Qed.

Definition returned (st : Delivery) : Prop := Forall (λ p, p = Returned) (dl_threads st).

#[global] Instance returned_dec st : Decision (returned st).
Proof. unfold returned. apply _. Defined.

Lemma returned_pending st : returned st → (dl_threads st ≫= pending) = [].
Proof. unfold returned. intros H. induction H as [|p ts -> _ IH]; [done|]. exact IH. Qed.

Lemma returned_queue st : returned st → delivery_inv st → dl_queue st = [].
Proof.
  intros Hr [Hq _ _]. apply length_zero_iff_nil.
  enough (length (filter (λ p, is_queued p = true) (dl_threads st)) = 0%nat) by lia.
  clear Hq. unfold returned in Hr. induction Hr as [|p ts -> _ IH]; [done|]. by rewrite filter_cons.
Qed.

Lemma start_pending msgs :
  ((Start <$> msgs) ≫= pending) = (λ m, m ++ [newline]) <$> msgs.
Proof. induction msgs as [|m msgs IH]; [done|]. cbn in *. by rewrite IH. Qed.

Lemma run_complete schedule msgs st :
  run_schedule schedule (new_Delivery msgs) = Some st → no_failure schedule →
  zlen msgs ≤ kMaxOutgoingQueue → returned st →
  dl_log st ≡ₚ ((λ m, m ++ [newline]) <$> msgs) ∧ dl_dropped st = 0.
Proof.
  intros H Hnf Hlen Hr. pose proof (new_delivery_inv msgs) as Hi.
  destruct (run_invariants _ _ _ H Hi) as (Hi' & Hacc & _).
  destruct (run_lossless _ _ _ H Hnf Hi) as [Hl Hd].
  { unfold zlen in *. cbn. by rewrite length_fmap. }
  split; [|done]. unfold accounted in Hacc. rewrite (returned_pending st Hr) in Hacc.
  rewrite (returned_queue st Hr Hi'), Hl in Hacc. cbn in Hacc. rewrite !app_nil_r in Hacc.
  by rewrite <-start_pending.
Qed.

Lemma lines_concat_terminated ms :
  Forall (λ m, newline ∉ m) ms → lines (concat ((λ m, m ++ [newline]) <$> ms)) = (ms, []).
Proof.
  induction 1 as [|m ms Hm _ IH]; [done|]. cbn [fmap list_fmap concat].
  rewrite lines_app, lines_terminated by done. cbn [fst snd app].
  change (list_fmap _ _ _ ms) with ((λ m, m ++ [newline]) <$> ms). by rewrite IH.
Qed.

(** C7: However the threads that deliver to one client interleave, between their
    two critical sections and between single [send] calls: when the socket does
    not fail and takes each message whole, and no more threads take part than
    the queue has places, every message reaches the client exactly once and as
    a line of its own, and nothing is counted as dropped. *)
Theorem delivery_exactly_once schedule msgs st :
  run_schedule schedule (new_Delivery msgs) = Some st → no_failure schedule →
  whole_sends schedule (new_Delivery msgs) = true →
  zlen msgs ≤ kMaxOutgoingQueue → Forall (λ m, newline ∉ m) msgs → returned st →
  ∃ order, order ≡ₚ msgs ∧ extract_frames (dl_wire st) = (order, []) ∧ dl_dropped st = 0.
Proof.
  intros H Hnf Hws Hlen Hnl Hr.
  destruct (run_complete _ _ _ H Hnf Hlen Hr) as [Hlog Hd].
  destruct (Permutation_map_inv _ _ Hlog) as (order & Heq & Hp).
  exists order. split; [by symmetry|]. split; [|done].
  rewrite extract_frames_lines, (run_wire _ _ _ H Hws); [|by apply Forall_fmap, Forall_true|done].
  rewrite Heq. apply lines_concat_terminated. by rewrite <-Hp.
Qed.

(** ** Progress and termination *)
Definition thread_work (p : pc) : nat :=
  match p with
  | Start msg => 4 + length msg
  | Queued => 2
  | Sending _ offset ms => 1 + (length (concat ms) - offset)
  | Returned => 0
  end.

Definition work (st : Delivery) : nat :=
  length (concat (dl_queue st)) + sum_list (thread_work <$> dl_threads st).

Lemma work_update (ts : list pc) i p p' :
  ts !! i = Some p →
  (sum_list (thread_work <$> <[i := p']> ts) + thread_work p =
   sum_list (thread_work <$> ts) + thread_work p')%nat.
Proof.
  intros Hi. rewrite insert_take_drop by by eapply lookup_lt_Some.
  rewrite <-(take_drop_middle ts i p Hi) at 3. rewrite !fmap_app, !sum_list_with_app. cbn. lia.
Qed.

(** Every step uses up some work. *)
Lemma thread_step_work i a st st' : thread_step i a st = Some st' → (work st' < work st)%nat.
Proof.
  unfold thread_step, work. intros H. destruct (dl_threads st !! i) as [p|] eqn:Hi; [|done].
  pose proof (λ p', work_update (dl_threads st) i p p' Hi) as Hup.
  destruct p as [msg| |total off [|m ms]|], a as [| |n| |]; try discriminate H.
  - destruct (_ <=? _); apply (inj Some) in H as <-; cbn [to_thread dl_threads dl_queue].
    + specialize (Hup Returned). cbn [thread_work concat length] in *. lia.
    + specialize (Hup Queued). rewrite concat_app, length_app.
      cbn [thread_work concat] in *. rewrite app_nil_r, length_app. cbn [length]. lia.
  - apply (inj Some) in H as <-. cbn [to_thread dl_threads dl_queue].
    specialize (Hup (Sending (zlen (dl_queue st)) 0 (dl_queue st))).
    cbn [thread_work concat length] in *. lia.
  - apply (inj Some) in H as <-. cbn [to_thread dl_threads dl_queue].
    specialize (Hup Returned). cbn [thread_work] in *. lia.
  - destruct (_ && _) eqn:Hn; [|done]. apply andb_prop in Hn as [Hn%Nat.ltb_lt Hle%Nat.leb_le].
    cbv zeta in H. destruct (Nat.eqb_spec (off + n) (length m)); apply (inj Some) in H as <-;
      cbn [to_thread dl_threads dl_queue].
    + specialize (Hup (Sending total 0 ms)). cbn [thread_work concat] in *.
      rewrite length_app in *. lia.
    + specialize (Hup (Sending total (off + n) (m :: ms))). cbn [thread_work concat] in *.
      rewrite length_app in *. lia.
  - apply (inj Some) in H as <-. cbn [to_thread dl_threads dl_queue].
    specialize (Hup Returned). cbn [thread_work] in *. lia.
Qed.

Lemma run_work schedule st st' :
  run_schedule schedule st = Some st' → (length schedule + work st' ≤ work st)%nat.
Proof.
  revert st. induction schedule as [|[i a] schedule IH]; intros st; cbn [run_schedule length].
  { intros [= <-]. lia. }
  destruct (thread_step i a st) as [st1|] eqn:Hs; [|done]. intros H%IH.
  apply thread_step_work in Hs. lia.
Qed.

Lemma step_enabled st :
  delivery_inv st → returned st ∨ ∃ i a, is_Some (thread_step i a st).
Proof.
  intros [_ _ Ht]. destruct (decide (returned st)) as [|Hn]; [by left|right].
  apply not_Forall_Exists in Hn; [|apply _].
  apply Exists_exists in Hn as (p & [i Hi]%list_elem_of_lookup & Hp).
  pose proof (Forall_lookup_1 _ _ _ _ Ht Hi) as Hok. exists i. unfold thread_step. rewrite Hi.
  destruct p as [msg| |total off [|m ms]|]; [exists Push|exists Swap|exists Return| |by destruct Hp]; eauto.
  exists (Send (length m - off)). cbn in Hok.
  rewrite (proj2 (Nat.ltb_lt 0 (length m - off))) by lia.
  rewrite (proj2 (Nat.leb_le (off + (length m - off)) (length m))) by lia. cbn. eauto.
Qed.

(** Delivery never blocks itself and always ends: in every reachable state
    either all calls have returned or some thread can take a step, and no
    schedule is longer than the bytes of the messages plus four steps per call, even
    when the socket takes one byte at a time. *)
Theorem delivery_terminates schedule msgs st :
  run_schedule schedule (new_Delivery msgs) = Some st →
  (length schedule ≤ length (concat msgs) + 4 * length msgs)%nat ∧
  (returned st ∨ ∃ i a, is_Some (thread_step i a st)).
Proof.
  intros H. split.
  - apply run_work in H. enough (work (new_Delivery msgs)
      = length (concat msgs) + 4 * length msgs)%nat by lia.
    clear H. unfold work. cbn. induction msgs as [|m msgs IH]; [done|].
    cbn in *. rewrite length_app. lia.
  - apply step_enabled. by apply (run_invariants schedule (new_Delivery msgs)), new_delivery_inv.
Qed.

(** ** The run-to-completion model is one of the schedules *)
Definition send_one (i : nat) (m : cstring) : nat * action := (i, Send (length m)).
Definition solo (i : nat) (msg : cstring) (queue : list cstring) : list (nat * action) :=
  (i, Push) :: (i, Swap) :: (send_one i <$> queue ++ [msg ++ [newline]]) ++ [(i, Return)].

Lemma solo_sends i total ms st :
  dl_threads st !! i = Some (Sending total 0 ms) → Forall (λ m, m ≠ []) ms →
  run_schedule ((send_one i <$> ms) ++ [(i, Return)]) st =
    Some (mkDelivery (dl_queue st) (dl_wire st ++ concat ms) (dl_dropped st)
      (<[i := Returned]> (dl_threads st)) (dl_log st ++ ms) (dl_lost st)).
Proof.
  intros Hi Hms. revert st Hi. induction Hms as [|m ms Hm _ IH]; intros [q w dr ts lo x] Hi;
    cbn [dl_threads] in Hi.
  { cbn. unfold thread_step. cbn [dl_threads]. rewrite Hi. by rewrite !app_nil_r. }
  cbn [fmap list_fmap app run_schedule send_one]. unfold thread_step.
  cbn [dl_threads dl_queue dl_wire dl_dropped dl_log dl_lost]. rewrite Hi, drop_0.
  rewrite (proj2 (Nat.ltb_lt 0 (length m))) by (destruct m; [done|cbn; lia]).
  rewrite Nat.add_0_l, Nat.leb_refl, Nat.eqb_refl, firstn_all. cbn [andb].
  change (list_fmap _ _ _ ms) with (send_one i <$> ms). rewrite IH.
  - cbn [to_thread dl_threads dl_queue dl_wire dl_dropped dl_log dl_lost concat].
    rewrite list_insert_insert_eq, <-!(assoc_L (++)). done.
  - cbn [to_thread dl_threads]. apply list_lookup_insert_eq. by eapply lookup_lt_Some.
Qed.

(** A call that is not interrupted does what [IpcServer.deliver] does. *)
Lemma deliver_is_solo fd c msg s i st :
  dl_threads st !! i = Some (Start msg) → dl_queue st = cl_out_queue c →
  Forall (λ m, m ≠ []) (dl_queue st) → zlen (dl_queue st) < kMaxOutgoingQueue →
  ∃ sent c' s' st', deliver (λ _ _, Some true) false fd c msg s = Ok (c', s') ∧
    run_schedule (solo i msg (dl_queue st)) st = Some st' ∧
    sv_sent s' = sv_sent s ++ (pair fd <$> sent) ∧ dl_wire st' = dl_wire st ++ concat sent ∧
    dl_queue st' = cl_out_queue c' ∧ dl_threads st' !! i = Some Returned.
Proof.
  intros Hi Hq Hne Hlen. exists (dl_queue st ++ [msg ++ [newline]]).
  unfold deliver. rewrite <-Hq.
  rewrite (proj2 (Z.leb_gt kMaxOutgoingQueue (zlen (dl_queue st)))) by done. cbv zeta.
  rewrite send_queue_all by done. do 3 eexists. split; [reflexivity|].
  unfold solo. cbn [run_schedule]. unfold thread_step at 1. rewrite Hi.
  rewrite (proj2 (Z.leb_gt kMaxOutgoingQueue (zlen (dl_queue st)))) by done.
  assert (Hlt : (i < length (dl_threads st))%nat) by by eapply lookup_lt_Some.
  unfold thread_step at 1. cbn [to_thread dl_threads dl_queue dl_wire dl_dropped dl_log dl_lost].
  rewrite list_lookup_insert_eq by done.
  set (q := dl_queue st ++ [msg ++ [newline]]).
  unfold to_thread. cbn [dl_threads dl_queue dl_wire dl_dropped dl_log dl_lost].
  rewrite list_insert_insert_eq.
  rewrite (solo_sends i (zlen q) q); cbn [dl_threads].
  - split; [reflexivity|]. split_and!; try reflexivity. cbn [dl_threads].
    apply list_lookup_insert_eq. by rewrite length_insert.
  - by apply list_lookup_insert_eq.
  - apply Forall_app_2; [done|]. constructor; [by destruct msg|constructor].
Qed.

(** ** Instances *)
Definition two_messages : list cstring := [lit "ab"; lit "cd"].

(** The first thread is overtaken between its swap and its sends. *)
Definition overtaken : list (nat * action) :=
  [(0%nat, Push); (0%nat, Swap); (1%nat, Push); (1%nat, Swap); (1%nat, Send 3); (1%nat, Return);
   (0%nat, Send 3); (0%nat, Return)].

(** The socket takes one byte of the first message; the other thread goes on. *)
Definition torn : list (nat * action) :=
  [(0%nat, Push); (0%nat, Swap); (1%nat, Push); (1%nat, Swap); (0%nat, Send 1); (1%nat, Send 3);
   (0%nat, Send 2); (1%nat, Return); (0%nat, Return)].

Definition wire_after (schedule : list (nat * action)) : option cstring :=
  dl_wire <$> run_schedule schedule (new_Delivery two_messages).

Lemma delivery_exactly_once_witness :
  ∃ st order, run_schedule overtaken (new_Delivery two_messages) = Some st ∧
    order ≡ₚ two_messages ∧ extract_frames (dl_wire st) = (order, []).
Proof.
  destruct (run_schedule overtaken (new_Delivery two_messages)) as [st|] eqn:Hr;
    [|exfalso; vm_compute in Hr; discriminate Hr].
  destruct (delivery_exactly_once overtaken two_messages st Hr) as (order & Hp & Hx & _).
  - repeat constructor; discriminate.
  - reflexivity.
  - vm_compute. discriminate.
  - repeat constructor; apply (bool_decide_unpack _); reflexivity.
  - vm_compute in Hr. injection Hr as <-. repeat constructor.
  - exists st, order. split; [reflexivity|]. split; [exact Hp|exact Hx].
Defined.

Lemma delivery_terminates_witness :
  ∃ st, run_schedule torn (new_Delivery two_messages) = Some st ∧
    (length torn ≤ length (concat two_messages) + 4 * length two_messages)%nat.
Proof.
  destruct (run_schedule torn (new_Delivery two_messages)) as [st|] eqn:Hr;
    [|exfalso; vm_compute in Hr; discriminate Hr].
  exists st. split; [reflexivity|]. exact (proj1 (delivery_terminates torn two_messages st Hr)).
Defined.

(** Messages may arrive in another order than they were pushed, and a partial
    [send] lets another thread write into the middle of a line: the client then
    reads lines that nobody sent. *)
Example partial_send_tears_lines :
  extract_frames <$> wire_after overtaken = Some ([lit "cd"; lit "ab"], []) ∧
  extract_frames <$> wire_after torn = Some ([lit "acd"; lit "b"], []).
Proof. split; reflexivity. Qed.
