(* ===== verification/EndToEnd.v ===== *)
(** * From the browser to the daemon and back

    The composition of the native messaging host ([native_host/src/main.cpp])
    with the daemon ([src/daemon/daemon.cpp]) across the Unix socket: a message
    read from the browser is validated and forwarded, the daemon's reader
    reassembles and parses it, the request handler answers, and the host relays
    the answer.  [api] says what the browser is promised; the theorems show that
    the composition keeps that promise in every state the daemon can reach, over
    a link that works and with nothing else happening during an exchange
    ([working_link]), and where it does not: with a full client table, and when
    the reply does not fit the host's one [recv]. *)
From S2P Require Import Prelude Double Json Types Time Redactor PolicyEngine Correlator.
From S2P Require Import PacketParser EventNormalizer PcapCapture EbpfCapture.
From S2P Require Import IpcCodec IpcServer Config Storage Daemon NativeHost.
Open Scope Z_scope.

(** ** The daemon's side of one connection *)
Section exchange.
Context {L : JsonLib} {DB : Type} {SQL : Sqlite DB}.
Context {EB EE PB PE : Type} {CE : CaptureBackend EB EE} {CP : CaptureBackend PB PE}.
Context (send : Z → cstring → option bool).

Abbreviation core := (Core DB EB PB).

(** The host connects and the socket delivers its frame in the pieces that
    [rd_cut] makes of it.  [rd_fd] is the descriptor of the connection in the
    daemon, [rd_now] the steady clock. *)
Record Round := mkRound { rd_now : Z; rd_fd : Z; rd_cut : cstring → list cstring }.

Definition exchange_ops (r : Round) (frame : cstring) : list daemon_op :=
  DAccept (rd_fd r) true true :: (DReceive (rd_now r) (rd_fd r) <$> rd_cut r frame).

(** What has been written to [fd] since the server was in the state [s]. *)
Definition written_to (fd : Z) (s s' : Server) : cstring :=
  concat (snd <$> filter (λ l, l.1 = fd) (drop (length (sv_sent s)) (sv_sent s'))).

(** What the host then finds on its socket: nothing within five seconds when
    the daemon does not answer, a hang-up when the daemon refused or closed the
    connection or is gone, and otherwise the bytes written. *)
Definition daemon_poll (r : Round) (d : core) (s : Server) (frame : cstring) : poll_outcome :=
  match daemon_execs send (exchange_ops r frame) d s with
  | Ok (_, s') =>
      if bool_decide (is_Some (sv_clients s' !! rd_fd r)) then
        match written_to (rd_fd r) s s' with
        | [] => PollTimeout
        | bytes => RecvData bytes
        end
      else PollHangup
  | Err (Deadlock | Stalled) => PollTimeout
  | Err Uncaught => PollHangup
  end.

(** One round of the host's loop against the daemon; the destructor of the
    client closes the connection, whose reader then forgets it. *)
Definition session_round (r : Round) (reads : list read_result) (d : core) (s : Server) :
    result abort (option (handled * list read_result * core * Server)) :=
  match host_round (mkDaemonIo (Ok ()) true (daemon_poll r d s)) reads with
  | Err _ => Err Uncaught
  | Ok None => Ok None
  | Ok (Some (h, reads)) =>
      match hd_daemon h with
      | None => Ok (Some (h, reads, d, s))
      | Some frame =>
          '(d, s) ← daemon_execs send (exchange_ops r frame) d s;
          Ok (Some (h, reads, d, disconnect (rd_fd r) s))
      end
  end.

(** The loop of [main]: the frames written to the browser in each round, the
    daemon and the server at the end, and how the loop ended.  [Continues] is
    the loop cut off after the given rounds. *)
Inductive session_end := Exits0 | Terminates | Continues.

Fixpoint host_session (rounds : list Round) (reads : list read_result) (d : core) (s : Server) :
    list (list cstring) * core * Server * session_end :=
  match rounds with
  | [] => ([], d, s, Continues)
  | r :: rounds =>
      match session_round r reads d s with
      | Err _ => ([], d, s, Terminates)
      | Ok None => ([], d, s, Exits0)
      | Ok (Some (h, reads, d, s)) =>
          if hd_continue h then
            let '(outs, d, s, e) := host_session rounds reads d s in
            (hd_browser h :: outs, d, s, e)
          else ([hd_browser h], d, s, Exits0)
      end
  end.

(** ** What the browser is promised *)

(** The result of an operation or the reason for its refusal, and the daemon's
    state afterwards. *)
Definition api (now : Z) (op : Operation) (id : cstring) (params : option json) (d : core) :
    result IpcError json * core :=
  match op with
  | Hello => (Ok (jobject
      [(lit "daemon", JString "ezcap"); (lit "version", JString kVersionString);
       (lit "protocol_version", JUint kProtocolVersion); (lit "metadata_only", JBool true)]), d)
  | GetStatus => (Ok (status_json now d), d)
  | Subscribe => (Ok (jobject [(lit "subscription_id", JString id)]), d)
  | Unsubscribe =>
      (Ok (jobject [(lit "subscription_id", JString id); (lit "removed", JBool true)]), d)
  | GetPolicy => (Ok (to_json (dm_policy d)), d)
  | SetPolicy =>
      match params with
      | None => (Err (mkIpcError SchemaViolation "set_policy params must be an object"), d)
      | Some j =>
          match update_from_json (dm_policy d) j with
          | Ok p => (Ok (to_json p), set_engine p d)
          | Err error => (Err (mkIpcError PolicyViolation error), d)
          end
      end
  | Shutdown =>
      (Err (mkIpcError OperationNotAllowed "shutdown is not available over IPC"), d)
  end.

(** The daemon's reply on the socket, and the payload of the response envelope
    that the host makes of it: the reason for a refusal is left out. *)
Definition daemon_reply (id : cstring) (res : result IpcError json) : json :=
  jobject ([(lit "request_id", JString id); (lit "ok", JBool (is_ok res))]
           ++ match res with
              | Ok r => [(lit "result", json_canon r)]
              | Err e => [(lit "error", jobject
                  [(lit "code", JString (error_code_name (err_code e)));
                   (lit "message", JString (err_message e))])]
              end).
Definition reply_payload (id : cstring) (res : result IpcError json) : json :=
  jobject ([(lit "request_id", JString id); (lit "ok", JBool (is_ok res))]
           ++ match res with Ok r => [(lit "result", json_canon r)] | Err _ => [] end).

(** The params that the host forwards: an object with at most 8 members;
    anything else is left out. *)
Definition forwarded_params (payload : json) : option json :=
  match member "params" payload with
  | Some p => if is_object p && (jsize p <=? 8) then Some p else None
  | None => None
  end.

(** A document that the host takes for the request [op] with the id [id]. *)
Record browser_request (doc : json) (op : Operation) (id : cstring) (params : option json) :
    Prop := mkBrowserRequest {
  bq_object : is_object doc = true;
  bq_version : version_value doc = Ok 1;
  bq_kind : string_member "kind" doc = Some (lit "request");
  bq_payload : ∃ kvs, member "payload" doc = Some (JObject kvs) ∧
    string_member "operation" (JObject kvs) = Some (operation_name op) ∧
    string_member "request_id" (JObject kvs) = Some id ∧
    find_pred (λ kv, mem kv.1 kHostForbidden) kvs = None ∧
    params = forwarded_params (JObject kvs);
  bq_id : 1 ≤ zlen id ≤ 64;
  bq_op : op ≠ Shutdown;
}.

(** ** The frame reaches the handler however the socket cuts it *)
Lemma terminated_prefix (x y frame : cstring) :
  x ++ y = frame ++ [newline] → newline ∈ x → newline ∉ frame → x = frame ++ [newline] ∧ y = [].
Proof.
  intros H Hx Hf. destruct y as [|z y _] using rev_ind.
  { by rewrite app_nil_r in H. }
  rewrite (assoc_L (++)) in H. apply app_inj_2 in H as [H _]; [|done].
  destruct Hf. rewrite <-H. apply elem_of_app. by left.
Qed.

Lemma open_prefix (x y frame : cstring) :
  x ++ y = frame ++ [newline] → newline ∉ x → zlen x ≤ zlen frame.
Proof.
  intros H Hx. destruct y as [|z y _] using rev_ind.
  { rewrite app_nil_r in H. destruct Hx. rewrite H. set_solver. }
  rewrite (assoc_L (++)) in H. apply app_inj_2 in H as [<- _]; [|done].
  unfold zlen. rewrite length_app. lia.
Qed.

Lemma receive_partial (handler : Request → core → result abort (Response * core))
    fd c b subs s d :
  sv_clients s !! fd = Some (mkClient b subs []) → newline ∉ b ++ c →
  zlen (b ++ c) < kMaxRequestBytes →
  receive handler send fd c s d =
    Ok (set_clients s (<[fd := mkClient (b ++ c) subs []]> (sv_clients s)), d).
Proof.
  intros Hfd Hn Hlen. unfold receive. rewrite Hfd. cbn [cl_rx_buffer cl_subscriptions cl_out_queue].
  assert (Hs : split_frames (b ++ c) kMaxRequestBytes [] = (Ok (), [] ++ [], b ++ c)).
  { apply split_frames_iff. split_and!; [|constructor|done]. apply lines_no_newline.
    apply find_pred_None, Forall_forall. intros x Hx. destruct (is_char newline x) eqn:E; [|done].
    apply is_char_true in E as ->. by destruct Hn. }
  rewrite Hs. reflexivity.
Qed.

Lemma receive_frame (handler : Request → core → result abort (Response * core))
    fd c b subs s d frame rq rs d' msg :
  sv_clients s !! fd = Some (mkClient b subs []) → b ++ c = frame ++ [newline] →
  newline ∉ frame → zlen frame < kMaxRequestBytes →
  Z.of_nat (size subs) < kMaxSubscriptionsPerClient →
  parse_request frame kMaxRequestBytes = Ok rq → rq_operation rq ≠ Shutdown →
  handler rq d = Ok (rs, d') → encode_response rs = Some msg →
  send fd (msg ++ [newline]) = Some true →
  ∃ s', receive handler send fd c s d = Ok (s', d') ∧
    sv_sent s' = sv_sent s ++ [(fd, msg ++ [newline])] ∧
    delete fd (sv_clients s') = delete fd (sv_clients s) ∧ is_Some (sv_clients s' !! fd).
Proof.
  intros Hfd Hbc Hn Hlen Hsubs Hp Hop Hh He Hsend. unfold receive. rewrite Hfd.
  cbn [cl_rx_buffer cl_subscriptions cl_out_queue]. rewrite Hbc.
  rewrite (proj2 (split_frames_iff (frame ++ [newline]) kMaxRequestBytes [] [frame] []))
    by (split_and!; [by apply lines_terminated|repeat constructor; lia|done]).
  cbn [app handle_frames]. unfold handle_frame. rewrite Hp.
  rewrite (proj2 (Z.leb_gt kMaxSubscriptionsPerClient (Z.of_nat (size subs)))) by done.
  rewrite andb_false_r, (bool_decide_false (rq_operation rq = Shutdown)) by done.
  rewrite Hh. cbn [mbind result_bind]. rewrite He. cbn [encoded mbind result_bind].
  destruct (deliver_sends send fd (update_subscriptions rq rs (mkClient [] subs [])) msg s)
    as (s1 & Hd & Hcl & _ & Hsent); [unfold update_subscriptions; by repeat case_match|done|].
  rewrite Hd. cbn [mbind result_bind]. eexists. split; [reflexivity|].
  cbn [sv_sent sv_clients set_clients]. rewrite Hcl.
  split_and!; [done|apply delete_insert_eq|rewrite lookup_insert_eq; eauto].
Qed.

Lemma execs_receive now fd chunks b subs (d : core) s frame rq rs (d' : core) msg :
  sv_clients s !! fd = Some (mkClient b subs []) → newline ∉ b →
  b ++ concat chunks = frame ++ [newline] → Forall (λ c, c ≠ []) chunks →
  newline ∉ frame → zlen frame < kMaxRequestBytes →
  Z.of_nat (size subs) < kMaxSubscriptionsPerClient →
  parse_request frame kMaxRequestBytes = Ok rq → rq_operation rq ≠ Shutdown →
  handle_request now rq d = Ok (rs, d') → encode_response rs = Some msg →
  send fd (msg ++ [newline]) = Some true →
  ∃ s', daemon_execs send (DReceive now fd <$> chunks) d s = Ok (d', s') ∧
    sv_sent s' = sv_sent s ++ [(fd, msg ++ [newline])] ∧
    delete fd (sv_clients s') = delete fd (sv_clients s) ∧ is_Some (sv_clients s' !! fd).
Proof.
  intros Hfd Hb Hcat Hne Hn Hlen Hsubs Hp Hop Hh He Hsend.
  revert b s Hfd Hb Hcat. induction Hne as [|c chunks Hc Hne IH]; intros b s Hfd Hb Hcat.
  { cbn in Hcat. rewrite app_nil_r in Hcat. destruct Hb. rewrite Hcat. set_solver. }
  cbn [concat] in Hcat. rewrite (assoc_L (++)) in Hcat.
  cbn [fmap list_fmap daemon_execs daemon_exec].
  destruct (decide (newline ∈ b ++ c)) as [Hin|Hout].
  - destruct (terminated_prefix _ _ _ Hcat Hin Hn) as [Hbc Hrest].
    assert (chunks = []) as ->.
    { destruct Hne as [|c' chunks Hc' _]; [done|]. cbn in Hrest. by destruct c'. }
    destruct (receive_frame (handle_request now) fd c b subs s d frame rq rs d' msg)
      as (s' & Hr & H); [done..|].
    rewrite Hr. cbn [mbind result_bind fmap list_fmap daemon_execs]. eauto.
  - rewrite (receive_partial _ fd c b subs s d); [|done..|].
    2:{ apply Z.le_lt_trans with (zlen frame); [by eapply open_prefix|done]. }
    cbn [mbind result_bind].
    destruct (IH (b ++ c) (set_clients s (<[fd := mkClient (b ++ c) subs []]> (sv_clients s))))
      as (s' & Hr & Hsent & Hdel & Hs); [apply lookup_insert_eq|done..|].
    exists s'. split_and!; [done..| |done]. rewrite Hdel. cbn. apply delete_insert_eq.
Qed.

(** ** The handler implements the promise *)
Context {HL : JsonLaws L}.

Definition policy_ok (p : Policy) : Prop := wf_policy p ∧ policy_utf8 p.

Lemma literal_wf id :
  json_wf (jobject [(lit "daemon", JString "ezcap"); (lit "version", JString kVersionString);
    (lit "protocol_version", JUint kProtocolVersion); (lit "metadata_only", JBool true)]) = true ∧
  json_wf (jobject [(lit "subscription_id", JString id)]) = true ∧
  json_wf (jobject [(lit "subscription_id", JString id); (lit "removed", JBool true)]) = true.
Proof. by split_and!. Qed.

(** A result that can be written as it is. *)
Definition result_ok (res : result IpcError json) : Prop :=
  match res with
  | Ok r => json_wf r = true ∧ json_utf8 r = true
  | Err e => utf8_valid (err_message e) = true
  end.

(** A response with the fields of [res]. *)
Definition response_for (id : cstring) (res : result IpcError json) (rs : Response) : Prop :=
  rs_request_id rs = id ∧ rs_ok rs = is_ok res ∧
  match res with
  | Ok r => json_dump r = Some (rs_result_json rs)
  | Err e => rs_error rs = e
  end.

Lemma if_member_error k doc (step : json → Policy → result cstring Policy) p e :
  (∀ j q e', step j q = Err e' → utf8_valid e' = true) →
  if_member k doc step p = Err e → utf8_valid e = true.
Proof. unfold if_member. destruct (member k doc); [eauto|done]. Qed.

Lemma then_error k1 k2 doc (s1 s2 : json → Policy → result cstring Policy) p e :
  (∀ j q e', s1 j q = Err e' → utf8_valid e' = true) →
  (∀ j q e', s2 j q = Err e' → utf8_valid e' = true) →
  (q ← if_member k1 doc s1 p; if_member k2 doc s2 q) = Err e → utf8_valid e = true.
Proof.
  intros H1 H2. destruct (if_member k1 doc s1 p) as [q|e'] eqn:E; cbn [mbind result_bind].
  - by apply if_member_error.
  - intros [= <-]. eapply if_member_error; [|exact E]. done.
Qed.

Lemma policy_steps_error :
  (∀ j q e, check_metadata_only j q = Err e → utf8_valid e = true) ∧
  (∀ j q e, update_redaction j q = Err e → utf8_valid e = true) ∧
  (∀ j q e, update_persistence j q = Err e → utf8_valid e = true).
Proof.
  split_and!.
  - intros j q e H. unfold check_metadata_only in H. destruct j as [|[]| | | | | |]; by simplify_eq.
  - intros j q e. unfold update_redaction. destruct (negb _); [by intros [= <-]|].
    apply then_error; intros j' q' e'.
    + unfold update_mode. repeat case_match; by intros [= <-].
    + unfold update_domains. destruct j'; try (by intros [= <-]).
      destruct (_ <? _); [by intros [= <-]|].
      destruct (read_strings _ _ _) eqn:Hr; [done|]. apply read_strings_Err in Hr as ->.
      by intros [= <-].
  - intros j q e. unfold update_persistence. destruct (negb _); [by intros [= <-]|].
    apply then_error; intros j' q' e'.
    + unfold update_enabled. repeat case_match; by intros [= <-].
    + unfold update_retention. destruct (negb _); [by intros [= <-]|].
      destruct (_ || _); by intros [= <-].
Qed.

(** The reasons for refusing a policy are plain text. *)
Lemma update_from_json_error p doc e :
  update_from_json p doc = Err e → utf8_valid e = true.
Proof.
  destruct policy_steps_error as (H1 & H2 & H3). unfold update_from_json.
  destruct (negb _); [by intros [= <-]|].
  destruct (if_member (lit "metadata_only") _ _ _) as [q|e'] eqn:E; cbn [mbind result_bind].
  - by apply then_error.
  - intros [= <-]. eapply if_member_error; [|exact E]. done.
Qed.

Lemma ok_response_for id doc (d : core) :
  json_wf doc = true → json_utf8 doc = true →
  ∃ rs, ok_response id doc d = Ok (rs, d) ∧ response_for id (Ok doc) rs ∧ result_ok (Ok doc).
Proof.
  intros Hw Hu. destruct (ok_response_total id doc d Hu) as (text & -> & Ht).
  eexists. split; [reflexivity|]. done.
Qed.

Lemma id_documents_utf8 id :
  utf8_valid id = true →
  json_utf8 (jobject [(lit "subscription_id", JString id)]) = true ∧
  json_utf8 (jobject [(lit "subscription_id", JString id); (lit "removed", JBool true)]) = true.
Proof. intros H. split; fields_utf8. Qed.

Lemma set_policy_api now id params text (d : core) :
  policy_ok (dm_policy d) → params_ok params → params_text params text →
  (∀ j, params = Some j → json_utf8 j = true) →
  ∃ rs, handle_request now (mkRequest kProtocolVersion SetPolicy id text) d =
      Ok (rs, (api now SetPolicy id (json_canon <$> params) d).2) ∧
    response_for id (api now SetPolicy id (json_canon <$> params) d).1 rs ∧
    result_ok (api now SetPolicy id (json_canon <$> params) d).1 ∧
    policy_ok (dm_policy (api now SetPolicy id (json_canon <$> params) d).2).
Proof.
  intros [Hw Hp] Hok Ht Hu. unfold handle_request. cbn [rq_operation rq_request_id rq_params_json].
  destruct params as [j|]; cbn [params_text fmap option_fmap option_map] in *.
  2:{ subst text. rewrite parse_empty. eexists. by split_and!. }
  destruct (Hok j eq_refl) as (Ho & Hjw & _). specialize (Hu j eq_refl).
  rewrite (parse_dump (json_canon j) text), json_canon_idem by (done || by apply json_canon_wf).
  assert (Hco : is_object (json_canon j) = true) by by rewrite is_object_canon.
  cbn [api]. destruct (json_canon j) as [| | | | | | |kvs] eqn:Hj; try discriminate Hco.
  destruct (update_from_json (dm_policy d) (JObject kvs)) as [p|e] eqn:Hup; cbn [fst snd].
  - assert (Hp' : policy_ok p).
    { apply update_from_json_good in Hup as Hg. split; [by apply Hg|].
      eapply update_from_json_utf8; [|exact Hup|done]. by rewrite <-Hj, json_canon_utf8. }
    destruct (ok_response_for id (to_json p) (set_engine p d)) as (rs & -> & Hrs);
      [by apply to_json_wf, Hp'|by apply to_json_utf8, Hp'|].
    exists rs. split_and!; [done|apply Hrs..|exact Hp'].
  - eexists. split_and!; [reflexivity|done|by eapply update_from_json_error|done..].
Qed.

(** The request handler computes [api], and its response carries the result. *)
Lemma handle_request_api now op id params text (d : core) :
  utf8_valid id = true → policy_ok (dm_policy d) → params_ok params →
  params_text params text → (∀ j, params = Some j → json_utf8 j = true) →
  (op = GetStatus → json_wf (status_json now d) = true) →
  ∃ rs, handle_request now (mkRequest kProtocolVersion op id text) d =
      Ok (rs, (api now op id (json_canon <$> params) d).2) ∧
    response_for id (api now op id (json_canon <$> params) d).1 rs ∧
    result_ok (api now op id (json_canon <$> params) d).1 ∧
    policy_ok (dm_policy (api now op id (json_canon <$> params) d).2).
Proof.
  intros Hid Hp Hok Ht Hu Hst. destruct (id_documents_utf8 id Hid) as [Hs1 Hs2].
  destruct (literal_wf id) as (W1 & W2 & W3).
  destruct (decide (op = SetPolicy)) as [->|Hne]; [by apply set_policy_api|].
  unfold handle_request. cbn [rq_operation rq_request_id].
  assert (Hfor : ∀ doc, json_wf doc = true → json_utf8 doc = true →
    ∃ rs, ok_response id doc d = Ok (rs, d) ∧ response_for id (Ok doc) rs ∧
      result_ok (Ok doc) ∧ policy_ok (dm_policy d)).
  { intros doc H1 H2. destruct (ok_response_for id doc d H1 H2) as (rs & ? & ? & ?). eauto. }
  destruct op; cbn [api fst snd]; try done; try (apply Hfor; done).
  - apply Hfor; [by apply Hst|apply status_json_utf8].
  - apply Hfor; [by apply to_json_wf, Hp|by apply to_json_utf8, Hp].
  - eexists. by split_and!.
Qed.

(** ** The host relays the answer *)
Lemma daemon_reply_ok id res :
  result_ok res → utf8_valid id = true →
  json_wf (daemon_reply id res) = true ∧ json_utf8 (daemon_reply id res) = true.
Proof.
  intros Hres Hu. unfold daemon_reply. destruct res as [r|e]; cbn [result_ok] in Hres.
  - destruct Hres as [Hw Hr]. split; [apply jobject_wf; repeat constructor; by apply json_canon_wf|].
    fields_utf8. cbn [snd]. by rewrite json_canon_utf8.
  - split; [apply jobject_wf; by repeat constructor|]. fields_utf8. fields_utf8.
    by destruct (err_code e).
Qed.

(** The codec writes [daemon_reply]. *)
Lemma response_json_reply id res rs :
  response_for id res rs → result_ok res → response_json rs = daemon_reply id res.
Proof.
  intros (<- & Hok & Hres) Hr. unfold response_json, daemon_reply. rewrite Hok.
  destruct res as [r|e]; cbn [is_ok]; [|by rewrite Hres].
  do 4 f_equal. unfold response_result. rewrite (parse_dump r _ (proj1 Hr) Hres).
  destruct (rs_result_json rs); [by apply dump_nonempty in Hres|done].
Qed.

(** The host turns it into the response envelope. *)
Lemma reply_relayed id res msg :
  result_ok res → utf8_valid id = true → json_dump (daemon_reply id res) = Some msg →
  relay_frame id msg = send_envelope "response" (reply_payload id res).
Proof.
  intros Hres Hu Hm. destruct (daemon_reply_ok id res Hres Hu) as [Hw _].
  unfold relay_frame. rewrite (parse_dump _ _ Hw Hm). unfold contains. rewrite !member_canon.
  rewrite is_object_canon. unfold daemon_reply at 4. rewrite jobject_is_object.
  unfold daemon_reply, reply_payload. destruct res as [r|e]; cbn [is_ok]; [|done].
  replace (member "result" _) with (Some (json_canon r)) by done.
  cbn [fmap option_fmap option_map]. by rewrite json_canon_idem.
Qed.

(** One [recv] takes the whole answer or, beyond the size of its buffer, no
    complete line. *)
Lemma poll_answer msg :
  newline ∉ msg →
  ∃ rx, client_poll [] (RecvData (msg ++ [newline])) =
    Ok (if (length msg <? kRecvBytes)%nat then [msg] else [], rx).
Proof.
  intros Hn. unfold client_poll. rewrite extract_frames_lines. cbn [lines is_empty negb].
  cbn [app]. set (got := take kRecvBytes (msg ++ [newline])).
  assert (Hlen : zlen got ≤ 8192).
  { unfold got, zlen. rewrite length_take. unfold kRecvBytes. lia. }
  rewrite (proj2 (Z.ltb_ge kMaxEventBytes (zlen got))) by (unfold kMaxEventBytes; lia).
  rewrite extract_frames_lines. unfold got.
  destruct (Nat.ltb_spec (length msg) kRecvBytes) as [Hlt|Hge].
  - rewrite take_ge by (rewrite length_app; cbn; lia). rewrite lines_terminated by done. eauto.
  - rewrite take_app_le by lia. rewrite lines_no_newline; [eauto|].
    apply find_pred_None, Forall_forall.
    intros x Hx. destruct (is_char newline x) eqn:E; [|done].
    apply is_char_true in E as ->. destruct Hn. rewrite <-(take_drop kRecvBytes msg). set_solver.
Qed.

(** ** One round *)
Lemma forwarded_params_ok payload :
  json_wf payload = true → params_ok (forwarded_params payload).
Proof.
  intros Hw p. unfold forwarded_params. destruct (member "params" payload) as [q|] eqn:Hq; [|done].
  destruct (is_object q) eqn:Ho, (Z.leb_spec (jsize q) 8); cbn [andb]; try done.
  intros [= <-]. eauto using member_wf.
Qed.

Lemma forwarded_params_utf8 payload j :
  json_utf8 payload = true → forwarded_params payload = Some j → json_utf8 j = true.
Proof.
  intros Hu. unfold forwarded_params. destruct (member "params" payload) as [q|] eqn:Hq; [|done].
  destruct (_ && _); [|done]. intros [= <-]. by eapply member_utf8.
Qed.

Lemma forward_sent io op id payload text :
  json_wf payload = true → json_utf8 payload = true →
  io_connect io = Ok () → io_send_ok io = true →
  json_dump (request_json op id (json_canon <$> forwarded_params payload)) = Some text →
  zlen text < kMaxRequestBytes →
  forward io (operation_name op) id payload =
    match client_poll [] (io_poll io (text ++ [newline])) with
    | Err error => answer true (Some (text ++ [newline])) (send_error id "daemon_error" error)
    | Ok (frames, _) => answer true (Some (text ++ [newline])) (relay_frames id frames)
    end.
Proof.
  intros Hw Hu Hc Hs Hd Hlen. unfold forward. rewrite Hc.
  rewrite (proj2 (operation_from_name_spec _ op)) by done.
  fold (forwarded_params payload).
  change (match forwarded_params payload with Some p => json_dump p | None => Some [] end)
    with (from_option json_dump (Some []) (forwarded_params payload)).
  assert (Hp : is_Some (from_option json_dump (Some []) (forwarded_params payload))).
  { destruct (forwarded_params payload) as [j|] eqn:Hj; [|eauto].
    by apply dump_defined, (forwarded_params_utf8 payload). }
  destruct Hp as [ptext Hp]. rewrite Hp.
  assert (request_frame (mkRequest kProtocolVersion op id ptext) = Ok (Some (text ++ [newline])))
    as ->.
  { unfold request_frame. cbn [rq_params_json rq_operation rq_request_id].
    rewrite (dumped_params (forwarded_params payload) ptext)
      by (done || by apply forwarded_params_ok).
    rewrite Hd. by rewrite (proj2 (Z.ltb_ge kMaxRequestBytes (zlen text))) by lia. }
  cbn [mbind result_bind]. by rewrite Hs.
Qed.

Lemma allowed_name op : op ≠ Shutdown → operation_allowed (operation_name op) = true.
Proof. by destruct op. Qed.

Lemma handle_browser_request io doc op id params kvs :
  browser_request doc op id params → member "payload" doc = Some (JObject kvs) →
  handle_message io doc = forward io (operation_name op) id (JObject kvs).
Proof.
  intros [Ho Hv Hk (kvs' & Hpl & Hop & Hid & Hf & _) Hlen Hns] Hkvs.
  rewrite Hkvs in Hpl. apply (inj Some) in Hpl. injection Hpl as <-.
  unfold handle_message. rewrite Ho. cbn [negb]. rewrite Hv. cbn [mbind result_bind].
  change (negb (1 =? 1)) with false. cbv iota. rewrite Hk, Hkvs.
  change (lit "request" <>s "request") with false. cbv iota zeta.
  rewrite Hop, Hid, Hf, (allowed_name op Hns). cbn [negb].
  assert (is_empty id || (64 <? zlen id) = false) as ->; [|done].
  apply orb_false_intro; [|apply Z.ltb_ge; lia].
  destruct id; [by unfold zlen in Hlen; cbn in Hlen; lia|done].
Qed.

(** The socket loses and reorders nothing, and never delivers an empty piece. *)
Definition faithful_cut (cut : cstring → list cstring) : Prop :=
  ∀ f, concat (cut f) = f ∧ Forall (λ c, c ≠ []) (cut f).

(** A connection the daemon can take: its descriptor is new and the client
    table has room. *)
Definition has_room (fd : Z) (s : Server) : Prop :=
  sv_clients s !! fd = None ∧ Z.of_nat (size (sv_clients s)) < kMaxClients.

Lemma daemon_answers r frame (d : core) s rq rs d' msg :
  faithful_cut (rd_cut r) → has_room (rd_fd r) s → (∀ m, send (rd_fd r) m = Some true) →
  (newline ∉ frame) → zlen frame < kMaxRequestBytes →
  parse_request frame kMaxRequestBytes = Ok rq → rq_operation rq ≠ Shutdown →
  handle_request (rd_now r) rq d = Ok (rs, d') → encode_response rs = Some msg →
  ∃ s', daemon_execs send (exchange_ops r (frame ++ [newline])) d s = Ok (d', s') ∧
    sv_sent s' = sv_sent s ++ [(rd_fd r, msg ++ [newline])] ∧
    is_Some (sv_clients s' !! rd_fd r) ∧ sv_clients (disconnect (rd_fd r) s') = sv_clients s.
Proof.
  intros Hcut [Hfd Hroom] Hsend Hn Hlen Hp Hop Hh He.
  destruct (Hcut (frame ++ [newline])) as [Hcat Hne].
  unfold exchange_ops. cbn [daemon_execs daemon_exec mbind result_bind].
  unfold accept_connection. cbn [negb].
  rewrite (proj2 (Z.leb_gt kMaxClients (Z.of_nat (size (sv_clients s))))) by done.
  destruct (execs_receive (rd_now r) (rd_fd r) (rd_cut r (frame ++ [newline])) [] ∅ d
    (set_clients s (<[rd_fd r := new_Client]> (sv_clients s))) frame rq rs d' msg)
    as (s' & Hx & Hsent & Hdel & Hs); try done.
  - apply lookup_insert_eq.
  - apply not_elem_of_nil.
  - exists s'. split_and!; [done..|]. cbn. rewrite Hdel. cbn.
    by rewrite delete_insert_eq, delete_id.
Qed.

Lemma written_answer fd s s' line :
  sv_sent s' = sv_sent s ++ [(fd, line)] → written_to fd s s' = line.
Proof.
  intros H. unfold written_to. rewrite H, drop_app_length, filter_cons_True by done.
  cbn. apply app_nil_r.
Qed.

Lemma reply_sent id res :
  utf8_valid id = true → result_ok res →
  ∃ out, send_envelope "response" (reply_payload id res) = Ok out.
Proof.
  intros Hid Hr. unfold send_envelope.
  destruct (dump_defined (envelope "response" (reply_payload id res))) as [text ->]; [|eauto].
  unfold envelope. fields_utf8. unfold reply_payload. destruct res as [r|]; fields_utf8.
  cbn [snd]. rewrite json_canon_utf8. by apply Hr.
Qed.

Lemma browser_request_parts doc op id params :
  json_wf doc = true → json_utf8 doc = true → browser_request doc op id params →
  ∃ kvs, member "payload" doc = Some (JObject kvs) ∧ params = forwarded_params (JObject kvs) ∧
    json_wf (JObject kvs) = true ∧ json_utf8 (JObject kvs) = true ∧ utf8_valid id = true ∧
    params_ok (json_canon <$> params) ∧
    (∀ j, json_canon <$> params = Some j → json_utf8 j = true).
Proof.
  intros Hw Hu Hq. destruct (bq_payload _ _ _ _ Hq) as (kvs & Hpl & _ & Hid & _ & ->).
  pose proof (member_wf _ _ _ Hw Hpl) as Hpw. pose proof (member_utf8 _ _ _ Hu Hpl) as Hpu.
  exists kvs. split_and!; [done..| | |].
  - unfold string_member in Hid. destruct (member "request_id" _) as [[]|] eqn:E; try done.
    apply (inj Some) in Hid as <-. exact (member_utf8 _ _ _ Hpu E).
  - by apply params_ok_canon, forwarded_params_ok.
  - intros j (j0 & Hj0 & ->)%fmap_Some. rewrite json_canon_utf8.
    by apply (forwarded_params_utf8 (JObject kvs)).
Qed.

(** A round in which a request meets a daemon that can take it. *)
Record round_ready (r : Round) (op : Operation) (d : core) (s : Server) : Prop := mkRoundReady {
  rr_policy : policy_ok (dm_policy d);
  rr_room : has_room (rd_fd r) s;
  rr_send : ∀ m, send (rd_fd r) m = Some true;
  rr_cut : faithful_cut (rd_cut r);
  rr_status : op = GetStatus → json_wf (status_json (rd_now r) d) = true;
}.

Lemma request_served r doc op id params text (d : core) s :
  round_ready r op d s → json_wf doc = true → json_utf8 doc = true →
  browser_request doc op id params →
  json_dump (request_json op id (json_canon <$> params)) = Some text →
  zlen text < kMaxRequestBytes →
  ∃ res d' msg s', api (rd_now r) op id (json_canon <$> params) d = (res, d') ∧
    result_ok res ∧ policy_ok (dm_policy d') ∧ json_dump (daemon_reply id res) = Some msg ∧
    daemon_execs send (exchange_ops r (text ++ [newline])) d s = Ok (d', s') ∧
    sv_sent s' = sv_sent s ++ [(rd_fd r, msg ++ [newline])] ∧
    is_Some (sv_clients s' !! rd_fd r) ∧ sv_clients (disconnect (rd_fd r) s') = sv_clients s.
Proof.
  intros [Hp Hroom Hsend Hcut Hst] Hw Hu Hq Hd Hlen.
  destruct (browser_request_parts doc op id params Hw Hu Hq)
    as (kvs & _ & _ & _ & _ & Hidu & Hok & Hju).
  destruct (parse_request_accepts op id (json_canon <$> params) text kMaxRequestBytes)
    as (ptext & Hpt & Hparse); [done|by apply Hq|done|lia|].
  destruct (handle_request_api (rd_now r) op id (json_canon <$> params) ptext d)
    as (rs & Hh & Hrs & Hres & Hp'); [done..|].
  assert (json_canon <$> (json_canon <$> params) = json_canon <$> params) as Hcc.
  { destruct params; [|done]. cbn. by rewrite json_canon_idem. }
  rewrite Hcc in Hh, Hrs, Hres, Hp'.
  destruct (api (rd_now r) op id (json_canon <$> params) d) as [res d'] eqn:Hapi.
  cbn [fst snd] in Hh, Hrs, Hres, Hp'.
  destruct (daemon_reply_ok id res Hres Hidu) as [_ Hru].
  destruct (dump_defined _ Hru) as [msg Hm].
  destruct (daemon_answers r text d s (mkRequest kProtocolVersion op id ptext) rs d' msg Hcut
    Hroom Hsend) as (s' & Hx & Hsent & Hs & Hcl);
    [by eapply dump_one_line|done|exact Hparse|by apply Hq|done| |].
  { unfold encode_response. by rewrite (response_json_reply id res rs). }
  by exists res, d', msg, s'.
Qed.

Lemma round_exact r reads message reads' doc op id params text (d : core) s :
  round_ready r op d s →
  read_message reads = Ok (message, reads') → json_parse message = Some doc →
  browser_request doc op id params →
  json_dump (request_json op id (json_canon <$> params)) = Some text →
  zlen text < kMaxRequestBytes →
  ∃ res d' msg out s', api (rd_now r) op id (json_canon <$> params) d = (res, d') ∧
    policy_ok (dm_policy d') ∧ json_dump (daemon_reply id res) = Some msg ∧
    send_envelope "response" (reply_payload id res) = Ok out ∧
    session_round r reads d s =
      Ok (Some (mkHandled true (if zlen msg <? 8192 then out else [])
                  (Some (text ++ [newline])), reads', d', s')) ∧
    sv_sent s' = sv_sent s ++ [(rd_fd r, msg ++ [newline])] ∧ sv_clients s' = sv_clients s.
Proof.
  intros Hr Hm Hdoc Hq Hd Hlen. destruct (parse_wf _ _ Hdoc) as [Hw Hu].
  destruct (browser_request_parts doc op id params Hw Hu Hq)
    as (kvs & Hpl & -> & Hpw & Hpu & Hidu & _).
  destruct (request_served r doc op id _ text d s Hr Hw Hu Hq Hd Hlen)
    as (res & d' & msg & s' & Hapi & Hres & Hp' & Hmsg & Hx & Hsent & Hfd & Hcl).
  destruct (reply_sent id res Hidu Hres) as [out Hout].
  exists res, d', msg, out, (disconnect (rd_fd r) s').
  split; [done|]. split; [done|]. split; [done|]. split; [done|]. split; [|done].
  unfold session_round, host_round. rewrite Hm, Hdoc.
  rewrite (handle_browser_request _ doc op id _ kvs Hq Hpl).
  rewrite (forward_sent _ op id (JObject kvs) text) by done. cbn [io_poll].
  assert (daemon_poll r d s (text ++ [newline]) = RecvData (msg ++ [newline])) as ->.
  { unfold daemon_poll. rewrite Hx, bool_decide_true by done.
    rewrite (written_answer _ _ _ _ Hsent). by destruct msg. }
  destruct (poll_answer msg) as [rx ->]; [by eapply dump_one_line|].
  assert ((length msg <? kRecvBytes)%nat = (zlen msg <? 8192)) as ->.
  { apply eq_true_iff_eq. rewrite Nat.ltb_lt, Z.ltb_lt. unfold zlen, kRecvBytes. lia. }
  destruct (zlen msg <? 8192); cbn [relay_frames].
  - rewrite (reply_relayed id res msg Hres Hidu Hmsg), Hout.
    cbn [mbind result_bind answer hd_daemon]. rewrite Hx.
    cbn [mbind result_bind]. by rewrite app_nil_r.
  - cbn [mbind result_bind answer hd_daemon]. by rewrite Hx.
Qed.

(** ** Every reachable state is ready *)
Lemma handle_request_policy_ok now rq (d : core) rs d' :
  handle_request now rq d = Ok (rs, d') → policy_ok (dm_policy d) → policy_ok (dm_policy d').
Proof.
  unfold handle_request, ok_response, err_response. intros H [Hw Hp].
  destruct (rq_operation rq); try (destruct (encoded _); [|done]; by injection H as <- <-).
  - destruct (json_parse _) as [[| | | | | | |kvs]|] eqn:Hj; try (by injection H as <- <-).
    destruct (update_from_json (dm_policy d) (JObject kvs)) as [p|e] eqn:Hup;
      [|by injection H as <- <-].
    destruct (encoded _); [|done]. injection H as <- <-. apply parse_wf in Hj as [_ Hu].
    split; [by apply update_from_json_good in Hup as [Hg _]; apply Hg|].
    by eapply update_from_json_utf8.
  - by injection H as <- <-.
Qed.

Lemma store_if_policy uninit e (d d' : core) :
  store_if uninit e d = Ok d' → dm_policy d' = dm_policy d.
Proof.
  unfold store_if. destruct (dm_store d); [|by intros [= <-]].
  destruct (store_object _ _ _) as [[[] so]|]; [by intros [= <-]..|done].
Qed.

Lemma capture_policy now uninit e (d d' : core) so so' :
  on_capture_event send now uninit e d so = Ok (d', so') → dm_policy d' = dm_policy d.
Proof.
  unfold on_capture_event. cbn [dm_correlator set_counters].
  destruct (correlate (dm_correlator d) now e) as [co e1].
  cbn [dm_policy set_correlator set_counters]. destruct (apply (dm_policy d) e1) as [dec e2].
  case_bool_decide; [by intros [= <- <-]|].
  destruct (broadcast_if send e2 so) as [so1|]; [|done]. cbn [mbind result_bind].
  match goal with |- context [store_if uninit e2 ?x] =>
    destruct (store_if uninit e2 x) as [d1|] eqn:Hst; [|done] end.
  cbn [mbind result_bind]. intros [= <- <-]. by apply store_if_policy in Hst.
Qed.

Definition ready_inv (d : core) (s : Server) : Prop := server_inv s ∧ policy_ok (dm_policy d).

Lemma daemon_exec_ready op (d d' : core) s s' :
  daemon_exec send op d s = Ok (d', s') → ready_inv d s → ready_inv d' s'.
Proof.
  intros H [Hs Hp].
  destruct op as [now u e|obs|ps|fd a t|now fd chunk|fd| |wall]; cbn [daemon_exec] in H.
  - destruct (on_capture_event send now u e d (Some s)) as [[d1 so]|] eqn:Hc; [|done].
    pose proof (capture_policy _ _ _ _ _ _ _ Hc) as Hd1.
    unfold on_capture_event in Hc. cbn [dm_correlator set_counters] in Hc.
    destruct (correlate _ now e) as [co e1]. cbn [dm_policy set_correlator set_counters] in Hc.
    destruct (apply (dm_policy d) e1) as [dec e2].
    assert (∃ s1, so = Some s1 ∧ server_inv s1) as (s1 & -> & Hs1).
    { case_bool_decide; [injection Hc as _ <-; eauto|]. cbn [broadcast_if] in Hc.
      destruct (broadcast send e2 s) as [s2|] eqn:Hb; [|done].
      cbn [fmap result_fmap mbind result_bind] in Hc. destruct (store_if _ _ _); [|done].
      injection Hc as _ <-. exists s2. split; [done|].
      apply (server_exec_inv (St := ()) (λ _ st, Err Uncaught) send (OpBroadcast e2) s () s2 ());
        [|done]. cbn [server_exec]. by rewrite Hb. }
    injection H as <- <-. split; [done|by rewrite Hd1].
  - by injection H as <- <-.
  - by injection H as <- <-.
  - injection H as <- <-. split; [by apply accept_inv|done].
  - destruct (receive _ _ _ _ _ _) as [[s1 d1]|] eqn:Hr; [|done]. injection H as <- <-.
    split; [by eapply receive_inv|].
    apply (receive_keeps (handle_request now) send (λ x : core, policy_ok (dm_policy x))) in Hr;
      [by apply Hr|intros; by eapply handle_request_policy_ok|done].
  - injection H as <- <-. split; [by apply disconnect_inv|done].
  - injection H as <- <-. split; [done|]. unfold map_store. by destruct (dm_store d) as [[]|].
  - injection H as <- <-. split; [done|]. unfold map_store. by destruct (dm_store d) as [[]|].
Qed.

Lemma reachable_ready d0 s0 (d : core) s :
  daemon_reachable send d0 s0 d s → ready_inv d0 s0 → ready_inv d s.
Proof. induction 1; [done|]. eauto using daemon_exec_ready. Qed.

(** ** Sessions *)
Lemma read_exact_consumes count reads bytes reads' :
  read_exact count reads = Some (bytes, reads') →
  length (stream reads) = (count + length (stream reads'))%nat.
Proof.
  revert count bytes reads'. induction reads as [|r reads IH]; intros count bytes reads'.
  { destruct count; [|done]. by intros [= <- <-]. }
  destruct count as [|count]; [by intros [= <- <-]|].
  destruct r as [c| |]; [|by apply (IH (S count))|done].
  destruct c as [|x c]; [done|]. cbn [read_exact].
  destruct (Nat.ltb_spec (S count) (length (x :: c))) as [Hlt|Hge].
  - intros [= <- <-]. unfold stream. cbn [mbind list_bind]. rewrite !length_app, length_drop.
    cbn [length] in *. lia.
  - destruct (read_exact _ reads) as [[rest reads1]|] eqn:E; [|done]. intros [= <- <-].
    apply IH in E. unfold stream in *. cbn [mbind list_bind]. rewrite length_app. lia.
Qed.

Lemma read_message_consumes reads message reads' :
  read_message reads = Ok (message, reads') →
  (length (stream reads') < length (stream reads))%nat.
Proof.
  unfold read_message. destruct (read_exact 4 reads) as [[p r1]|] eqn:E1; [|done].
  apply read_exact_consumes in E1. destruct (_ =? 0); [done|]. destruct (_ <? _); [done|].
  destruct (read_exact _ r1) as [[out r2]|] eqn:E2; [|done]. apply read_exact_consumes in E2.
  destruct (utf8_check _ _); [|done]. intros [= <- <-]. lia.
Qed.

Lemma session_round_consumes r reads (d : core) s h reads' d' s' :
  session_round r reads d s = Ok (Some (h, reads', d', s')) →
  (length (stream reads') < length (stream reads))%nat.
Proof.
  unfold session_round, host_round.
  destruct (read_message reads) as [[message reads1]|] eqn:Hm; [|done].
  apply read_message_consumes in Hm. intros H.
  assert (reads' = reads1) as ->; [|done].
  destruct (json_parse message) as [doc|].
  - destruct (handle_message _ doc) as [h1|]; [|done]. cbn [mbind result_bind] in H.
    destruct (hd_daemon h1); [|congruence].
    destruct (daemon_execs _ _ d s) as [[d1 s1]|]; [|done]. cbn [mbind result_bind] in H. congruence.
  - destruct (send_error _ _ _); [|done]. cbn [mbind result_bind hd_daemon] in H. congruence.
Qed.

Lemma session_ends rounds reads (d : core) s :
  (length (stream reads) < length rounds)%nat → (host_session rounds reads d s).2 ≠ Continues.
Proof.
  revert reads d s. induction rounds as [|r rounds IH]; intros reads d s Hlen; [cbn in Hlen; lia|].
  cbn [host_session]. destruct (session_round r reads d s) as [[[[[h reads1] d1] s1]|]|] eqn:Hr;
    [|done..].
  apply session_round_consumes in Hr. destruct (hd_continue h); [|done].
  specialize (IH reads1 d1 s1 ltac:(cbn in Hlen; lia)).
  by destruct (host_session rounds reads1 d1 s1) as [[[outs d2] s2] e].
Qed.

(** A request of the browser, and the bytes of a sequence of them. *)
Record BrowserCall := mkBrowserCall {
  bc_op : Operation; bc_id : cstring; bc_params : option json;
}.

Inductive browser_stream : list BrowserCall → cstring → Prop :=
  | stream_done : browser_stream [] []
  | stream_call c calls message frame doc rest :
      write_message message = Some frame → utf8_valid message = true →
      json_parse message = Some doc → browser_request doc (bc_op c) (bc_id c) (bc_params c) →
      browser_stream calls rest → browser_stream (c :: calls) (frame ++ rest).

(** The abstract run of the calls. *)
Fixpoint api_run (nows : list Z) (calls : list BrowserCall) (d : core) :
    list (cstring * result IpcError json) * core :=
  match nows, calls with
  | now :: nows, c :: calls =>
      let '(res, d) := api now (bc_op c) (bc_id c) (json_canon <$> bc_params c) d in
      let '(replies, d) := api_run nows calls d in
      ((bc_id c, res) :: replies, d)
  | _, _ => ([], d)
  end.

Definition call_fits (c : BrowserCall) : Prop :=
  ∃ text, json_dump (request_json (bc_op c) (bc_id c) (json_canon <$> bc_params c)) = Some text ∧
    zlen text < kMaxRequestBytes.
(** What the browser is given for a reply: its response envelope when the
    daemon's line and the newline fit the host's one [recv], nothing otherwise. *)
Definition response_written (p : cstring * result IpcError json) (out : list cstring) : Prop :=
  ∃ msg frames, json_dump (daemon_reply p.1 p.2) = Some msg ∧
    send_envelope "response" (reply_payload p.1 p.2) = Ok frames ∧
    out = if zlen msg <? 8192 then frames else [].

Lemma read_eof reads : progressing reads → stream reads = [] → read_message reads = Err (lit "eof").
Proof.
  unfold read_message. intros Hp Hs.
  enough (read_exact 4 reads = None) as -> by done. revert Hs.
  induction Hp as [|r reads Hr _ IH]; [done|]. destruct r as [[|x c]| |]; try done.
Qed.

Lemma api_status now now' op id params (d : core) :
  status_json now' (api now op id params d).2 = status_json now' d.
Proof.
  destruct op; try done. cbn [api]. destruct params as [j|]; [|done].
  by destruct (update_from_json (dm_policy d) j).
Qed.

(** A connection that works: its descriptor is new in the daemon, the daemon's
    sends on it succeed, the socket delivers what the host wrote, and the
    numbers of a status report fit 64 bits.  [connectable] adds a place in the
    client table. *)
Definition working_link (d : core) (s : Server) (r : Round) : Prop :=
  sv_clients s !! rd_fd r = None ∧ (∀ m, send (rd_fd r) m = Some true) ∧
  faithful_cut (rd_cut r) ∧ json_wf (status_json (rd_now r) d) = true.

Definition connectable (d : core) (s : Server) (r : Round) : Prop :=
  working_link d s r ∧ Z.of_nat (size (sv_clients s)) < kMaxClients.

Lemma connectable_ready d s r op :
  connectable d s r → policy_ok (dm_policy d) → round_ready r op d s.
Proof. by intros [(H1 & H2 & H3 & H4) H] Hp. Qed.

(** With a full client table the daemon closes the connection unread. *)
Lemma refused_execs now fd chunks (d : core) s :
  sv_clients s !! fd = None → daemon_execs send (DReceive now fd <$> chunks) d s = Ok (d, s).
Proof.
  intros Hfd. induction chunks as [|c chunks IH]; [done|].
  cbn [fmap list_fmap daemon_execs daemon_exec]. unfold receive. rewrite Hfd.
  cbn [mbind result_bind]. exact IH.
Qed.

Lemma exchange_refused r frame (d : core) s :
  sv_clients s !! rd_fd r = None → kMaxClients ≤ Z.of_nat (size (sv_clients s)) →
  daemon_execs send (exchange_ops r frame) d s = Ok (d, s).
Proof.
  intros Hfd Hfull. unfold exchange_ops. cbn [daemon_execs daemon_exec mbind result_bind].
  unfold accept_connection. cbn [negb]. rewrite (proj2 (Z.leb_le _ _) Hfull).
  by apply refused_execs.
Qed.

Lemma disconnect_absent fd s : sv_clients s !! fd = None → disconnect fd s = s.
Proof. intros H. unfold disconnect. rewrite delete_id by done. by destruct s. Qed.

Lemma error_sent id code message :
  utf8_valid id = true → utf8_valid code = true → utf8_valid (take 256 message) = true →
  ∃ out, send_error id code message = Ok out.
Proof.
  intros. unfold send_error, send_envelope.
  destruct (dump_defined (envelope "error" (error_json id code message))) as [text ->]; [|eauto].
  unfold envelope. fields_utf8. unfold error_json. by fields_utf8.
Qed.

Lemma round_refused r reads message reads' doc op id params text (d : core) s :
  sv_clients s !! rd_fd r = None → kMaxClients ≤ Z.of_nat (size (sv_clients s)) →
  read_message reads = Ok (message, reads') → json_parse message = Some doc →
  browser_request doc op id params →
  json_dump (request_json op id (json_canon <$> params)) = Some text →
  zlen text < kMaxRequestBytes →
  ∃ out, send_error id "daemon_error" "daemon closed the connection" = Ok out ∧
    session_round r reads d s =
      Ok (Some (mkHandled true out (Some (text ++ [newline])), reads', d, s)).
Proof.
  intros Hfd Hfull Hm Hdoc Hq Hd Hlen. destruct (parse_wf _ _ Hdoc) as [Hw Hu].
  destruct (browser_request_parts doc op id params Hw Hu Hq)
    as (kvs & Hpl & -> & Hpw & Hpu & Hidu & _).
  destruct (error_sent id "daemon_error" "daemon closed the connection") as [out Hout]; [done..|].
  exists out. split; [done|]. unfold session_round, host_round. rewrite Hm, Hdoc.
  rewrite (handle_browser_request _ doc op id _ kvs Hq Hpl).
  rewrite (forward_sent _ op id (JObject kvs) text) by done. cbn [io_poll].
  unfold daemon_poll. rewrite exchange_refused by done.
  rewrite bool_decide_false by (rewrite Hfd; by intros []).
  change (client_poll [] PollHangup) with
    (Err (A := list cstring * cstring) (lit "daemon closed the connection")).
  cbv iota. rewrite Hout. cbn [mbind result_bind answer hd_daemon].
  rewrite exchange_refused by done. cbn [mbind result_bind]. by rewrite disconnect_absent.
Qed.

Lemma session_api rounds calls reads (d : core) s :
  browser_stream calls (stream reads) → progressing reads →
  length rounds = S (length calls) → Forall (connectable d s) rounds →
  policy_ok (dm_policy d) → Forall call_fits calls →
  ∃ outs s', host_session rounds reads d s =
      (outs, (api_run (rd_now <$> rounds) calls d).2, s', Exits0) ∧
    Forall2 response_written (api_run (rd_now <$> rounds) calls d).1 outs ∧
    sv_clients s' = sv_clients s.
Proof.
  intros Hbs. remember (stream reads) as bytes eqn:Hb. revert rounds reads d s Hb.
  induction Hbs as [|c calls message frame doc rest Hwr Hu Hdoc Hq _ IH];
    intros [|r rounds] reads d s Hb Hp Hlen Hrs Hpol Hcf; try discriminate Hlen.
  { exists [], s. cbn [host_session]. unfold session_round, host_round.
    by rewrite read_eof. }
  destruct (frame_read_back message frame reads rest Hwr Hu Hp (eq_sym Hb))
    as (reads' & Hm & Hp' & Hs').
  apply Forall_cons in Hrs as [Hr Hrs].
  apply Forall_cons in Hcf as [(text & Hd & Htl) Hcf].
  destruct (round_exact r reads message reads' doc (bc_op c) (bc_id c) (bc_params c) text d s)
    as (res & d' & msg & out & s' & Hapi & Hpol' & Hmsg & Hout & Hround & _ & Hcl); [by apply connectable_ready|done..|].
  assert (Hst' : ∀ now, status_json now d' = status_json now d).
  { intros now. rewrite <-(api_status (rd_now r) now (bc_op c) (bc_id c)
      (json_canon <$> bc_params c) d). by rewrite Hapi. }
  cbn [fmap list_fmap api_run host_session]. rewrite Hapi.
  fold (rd_now <$> rounds).
  destruct (IH rounds reads' d' s') as (outs & s2 & Hss & Hf2 & Hcl2); try done.
  - by injection Hlen.
  - eapply Forall_impl; [exact Hrs|]. intros r' [(? & ? & ? & ?) ?].
    unfold connectable, working_link. by rewrite Hcl, Hst'.
  - destruct (api_run (rd_now <$> rounds) calls d') as [replies d2]. cbn [fst snd] in *.
    rewrite Hround. cbn [hd_continue hd_browser]. rewrite Hss.
    eexists (_ :: outs), s2. split_and!; [done| |congruence].
    constructor; [by exists msg, out|done].
Qed.
End exchange.



(** The loop of the host ends: whatever the browser has written and whatever
    the daemon answers, it leaves the loop after at most one round per byte of
    its input and one for the end of it. *)
Theorem host_session_ends (L : JsonLib) (DB : Type) (SQL : Sqlite DB)
    (EB EE PB PE : Type) (CE : CaptureBackend EB EE) (CP : CaptureBackend PB PE) send
    rounds reads (d : Core DB EB PB) s :
  (length (stream reads) < length rounds)%nat → (host_session send rounds reads d s).2 ≠ Continues.
Proof. exact (session_ends send rounds reads d s). Qed.

(** ** Instances *)
Definition call_doc (c : BrowserCall) : json :=
  jobject [(lit "protocol_version", JUint 1); (lit "kind", JString "request");
    (lit "payload", jobject ([(lit "operation", JString (operation_name (bc_op c)));
                              (lit "request_id", JString (bc_id c))]
       ++ match bc_params c with Some p => [(lit "params", p)] | None => [] end))].
Definition call_message (c : BrowserCall) : cstring :=
  default [] (json_dump (JsonLib := TreeJson.lib) (call_doc c)).
Definition call_frame (c : BrowserCall) : cstring :=
  default [] (write_message (call_message c)).

Definition mask_call : BrowserCall :=
  mkBrowserCall SetPolicy "r-1"
    (Some (JObject [(lit "redaction", JObject [(lit "mode", JString "domain-mask")])])).
Definition query_call : BrowserCall := mkBrowserCall GetPolicy "r-2" None.

(** The socket delivers the first byte alone. *)
Definition split_first (f : cstring) : list cstring :=
  match f with [] => [] | [c] => [[c]] | c :: f => [[c]; f] end.
Definition sample_rounds : list Round :=
  (λ n, mkRound n 9 split_first) <$> [1; 2; 3].
Definition two_calls : list read_result :=
  [Chunk (call_frame mask_call ++ call_frame query_call)].

Lemma split_first_faithful : faithful_cut split_first.
Proof.
  intros [|c [|c' f]]; (split; [by cbn; rewrite ?app_nil_r|]);
    repeat (apply Forall_cons_2; [done|]); apply Forall_nil_2.
Qed.

Lemma mask_call_request :
  browser_request (call_doc mask_call) SetPolicy "r-1" (bc_params mask_call).
Proof.
  split; try reflexivity; [|vm_compute; split; discriminate|discriminate].
  eexists. split; [reflexivity|]. split_and!; reflexivity.
Qed.

Lemma query_call_request : browser_request (call_doc query_call) GetPolicy "r-2" None.
Proof.
  split; try reflexivity; [|vm_compute; split; discriminate|discriminate].
  eexists. split; [reflexivity|]. split_and!; reflexivity.
Qed.

(** The daemon of the instances, fresh and started. *)
Abbreviation sample_daemon := (Core TableDb.table EbpfBackend PcapBackend).
Abbreviation tree_session := (host_session (L := TreeJson.lib) (SQL := TableDb.lib)
  (CE := ebpf_backend) (CP := pcap_backend) (λ _ _, Some true)).
Abbreviation tree_api := (api_run (CE := ebpf_backend) (CP := pcap_backend)).

Definition fresh_daemon : sample_daemon := new_Core default_Config.

Lemma fresh_policy_ok : policy_ok (dm_policy fresh_daemon).
Proof. split; [split; [by vm_compute|constructor|by vm_compute]|constructor]. Qed.

Lemma sample_connectable :
  Forall (connectable (CE := ebpf_backend) (CP := pcap_backend)
    (λ _ _, Some true) fresh_daemon new_Server) sample_rounds.
Proof.
  apply Forall_fmap, Forall_forall. intros n Hn.
  split; [|by vm_compute]. split; [done|]. split; [done|]. split; [apply split_first_faithful|].
  cbn [rd_now]. repeat (apply elem_of_cons in Hn as [->|Hn]; [by vm_compute|]).
  by apply not_elem_of_nil in Hn.
Qed.

Lemma mask_frame :
  write_message (call_message mask_call) = Some (call_frame mask_call) ∧
  utf8_valid (call_message mask_call) = true ∧
  json_parse (JsonLib := TreeJson.lib) (call_message mask_call) = Some (call_doc mask_call).
Proof. split_and!; vm_compute; reflexivity. Qed.

Lemma query_frame :
  write_message (call_message query_call) = Some (call_frame query_call) ∧
  utf8_valid (call_message query_call) = true ∧
  json_parse (JsonLib := TreeJson.lib) (call_message query_call) = Some (call_doc query_call).
Proof. split_and!; vm_compute; reflexivity. Qed.

Lemma two_calls_stream :
  browser_stream (L := TreeJson.lib) [mask_call; query_call] (stream two_calls).
Proof.
  destruct mask_frame as (M1 & M2 & M3). destruct query_frame as (Q1 & Q2 & Q3).
  unfold two_calls, stream. cbn [mbind list_bind]. rewrite app_nil_r.
  rewrite <-(app_nil_r (call_frame query_call)).
  eapply stream_call; [exact M1|exact M2|exact M3|apply mask_call_request|].
  eapply stream_call; [exact Q1|exact Q2|exact Q3|apply query_call_request|]. constructor.
Qed.

(** The policy is set, and the query that follows reports it. *)
Definition masked_policy : Policy := set_mode DomainMask new_PolicyEngine.

Lemma two_calls_api :
  tree_api (rd_now <$> sample_rounds) [mask_call; query_call] fresh_daemon =
    ([(lit "r-1", Ok (to_json masked_policy)); (lit "r-2", Ok (to_json masked_policy))],
     set_engine masked_policy fresh_daemon).
Proof. vm_compute. reflexivity. Qed.

Lemma call_fits_by_size {L : JsonLib} c text :
  json_dump (request_json (bc_op c) (bc_id c) (json_canon <$> bc_params c)) = Some text →
  (zlen text <? kMaxRequestBytes) = true → call_fits c.
Proof. intros Hd H%Z.ltb_lt. by exists text. Qed.

Lemma sample_calls_fit : Forall (call_fits (L := TreeJson.lib)) [mask_call; query_call].
Proof.
  repeat (apply Forall_cons_2; [eapply call_fits_by_size; vm_compute; reflexivity|]).
  apply Forall_nil_2.
Qed.


Lemma host_session_ends_witness :
  (tree_session sample_rounds [Interrupted; Chunk (lit "ab")] fresh_daemon new_Server).2
  ≠ Continues.
Proof.
  apply (host_session_ends TreeJson.lib TableDb.table TableDb.lib
    EbpfBackend EbpfEnv PcapBackend PcapEnv ebpf_backend pcap_backend (λ _ _, Some true)
    sample_rounds [Interrupted; Chunk (lit "ab")] fresh_daemon new_Server).
  vm_compute. lia.
Defined.

