(* ===== verification/Robustness.v ===== *)
(** * The daemon survives whatever the network and its clients send

    The composition of the packet handler ([src/capture/pcap]), the policy
    engine, the socket server, the request handler and the store
    ([src/daemon/daemon.cpp]).  Nothing catches an exception that leaves a
    capture or reader thread, and the JSON encoder throws on text that is not
    UTF-8: here every text that the pcap path or a request can bring to the
    encoder is shown to be UTF-8, so that the only step of the daemon that does
    not return is a ninth subscription. *)
From S2P Require Import Prelude Double Json Types Time Redactor PolicyEngine Correlator.
From S2P Require Import PacketParser EventNormalizer PcapCapture EbpfCapture.
From S2P Require Import IpcCodec IpcServer Config Storage Daemon NativeHost EndToEnd.
Open Scope Z_scope.

(** ** Plain text *)
Definition plain (s : cstring) : Prop := Forall (λ c, ord c < 128) s.

Create HintDb plain discriminated.

Lemma plain_utf8 s : plain s → utf8_valid s = true.
Proof. apply utf8_valid_ascii. Qed.

Lemma plain_app a b : plain a → plain b → plain (a ++ b).
Proof. apply Forall_app_2. Qed.

Lemma plain_nil : plain [].
Proof. constructor. Qed.

Lemma plain_cons c s : ord c < 128 → plain s → plain (c :: s).
Proof. by constructor. Qed.

Lemma hex_alphabet_plain c : c ∈ hex_alphabet → ord c < 128.
Proof.
  intros Hc. assert (H : plain hex_alphabet) by (by repeat constructor).
  unfold plain in H. rewrite Forall_forall in H. by apply H.
Qed.

Lemma plain_hex_of n z : plain (hex_of n z).
Proof. eapply Forall_impl; [apply hex_of_alphabet|apply hex_alphabet_plain]. Qed.

Lemma plain_hex_bytes l : plain (hex_bytes l).
Proof.
  induction l as [|b l IH]; [apply plain_nil|]. cbn [hex_bytes mbind list_bind].
  apply plain_app; [apply plain_hex_of|exact IH].
Qed.

(** Decimal numbers. *)
Lemma plain_digit x : ord (pretty_N_char x) < 128.
Proof. unfold pretty_N_char. by repeat case_match. Qed.

Lemma plain_pretty_N_go x s : plain (lit s) → plain (lit (pretty_N_go x s)).
Proof.
  revert s. induction (N.lt_wf_0 x) as [x _ IH]; intros s Hs.
  assert (x = 0 ∨ 0 < x)%N as [->|Hx] by lia; [by rewrite pretty_N_go_0|].
  rewrite pretty_N_go_step by done. apply IH; [by apply N.div_lt|].
  apply plain_cons; [apply plain_digit|done].
Qed.

Lemma plain_pretty_N (x : N) : plain (lit (pretty x)).
Proof.
  unfold pretty, pretty_N. case_decide; [by repeat constructor|].
  apply plain_pretty_N_go, plain_nil.
Qed.

Lemma plain_to_string z : plain (to_string z).
Proof.
  unfold to_string. destruct z as [|p|p]; [by repeat constructor|apply (plain_pretty_N (Npos p))|].
  apply plain_cons; [done|apply (plain_pretty_N (Npos p))].
Qed.

Lemma plain_printf w z : plain (printf_0d w z).
Proof.
  assert (Hp : ∀ w s, plain s → plain (pad_zeros w s)).
  { intros w' s Hs. apply plain_app; [|done]. by apply Forall_replicate. }
  unfold printf_0d. destruct (z <? 0); [apply plain_cons; [done|]|]; apply Hp, plain_to_string.
Qed.

#[local] Hint Resolve plain_app plain_nil plain_hex_of plain_hex_bytes plain_printf : plain.
#[local] Hint Extern 1 (plain (lit _)) => (by repeat constructor) : plain.
#[local] Hint Extern 1 (plain (_ :: _)) => (by repeat constructor) : plain.

Lemma plain_rfc3339 tp : plain (to_rfc3339 tp).
Proof. unfold to_rfc3339. repeat apply plain_app; auto with plain. Qed.

Lemma plain_uuid u counter : plain (random_uuid u counter).1.
Proof. unfold random_uuid, format_uuid. repeat apply plain_app; auto with plain. Qed.

Lemma dns_name_char_plain c : dns_name_char c = true → ord c < 128.
Proof. by destruct c as [[] [] [] [] [] [] [] []]; vm_compute. Qed.

Lemma dns_name_plain s : Forall (λ c, dns_name_char c = true) s → plain s.
Proof. intros H. eapply Forall_impl; [exact H|apply dns_name_char_plain]. Qed.

Lemma transform_plain mode host : plain host → plain (transform_hostname mode host).
Proof. apply transform_hostname_Forall; [apply hex_alphabet_plain|done]. Qed.

(** The redactor keeps a plain name plain. *)
Lemma redact_dns_name_plain r name : plain name → plain (redact_dns_name r name).1.
Proof.
  intros H. unfold redact_dns_name. destruct (is_empty name); [apply plain_nil|].
  destruct (domain_excluded _ _); [apply plain_nil|].
  destruct (po_redaction_mode _); try done; [apply plain_hex_of|by apply transform_plain].
Qed.

(** ** Captured packets

    [inet_ntop] writes an address in presentation form: digits, letters, dots
    and colons. *)
Definition ntop_plain (ntop : list Z → option cstring) : Prop :=
  ∀ bytes s, ntop bytes = Some s → plain s.

(** A network part whose encoding cannot fail, before and after redaction. *)
Definition network_text (n : NetworkInfo) : Prop :=
  plain (net_local_address n) ∧ plain (net_remote_address n) ∧
  plain (net_dns_query_name n) ∧ utf8_valid (net_interface n) = true.

(** What the packet handler passes to the pipeline. *)
Record packet_event (e : Event) : Prop := mkPacketEvent {
  pe_id : plain (ev_event_id e);
  pe_correlation : ev_correlation_id e = [];
  pe_process : ev_process e = None;
  pe_network : ∃ n, ev_network e = Some n ∧ network_text n;
  pe_browser : ev_browser e = None;
  pe_privacy : pv_metadata_only (ev_privacy e) = true;
  pe_statuses : ev_backend_statuses e = [];
  pe_error : ev_error_code e = [] ∧ ev_error_message e = [];
}.

Section packets.
Context (ntop4 ntop6 : list Z → option cstring) (H4 : ntop_plain ntop4) (H6 : ntop_plain ntop6).

Definition addresses_plain (m : PacketMetadata) : Prop :=
  plain (md_local_address m) ∧ plain (md_remote_address m).

Lemma format_plain ntop bytes : ntop_plain ntop → plain (default [] (ntop bytes)).
Proof.
  intros H. destruct (ntop bytes) as [s|] eqn:E; [by apply H in E|apply plain_nil].
Qed.

Lemma ip_meta_plain t ntop src dst :
  ntop_plain ntop → addresses_plain (ip_meta t (default [] (ntop src)) (default [] (ntop dst))).
Proof. intros H. split; by apply format_plain. Qed.

Lemma default_meta_plain : addresses_plain default_meta.
Proof. split; apply plain_nil. Qed.

(** Peel the reads and tests off a parser that has returned. *)
Ltac peel H :=
  repeat match type of H with
  | (if ?b then _ else _) = Some _ => destruct b
  | (_ ← ?m; _) = Some _ => destruct m; cbn [mbind option_bind] in H; [|discriminate H]
  end.

Lemma parse_ip_plain frame r :
  parse_ip ntop4 ntop6 frame = Some r →
  match r with Ok (m, _) => addresses_plain m | Err m => addresses_plain m end.
Proof.
  unfold parse_ip, format_ipv4, format_ipv6. intros H. peel H; injection H as <-;
    first [apply default_meta_plain|by apply ip_meta_plain].
Qed.

Lemma parse_transport_plain frame m offset m' :
  parse_transport frame m offset = Some m' → addresses_plain m → addresses_plain m'.
Proof.
  unfold parse_transport. intros H Hm. destruct (md_transport m); peel H;
    repeat match type of H with context [let '(_, _) := ?p in _] => destruct p end;
    by injection H as <-.
Qed.

Lemma parse_frame_plain frame m :
  parse_ethernet_frame ntop4 ntop6 frame = Some m → addresses_plain m.
Proof.
  unfold parse_ethernet_frame. destruct (_ <? _)%nat; [intros [= <-]; apply default_meta_plain|].
  destruct (parse_ip ntop4 ntop6 frame) as [r|] eqn:E; [|done]. cbn [mbind option_bind].
  apply parse_ip_plain in E. destruct r as [[m1 o]|m1]; [|by intros [= <-]].
  intros H. by eapply parse_transport_plain.
Qed.

Lemma handle_packet_event ifc hdr bytes u counter e counter' :
  utf8_valid ifc = true →
  handle_packet ntop4 ntop6 ifc hdr bytes u counter = Some (Some e, counter') → packet_event e.
Proof.
  intros Hifc. unfold handle_packet. destruct (_ <? _); [done|].
  destruct (parse_ethernet_frame_spec ntop4 ntop6 bytes) as (m & Hm & Hok).
  pose proof (parse_frame_plain _ _ Hm) as [Hl Hr]. rewrite Hm. cbn [mbind option_bind].
  destruct (md_valid m); [|done]. destruct (Hok eq_refl) as (_ & _ & _ & (_ & _ & Hn & _) & _).
  cbn [negb]. destruct (is_dns m); intros [= <- _]; (split; [apply plain_uuid|done|done| |done..]);
    eexists; (split; [reflexivity|]); (split_and!; [done..| |done]); cbn;
    [by apply dns_name_plain|apply plain_nil].
Qed.
End packets.

Lemma packet_event_utf8 e : packet_event e → event_utf8 e.
Proof.
  intros [Hid Hc Hp (n & Hn & Hl & Hr & Hd & Hi) Hb _ Hs [He Hm]].
  split; rewrite ?Hc, ?Hp, ?Hn, ?Hb, ?Hs, ?He, ?Hm; try done.
  - by apply plain_utf8.
  - apply plain_utf8, plain_rfc3339.
  - intros n' [= <-]. split_and!; [by apply plain_utf8..|done].
Qed.

(** Correlation without navigations and the policy keep such an event, under
    its identifier, and never drop it. *)
Lemma correlate_packet now e :
  packet_event e →
  (correlate new_Correlator now e).1 = new_Correlator ∧
  packet_event (correlate new_Correlator now e).2 ∧
  ev_event_id (correlate new_Correlator now e).2 = ev_event_id e.
Proof.
  intros He. destruct (correlate_nothing now e (pe_browser e He)) as [H1 [H2 _]].
  split; [done|]. revert H2. unfold correlate. destruct (negb _); [by cbn|].
  cbn [snd with_attribution ev_browser]. intros H2. destruct He. split; [|done]. by split.
Qed.

Lemma apply_packet p e :
  packet_event e →
  (apply p e).1 ≠ Drop ∧ packet_event (apply p e).2 ∧ ev_event_id (apply p e).2 = ev_event_id e.
Proof.
  intros [Hid Hc Hp (n & Hn & Hl & Hr & Hd & Hi) Hb Hpv Hs He]. unfold apply. rewrite Hpv.
  cbn [negb]. destruct (apply_network _ _) as [[net r1] red] eqn:Hnet.
  apply apply_network_spec in Hnet as [-> _]. rewrite Hn, Hb. cbn [fmap option_fmap option_map].
  cbn [apply_browser]. split; [by destruct (red || false)|]. cbn [snd].
  split; [|done]. split; try done.
  eexists. split; [reflexivity|]. split_and!; [done..| |done]. by apply redact_dns_name_plain.
Qed.

(** A broadcast that returns has written its line to every subscriber whose
    socket took it; otherwise it waits for one of them. *)
Lemma broadcast_loop_returns {L : JsonLib} send subs msg s :
  Forall (λ fc, client_inv fc.2) subs →
  match broadcast_loop send subs msg s with
  | Ok s' => sv_sent s `prefix_of` sv_sent s' ∧
      ∀ fd c, (fd, c) ∈ subs → send fd (msg ++ [newline]) = Some true →
        (fd, msg ++ [newline]) ∈ sv_sent s'
  | Err a => a = Stalled ∧ ∃ fd c, (fd, c) ∈ subs ∧ send fd (msg ++ [newline]) = None
  end.
Proof.
  intros H. revert s. induction H as [|[fd c] subs Hc _ IH]; intros s; cbn [broadcast_loop].
  { split; [done|]. by intros ? ? ?%not_elem_of_nil. }
  pose proof (deliver_cases send fd c msg s (ci_queue _ Hc)) as Hd.
  destruct (send fd (msg ++ [newline])) as [b|] eqn:Hsend.
  2:{ rewrite Hd. split; [done|]. exists fd, c. split; [by left|done]. }
  destruct Hd as (s1 & -> & _ & _ & Hsent). cbn [mbind result_bind].
  specialize (IH (set_clients s1 (<[fd:=c]> (sv_clients s1)))).
  destruct (broadcast_loop _ _ _ _) as [s2|a].
  2:{ destruct IH as (-> & fd' & c' & Hin & Hn). split; [done|]. exists fd', c'. split; [by right|done]. }
  destruct IH as [Hpre Hall]. cbn [sv_sent set_clients] in Hpre. rewrite Hsent in Hpre.
  split; [by eapply prefix_app_l|].
  intros fd' c' [[= -> ->]|Hin]%elem_of_cons Hok; [|by eapply Hall].
  eapply elem_of_prefix; [|exact Hpre]. apply elem_of_app. right. unfold line_written.
  rewrite decide_True by done. by left.
Qed.

(** Errors of the protocol are written in plain text. *)
Lemma parse_request_error {L : JsonLib} frame max e :
  parse_request frame max = Err e → utf8_valid (err_message e) = true.
Proof.
  unfold parse_request, parse_params, ensure. intros H.
  repeat (case_match; cbn [mbind result_bind] in H; try discriminate H;
    try (injection H as <-; reflexivity)).
Qed.

Section robust.
Context {L : JsonLib} {HL : JsonLaws L} {DB : Type} {SQL : Sqlite DB}.
Context {EB EE PB PE : Type} {CE : CaptureBackend EB EE} {CP : CaptureBackend PB PE}.
Context (send : Z → cstring → option bool).

Abbreviation core := (Core DB EB PB).

(** ** Capture *)

(** The event that leaves the pipeline. *)
Definition outgoing now (e : Event) (d : core) : Event :=
  (apply (dm_policy d) (correlate (dm_correlator d) now e).2).2.

(** Every subscriber whose socket takes the line gets it. *)
Definition delivered (e : Event) (s s' : Server) : Prop :=
  ∃ msg, encode_event e = Some msg ∧
    ∀ fd c, sv_clients s !! fd = Some c → cl_subscriptions c ≠ ∅ →
      send fd (msg ++ [newline]) = Some true → (fd, msg ++ [newline]) ∈ sv_sent s'.

(** A client that the daemon writes to does not read. *)
Definition subscriber_waits (s : Server) : Prop :=
  ∃ fd c line, sv_clients s !! fd = Some c ∧ cl_subscriptions c ≠ ∅ ∧ send fd line = None.

Lemma subscriber_nonempty s fd c :
  (fd, c) ∈ subscribers s ↔ sv_clients s !! fd = Some c ∧ cl_subscriptions c ≠ ∅.
Proof. rewrite subscribers_spec. unfold subscribed. case_bool_decide; naive_solver. Qed.

Lemma broadcast_step_returns e s :
  server_inv s → packet_event e →
  match broadcast send e s with
  | Ok s' => sv_sent s `prefix_of` sv_sent s' ∧ delivered e s s'
  | Err a => a = Stalled ∧ subscriber_waits s
  end.
Proof.
  intros [_ Hinv] He. unfold broadcast, delivered, encode_event.
  destruct (dump_defined _ (event_json_utf8 e (packet_event_utf8 e He))) as [msg ->].
  cbn [encoded mbind result_bind].
  assert (Hsubs : Forall (λ fc, client_inv fc.2) (subscribers s)).
  { apply Forall_forall. intros [fd c] [Hfd _]%subscribers_spec.
    exact (map_Forall_lookup_1 _ _ _ _ Hinv Hfd). }
  pose proof (broadcast_loop_returns send (subscribers s) msg s Hsubs) as Hb.
  destruct (broadcast_loop _ _ _ _) as [s'|a].
  - destruct Hb as [Hp Hall]. split; [done|]. exists msg. split; [done|].
    intros fd c Hfd Hne. apply (Hall fd c). by apply subscriber_nonempty.
  - destruct Hb as (-> & fd & c & Hin & Hn). split; [done|].
    apply subscriber_nonempty in Hin as [Hfd Hne]. by eexists fd, c, _.
Qed.

Definition counters (d : core) : Z * Z := (dm_events_seen d, dm_events_published d).
Definition count_packet (n : Z * Z) : Z * Z := (u64 (n.1 + 1), u64 (n.2 + 1)).

Lemma store_if_total uninit e (d : core) :
  packet_event e → ∃ d', store_if uninit e d = Ok d' ∧ counters d' = counters d.
Proof.
  intros He. unfold store_if. destruct (dm_store d) as [so|]; [|by eexists].
  assert (∃ ok so', store_object uninit e so = Ok (ok, so')) as (ok & so' & ->).
  { unfold store_object, store, encode_event. destruct so as [st|]; [|by do 2 eexists].
    destruct (ss_failed st); [by do 2 eexists|].
    destruct (dump_defined _ (event_json_utf8 e (packet_event_utf8 e He))) as [msg ->].
    cbn [mbind option_bind]. destruct (enqueue _ _) as [ok st']. by do 2 eexists. }
  by destruct ok; eexists.
Qed.

(** A captured packet is counted and written to the subscribers, whatever the
    policy. *)
Lemma capture_step_returns now uninit e (d : core) s :
  packet_event e → dm_correlator d = new_Correlator → server_inv s →
  match on_capture_event send now uninit e d (Some s) with
  | Ok (d', Some s') => counters d' = count_packet (counters d) ∧
      sv_sent s `prefix_of` sv_sent s' ∧ delivered (outgoing now e d) s s'
  | Ok (_, None) => False
  | Err a => a = Stalled ∧ subscriber_waits s
  end.
Proof.
  intros He Hco Hs. unfold on_capture_event, outgoing. cbn [dm_correlator set_counters].
  rewrite Hco. destruct (correlate_packet now e He) as (_ & H1 & _).
  destruct (correlate new_Correlator now e) as [co e1]. cbn [snd] in H1 |- *.
  cbn [dm_policy set_correlator set_counters].
  destruct (apply_packet (dm_policy d) e1 H1) as (Hdrop & H2 & _).
  destruct (apply (dm_policy d) e1) as [dec e2]. cbn [fst snd] in Hdrop, H2 |- *.
  rewrite bool_decide_false by done. cbn [broadcast_if].
  pose proof (broadcast_step_returns e2 s Hs H2) as Hb.
  destruct (broadcast send e2 s) as [s1|a]; cbn [fmap result_fmap mbind result_bind]; [|done].
  match goal with |- context [store_if uninit e2 ?x] =>
    destruct (store_if_total uninit e2 x H2) as (d1 & -> & Hc) end.
  cbn [mbind result_bind]. split; [|done]. unfold counters in *. cbn in Hc |- *.
  by injection Hc as -> ->.
Qed.

(** ** Requests *)
Lemma encode_error_defined id e :
  utf8_valid id = true → utf8_valid (err_message e) = true → is_Some (encode_error id e).
Proof.
  intros Hid He. unfold encode_error, encode_response. apply dump_defined.
  unfold response_json. cbn [rs_request_id rs_ok rs_error]. fields_utf8. fields_utf8.
  by destruct (err_code e).
Qed.

Lemma handle_request_error now rq (d : core) rs d' :
  handle_request now rq d = Ok (rs, d') → rs_ok rs = false →
  utf8_valid (err_message (rs_error rs)) = true.
Proof.
  unfold handle_request, ok_response, err_response. intros H Hok.
  destruct (rq_operation rq); try (destruct (encoded _); [|done]; by injection H as <- <-).
  - destruct (json_parse _) as [[| | | | | | |kvs]|]; try (by injection H as <- <-).
    destruct (update_from_json (dm_policy d) (JObject kvs)) as [p|e] eqn:Hup.
    + destruct (encoded _); [|done]. by injection H as <- <-.
    + injection H as <- <-. by eapply update_from_json_error.
  - by injection H as <- <-.
Qed.

(** Every answer of the handler can be written. *)
Lemma response_defined now rq (d : core) rs d' :
  handle_request now rq d = Ok (rs, d') → utf8_valid (rs_request_id rs) = true →
  is_Some (encode_response rs).
Proof.
  intros H Hid. apply dump_defined. unfold response_json.
  destruct (rs_ok rs) eqn:Hok; fields_utf8.
  - cbn [snd]. unfold response_result. destruct (is_empty _); [done|].
    destruct (json_parse _) as [j|] eqn:Hj; [|done]. by apply parse_wf in Hj as [_ Hj].
  - fields_utf8; [by destruct (err_code (rs_error rs))|]. by eapply handle_request_error.
Qed.

(** The one request that is not answered: a subscription of a client that
    holds as many as it may. *)
Definition ninth_subscription (c : Client) (frame : cstring) : Prop :=
  ∃ rq, parse_request frame kMaxRequestBytes = Ok rq ∧ rq_operation rq = Subscribe ∧
    kMaxSubscriptionsPerClient ≤ Z.of_nat (size (cl_subscriptions c)).

(** How a reader's work on the client [fd] can end. *)
Definition reader_outcome {X} (fd : Z) (ninth : Prop) (r : result abort X) : Prop :=
  match r with
  | Ok _ => True
  | Err Deadlock => ninth
  | Err Stalled => ∃ line, send fd line = None
  | Err Uncaught => False
  end.

Lemma reply_returns fd c m (s : Server) (d : core) ninth :
  is_Some m → cl_out_queue c = [] →
  reader_outcome fd ninth
    (msg ← encoded m; '(c, s) ← deliver send false fd c msg s; Ok (c, s, d)).
Proof.
  intros [msg ->] Hq. cbn [encoded mbind result_bind].
  pose proof (deliver_cases send fd c msg s Hq) as Hd.
  destruct (send fd (msg ++ [newline])) eqn:Hs; [destruct Hd as (s1 & -> & _); done|].
  rewrite Hd. by eexists.
Qed.

Lemma update_subscriptions_queue rq rs c :
  cl_out_queue (update_subscriptions rq rs c) = cl_out_queue c.
Proof. unfold update_subscriptions. by repeat case_match. Qed.

Lemma handle_frame_returns now fd c frame s (d : core) :
  client_inv c → policy_ok (dm_policy d) →
  reader_outcome fd (ninth_subscription c frame)
    (handle_frame (handle_request now) send fd c frame s d).
Proof.
  intros Hc [_ Hp]. unfold handle_frame, ninth_subscription.
  destruct (parse_request frame kMaxRequestBytes) as [rq|e] eqn:Hrq.
  2:{ apply reply_returns; [|apply Hc]. apply encode_error_defined; [done|].
      by eapply parse_request_error. }
  pose proof (parse_request_id_utf8 _ _ _ Hrq) as Hid.
  destruct (bool_decide (rq_operation rq = Subscribe) && _) eqn:Hlim.
  { apply andb_prop in Hlim as [Hop Hlim]. apply bool_decide_eq_true in Hop.
    apply Z.leb_le in Hlim.
    destruct (encode_error_defined (rq_request_id rq)
      (mkIpcError TooManySubscriptions "subscription limit reached") Hid eq_refl) as [msg Hm].
    unfold subscription_limit. rewrite Hm. cbn. by exists rq. }
  destruct (bool_decide (rq_operation rq = Shutdown)).
  { apply reply_returns; [|apply Hc]. by apply encode_error_defined. }
  destruct (handle_request_total now rq d Hid Hp) as (rs & d' & Hh & Hrs & _).
  rewrite Hh. cbn [mbind result_bind]. apply reply_returns.
  - eapply response_defined; [exact Hh|]. by rewrite Hrs.
  - rewrite update_subscriptions_queue. apply Hc.
Qed.

(** The request of [frames] at which the reader stops. *)
Definition stops_at now fd c (frames : list cstring) s (d : core) : Prop :=
  ∃ before frame after c' s' d', frames = before ++ frame :: after ∧
    handle_frames (handle_request now) send fd c before s d = Ok (c', s', d') ∧
    ninth_subscription c' frame.

Lemma handle_frames_returns now fd frames c s (d : core) :
  client_inv c → policy_ok (dm_policy d) →
  reader_outcome fd (stops_at now fd c frames s d)
    (handle_frames (handle_request now) send fd c frames s d).
Proof.
  revert c s d. induction frames as [|f frames IH]; intros c s d Hc Hp; [done|].
  cbn [handle_frames]. pose proof (handle_frame_returns now fd c f s d Hc Hp) as Hx.
  destruct (handle_frame _ _ _ _ _ _ _) as [[[c1 s1] d1]|a] eqn:Hf.
  2:{ destruct a; [|done..]. by exists [], f, frames, c, s, d. }
  cbn [mbind result_bind]. destruct (handle_frame_inv _ _ _ _ _ _ _ _ _ _ Hf Hc) as [Hc1 _].
  assert (Hp1 : policy_ok (dm_policy d1)).
  { pose proof Hf as Hk.
    eapply (handle_frame_keeps (handle_request now) send (λ x : core, policy_ok (dm_policy x)))
      in Hk; [by apply Hk|intros; by eapply handle_request_policy_ok|done]. }
  specialize (IH c1 s1 d1 Hc1 Hp1). destruct (handle_frames _ _ _ _ _ _ _) as [r|[]]; try done.
  destruct IH as (a & g & b & c2 & s2 & d2 & -> & Ha & H9).
  exists (f :: a), g, b, c2, s2, d2. split; [done|]. split; [|done].
  cbn [handle_frames]. rewrite Hf. cbn [mbind result_bind]. exact Ha.
Qed.

(** The bytes that a ninth subscription completes. *)
Definition blocks_reader now fd chunk (d : core) s : Prop :=
  ∃ c frames rx, sv_clients s !! fd = Some c ∧
    split_frames (cl_rx_buffer c ++ chunk) kMaxRequestBytes [] = (Ok (), frames, rx) ∧
    stops_at now fd (mkClient rx (cl_subscriptions c) (cl_out_queue c)) frames s d.

Lemma receive_returns now fd chunk s (d : core) :
  server_inv s → policy_ok (dm_policy d) →
  reader_outcome fd (blocks_reader now fd chunk d s)
    (receive (handle_request now) send fd chunk s d).
Proof.
  intros [_ Hinv] Hp. unfold receive, blocks_reader.
  destruct (sv_clients s !! fd) as [c|] eqn:Hfd; [|done].
  assert (Hc := map_Forall_lookup_1 _ _ _ _ Hinv Hfd). cbn in Hc.
  destruct (split_frames _ _ []) as [[[u|err] frames] rx] eqn:Hs.
  - destruct u. pose proof (split_frames_ok_lines _ _ _ _ _ Hs) as [Hf _].
    assert (zlen rx < kMaxRequestBytes).
    { rewrite Hf in Hs. by apply split_frames_iff in Hs as (_ & _ & Hrx). }
    pose proof (handle_frames_returns now fd frames
      (mkClient rx (cl_subscriptions c) (cl_out_queue c)) s d) as Hx.
    destruct (handle_frames _ _ _ _ _ _ _) as [[[c1 s1] d1]|[]]; [done| |
      (by apply Hx; [split; [apply Hc|apply Hc|]|])..].
    exists c, frames, rx. split; [done|]. split; [done|].
    apply Hx; [by split; [apply Hc|apply Hc|]|done].
  - apply split_frames_error in Hs as ->.
    destruct (encode_error_defined [] too_large eq_refl eq_refl) as [msg ->].
    cbn [encoded mbind result_bind].
    pose proof (deliver_cases send fd (mkClient rx (cl_subscriptions c) (cl_out_queue c))
      msg s (ci_queue _ Hc)) as Hd.
    destruct (send fd _) eqn:Hn; [destruct Hd as (s1 & -> & _); done|]. rewrite Hd. by eexists.
Qed.

(** ** Any sequence of steps *)

(** The steps that the network and the clients cause: packets of an interface
    whose name is UTF-8, connections, bytes received, and the store's rounds. *)
Definition from_network (ntop4 ntop6 : list Z → option cstring) (op : daemon_op) : Prop :=
  match op with
  | DNavigate _ | DProcesses _ => False
  | DCapture _ _ e => ∃ ifc hdr bytes u counter counter', utf8_valid ifc = true ∧
      handle_packet ntop4 ntop6 ifc hdr bytes u counter = Some (Some e, counter')
  | _ => True
  end.

Definition is_capture (op : daemon_op) : bool :=
  match op with DCapture _ _ _ => true | _ => false end.

Definition robust_inv (d : core) (s : Server) : Prop := ready_inv d s ∧ wired_inv d.

(** What a step leaves: the counters, what was written before, and for a packet
    the line of each subscriber. *)
Definition step_done (op : daemon_op) (d : core) s (d' : core) s' : Prop :=
  counters d' = (if is_capture op then count_packet (counters d) else counters d) ∧
  sv_sent s `prefix_of` sv_sent s' ∧
  match op with DCapture now _ e => delivered (outgoing now e d) s s' | _ => True end.

(** Why a step does not return. *)
Definition step_blocks (op : daemon_op) (d : core) (s : Server) : Prop :=
  match op with DReceive now fd chunk => blocks_reader now fd chunk d s | _ => False end.
Definition step_waits (op : daemon_op) (s : Server) : Prop :=
  match op with
  | DCapture _ _ _ => subscriber_waits s
  | DReceive _ fd _ => ∃ line, send fd line = None
  | _ => False
  end.

Lemma receive_done now fd chunk s (d : core) s' d' :
  receive (handle_request now) send fd chunk s d = Ok (s', d') → server_inv s →
  counters d' = counters d ∧ sv_sent s `prefix_of` sv_sent s'.
Proof.
  intros H Hs.
  apply (receive_written (handle_request now) send (λ x : core, counters x = counters d)
    (λ _, True)) in H; [|clear|done|done|done].
  - destruct H as [(new & Hn & _) Hc]. split; [done|]. by exists new.
  - intros rq d1 rs d2. unfold handle_request, ok_response, err_response. intros H Hd.
    destruct (rq_operation rq);
      repeat (case_match; try done); try (by injection H as <- <-);
      (destruct (encoded _); [|done]); by injection H as <- <-.
Qed.

Lemma map_store_counters f (d : core) : counters (map_store f d) = counters d.
Proof. unfold map_store. by destruct (dm_store d) as [[]|]. Qed.

Lemma accept_sent fd a t s : sv_sent (accept_connection fd a t s) = sv_sent s.
Proof. unfold accept_connection. by repeat case_match. Qed.

Context (ntop4 ntop6 : list Z → option cstring) (H4 : ntop_plain ntop4) (H6 : ntop_plain ntop6).

Lemma from_network_wired op : from_network ntop4 ntop6 op → wired op.
Proof.
  destruct op; try done. intros (ifc & hdr & bytes & u & n & n' & Hifc & Hp).
  by apply (handle_packet_event ntop4 ntop6 H4 H6) in Hp as [].
Qed.

Lemma step_returns op (d : core) s :
  from_network ntop4 ntop6 op → robust_inv d s →
  match daemon_exec send op d s with
  | Ok (d', s') => step_done op d s d' s'
  | Err Deadlock => step_blocks op d s
  | Err Stalled => step_waits op s
  | Err Uncaught => False
  end.
Proof.
  intros Hop [[Hs Hp] [Hco _]]. unfold step_done.
  destruct op as [now u e|obs|ps|fd a t|now fd chunk|fd| |wall];
    cbn [daemon_exec from_network is_capture step_blocks step_waits] in *; try done;
    try (by rewrite ?map_store_counters, ?accept_sent).
  - destruct Hop as (ifc & hdr & bytes & ur & n & n' & Hifc & Hpk).
    apply (handle_packet_event ntop4 ntop6 H4 H6) in Hpk; [|done].
    pose proof (capture_step_returns now u e d s Hpk Hco Hs) as Hc.
    destruct (on_capture_event _ _ _ _ _ _) as [[d' [s'|]]|a]; [done..|].
    destruct Hc as [-> Hw]. done.
  - pose proof (receive_returns now fd chunk s d Hs Hp) as Hr.
    destruct (receive _ _ _ _ _ _) as [[s' d']|[]] eqn:Hx; cbn [mbind result_bind]; try done.
    by destruct (receive_done _ _ _ _ _ _ _ Hx Hs).
Qed.

Fixpoint count_packets (ops : list daemon_op) (n : Z * Z) : Z * Z :=
  match ops with
  | [] => n
  | op :: ops => count_packets ops (if is_capture op then count_packet n else n)
  end.

(** What a sequence of steps leaves. *)
Definition steps_done (ops : list daemon_op) (d : core) s (d' : core) s' : Prop :=
  counters d' = count_packets ops (counters d) ∧ sv_sent s `prefix_of` sv_sent s' ∧
  ∀ before now u e after d1 s1, ops = before ++ DCapture now u e :: after →
    daemon_execs send before d s = Ok (d1, s1) → delivered (outgoing now e d1) s1 s'.

Definition stopped_by (blocks : daemon_op → core → Server → Prop) ops (d : core) s : Prop :=
  ∃ before op after d' s', ops = before ++ op :: after ∧
    daemon_execs send before d s = Ok (d', s') ∧ blocks op d' s'.

Lemma stopped_by_cons blocks op ops (d : core) s d1 s1 :
  daemon_exec send op d s = Ok (d1, s1) → stopped_by blocks ops d1 s1 →
  stopped_by blocks (op :: ops) d s.
Proof.
  intros Hx (a & g & b & d2 & s2 & -> & Ha & Hb). exists (op :: a), g, b, d2, s2.
  split; [done|]. split; [|done]. cbn [daemon_execs]. rewrite Hx. cbn [mbind result_bind]. exact Ha.
Qed.

Lemma delivered_prefix e s s1 s2 :
  delivered e s s1 → sv_sent s1 `prefix_of` sv_sent s2 → delivered e s s2.
Proof.
  intros (msg & Hm & H) Hp. exists msg. split; [done|]. intros fd c Hfd Hne Hs.
  eapply elem_of_prefix; [|exact Hp]. by eapply H.
Qed.

Lemma steps_done_cons op ops (d : core) s d1 s1 d2 s2 :
  daemon_exec send op d s = Ok (d1, s1) → step_done op d s d1 s1 →
  steps_done ops d1 s1 d2 s2 → steps_done (op :: ops) d s d2 s2.
Proof.
  intros Hx (Hc & Hp & Hd) (Hc2 & Hp2 & Hd2). split; [|split].
  - cbn [count_packets]. by rewrite <-Hc.
  - by etrans.
  - intros [|op' before] now u e after d3 s3 [= -> Heq]; cbn [daemon_execs].
    + intros [= <- <-]. by eapply delivered_prefix.
    + rewrite Hx. cbn [mbind result_bind]. by eapply Hd2.
Qed.

Lemma steps_return ops (d : core) s :
  Forall (from_network ntop4 ntop6) ops → robust_inv d s →
  match daemon_execs send ops d s with
  | Ok (d', s') => steps_done ops d s d' s'
  | Err Deadlock => stopped_by step_blocks ops d s
  | Err Stalled => stopped_by (λ op _, step_waits op) ops d s
  | Err Uncaught => False
  end.
Proof.
  intros Hops. revert d s. induction Hops as [|op ops Hop _ IH]; intros d s Hinv.
  { split; [done|]. split; [done|]. intros [|]; done. }
  cbn [daemon_execs]. pose proof (step_returns op d s Hop Hinv) as Hx.
  destruct (daemon_exec send op d s) as [[d1 s1]|[]] eqn:He; cbn [mbind result_bind]; [|
    (by exists [], op, ops, d, s)|done|(by exists [], op, ops, d, s)].
  assert (Hinv1 : robust_inv d1 s1).
  { destruct Hinv as [Hr Hw]. split; [by eapply daemon_exec_ready|].
    eapply daemon_exec_wired; [exact He| |done]. by apply from_network_wired. }
  specialize (IH d1 s1 Hinv1).
  destruct (daemon_execs send ops d1 s1) as [[d2 s2]|[]]; [by eapply steps_done_cons|..|done|];
    by eapply stopped_by_cons.
Qed.
End robust.

Definition packets (ops : list daemon_op) : Z :=
  zlen (filter (λ op, is_capture op = true) ops).

Lemma u64_count a : u64 (u64 a + 1) = u64 (a + 1).
Proof. unfold u64. by rewrite Zplus_mod_idemp_l. Qed.

Lemma count_packets_spec ops a b :
  count_packets ops (u64 a, u64 b) = (u64 (a + packets ops), u64 (b + packets ops)).
Proof.
  unfold packets. revert a b. induction ops as [|op ops IH]; intros a b; cbn [count_packets].
  { change (zlen _) with 0. by rewrite !Z.add_0_r. }
  destruct (is_capture op) eqn:Hop.
  - rewrite filter_cons_True by done. unfold count_packet. cbn [fst snd].
    rewrite !u64_count, IH. unfold zlen. cbn [length]. f_equal; f_equal; lia.
  - rewrite filter_cons_False by (by rewrite Hop). apply IH.
Qed.


(** A client subscribes, a packet is captured, the client sends a line that is
    no JSON and disconnects. *)
Definition sample_packet : Event :=
  match handle_packet hex_ntop hex_ntop "eth0" (mkHdr 100 1700000000 0) sample_tcp_frame None 7 with
  | Some (Some e, _) => e
  | _ => default_Event
  end.

Definition before_packet : list daemon_op :=
  [DAccept 5 true true; DReceive 0 5 navigation_report].
Definition after_packet : list daemon_op :=
  [DReceive 1 5 ("255"%char :: [newline]); DDisconnect 5; DWriter].
Definition sample_traffic : list daemon_op :=
  before_packet ++ DCapture 0 0 sample_packet :: after_packet.

Lemma hex_ntop_plain : ntop_plain hex_ntop.
Proof. intros bytes s [= <-]. apply plain_hex_bytes. Qed.

Lemma sample_traffic_ok : Forall (from_network hex_ntop hex_ntop) sample_traffic.
Proof.
  repeat (apply Forall_cons_2; [try exact I|]); [|apply Forall_nil_2].
  exists "eth0"%string, (mkHdr 100 1700000000 0), sample_tcp_frame, None, 7, 8.
  split; vm_compute; reflexivity.
Qed.

Definition sample_run (send : Z → cstring → option bool) (ops : list daemon_op) :=
  daemon_execs (L := TreeJson.lib) (SQL := TableDb.lib) (CE := ebpf_backend)
    (CP := pcap_backend) send ops
    (set_engine new_PolicyEngine (set_store (Some None) (new_Core default_Config))) new_Server.

(** A subscriber that does not read any long line: the capture thread waits
    for it. *)
Definition deaf (fd : Z) (line : cstring) : option bool :=
  if zlen line <? 200 then Some true else None.

Lemma slow_subscriber_stalls_capture : sample_run deaf sample_traffic = Err Stalled.
Proof. vm_compute. reflexivity. Qed.

