(* ===== verification/Sha256.v ===== *)
(** * SHA-256 ([src/common/sha256.cpp])

    The streaming hash with its 64-byte buffer, against a reference that pads
    the whole message and compresses its blocks.  Words are [Z] below [2^32],
    bytes are [Z]. *)
From S2P Require Import Prelude.
Open Scope Z_scope.

(** ** The compression function *)
(** The round constants, each row of the source's table as one number: [n] words
    of 32 bits, the first one highest. *)
Definition row_words (n : nat) (row : Z) : list Z :=
  (λ i, Z.land (Z.shiftr row (32 * Z.of_nat i)) 0xffffffff) <$> reverse (seq 0 n).

Definition kRoundConstants : list Z :=
  row_words 5 0x428a2f9871374491b5c0fbcfe9b5dba53956c25b ++
  row_words 5 0x59f111f1923f82a4ab1c5ed5d807aa9812835b01 ++
  row_words 5 0x243185be550c7dc372be5d7480deb1fe9bdc06a7 ++
  row_words 5 0xc19bf174e49b69c1efbe47860fc19dc6240ca1cc ++
  row_words 5 0x2de92c6f4a7484aa5cb0a9dc76f988da983e5152 ++
  row_words 5 0xa831c66db00327c8bf597fc7c6e00bf3d5a79147 ++
  row_words 5 0x06ca63511429296727b70a852e1b21384d2c6dfc ++
  row_words 5 0x53380d13650a7354766a0abb81c2c92e92722c85 ++
  row_words 5 0xa2bfe8a1a81a664bc24b8b70c76c51a3d192e819 ++
  row_words 5 0xd6990624f40e3585106aa07019a4c1161e376c08 ++
  row_words 5 0x2748774c34b0bcb5391c0cb34ed8aa4a5b9cca4f ++
  row_words 5 0x682e6ff3748f82ee78a5636f84c878148cc70208 ++
  row_words 4 0x90befffaa4506cebbef9a3f7c67178f2.

Definition rotate_right (value bits : Z) : Z :=
  Z.lor (Z.shiftr value bits) (u32 (Z.shiftl value (32 - bits))).

(** The eight words [state_] (and the locals [a] to [h]). *)
Record words := mkWords {
  wa : Z; wb : Z; wc : Z; wd : Z; we : Z; wf : Z; wg : Z; wh : Z;
}.

Definition initial_words : words :=
  mkWords 0x6a09e667 0xbb67ae85 0x3c6ef372 0xa54ff53a
          0x510e527f 0x9b05688c 0x1f83d9ab 0x5be0cd19.

Definition block_word (block : list Z) (i : nat) : Z :=
  let b j := nth (i * 4 + j) block 0 in
  Z.lor (Z.lor (Z.lor (u32 (Z.shiftl (b 0%nat) 24)) (u32 (Z.shiftl (b 1%nat) 16)))
               (u32 (Z.shiftl (b 2%nat) 8))) (b 3%nat).

(** One step of the schedule loop; [w] holds the words [0 .. i-1]. *)
Definition schedule_step (w : list Z) (i : nat) : list Z :=
  let w_ k := nth k w 0 in
  let s0 := Z.lxor (Z.lxor (rotate_right (w_ (i - 15)%nat) 7)
                           (rotate_right (w_ (i - 15)%nat) 18))
                   (Z.shiftr (w_ (i - 15)%nat) 3) in
  let s1 := Z.lxor (Z.lxor (rotate_right (w_ (i - 2)%nat) 17)
                           (rotate_right (w_ (i - 2)%nat) 19))
                   (Z.shiftr (w_ (i - 2)%nat) 10) in
  w ++ [u32 (w_ (i - 16)%nat + s0 + w_ (i - 7)%nat + s1)].

Definition schedule (block : list Z) : list Z :=
  foldl schedule_step (block_word block <$> seq 0 16) (seq 16 48).

Definition round (s : words) (kw : Z * Z) : words :=
  let '(k, w) := kw in
  let e := we s in
  let a := wa s in
  let s1 := Z.lxor (Z.lxor (rotate_right e 6) (rotate_right e 11)) (rotate_right e 25) in
  let ch := Z.lxor (Z.land e (wf s)) (Z.land (u32 (Z.lnot e)) (wg s)) in
  let temp1 := u32 (wh s + s1 + ch + k + w) in
  let s0 := Z.lxor (Z.lxor (rotate_right a 2) (rotate_right a 13)) (rotate_right a 22) in
  let maj := Z.lxor (Z.lxor (Z.land a (wb s)) (Z.land a (wc s))) (Z.land (wb s) (wc s)) in
  let temp2 := u32 (s0 + maj) in
  mkWords (u32 (temp1 + temp2)) a (wb s) (wc s) (u32 (wd s + temp1)) e (wf s) (wg s).

Definition process_block (s : words) (block : list Z) : words :=
  let r := foldl round s (zip kRoundConstants (schedule block)) in
  mkWords (u32 (wa s + wa r)) (u32 (wb s + wb r)) (u32 (wc s + wc r)) (u32 (wd s + wd r))
          (u32 (we s + we r)) (u32 (wf s + wf r)) (u32 (wg s + wg r)) (u32 (wh s + wh r)).

(** ** The hash object *)
Record Sha256 := mkSha256 {
  sh_state : words;
  sh_total_bits : Z;
  sh_buffer : list Z;
  sh_buffer_used : nat;
}.

(** [reset] *)
Definition new_Sha256 : Sha256 := mkSha256 initial_words 0 (replicate 64 0) 0.

(** [memcpy(buffer + off, bytes, size)] within the array *)
Definition memcpy (buffer : list Z) (off : nat) (bytes : list Z) : list Z :=
  take off buffer ++ bytes ++ drop (off + length bytes) buffer.

(** [while (size >= 64)]: the state and the bytes that are left; the fuel bounds
    the number of blocks. *)
Fixpoint absorb_loop (fuel : nat) (s : words) (bytes : list Z) : words * list Z :=
  match fuel with
  | O => (s, bytes)
  | S fuel =>
      if (64 <=? length bytes)%nat
      then absorb_loop fuel (process_block s (take 64 bytes)) (drop 64 bytes)
      else (s, bytes)
  end.

(** Filling the partial buffer: the object and the bytes that are left. *)
Definition fill_buffer (h : Sha256) (bytes : list Z) : Sha256 * list Z :=
  if (0 <? sh_buffer_used h)%nat then
    let need := (64 - sh_buffer_used h)%nat in
    let n := Nat.min need (length bytes) in
    let buffer := memcpy (sh_buffer h) (sh_buffer_used h) (take n bytes) in
    let used := (sh_buffer_used h + n)%nat in
    (if (used =? 64)%nat
     then mkSha256 (process_block (sh_state h) buffer) (sh_total_bits h) buffer 0
     else mkSha256 (sh_state h) (sh_total_bits h) buffer used,
     drop n bytes)
  else (h, bytes).

Definition update (h : Sha256) (bytes : list Z) : Sha256 :=
  let h := mkSha256 (sh_state h) (u64 (sh_total_bits h + u64 (zlen bytes * 8)))
             (sh_buffer h) (sh_buffer_used h) in
  let '(h, bytes) := fill_buffer h bytes in
  let '(s, tail) := absorb_loop (length bytes) (sh_state h) bytes in
  if is_empty tail then mkSha256 s (sh_total_bits h) (sh_buffer h) (sh_buffer_used h)
  else mkSha256 s (sh_total_bits h) (memcpy (sh_buffer h) 0 tail) (length tail).

(** [while (buffer_used_ != 56) update(&zero, 1);] *)
Fixpoint pad_loop (fuel : nat) (h : Sha256) : Sha256 :=
  match fuel with
  | O => h
  | S fuel => if (sh_buffer_used h =? 56)%nat then h else pad_loop fuel (update h [0])
  end.

Definition length_bytes (bits : Z) : list Z :=
  (λ i, u8 (Z.shiftr bits (56 - Z.of_nat i * 8))) <$> seq 0 8.

Definition word_bytes (w : Z) : list Z :=
  [u8 (Z.shiftr w 24); u8 (Z.shiftr w 16); u8 (Z.shiftr w 8); u8 w].
Definition words_bytes (s : words) : list Z :=
  [wa s; wb s; wc s; wd s; we s; wf s; wg s; wh s] ≫= word_bytes.

(** The digest and the object after [reset]. *)
Definition final (h : Sha256) : list Z * Sha256 :=
  let bits := sh_total_bits h in
  let h := update h [0x80] in
  let h := pad_loop 64 h in
  let h := mkSha256 (sh_state h) bits (sh_buffer h) (sh_buffer_used h) in
  let h := update h (length_bytes bits) in
  (words_bytes (sh_state h), new_Sha256).

Definition digest (text : cstring) : list Z :=
  fst (final (update new_Sha256 (ord <$> text))).

Definition kHex : cstring := "0123456789abcdef".
Definition hex_digest (text : cstring) : cstring :=
  digest text ≫= λ byte,
    [nth (Z.to_nat (Z.shiftr byte 4)) kHex "000"%char;
     nth (Z.to_nat (Z.land byte 0x0f)) kHex "000"%char].

(** ** The reference

    [absorb] compresses the whole blocks of a byte string and leaves the rest;
    [pad] is the padding of FIPS 180-4, section 5.1.1 (with the bit count modulo
    [2^64]). *)
Definition absorb (s : words) (bytes : list Z) : words * list Z :=
  absorb_loop (length bytes) s bytes.

Definition zero_count (n : nat) : nat := Z.to_nat ((55 - Z.of_nat n) mod 64).

Definition pad (m : list Z) : list Z :=
  m ++ 0x80 :: replicate (zero_count (length m)) 0 ++ length_bytes (u64 (zlen m * 8)).

Definition sha256 (m : list Z) : list Z :=
  words_bytes (fst (absorb initial_words (pad m))).

(** ** Blocks *)
Lemma absorb_loop_fuel n1 n2 s bytes :
  (length bytes ≤ n1)%nat → (length bytes ≤ n2)%nat →
  absorb_loop n1 s bytes = absorb_loop n2 s bytes.
Proof.
  revert n2 s bytes. induction n1 as [|n1 IH]; intros n2 s bytes H1 H2.
  { destruct bytes; [|cbn in H1; lia]. by destruct n2. }
  destruct n2 as [|n2]; [by destruct bytes; [|cbn in H2; lia]|]. cbn [absorb_loop].
  destruct (Nat.leb_spec 64 (length bytes)); [|done].
  apply IH; rewrite length_drop; lia.
Qed.

Lemma absorb_short s bytes : (length bytes < 64)%nat → absorb s bytes = (s, bytes).
Proof.
  intros H. unfold absorb. destruct (length bytes) eqn:E; [done|]. cbn [absorb_loop].
  by rewrite (proj2 (Nat.leb_gt _ _)) by lia.
Qed.

Lemma absorb_block s block bytes :
  length block = 64%nat → absorb s (block ++ bytes) = absorb (process_block s block) bytes.
Proof.
  intros H. unfold absorb.
  rewrite (absorb_loop_fuel _ (S (length (block ++ bytes)))) by lia. cbn [absorb_loop].
  rewrite (proj2 (Nat.leb_le _ _)) by (rewrite length_app; lia).
  rewrite take_app_length', drop_app_length' by done.
  apply absorb_loop_fuel; rewrite ?length_app; lia.
Qed.

(** Compressing [a ++ b] is compressing [a] and then what it left with [b]. *)
Lemma absorb_app s a b :
  absorb s (a ++ b) = absorb (fst (absorb s a)) (snd (absorb s a) ++ b).
Proof.
  remember (length a) as n eqn:Hn. revert s a Hn.
  induction n as [n IH] using lt_wf_ind. intros s a ->.
  destruct (Nat.lt_ge_cases (length a) 64) as [Hlt|Hge]; [by rewrite (absorb_short s a)|].
  rewrite <-(take_drop 64 a), <-(assoc_L (++)).
  assert (length (take 64 a) = 64%nat) by (rewrite length_take; lia).
  rewrite !(absorb_block s (take 64 a)) by done.
  apply (IH (length (drop 64 a))); [rewrite length_drop; lia|done].
Qed.

Lemma absorb_rest s bytes : length (snd (absorb s bytes)) = (length bytes mod 64)%nat.
Proof.
  remember (length bytes) as n eqn:Hn. revert s bytes Hn.
  induction n as [n IH] using lt_wf_ind. intros s bytes ->.
  destruct (Nat.lt_ge_cases (length bytes) 64) as [Hlt|Hge].
  { by rewrite absorb_short, Nat.mod_small. }
  assert (length (take 64 bytes) = 64%nat) by (rewrite length_take; lia).
  rewrite <-(take_drop 64 bytes) at 1. rewrite (absorb_block s (take 64 bytes)) by done.
  rewrite (IH (length (drop 64 bytes))); [|rewrite length_drop; lia|done].
  rewrite length_drop. replace (length bytes) with (length bytes - 64 + 1 * 64)%nat at 2 by lia.
  by rewrite Nat.Div0.mod_add.
Qed.

(** ** The object against the reference *)

(** The object has taken in the bytes [m]: whole blocks are in the state, the
    rest is the used part of the buffer. *)
Record holds (h : Sha256) (m : list Z) : Prop := mkHolds {
  ho_buffer : length (sh_buffer h) = 64%nat;
  ho_absorbed : absorb initial_words m = (sh_state h, take (sh_buffer_used h) (sh_buffer h));
  ho_used : sh_buffer_used h = (length m mod 64)%nat;
}.

Lemma length_memcpy buffer off bytes :
  (off + length bytes ≤ length buffer)%nat → length (memcpy buffer off bytes) = length buffer.
Proof. intros H. unfold memcpy. rewrite !length_app, length_take, length_drop. lia. Qed.

Lemma take_memcpy buffer off bytes :
  (off + length bytes ≤ length buffer)%nat →
  take (off + length bytes) (memcpy buffer off bytes) = take off buffer ++ bytes.
Proof.
  intros H. unfold memcpy. rewrite (assoc_L (++)).
  apply take_app_length'. rewrite length_app, length_take. lia.
Qed.

Lemma holds_new : holds new_Sha256 [].
Proof. by split. Qed.

Lemma holds_absorb h m bytes :
  holds h m → absorb initial_words (m ++ bytes)
  = absorb (sh_state h) (take (sh_buffer_used h) (sh_buffer h) ++ bytes).
Proof. intros [_ Ha _]. by rewrite absorb_app, Ha. Qed.

Lemma holds_intro h m :
  length (sh_buffer h) = 64%nat → (sh_buffer_used h ≤ 64)%nat →
  absorb initial_words m = (sh_state h, take (sh_buffer_used h) (sh_buffer h)) → holds h m.
Proof.
  intros Hb Hu Ha. split; [done..|].
  rewrite <-(absorb_rest initial_words m), Ha. cbn [snd]. rewrite length_take. lia.
Qed.

Lemma holds_used h m : holds h m → (sh_buffer_used h < 64)%nat.
Proof. intros [_ _ ->]. by apply Nat.mod_upper_bound. Qed.

Lemma fill_buffer_holds h m bytes h' rest :
  holds h m → fill_buffer h bytes = (h', rest) →
  ∃ taken, bytes = taken ++ rest ∧ holds h' (m ++ taken) ∧
    (sh_buffer_used h' = 0%nat ∨ rest = []) ∧ sh_total_bits h' = sh_total_bits h.
Proof.
  intros Hh. pose proof (holds_used _ _ Hh) as Hu. pose proof (ho_buffer _ _ Hh) as Hb.
  unfold fill_buffer. destruct (Nat.ltb_spec 0 (sh_buffer_used h)) as [Hpos|Hzero].
  2:{ intros [= <- <-]. exists []. rewrite app_nil_r. split_and!; [done..| |done]. left; lia. }
  set (u := sh_buffer_used h) in *. set (n := Nat.min (64 - u) (length bytes)).
  set (taken := take n bytes). set (buffer := memcpy (sh_buffer h) u taken).
  assert (Hn : length taken = n) by (unfold taken; rewrite length_take; lia).
  assert (Hl : length buffer = 64%nat) by (unfold buffer; rewrite length_memcpy; lia).
  assert (Ht : take (u + n) buffer = take u (sh_buffer h) ++ taken)
    by (rewrite <-Hn; apply take_memcpy; lia).
  pose proof (holds_absorb h m taken Hh) as Ha. fold u in Ha. rewrite <-Ht in Ha.
  intros [= <- <-]. exists taken.
  split; [symmetry; apply take_drop|]. destruct (Nat.eqb_spec (u + n) 64) as [He|Hne].
  - rewrite He, take_ge in Ha by lia. split_and!; [|by left|done].
    apply holds_intro; [done|cbn; lia|].
    pose proof (absorb_block (sh_state h) buffer [] Hl) as Hk.
    rewrite app_nil_r, (absorb_short _ []) in Hk by (cbn; lia). by rewrite Ha, Hk.
  - split_and!; [|right; apply drop_ge; lia|done]. apply holds_intro; [done|cbn; lia|].
    rewrite (absorb_short (sh_state h)) in Ha; [done|]. rewrite length_take. lia.
Qed.

Lemma update_holds h m bytes :
  holds h m → holds (update h bytes) (m ++ bytes) ∧
  sh_total_bits (update h bytes) = u64 (sh_total_bits h + u64 (zlen bytes * 8)).
Proof.
  intros Hh. unfold update.
  set (h0 := mkSha256 _ _ _ _). assert (Hh0 : holds h0 m) by (destruct Hh; by split).
  destruct (fill_buffer h0 bytes) as [h1 rest] eqn:Hf.
  destruct (fill_buffer_holds _ _ _ _ _ Hh0 Hf) as (taken & -> & Hh1 & Hz & Ht).
  change (absorb_loop (length rest) (sh_state h1) rest) with (absorb (sh_state h1) rest).
  pose proof (holds_absorb _ _ rest Hh1) as Ha. pose proof (ho_buffer _ _ Hh1) as Hb.
  rewrite <-(assoc_L (++)) in Ha. destruct Hz as [Hz| ->].
  - rewrite Hz in Ha. rewrite take_0, app_nil_l in Ha.
    pose proof (absorb_rest (sh_state h1) rest) as Hlen.
    destruct (absorb (sh_state h1) rest) as [s tail]. cbn [snd] in Hlen.
    assert (length tail < 64)%nat by (rewrite Hlen; by apply Nat.mod_upper_bound).
    destruct tail as [|x tail]; cbn [is_empty]; (split; [|by rewrite Ht]);
      (apply holds_intro; [|cbn [sh_buffer_used]; lia|]); cbn [sh_buffer sh_buffer_used sh_state].
    + done.
    + rewrite Ha, Hz. done.
    + rewrite length_memcpy; lia.
    + rewrite Ha. f_equal. symmetry. apply (take_memcpy _ 0 (x :: tail)). lia.
  - rewrite (absorb_short _ []) by (cbn; lia). cbn [is_empty].
    split; [|by rewrite Ht]. rewrite app_nil_r. destruct Hh1; by split.
Qed.

(** ** Padding *)
Lemma zero_count_stop n :
  ((n + 1 + zero_count n) mod 64 = 56)%nat ∧ (zero_count n < 64)%nat ∧
  ∀ k, (k < zero_count n)%nat → ((n + 1 + k) mod 64 ≠ 56)%nat.
Proof.
  unfold zero_count. pose proof (Z.mod_pos_bound (55 - Z.of_nat n) 64 ltac:(lia)).
  split_and!; [|lia|intros k Hk].
  - apply Nat2Z.inj. rewrite Nat2Z.inj_mod, !Nat2Z.inj_add, Z2Nat.id by lia.
    Z.to_euclidean_division_equations. lia.
  - intros He%(f_equal Z.of_nat). rewrite Nat2Z.inj_mod, !Nat2Z.inj_add in He.
    assert (Z.of_nat k < (55 - Z.of_nat n) mod 64) by lia.
    Z.to_euclidean_division_equations. lia.
Qed.

(** The loop appends the [k] zeros after which 56 bytes are used. *)
Lemma pad_loop_holds k fuel h m :
  holds h m → (k < fuel)%nat → ((length m + k) mod 64 = 56)%nat →
  (∀ j, (j < k)%nat → ((length m + j) mod 64 ≠ 56)%nat) →
  holds (pad_loop fuel h) (m ++ replicate k 0).
Proof.
  revert fuel h m. induction k as [|k IH]; intros fuel h m Hh Hf He Hne;
    (destruct fuel as [|fuel]; [lia|]); cbn [pad_loop]; rewrite (ho_used _ _ Hh).
  - rewrite Nat.add_0_r in He. rewrite He. cbn [replicate Nat.eqb]. by rewrite app_nil_r.
  - pose proof (Hne 0%nat ltac:(lia)) as H0. rewrite Nat.add_0_r in H0.
    rewrite (proj2 (Nat.eqb_neq _ _) H0). cbn [replicate].
    rewrite cons_middle, (assoc_L (++)). apply IH; rewrite ?length_app; cbn [length].
    + by apply update_holds.
    + lia.
    + by replace (length m + 1 + k)%nat with (length m + S k)%nat by lia.
    + intros j Hj. replace (length m + 1 + j)%nat with (length m + S j)%nat by lia.
      apply Hne. lia.
Qed.

Lemma length_pad_mod m : (length (pad m) mod 64 = 0)%nat.
Proof.
  unfold pad. pose proof (proj1 (zero_count_stop (length m))) as H.
  rewrite length_app. cbn [length]. rewrite length_app, length_replicate.
  change (length (length_bytes _)) with 8%nat.
  replace (length m + S (zero_count (length m) + 8))%nat
    with (length m + 1 + zero_count (length m) + 8)%nat by lia.
  by rewrite <-Nat.Div0.add_mod_idemp_l, H.
Qed.

Lemma final_holds h m :
  holds h m → sh_total_bits h = u64 (zlen m * 8) → final h = (sha256 m, new_Sha256).
Proof.
  intros Hh Ht. unfold final. rewrite Ht. set (bits := u64 (zlen m * 8)). f_equal.
  destruct (zero_count_stop (length m)) as (Hz & Hlt & Hne).
  assert (H1 : holds (update h [0x80]) (m ++ [0x80])) by by apply update_holds.
  assert (H2 : holds (pad_loop 64 (update h [0x80]))
                 ((m ++ [0x80]) ++ replicate (zero_count (length m)) 0)).
  { apply pad_loop_holds; rewrite ?length_app; done. }
  set (h2 := pad_loop 64 (update h [0x80])) in *. set (h3 := mkSha256 _ _ _ _).
  assert (H3 : holds h3 ((m ++ [0x80]) ++ replicate (zero_count (length m)) 0))
    by (destruct H2; by split).
  destruct (update_holds _ _ (length_bytes bits) H3) as [[_ Ha _] _].
  unfold sha256, pad. fold bits.
  rewrite <-!(assoc_L (++)) in Ha. cbn [app] in Ha. by rewrite Ha.
Qed.

Lemma updates_hold h m chunks :
  holds h m → sh_total_bits h = u64 (zlen m * 8) →
  let h' := foldl update h chunks in
  holds h' (m ++ concat chunks) ∧ sh_total_bits h' = u64 (zlen (m ++ concat chunks) * 8).
Proof.
  revert h m. induction chunks as [|c chunks IH]; intros h m Hh Ht.
  { cbn. by rewrite app_nil_r. }
  cbn [foldl concat]. rewrite (assoc_L (++)). destruct (update_holds h m c Hh) as [Hh' Ht'].
  apply IH; [done|]. rewrite Ht', Ht, zlen_app. unfold u64.
  rewrite <-Z.add_mod by done. f_equal. lia.
Qed.

(** C25: Hashing a message in any number of pieces of any size gives the
    SHA-256 digest of the whole message (the reference pads and compresses it
    at once), and leaves the object ready for the next message; the padding
    loop always ends. *)
Theorem sha256_stream chunks :
  final (foldl update new_Sha256 chunks) = (sha256 (concat chunks), new_Sha256).
Proof.
  destruct (updates_hold new_Sha256 [] chunks) as [Hh Ht]; [apply holds_new|done|].
  by apply final_holds.
Qed.

(** ** Test vectors of FIPS 180-4 *)
Example sha256_abc :
  hex_digest "abc" = lit "ba7816bf8f01cfea414140de5dae2223b00361a396177a9cb410ff61f20015ad".
Proof. vm_compute. reflexivity. Qed.
Example sha256_empty :
  hex_digest [] = lit "e3b0c44298fc1c149afbf4c8996fb92427ae41e4649b934ca495991b7852b855".
Proof. vm_compute. reflexivity. Qed.
Example sha256_two_blocks :
  hex_digest "abcdbcdecdefdefgefghfghighijhijkijkljklmklmnlmnomnopnopq"
  = lit "248d6a61d20638b8e5c026930c3e6039a33ce45964ff2167f6ecedd419db06c1".
Proof. vm_compute. reflexivity. Qed.
