(* ===== verification/Manifest.v ===== *)
(** * Driver manifests ([src/drivers/lua/manifests/])

    Parsing and validation of a driver's manifest, the allowlist of script
    directories and the integrity pin. *)
From S2P Require Import Prelude Json Types PacketParser Sha256.
Open Scope Z_scope.

(** ** Data *)
Inductive Capability :=
  | CapEvents | CapCapture | CapDns | CapProcess | CapPolicy
  | CapEndpoint | CapSpec | CapLog | CapUtil | CapStatus.

#[global] Instance Capability_eq_dec : EqDecision Capability.
Proof. solve_decision. Defined.

Definition all_capabilities : list Capability :=
  [CapEvents; CapCapture; CapDns; CapProcess; CapPolicy;
   CapEndpoint; CapSpec; CapLog; CapUtil; CapStatus].

Definition capability_name (c : Capability) : cstring :=
  match c with
  | CapEvents => "events" | CapCapture => "capture" | CapDns => "dns"
  | CapProcess => "process" | CapPolicy => "policy" | CapEndpoint => "endpoint"
  | CapSpec => "spec" | CapLog => "log" | CapUtil => "util" | CapStatus => "status"
  end.

Definition capability_from_name (name : cstring) : option Capability :=
  if name =s "events" then Some CapEvents
  else if name =s "capture" then Some CapCapture
  else if name =s "dns" then Some CapDns
  else if name =s "process" then Some CapProcess
  else if name =s "policy" then Some CapPolicy
  else if name =s "endpoint" then Some CapEndpoint
  else if name =s "spec" then Some CapSpec
  else if name =s "log" then Some CapLog
  else if name =s "util" then Some CapUtil
  else if name =s "status" then Some CapStatus
  else None.

(** [std::set<Capability>]: without duplicates, in the order of insertion (no
    operation depends on the order). *)
Definition insert_capability (c : Capability) (cs : list Capability) : list Capability :=
  if bool_decide (c ∈ cs) then cs else cs ++ [c].

Record DriverManifest := mkManifest {
  dm_name : cstring;
  dm_version : cstring;
  dm_script_path : cstring;
  dm_description : cstring;
  dm_capabilities : list Capability;
  dm_event_types : list cstring;
  dm_max_endpoints : Z;
  dm_max_subscriptions : Z;
  dm_script_sha256 : cstring;
}.
Definition default_Manifest : DriverManifest := mkManifest [] [] [] [] [] [] 8 16 [].

Definition kMaxManifestFieldLength : Z := 512.
Definition kMaxManifestEventTypes : Z := 16.

(** ** Field validation *)
Definition valid_name (name : cstring) : bool :=
  if is_empty name || (64 <? zlen name) then false
  else forallb (λ c, isalnum c || is_char "-" c) name.

(** At most [most] dots. *)
Fixpoint version_loop (most : Z) (version : cstring) (components : Z) (current : cstring) : bool :=
  match version with
  | [] => (1 <=? components) && negb (is_empty current)
  | c :: version =>
      if is_char "." c then
        if is_empty current || (most <=? components) then false
        else version_loop most version (components + 1) []
      else if isdigit c then version_loop most version components (current ++ [c])
      else false
  end.
Definition valid_version (version : cstring) : bool := version_loop 3 version 0 [].

Definition hex_char (c : ascii) : bool := isdigit c || in_range "a" "f" c.
Definition valid_sha256_hex (hash : cstring) : bool :=
  if negb (zlen hash =? 64) then false else forallb hex_char hash.

(** The optional field [key], starting from its present value. *)
Definition bounded_string (doc : json) (key out : cstring) : result cstring cstring :=
  match member key doc with
  | None => Ok out
  | Some (JString s) =>
      if kMaxManifestFieldLength <? zlen s then Err (key ++ lit " exceeds maximum length")
      else Ok s
  | Some _ => Err (key ++ lit " must be a string")
  end.

Definition required_string (doc : json) (key error : cstring) : result cstring cstring :=
  match member key doc with Some (JString s) => Ok s | _ => Err error end.

Fixpoint read_capabilities (l : list json) (out : list Capability) :
    result cstring (list Capability) :=
  match l with
  | [] => Ok out
  | JString s :: l =>
      match capability_from_name s with
      | None => Err (lit "manifest.capabilities contains unknown capability '" ++ s ++ "'")
      | Some c => read_capabilities l (insert_capability c out)
      end
  | _ :: _ => Err (lit "manifest.capabilities entries must be strings")
  end.

Definition parse_capabilities (doc : json) (out : list Capability) :
    result cstring (list Capability) :=
  match member "capabilities" doc with
  | None => Ok out
  | Some (JArray l) =>
      if 16 <? zlen l then Err (lit "manifest.capabilities has too many entries")
      else read_capabilities l out
  | Some _ => Err (lit "manifest.capabilities must be an array")
  end.

Fixpoint read_event_types (l : list json) (out : list cstring) :
    result cstring (list cstring) :=
  match l with
  | [] => Ok out
  | JString s :: l =>
      if 32 <? zlen s then Err (lit "manifest.event_types entry exceeds maximum length")
      else read_event_types l (out ++ [s])
  | _ :: _ => Err (lit "manifest.event_types entries must be strings")
  end.

Definition parse_event_types (doc : json) (out : list cstring) : result cstring (list cstring) :=
  match member "event_types" doc with
  | None => Ok out
  | Some (JArray l) =>
      if kMaxManifestEventTypes <? zlen l
      then Err (lit "manifest.event_types exceeds the subscription limit")
      else read_event_types l out
  | Some _ => Err (lit "manifest.event_types must be an array")
  end.

Definition parse_limit (doc : json) (key : cstring) (out : Z) : result cstring Z :=
  match member key doc with
  | None => Ok out
  | Some (JUint z) =>
      if 64 <? z then Err (lit "manifest." ++ key ++ " must be a number in [0, 64]")
      else Ok (u32 z)
  | Some _ => Err (lit "manifest." ++ key ++ " must be a number in [0, 64]")
  end.

Definition parse_manifest (doc : json) (out : DriverManifest) : result cstring DriverManifest :=
  _ ← ensure (is_object doc) (lit "manifest must be a JSON object");
  name ← required_string doc "name" "manifest.name is required";
  _ ← ensure (valid_name name) (lit "manifest.name must match [a-zA-Z0-9-]{1,64}");
  version ← required_string doc "version" "manifest.version is required";
  _ ← ensure (valid_version version) (lit "manifest.version must be numeric x.y[.z]");
  script ← required_string doc "script" "manifest.script is required";
  _ ← ensure (negb (is_empty script || (4096 <? zlen script)))
        (lit "manifest.script must be a non-empty path");
  description ← bounded_string doc "description" (dm_description out);
  sha ← bounded_string doc "script_sha256" (dm_script_sha256 out);
  _ ← ensure (is_empty sha || valid_sha256_hex sha)
        (lit "manifest.script_sha256 must be 64 lowercase hex characters");
  capabilities ← parse_capabilities doc (dm_capabilities out);
  event_types ← parse_event_types doc (dm_event_types out);
  max_endpoints ← parse_limit doc "max_endpoints" (dm_max_endpoints out);
  max_subscriptions ← parse_limit doc "max_subscriptions" (dm_max_subscriptions out);
  Ok (mkManifest name version script description capabilities event_types
        max_endpoints max_subscriptions sha).

(** [DriverManifest::parse] *)
Definition manifest_parse {JL : JsonLib} (json_text : cstring) (out : DriverManifest) :
    result cstring DriverManifest :=
  match json_parse json_text with
  | None => Err (lit "manifest is not valid JSON")
  | Some doc => parse_manifest doc out
  end.

(** ** Paths and pins *)
Definition within_dir (path dir : cstring) : bool :=
  is_prefix dir path
  && ((length path =? length dir)%nat
      || (negb (is_empty dir) && bool_decide (last dir = Some "/"%char))
      || bool_decide (path !! length dir = Some "/"%char)).

Definition path_within_allowlist (canonical_path : cstring) (dirs : list cstring) : bool :=
  existsb (within_dir canonical_path) dirs.

Definition verify_script_hash (m : DriverManifest) (script_source : cstring) :
    result cstring () :=
  if is_empty (dm_script_sha256 m) then Ok ()
  else if hex_digest script_source <>s dm_script_sha256 m
  then Err (lit "script hash does not match the manifest pin")
  else Ok ().

(** ** Lemmas: names and versions *)
Lemma capability_from_name_spec n c : capability_from_name n = Some c ↔ n = capability_name c.
Proof.
  unfold capability_from_name. split.
  - intros ?; split_cases; by apply str_eqb_eq.
  - intros ->. by destruct c.
Qed.

Definition digits (s : cstring) : Prop := s ≠ [] ∧ Forall (λ c, isdigit c = true) s.

Lemma version_loop_digits most d s k cur :
  Forall (λ c, isdigit c = true) d → version_loop most (d ++ s) k cur = version_loop most s k (cur ++ d).
Proof.
  intros Hd. revert cur. induction Hd as [|c d Hc _ IH]; intros cur; [by rewrite app_nil_r|].
  cbn [app version_loop]. destruct (is_char "." c) eqn:E; [by apply is_char_true in E as ->|].
  rewrite Hc, IH. by rewrite <-(assoc_L (++)).
Qed.

Lemma version_loop_parts most ps k cur :
  Forall digits ps → cur ≠ [] → 0 ≤ k → 1 ≤ k + zlen ps ≤ most →
  version_loop most (concat (cons "."%char <$> ps)) k cur = true.
Proof.
  intros Hps. revert k cur. induction Hps as [|p ps [Hne Hd] _ IH]; intros k cur Hc Hk Hn.
  - change (zlen []) with 0 in Hn. cbn [fmap list_fmap concat version_loop].
    rewrite (proj2 (is_empty_false cur)) by done. by rewrite (proj2 (Z.leb_le _ _)) by lia.
  - change (zlen (p :: ps)) with (Z.of_nat (S (length ps))) in Hn.
    csimpl. cbn [version_loop]. rewrite (proj2 (is_empty_false cur)) by done.
    rewrite (proj2 (Z.leb_gt _ _)) by lia. cbn [orb].
    change (is_char "." "."%char) with true. cbv iota.
    rewrite version_loop_digits by done. apply IH; [done|lia|]. unfold zlen. lia.
Qed.

Lemma version_loop_sound most s k cur :
  Forall (λ c, isdigit c = true) cur → 0 ≤ k ≤ most → version_loop most s k cur = true →
  ∃ p ps, cur ++ s = join_dots (p :: ps) ∧ Forall digits (p :: ps) ∧ 1 ≤ k + zlen ps ≤ most.
Proof.
  revert k cur. induction s as [|c s IH]; intros k cur Hcur Hk; cbn [version_loop].
  - intros [H1%Z.leb_le H2%negb_true_iff%is_empty_false]%andb_prop.
    exists cur, []. change (zlen []) with 0. rewrite app_nil_r. cbn [join_dots fmap list_fmap concat].
    rewrite app_nil_r. split_and!; [done|by repeat constructor|lia..].
  - destruct (is_char "." c) eqn:Hdot.
    + apply is_char_true in Hdot as ->.
      destruct (is_empty cur) eqn:He; [done|]. apply is_empty_false in He.
      destruct (Z.leb_spec most k); [done|]. intros Hl.
      destruct (IH (k + 1) []) as (p & ps & Hs & Hf & Hn); [done|lia|done|].
      exists cur, (p :: ps). cbn in Hs |- *. rewrite Hs.
      split_and!; [done|by constructor|..]; unfold zlen in *; cbn [length]; lia.
    + destruct (isdigit c) eqn:Hdig; [|done]. intros H.
      destruct (IH k (cur ++ [c])) as (p & ps & Hs & Hf & Hn); [|done..|].
      { apply Forall_app_2; [done|by constructor]. }
      exists p, ps. by rewrite <-(assoc_L (++)) in Hs.
Qed.

(** Two to [most + 1] numbers separated by dots. *)
Lemma version_loop_spec most s :
  0 ≤ most → version_loop most s 0 [] = true ↔
  ∃ parts, s = join_dots parts ∧ Forall digits parts ∧ 2 ≤ zlen parts ≤ most + 1.
Proof.
  intros Hm. split.
  - intros H. destruct (version_loop_sound most s 0 []) as (p & ps & Hs & Hf & Hn); [done..|].
    exists (p :: ps). split_and!; [done..| |]; unfold zlen in *; cbn [length]; lia.
  - intros ([|p ps] & -> & Hf & Hn); [change (zlen []) with 0 in Hn; lia|].
    inversion Hf as [|? ? [Hne Hd] Hps]; subst. unfold join_dots.
    rewrite version_loop_digits by done. unfold zlen in Hn. cbn [length] in Hn.
    apply version_loop_parts; [done..|unfold zlen; lia].
Qed.

(** The accepted versions are two to four numbers separated by dots. *)
Lemma valid_version_spec s :
  valid_version s = true ↔
  ∃ parts, s = join_dots parts ∧ Forall digits parts ∧ 2 ≤ zlen parts ≤ 4.
Proof. apply version_loop_spec. lia. Qed.

(** ** Lemmas: paths *)
Definition inside (path dir : cstring) : Prop :=
  path = dir ∨ (∃ rest, path = dir ++ "/"%char :: rest) ∨
  (∃ dir' rest, dir = dir' ++ ["/"%char] ∧ path = dir ++ rest).

Lemma within_dir_spec path dir : within_dir path dir = true ↔ inside path dir.
Proof.
  unfold within_dir, inside. rewrite andb_true_iff, is_prefix_spec. split.
  - intros [[rest ->] H]. rewrite !orb_true_iff, andb_true_iff in H.
    destruct H as [[H%Nat.eqb_eq|[_ H%bool_decide_eq_true]]|H%bool_decide_eq_true].
    + left. rewrite length_app in H. destruct rest; [by rewrite app_nil_r|cbn in H; lia].
    + right. right. apply last_Some in H as [dir' ->]. by exists dir', rest.
    + right. left. rewrite lookup_app_r, Nat.sub_diag in H by done.
      destruct rest as [|c rest]; [done|]. injection H as ->. by exists rest.
  - intros [->|[[rest ->]|(dir' & rest & -> & ->)]].
    + split; [exists []; by rewrite app_nil_r|]. by rewrite Nat.eqb_refl.
    + split; [by eexists|]. rewrite lookup_app_r, Nat.sub_diag by done.
      rewrite (bool_decide_true (_ !! _ = _)) by done. by rewrite orb_true_r.
    + split; [by eexists|]. rewrite last_snoc, bool_decide_true by done.
      rewrite (proj2 (is_empty_false (dir' ++ _))) by (by destruct dir').
      cbn [negb andb]. by rewrite orb_true_r.
Qed.

Lemma path_within_allowlist_spec path dirs :
  path_within_allowlist path dirs = true ↔ ∃ dir, dir ∈ dirs ∧ inside path dir.
Proof.
  unfold path_within_allowlist. rewrite existsb_exists.
  by setoid_rewrite within_dir_spec; setoid_rewrite <-list_elem_of_In.
Qed.

(** ** Accepted manifests *)
Record manifest_ok (m : DriverManifest) : Prop := mkManifestOk {
  mo_name : 1 ≤ zlen (dm_name m) ≤ 64 ∧
            Forall (λ c, isalnum c = true ∨ c = "-"%char) (dm_name m);
  mo_version : ∃ parts, dm_version m = join_dots parts ∧ Forall digits parts ∧
                 2 ≤ zlen parts ≤ 4;
  mo_script : 1 ≤ zlen (dm_script_path m) ≤ 4096;
  mo_description : zlen (dm_description m) ≤ 512;
  mo_sha : dm_script_sha256 m = [] ∨
           zlen (dm_script_sha256 m) = 64 ∧ Forall (λ c, hex_char c = true) (dm_script_sha256 m);
  mo_capabilities : NoDup (dm_capabilities m);
  mo_event_types : zlen (dm_event_types m) ≤ 16 ∧
                   Forall (λ t, zlen t ≤ 32) (dm_event_types m);
  mo_endpoints : 0 ≤ dm_max_endpoints m ≤ 64;
  mo_subscriptions : 0 ≤ dm_max_subscriptions m ≤ 64;
}.

Lemma zlen_positive (s : cstring) : is_empty s = false → 1 ≤ zlen s.
Proof. destruct s; [done|]. unfold zlen. cbn. lia. Qed.

Lemma valid_name_spec n :
  valid_name n = true → 1 ≤ zlen n ≤ 64 ∧ Forall (λ c, isalnum c = true ∨ c = "-"%char) n.
Proof.
  unfold valid_name. destruct (is_empty n) eqn:He; [done|]. cbn [orb].
  destruct (Z.ltb_spec 64 (zlen n)); [done|]. intros Hf. split; [by split; [apply zlen_positive|]|].
  apply Forall_forall. intros c Hc%list_elem_of_In. rewrite forallb_forall in Hf.
  specialize (Hf c Hc). apply orb_true_iff in Hf as [?|?%is_char_true]; eauto.
Qed.

Lemma valid_sha256_hex_spec h :
  valid_sha256_hex h = true → zlen h = 64 ∧ Forall (λ c, hex_char c = true) h.
Proof.
  unfold valid_sha256_hex. destruct (Z.eqb_spec (zlen h) 64); [|done]. cbn [negb].
  rewrite forallb_forall. intros Hf. split; [done|]. apply Forall_forall.
  intros c Hc%list_elem_of_In. auto.
Qed.

Lemma bounded_string_ok doc key out s :
  zlen out ≤ 512 → bounded_string doc key out = Ok s → zlen s ≤ 512.
Proof.
  unfold bounded_string. destruct (member key doc) as [[]|]; try done; [|by intros ? [= <-]].
  destruct (Z.ltb_spec kMaxManifestFieldLength (zlen s0)); [done|]. by intros _ [= <-].
Qed.

Lemma read_capabilities_nodup l out cs :
  NoDup out → read_capabilities l out = Ok cs → NoDup cs.
Proof.
  revert out. induction l as [|j l IH]; intros out Hn; [by intros [= <-]|].
  destruct j; try done. cbn [read_capabilities].
  destruct (capability_from_name _) as [c|]; [|done]. apply IH.
  unfold insert_capability. case_bool_decide; [done|].
  apply NoDup_app. split_and!; [done| |apply NoDup_singleton].
  by intros x Hx ->%list_elem_of_singleton.
Qed.

Lemma read_event_types_ok l out ts :
  Forall (λ t, zlen t ≤ 32) out → read_event_types l out = Ok ts →
  Forall (λ t, zlen t ≤ 32) ts ∧ zlen ts = zlen out + zlen l.
Proof.
  revert out. induction l as [|j l IH]; intros out Hf; cbn [read_event_types].
  { intros [= <-]. split; [done|]. change (zlen (@nil json)) with 0. lia. }
  destruct j; try done. destruct (Z.ltb_spec 32 (zlen s)); [done|]. intros Hr.
  apply IH in Hr as [? Hl]; [|apply Forall_app_2; [done|by constructor]]. split; [done|].
  rewrite Hl, zlen_app. unfold zlen. cbn [length]. lia.
Qed.

Lemma parse_limit_ok doc key out z :
  0 ≤ out ≤ 64 → json_wf doc = true → parse_limit doc key out = Ok z → 0 ≤ z ≤ 64.
Proof.
  intros Ho Hw. unfold parse_limit. destruct (member key doc) as [[]|] eqn:E; try done.
  - apply member_wf in E; [|done]. destruct (Z.ltb_spec 64 z0); [done|]. intros [= <-].
    apply andb_prop in E as [E%Z.leb_le _]. unfold u32. rewrite Z.mod_small; lia.
  - by intros [= <-].
Qed.

Lemma parse_manifest_ok doc m :
  json_wf doc = true → parse_manifest doc default_Manifest = Ok m → manifest_ok m.
Proof.
  intros Hw. unfold parse_manifest. intros H. invert_result. split; cbn.
  - by apply valid_name_spec.
  - by apply valid_version_spec.
  - rewrite negb_true_iff, orb_false_iff in Heqb2. destruct Heqb2 as [He Hl%Z.ltb_ge].
    split; [by apply zlen_positive|done].
  - eapply bounded_string_ok, Heqr2. change (zlen []) with 0. lia.
  - apply orb_true_iff in Heqb3 as [?%is_empty_true|?]; auto using valid_sha256_hex_spec.
  - unfold parse_capabilities in Heqr4. split_cases; [|apply NoDup_nil_2].
    eapply read_capabilities_nodup; [apply NoDup_nil_2|done].
  - unfold parse_event_types in Heqr5. split_cases; [|by split; [|constructor]].
    match goal with H : (_ <? _) = false |- _ => apply Z.ltb_ge in H end.
    apply read_event_types_ok in Heqr5 as [? ->]; [|constructor]. split; [|done].
    change (zlen (@nil cstring)) with 0. unfold kMaxManifestEventTypes in *. lia.
  - eapply parse_limit_ok, Heqr6; [lia|done].
  - eapply parse_limit_ok, Heqr7; [lia|done].
Qed.

(** A manifest that is accepted has a name of 1 to 64 letters, digits and
    dashes, a dotted numeric version, a script path of bounded length, a pin
    that is absent or 64 hexadecimal digits, distinct known capabilities, at
    most 16 bounded event types, and limits of at most 64. *)
Theorem manifest_parse_valid (L : JsonLib) (HL : JsonLaws L) text m :
  manifest_parse text default_Manifest = Ok m → manifest_ok m.
Proof.
  unfold manifest_parse. destruct (json_parse text) as [doc|] eqn:Hp; [|done].
  apply parse_manifest_ok. by apply parse_wf in Hp as [??].
Qed.

Definition sample_manifest : json :=
  jobject [(lit "name", JString "tls-notes"); (lit "version", JString "1.0");
           (lit "script", JString "/d/s"); (lit "capabilities", JArray [JString "log"]);
           (lit "script_sha256",
            JString "f19e0b2f6ea46fe8e40a2b6b6cc2b6b6cc2b6b6cc2b6b6cc2b6b6cc2b6b6cc2b")].
Definition manifest_text (m : json) : cstring :=
  default [] (json_dump (JsonLib := TreeJson.lib) m).

Lemma manifest_parse_valid_witness :
  ∃ m, manifest_parse (JL := TreeJson.lib) (manifest_text sample_manifest) default_Manifest = Ok m ∧
    dm_capabilities m = [CapLog] ∧ manifest_ok m.
Proof.
  eexists. split; [vm_compute; reflexivity|]. split; [reflexivity|].
  apply (manifest_parse_valid TreeJson.lib TreeJson.laws (manifest_text sample_manifest)).
  vm_compute. reflexivity.
Defined.
