(* ===== verification/LuaSandbox.v ===== *)
(** * The Lua sandbox ([src/drivers/lua/sandbox.cpp])

    The budgeted allocator, the instruction hook, source loading and the
    classification of callback outcomes.  The Lua runtime is third-party code:
    what it asks of the allocator and what a protected call returns are
    parameters. *)
From S2P Require Import Prelude.
Open Scope Z_scope.

(** ** Data *)
Record SandboxBudgets := mkBudgets {
  sb_max_memory_bytes : Z;
  sb_max_string_bytes : Z;
  sb_max_instructions : Z;
  sb_wall_clock_ms : Z;
}.
Definition default_budgets : SandboxBudgets :=
  mkBudgets (1 * 1024 * 1024) (8 * 1024) 2000000 200.

Inductive SandboxOutcome := SbOk | SbRuntimeError | SbBudgetExceeded.
Record SandboxError := mkSandboxError {
  se_outcome : SandboxOutcome;
  se_code : cstring;
  se_message : cstring;
}.

(** ** The allocator

    [sys] is what [malloc] or [realloc] returns; the result is the pointer
    handed to Lua and the context afterwards. *)
Record AllocContext := mkAlloc {
  ac_ceiling_bytes : Z;
  ac_used_bytes : Z;
  ac_exhausted : bool;
}.

Definition set_used (c : AllocContext) (used : Z) : AllocContext :=
  mkAlloc (ac_ceiling_bytes c) (u64 used) (ac_exhausted c).
Definition set_exhausted (c : AllocContext) : AllocContext :=
  mkAlloc (ac_ceiling_bytes c) (ac_used_bytes c) true.

Definition budget_alloc (sys : option Z) (ctx : AllocContext) (ptr : option Z)
    (osize nsize : Z) : option Z * AllocContext :=
  let used := ac_used_bytes ctx in
  if nsize =? 0 then
    (None, match ptr with Some _ => set_used ctx (used - osize) | None => ctx end)
  else
    match ptr with
    | None =>
        if ac_ceiling_bytes ctx <? u64 (used + nsize) then (None, set_exhausted ctx)
        else (sys, match sys with Some _ => set_used ctx (used + nsize) | None => ctx end)
    | Some _ =>
        if (osize <? nsize) && (ac_ceiling_bytes ctx <? u64 (used + (nsize - osize)))
        then (None, set_exhausted ctx)
        else
          match sys with
          | Some _ =>
              (sys, if osize <? nsize then set_used ctx (used + (nsize - osize))
                    else set_used ctx (used - (osize - nsize)))
          | None => (None, ctx)
          end
    end.

(** ** Calls

    [StateData] without the back pointer; [now] is the steady clock in
    milliseconds. *)
Record StateData := mkStateData {
  sd_instructions_remaining : Z;
  sd_deadline : Z;
  sd_in_callback : bool;
  sd_aborted : bool;  (** [Sandbox::aborted_] *)
}.
Definition new_StateData : StateData := mkStateData 0 0 false false.

Definition begin_callback (b : SandboxBudgets) (now : Z) (d : StateData) : StateData :=
  mkStateData (sb_max_instructions b) (now + sb_wall_clock_ms b) true (sd_aborted d).
Definition end_callback (d : StateData) : StateData :=
  mkStateData (sd_instructions_remaining d) (sd_deadline d) false (sd_aborted d).

(** The count hook: the error it raises, if any, and the data afterwards. *)
Definition instruction_hook (now : Z) (d : StateData) : option cstring * StateData :=
  if negb (sd_in_callback d) then (None, d)
  else
    let remaining := sd_instructions_remaining d - 1 in
    let d := mkStateData remaining (sd_deadline d) true (sd_aborted d) in
    let aborted := mkStateData remaining (sd_deadline d) true true in
    if remaining <=? 0 then (Some (lit "instruction budget exceeded"), aborted)
    else if sd_deadline d <? now then (Some (lit "wall-clock deadline exceeded"), aborted)
    else (None, d).

(** LuaJIT calls the hook after every [kHookInterval] instructions. *)
Definition kHookInterval : Z := 1000.

Definition load_source (compile : result (option cstring) ()) (source : cstring) :
    result SandboxError () :=
  match source with
  | "027"%char :: _ =>
      Err (mkSandboxError SbRuntimeError "sandbox.bytecode_rejected"
             "bytecode input rejected; only source text may be loaded")
  | _ =>
      match compile with
      | Ok _ => Ok ()
      | Err message =>
          Err (mkSandboxError SbRuntimeError "sandbox.compile_error"
                 (default (lit "compile error") message))
      end
  end.

(** [pcall] after [lua_pcall] returned; a non-string error value has no
    message. *)
Definition pcall (aborted : bool) (status : result (option cstring) ()) :
    result SandboxError () :=
  match status with
  | Ok _ => Ok ()
  | Err message =>
      let message := default (lit "unknown Lua error") message in
      Err (if aborted then mkSandboxError SbBudgetExceeded "budget.exceeded" message
           else mkSandboxError SbRuntimeError "sandbox.runtime_error" message)
  end.

(** [call_global]: a global that is not a function is skipped. *)
Definition call_global (defined aborted : bool) (status : result (option cstring) ()) :
    result SandboxError () :=
  if negb defined then Ok () else pcall aborted status.

(** ** Heap accounting

    The live blocks with their sizes.  Lua gives the size it last asked for a
    block; [malloc] and [realloc] return blocks of less than [2^63] bytes that
    do not overlap a live one. *)
Definition heap_size (h : gmap Z Z) : Z := map_fold (λ _ n acc, n + acc) 0 h.

Inductive alloc_step (st : AllocContext * gmap Z Z) : AllocContext * gmap Z Z → Prop :=
  | step_free p osize sys r ctx :
      st.2 !! p = Some osize → budget_alloc sys st.1 (Some p) osize 0 = (r, ctx) →
      alloc_step st (ctx, delete p st.2)
  | step_malloc nsize sys r ctx :
      0 < nsize < 2 ^ 64 → budget_alloc sys st.1 None 0 nsize = (r, ctx) →
      (∀ p, sys = Some p → st.2 !! p = None ∧ nsize < 2 ^ 63) →
      alloc_step st (ctx, match r with Some p => <[p := nsize]> st.2 | None => st.2 end)
  | step_realloc p osize nsize sys r ctx :
      st.2 !! p = Some osize → 0 < nsize < 2 ^ 64 →
      budget_alloc sys st.1 (Some p) osize nsize = (r, ctx) →
      (∀ q, sys = Some q → delete p st.2 !! q = None ∧ nsize < 2 ^ 63) →
      alloc_step st (ctx, match r with
                          | Some q => <[q := nsize]> (delete p st.2)
                          | None => st.2
                          end).

Definition heap_inv (ceiling : Z) (st : AllocContext * gmap Z Z) : Prop :=
  ac_ceiling_bytes st.1 = ceiling ∧ ac_used_bytes st.1 = heap_size st.2 ∧
  heap_size st.2 ≤ ceiling ∧ map_Forall (λ _ n, 0 ≤ n) st.2.

Lemma heap_size_insert h p n : h !! p = None → heap_size (<[p := n]> h) = n + heap_size h.
Proof. intros H. unfold heap_size. rewrite map_fold_insert_L; [done| |done]. intros; lia. Qed.

Lemma heap_size_delete h p n : h !! p = Some n → heap_size h = n + heap_size (delete p h).
Proof. intros H. unfold heap_size. rewrite (map_fold_delete_L _ _ p n); [done| |done]. intros; lia. Qed.

Lemma heap_size_nonneg h : map_Forall (λ _ n, 0 ≤ n) h → 0 ≤ heap_size h.
Proof.
  induction h as [|p n h Hp _ IH] using map_first_key_ind; [done|].
  rewrite map_Forall_insert by done. intros [Hn Hh]. rewrite heap_size_insert by done.
  specialize (IH Hh). lia.
Qed.

Lemma u64_small z : 0 ≤ z < 2 ^ 64 → u64 z = z.
Proof. apply Z.mod_small. Qed.

Lemma free_inv ceiling st p osize sys r ctx :
  ceiling < 2 ^ 63 → heap_inv ceiling st → st.2 !! p = Some osize →
  budget_alloc sys st.1 (Some p) osize 0 = (r, ctx) → heap_inv ceiling (ctx, delete p st.2).
Proof.
  intros Hc (H1 & H2 & H3 & H4) Hp [= <- <-]. pose proof (heap_size_delete _ _ _ Hp) as Hs.
  assert (Hd : map_Forall (λ _ n, 0 ≤ n) (delete p st.2)) by by apply map_Forall_delete.
  pose proof (heap_size_nonneg _ Hd). specialize (H4 p osize Hp). cbn in H4.
  unfold heap_inv. cbn [fst snd ac_ceiling_bytes ac_used_bytes set_used].
  rewrite u64_small by lia. split_and!; [done|lia|lia|done].
Qed.

Lemma malloc_inv ceiling st nsize sys r ctx :
  ceiling < 2 ^ 63 → heap_inv ceiling st → 0 < nsize < 2 ^ 64 →
  budget_alloc sys st.1 None 0 nsize = (r, ctx) →
  (∀ p, sys = Some p → st.2 !! p = None ∧ nsize < 2 ^ 63) →
  heap_inv ceiling (ctx, match r with Some p => <[p := nsize]> st.2 | None => st.2 end).
Proof.
  intros Hc (H1 & H2 & H3 & H4) Hn Hb Hsys. pose proof (heap_size_nonneg _ H4).
  unfold budget_alloc in Hb. rewrite (proj2 (Z.eqb_neq _ _)) in Hb by lia.
  destruct (Z.ltb_spec (ac_ceiling_bytes st.1) (u64 (ac_used_bytes st.1 + nsize))) as [|Hle];
    injection Hb as <- <-; [done|].
  destruct sys as [p|]; [|done]. destruct (Hsys p eq_refl) as [Hp Hlt].
  rewrite u64_small in Hle by lia. unfold heap_inv.
  cbn [fst snd ac_ceiling_bytes ac_used_bytes set_used].
  rewrite u64_small, heap_size_insert by (done || lia).
  split_and!; [done|lia|lia|]. by apply map_Forall_insert_2; [lia|].
Qed.

Lemma realloc_inv ceiling st p osize nsize sys r ctx :
  ceiling < 2 ^ 63 → heap_inv ceiling st → st.2 !! p = Some osize → 0 < nsize < 2 ^ 64 →
  budget_alloc sys st.1 (Some p) osize nsize = (r, ctx) →
  (∀ q, sys = Some q → delete p st.2 !! q = None ∧ nsize < 2 ^ 63) →
  heap_inv ceiling (ctx, match r with
                         | Some q => <[q := nsize]> (delete p st.2)
                         | None => st.2
                         end).
Proof.
  intros Hc (H1 & H2 & H3 & H4) Hp Hn Hb Hsys. pose proof (heap_size_delete _ _ _ Hp) as Hs.
  assert (Hd : map_Forall (λ _ n, 0 ≤ n) (delete p st.2)) by by apply map_Forall_delete.
  pose proof (heap_size_nonneg _ Hd). pose proof (H4 p osize Hp) as Ho. cbn in Ho.
  unfold budget_alloc in Hb. rewrite (proj2 (Z.eqb_neq _ _)) in Hb by lia.
  destruct sys as [q|].
  2:{ destruct (_ && _); by injection Hb as <- <-. }
  destruct (Hsys q eq_refl) as [Hq Hlt].
  destruct (Z.ltb_spec osize nsize) as [Hgrow|Hshrink]; cbn [andb] in Hb.
  - rewrite u64_small in Hb by lia.
    destruct (Z.ltb_spec (ac_ceiling_bytes st.1) (ac_used_bytes st.1 + (nsize - osize)));
      injection Hb as <- <-; [done|].
    unfold heap_inv. cbn [fst snd ac_ceiling_bytes ac_used_bytes set_used].
    rewrite u64_small, heap_size_insert by (done || lia).
    split_and!; [done|lia|lia|]. by apply map_Forall_insert_2; [lia|].
  - injection Hb as <- <-. unfold heap_inv.
    cbn [fst snd ac_ceiling_bytes ac_used_bytes set_used].
    rewrite u64_small, heap_size_insert by (done || lia).
    split_and!; [done|lia|lia|]. by apply map_Forall_insert_2; [lia|].
Qed.

Lemma alloc_step_inv ceiling st st' :
  ceiling < 2 ^ 63 → heap_inv ceiling st → alloc_step st st' → heap_inv ceiling st'.
Proof. intros Hc Hi []; eauto using free_inv, malloc_inv, realloc_inv. Qed.

(** Given an allocation context of its own, the allocator's byte count is
    exactly the size of the live blocks, and it never exceeds the ceiling, for
    every sequence of allocations, resizes and releases, refused or failed ones
    included. *)
Theorem budget_alloc_bounded ceiling ctx heap :
  0 ≤ ceiling < 2 ^ 63 → rtc alloc_step (mkAlloc ceiling 0 false, ∅) (ctx, heap) →
  ac_used_bytes ctx = heap_size heap ∧ heap_size heap ≤ ceiling.
Proof.
  intros Hc Hr. enough (heap_inv ceiling (ctx, heap)) as (_ & ? & ? & _) by done.
  revert Hr. generalize (ctx, heap). intros st Hr. pattern st. revert Hr.
  apply rtc_ind_r.
  { unfold heap_inv, heap_size. cbn [fst snd]. rewrite map_fold_empty.
    split_and!; [done..|lia|apply map_Forall_empty]. }
  intros st1 st2 _ Hs Hi. eapply alloc_step_inv; [lia|done..].
Qed.

Lemma budget_alloc_bounded_witness :
  ∃ ctx heap, rtc alloc_step (mkAlloc 100 0 false, ∅) (ctx, heap) ∧
    ac_used_bytes ctx = 40 ∧ heap_size heap ≤ 100.
Proof.
  assert (Hr : rtc alloc_step (mkAlloc 100 0 false, ∅) (mkAlloc 100 40 false, <[7 := 40]> ∅)).
  { apply rtc_once. apply (step_malloc (mkAlloc 100 0 false, ∅) 40 (Some 7) (Some 7));
      [lia|reflexivity|].
    intros p [= <-]. split; [apply lookup_empty|lia]. }
  eexists _, _. split; [exact Hr|]. split; [reflexivity|].
  apply (budget_alloc_bounded 100 (mkAlloc 100 40 false)); [lia|exact Hr].
Defined.

(** *** As it is wired

    [create] passes its [StateData] as the allocator's user data, and the
    allocator takes it for an [AllocContext].  The object starts with the
    pointer to the sandbox (null until the state exists) and the real
    [ceiling_bytes] comes second, so these are what the allocator reads as
    ceiling and as bytes in use. *)
Definition context_read (sandbox_pointer ceiling : Z) : AllocContext :=
  mkAlloc sandbox_pointer ceiling false.

(** The first request of [lua_newstate]; without it there is no state. *)
Definition sandbox_created (sys : option Z) (b : SandboxBudgets) (request : Z) : bool :=
  match (budget_alloc sys (context_read 0 (sb_max_memory_bytes b)) None 0 request).1 with
  | Some _ => true
  | None => false
  end.

Lemma sandbox_never_created sys b request :
  0 < request → 0 ≤ sb_max_memory_bytes b → sb_max_memory_bytes b + request < 2 ^ 64 →
  sandbox_created sys b request = false.
Proof.
  intros Hr Hm Hs. unfold sandbox_created, budget_alloc, context_read.
  rewrite (proj2 (Z.eqb_neq _ _)) by lia. cbn [ac_ceiling_bytes ac_used_bytes].
  by rewrite u64_small, (proj2 (Z.ltb_lt _ _)) by lia.
Qed.

(** ** The instruction budget *)

(** The hook is called [n] times at the times [now]. *)
Fixpoint hook_calls (times : list Z) (d : StateData) : option cstring * StateData :=
  match times with
  | [] => (None, d)
  | now :: times =>
      match instruction_hook now d with
      | (Some e, d) => (Some e, d)
      | (None, d) => hook_calls times d
      end
  end.

Lemma hook_calls_budget times d :
  sd_in_callback d = true → Forall (λ now, now ≤ sd_deadline d) times →
  0 < sd_instructions_remaining d →
  is_Some (hook_calls times d).1 ↔ sd_instructions_remaining d ≤ zlen times.
Proof.
  intros Hc Ht. revert d Hc Ht. induction times as [|now times IH]; intros d Hc Ht Hr.
  { cbn. split; [by intros []|]. change (zlen []) with 0. lia. }
  inversion Ht as [|? ? Hnow Hrest]; subst. cbn [hook_calls]. unfold instruction_hook.
  rewrite Hc. cbn [negb sd_deadline]. unfold zlen. cbn [length].
  destruct (Z.leb_spec (sd_instructions_remaining d - 1) 0) as [Hle|Hgt].
  { split; [lia|by eexists]. }
  rewrite (proj2 (Z.ltb_ge _ _)) by done.
  rewrite IH; [|done..|done]. unfold zlen. cbn [sd_instructions_remaining]. lia.
Qed.

(** A callback that stays within its deadline is stopped at the hook call
    number [max_instructions], that is after [1000 * max_instructions]
    instructions. *)
Lemma callback_instruction_budget b now times d :
  0 < sb_max_instructions b → Forall (λ t, t ≤ now + sb_wall_clock_ms b) times →
  is_Some (hook_calls times (begin_callback b now d)).1 ↔
  kHookInterval * sb_max_instructions b ≤ kHookInterval * zlen times.
Proof.
  intros Hb Ht. rewrite hook_calls_budget; [|done..]. cbn [begin_callback sd_instructions_remaining].
  unfold kHookInterval. lia.
Qed.

(** *** Scripts that protect themselves

    [luaL_error] in the hook raises an ordinary Lua error, and the base library
    leaves [pcall] to the script: by what the Lua manual says of [pcall], the
    error of a hook call that happens inside a protected call of the script is
    caught there and the callback goes on.  [callback_run] composes the hook with
    that behaviour of the runtime; a hook call is its time and whether the script
    is inside its own [pcall]. *)
Fixpoint callback_run (hooks : list (Z * bool)) (d : StateData) : option cstring * StateData :=
  match hooks with
  | [] => (None, d)
  | (now, protected) :: hooks =>
      match instruction_hook now d with
      | (Some e, d) => if protected then callback_run hooks d else (Some e, d)
      | (None, d) => callback_run hooks d
      end
  end.

(** Whether the hook call number [i] (from 0) of a callback that began with
    [remaining] instructions and the deadline [deadline] raises an error. *)
Definition over_budget (remaining deadline : Z) (i : nat) (now : Z) : Prop :=
  remaining ≤ Z.of_nat i + 1 ∨ deadline < now.

Lemma hook_in_callback now d :
  sd_in_callback d = true →
  let d' := (instruction_hook now d).2 in
  sd_in_callback d' = true ∧ sd_deadline d' = sd_deadline d ∧
  sd_instructions_remaining d' = sd_instructions_remaining d - 1 ∧
  (is_Some (instruction_hook now d).1 ↔
   over_budget (sd_instructions_remaining d) (sd_deadline d) 0 now).
Proof.
  intros Hc. unfold instruction_hook, over_budget. rewrite Hc. cbn [negb sd_deadline].
  destruct (Z.leb_spec (sd_instructions_remaining d - 1) 0) as [Hle|Hgt];
    [|destruct (Z.ltb_spec (sd_deadline d) now)]; cbn; split_and!; try done.
  - split; [lia|by eexists].
  - split; [lia|by eexists].
  - split; [by intros []|lia].
Qed.

Lemma callback_run_stopped hooks d :
  sd_in_callback d = true →
  is_Some (callback_run hooks d).1 ↔
  ∃ i now, hooks !! i = Some (now, false) ∧
    over_budget (sd_instructions_remaining d) (sd_deadline d) i now.
Proof.
  revert d. induction hooks as [|[now protected] hooks IH]; intros d Hc.
  { cbn. split; [by intros []|]. by intros (i & t & Hi & _). }
  destruct (hook_in_callback now d Hc) as (Hc' & Hd' & Hr' & Hraise).
  cbn [callback_run]. destruct (instruction_hook now d) as [raised d'].
  cbn [fst snd] in Hc', Hd', Hr', Hraise. specialize (IH d' Hc'). rewrite Hd', Hr' in IH.
  assert (Hshift : (∃ i t, hooks !! i = Some (t, false) ∧
      over_budget (sd_instructions_remaining d - 1) (sd_deadline d) i t) ↔
    ∃ i t, ((now, protected) :: hooks) !! S i = Some (t, false) ∧
      over_budget (sd_instructions_remaining d) (sd_deadline d) (S i) t).
  { unfold over_budget. split; intros (i & t & Hi & Ho); exists i, t; (split; [done|]); lia. }
  rewrite Hshift in IH.
  destruct raised as [e|]; [destruct protected|].
  - rewrite IH. split; [intros (i & t & H); by exists (S i), t|].
    intros ([|i] & t & Hi & Ho); [discriminate Hi|by exists i, t].
  - split; [|by eexists]. intros _. exists 0%nat, now. split; [done|]. apply Hraise. by eexists.
  - rewrite IH. split; [intros (i & t & H); by exists (S i), t|].
    intros ([|i] & t & Hi & Ho); [|by exists i, t]. exfalso.
    injection Hi as -> ->. by apply Hraise in Ho as [].
Qed.

(** C36: The budgets stop a callback exactly when some hook call that is over the
    instruction count or past the deadline finds the script outside its own
    [pcall]: a script that spends its time inside one is never stopped, however
    long it runs. *)
Theorem callback_stopped_iff b now d hooks :
  is_Some (callback_run hooks (begin_callback b now d)).1 ↔
  ∃ i t, hooks !! i = Some (t, false) ∧
    (sb_max_instructions b ≤ Z.of_nat i + 1 ∨ now + sb_wall_clock_ms b < t).
Proof. by apply callback_run_stopped. Qed.

(** A thousand hook calls past every budget. *)
Example protected_loop_survives :
  (callback_run (replicate 1000 (10 ^ 9, true)) (begin_callback
    (mkBudgets 0 0 10 200) 0 new_StateData)).1 = None.
Proof. vm_compute. reflexivity. Qed.

(** The flag that a budget was hit outlives the callback: every later error of
    the script is reported as an exceeded budget. *)
Lemma aborted_persists b now d status :
  sd_aborted d = true →
  sd_aborted (begin_callback b now (end_callback d)) = true ∧
  pcall (sd_aborted (begin_callback b now (end_callback d))) (Err status) =
    Err (mkSandboxError SbBudgetExceeded "budget.exceeded"
           (default (lit "unknown Lua error") status)).
Proof. intros H. cbn. by rewrite H. Qed.

(** ** Construction and destruction

    The host objects behind a sandbox that are alive. *)
Record HostObjects := mkObjects { so_data : bool; so_state : bool; so_object : bool }.
Definition no_objects : HostObjects := mkObjects false false false.

(** [create]: each argument is whether an allocation or [lua_newstate]
    succeeded; the result is whether a sandbox is returned, and what is alive
    then. *)
Definition create (data_ok state_ok object_ok : bool) : bool * HostObjects :=
  if negb data_ok then (false, no_objects)
  else
    let o := mkObjects true false false in
    if negb state_ok then (false, mkObjects false (so_state o) (so_object o))
    else
      let o := mkObjects (so_data o) true (so_object o) in
      if negb object_ok then
        let o := mkObjects (so_data o) false (so_object o) in
        (false, mkObjects false (so_state o) (so_object o))
      else (true, mkObjects (so_data o) (so_state o) true).

(** The destructor, then the release of the object itself. *)
Definition destroy (o : HostObjects) : HostObjects :=
  let o := if so_state o then mkObjects false false (so_object o) else o in
  mkObjects (so_data o) (so_state o) false.

(** Nothing leaks: a failed [create] leaves nothing alive, and a sandbox takes
    everything with it. *)
Lemma create_destroy_balanced data_ok state_ok object_ok :
  let '(created, o) := create data_ok state_ok object_ok in
  created = data_ok && state_ok && object_ok ∧
  (created = false → o = no_objects) ∧ destroy o = no_objects.
Proof. by destruct data_ok, state_ok, object_ok. Qed.
