(* ===== verification/DriverEngine.v ===== *)
(** * The driver engine ([src/drivers/driver_engine.cpp])

    The lifecycle of a driver script (loading, starting, event delivery,
    stopping, fault accounting and quarantine) and the discovery and safe
    reading of manifests and scripts.  What the script does in a callback and
    what the file system answers are parameters. *)
From S2P Require Import Prelude Double Json Types Time PacketParser Sha256 Manifest LuaSandbox.
Open Scope Z_scope.

(** ** Data *)
Record EngineLimits := mkLimits {
  el_max_concurrent_scripts : Z;
  el_max_endpoints_per_driver : Z;
  el_max_subscriptions_per_driver : Z;
  el_max_events_per_second_per_driver : Z;
  el_fault_threshold : Z;
  el_sandbox_budgets : SandboxBudgets;
}.
Definition default_limits : EngineLimits := mkLimits 16 8 16 64 3 default_budgets.

Inductive DriverState := Discovered | Loaded | Started | Quarantined | Failed.

#[global] Instance DriverState_eq_dec : EqDecision DriverState.
Proof. solve_decision. Defined.

Record CaptureFilter := mkFilter {
  fl_event_type : cstring;
  fl_transport : cstring;
  fl_min_confidence_permille : Z;
}.

Record DriverResourceLimits := mkResourceLimits {
  rl_max_endpoints : Z;
  rl_max_subscriptions : Z;
  rl_max_events_per_second : Z;
  rl_max_string_bytes : Z;
}.

(** The part of [DriverHostState] the engine reads; the sandbox is present with
    its [aborted_] flag. *)
Record DriverInstance := mkInstance {
  di_state : DriverState;
  di_faults : Z;
  di_sandbox : option bool;
  di_manifest : DriverManifest;
  di_resource_limits : DriverResourceLimits;
  di_capture_filters : list CaptureFilter;
  di_limits : EngineLimits;
}.

Definition new_instance (m : DriverManifest) (l : EngineLimits) : DriverInstance :=
  mkInstance Discovered 0 None m
    (mkResourceLimits (Z.min (el_max_endpoints_per_driver l) (dm_max_endpoints m))
       (Z.min (el_max_subscriptions_per_driver l) (dm_max_subscriptions m))
       (el_max_events_per_second_per_driver l)
       (sb_max_string_bytes (el_sandbox_budgets l)))
    [] l.

Definition set_state (s : DriverState) (i : DriverInstance) : DriverInstance :=
  mkInstance s (di_faults i) (di_sandbox i) (di_manifest i) (di_resource_limits i)
    (di_capture_filters i) (di_limits i).
Definition set_sandbox (s : option bool) (i : DriverInstance) : DriverInstance :=
  mkInstance (di_state i) (di_faults i) s (di_manifest i) (di_resource_limits i)
    (di_capture_filters i) (di_limits i).

(** ** Callbacks

    A protected call of the script: whether a budget was hit, what [lua_pcall]
    returned, and the capture filters the script has registered afterwards. *)
Record Callback := mkCallback {
  cb_aborted : bool;
  cb_status : result (option cstring) ();
  cb_filters : list CaptureFilter;
}.

Definition run_callback (cb : Callback) (i : DriverInstance) :
    result SandboxError () * DriverInstance :=
  let aborted := default false (di_sandbox i) || cb_aborted cb in
  (pcall aborted (cb_status cb),
   mkInstance (di_state i) (di_faults i) (Some aborted) (di_manifest i) (di_resource_limits i)
     (cb_filters cb) (di_limits i)).

(** [None] is a global that the script does not define. *)
Definition call_optional (cb : option Callback) (i : DriverInstance) :
    result SandboxError () * DriverInstance :=
  match cb with None => (Ok (), i) | Some cb => run_callback cb i end.

Definition backoff_ms (faults : Z) : Z := Z.min (u32 (Z.shiftl 25 (faults - 1))) 8000.

(** The sleep in milliseconds, if any, and the instance afterwards. *)
Definition record_fault (i : DriverInstance) : option Z * DriverInstance :=
  let faults := u32 (di_faults i + 1) in
  let i := mkInstance (di_state i) faults (di_sandbox i) (di_manifest i)
             (di_resource_limits i) (di_capture_filters i) (di_limits i) in
  if el_fault_threshold (di_limits i) <=? faults then (None, set_state Quarantined i)
  else (Some (backoff_ms faults), i).

(** ** The lifecycle *)
Record LoadEnv := mkLoadEnv {
  le_created : bool;
  le_bindings : result cstring ();
  le_compile : result (option cstring) ();
  le_chunk : Callback;
  le_on_load : option Callback;
}.

Definition load_failed (error : cstring) (i : DriverInstance) :
    result cstring () * DriverInstance :=
  (Err error, set_sandbox None (set_state Failed i)).

Definition load (env : LoadEnv) (script_source : cstring) (i : DriverInstance) :
    result cstring () * DriverInstance :=
  if negb (bool_decide (di_state i = Discovered))
  then (Err (lit "driver is not in the discovered state"), i)
  else if negb (le_created env) then load_failed "sandbox construction failed" i
  else
    let i := set_sandbox (Some false) i in
    match le_bindings env with
    | Err e => load_failed (lit "binding registration failed: " ++ e) i
    | Ok _ =>
        match load_source (le_compile env) script_source with
        | Err e => load_failed (se_message e) i
        | Ok _ =>
            match run_callback (le_chunk env) i with
            | (Err e, i) => load_failed (se_message e) i
            | (Ok _, i) =>
                match le_on_load env with
                | None => load_failed "script does not define on_load" i
                | Some cb =>
                    match run_callback cb i with
                    | (Err e, i) => load_failed (se_message e) (record_fault i).2
                    | (Ok _, i) => (Ok (), set_state Loaded i)
                    end
                end
            end
        end
    end.

(** The table [on_load] receives. *)
Inductive lua_value :=
  | LString (s : cstring)
  | LNumber (d : double)
  | LBool (b : bool)
  | LArray (l : list lua_value)
  | LTable (fields : list (cstring * lua_value)).

Definition load_context (m : DriverManifest) : lua_value :=
  LTable ([(lit "name", LString (dm_name m)); (lit "version", LString (dm_version m));
           (lit "capabilities",
            LTable ((λ c, (capability_name c, LBool true)) <$> dm_capabilities m))]
          ++ when (negb (is_empty (dm_event_types m)))
               [(lit "event_types", LArray (LString <$> dm_event_types m))]).

Definition start (on_start : option Callback) (i : DriverInstance) :
    result cstring () * DriverInstance :=
  if negb (bool_decide (di_state i = Loaded))
  then (Err (lit "driver is not in the loaded state"), i)
  else
    match call_optional on_start i with
    | (Err e, i) => (Err (se_message e), (record_fault i).2)
    | (Ok _, i) => (Ok (), set_state Started i)
    end.

(** ** Event delivery *)
Definition table_string (key value : cstring) : list (cstring * lua_value) :=
  when (negb (is_empty value)) [(key, LString value)].

Definition process_table (p : ProcessInfo) : lua_value :=
  LTable ([(lit "pid", LNumber (dint (proc_pid p)))] ++ table_string "name" (proc_name p)
          ++ match proc_uid p with Some u => [(lit "uid", LNumber (dint u))] | None => [] end).

Definition network_table (n : NetworkInfo) : lua_value :=
  LTable ([(lit "transport", LString (transport_name (net_transport n)))]
    ++ when (negb (bool_decide (net_direction n = Unknown)))
         [(lit "direction", LString (direction_name (net_direction n)))]
    ++ table_string "local_address" (net_local_address n)
    ++ when (negb (is_empty (net_local_address n)))
         [(lit "local_port", LNumber (dint (net_local_port n)))]
    ++ table_string "remote_address" (net_remote_address n)
    ++ when (negb (is_empty (net_remote_address n)))
         [(lit "remote_port", LNumber (dint (net_remote_port n)))]
    ++ table_string "dns_query_name" (net_dns_query_name n)
    ++ match net_dns_response_code n with
       | Some c => [(lit "dns_response_code", LNumber (dint c))] | None => [] end
    ++ table_string "interface" (net_interface n)).

Definition browser_table (b : BrowserInfo) : lua_value :=
  LTable ([(lit "tab_id", LNumber (dint (br_tab_id b)))] ++ table_string "url" (br_url b)
          ++ table_string "title" (br_title b)).

Definition event_table (e : Event) : lua_value :=
  LTable ([(lit "event_id", LString (ev_event_id e));
           (lit "event_type", LString (event_type_name (ev_type e)));
           (lit "source", LString (event_source_name (ev_source e)));
           (lit "timestamp", LString (to_rfc3339 (ev_timestamp e)));
           (lit "confidence", LNumber (ev_confidence e))]
    ++ table_string "correlation_id" (ev_correlation_id e)
    ++ when (pv_redacted (ev_privacy e)) [(lit "redacted", LBool true)]
    ++ match ev_process e with Some p => [(lit "process", process_table p)] | None => [] end
    ++ match ev_network e with Some n => [(lit "network", network_table n)] | None => [] end
    ++ match ev_browser e with Some b => [(lit "browser", browser_table b)] | None => [] end).

Definition subscribed_to (m : DriverManifest) (e : Event) : bool :=
  is_empty (dm_event_types m) || mem (event_type_name (ev_type e)) (dm_event_types m).

Definition filter_passes (e : Event) (f : CaptureFilter) : bool :=
  negb (negb (is_empty (fl_event_type f)) && (fl_event_type f <>s event_type_name (ev_type e)))
  && match ev_network e with
     | Some n => negb (negb (is_empty (fl_transport f))
                       && (fl_transport f <>s transport_name (net_transport n)))
     | None => true
     end
  && negb ((0 <? fl_min_confidence_permille f)
           && dlt (dmul (ev_confidence e) (dint 1000)) (dint (fl_min_confidence_permille f))).

(** Whether the event reaches the script's [on_event]. *)
Definition delivers (i : DriverInstance) (e : Event) : bool :=
  bool_decide (di_state i = Started)
  && match di_sandbox i with Some _ => true | None => false end
  && subscribed_to (di_manifest i) e
  && forallb (filter_passes e) (di_capture_filters i).

Definition on_event (cb : option Callback) (e : Event) (i : DriverInstance) : DriverInstance :=
  if negb (delivers i e) then i
  else
    match cb with
    | None => i
    | Some cb =>
        match run_callback cb i with
        | (Ok _, i) => i
        | (Err _, i) => (record_fault i).2
        end
    end.

(** [stop]: first the script's [on_stop], then the teardown. *)
Definition stop_callback (on_stop : option Callback) (i : DriverInstance) : DriverInstance :=
  match di_state i, di_sandbox i with
  | Started, Some _ =>
      match call_optional on_stop i with
      | (Ok _, i) => i
      | (Err _, i) => (record_fault i).2
      end
  | _, _ => i
  end.

Definition stop (on_stop : option Callback) (i : DriverInstance) : DriverInstance :=
  let i := set_sandbox None (stop_callback on_stop i) in
  match di_state i with
  | Started | Loaded => set_state Discovered i
  | _ => i
  end.

(** ** Reading files

    What opening a path without following links finds: the kind and size of the
    file, its path by [/proc/self/fd], and what successive [read] calls return
    (an empty piece is end of file or an error). *)
Record OpenFile := mkOpenFile {
  of_stat : option (bool * Z);
  of_link : option cstring;
  of_reads : list cstring;
}.

Definition kMaxScriptBytes : Z := 256 * 1024.
Definition kPathMax : nat := 4096.

Fixpoint read_all (size : nat) (reads : list cstring) : option cstring :=
  match size with
  | O => Some []
  | _ =>
      match reads with
      | [] | [] :: _ => None
      | piece :: reads =>
          let piece := take size piece in
          rest ← read_all (size - length piece) reads; Some (piece ++ rest)
      end
  end.

Section files.
Context (open_nofollow : cstring → option OpenFile).

Definition read_script_safely (path : cstring) : result cstring cstring :=
  match open_nofollow path with
  | None => Err (lit "cannot open file (symlinks are refused)")
  | Some f =>
      match of_stat f with
      | None => Err (lit "cannot stat file")
      | Some (regular, size) =>
          if negb regular then Err (lit "not a regular file")
          else if kMaxScriptBytes <? u64 size then Err (lit "file exceeds the size cap")
          else
            match of_link f with
            | None | Some [] => Err (lit "cannot resolve canonical path")
            | Some link =>
                if take (kPathMax - 1) link <>s path then Err (lit "path is not canonical")
                else
                  match read_all (Z.to_nat (u64 size)) (of_reads f) with
                  | None => Err (lit "short read")
                  | Some source => Ok source
                  end
            end
      end
  end.

(** ** Discovery and loading *)
Definition manifest_suffix : cstring := ".manifest.json".
Definition manifest_name (name : cstring) : bool :=
  negb (length name <? 14)%nat && (drop (length name - 14) name =s manifest_suffix).

Definition join_path (dir name : cstring) : cstring :=
  dir ++ (if bool_decide (last dir = Some "/"%char) then [] else lit "/") ++ name.

Definition discover_dir (readdir : cstring → option (list cstring)) (dir : cstring) :
    list (cstring * cstring) :=
  if is_empty dir then []
  else
    match readdir dir with
    | None => []
    | Some names =>
        names ≫= λ name,
          if negb (manifest_name name) then []
          else
            match read_script_safely (join_path dir name) with
            | Ok source => [(join_path dir name, source)]
            | Err _ => []
            end
    end.

Definition discover_manifests (readdir : cstring → option (list cstring))
    (allowdirs : list cstring) : list (cstring * cstring) :=
  allowdirs ≫= discover_dir readdir.

Definition load_from_manifest_text {JL : JsonLib} (limits : EngineLimits)
    (allowdirs : list cstring) (env : LoadEnv) (manifest_text : cstring) :
    result cstring DriverInstance :=
  manifest ← manifest_parse manifest_text default_Manifest;
  _ ← ensure (is_empty allowdirs || path_within_allowlist (dm_script_path manifest) allowdirs)
        (lit "script path is outside the allowlisted directories");
  script_source ← read_script_safely (dm_script_path manifest);
  _ ← verify_script_hash manifest script_source;
  match load env script_source (new_instance manifest limits) with
  | (Ok _, instance) => Ok instance
  | (Err load_error, _) => Err load_error
  end.

(** The engine object: its limits and the allowlisted directories. *)
Record DriverEngine := mkEngine { de_limits : EngineLimits; de_allowdirs : list cstring }.
Definition set_allowdirs (dirs : list cstring) (e : DriverEngine) : DriverEngine :=
  mkEngine (de_limits e) dirs.
Definition engine_discover (readdir : cstring → option (list cstring)) (e : DriverEngine) :
    list (cstring * cstring) := discover_manifests readdir (de_allowdirs e).
Definition engine_load {JL : JsonLib} (e : DriverEngine) (env : LoadEnv)
    (manifest_text : cstring) : result cstring DriverInstance :=
  load_from_manifest_text (de_limits e) (de_allowdirs e) env manifest_text.
End files.

(** ** Lemmas: the lifecycle *)
Inductive driver_op :=
  | DoLoad (env : LoadEnv) (source : cstring)
  | DoStart (cb : option Callback)
  | DoEvent (cb : option Callback) (e : Event)
  | DoStop (cb : option Callback).

Definition driver_exec (op : driver_op) (i : DriverInstance) : DriverInstance :=
  match op with
  | DoLoad env source => (load env source i).2
  | DoStart cb => (start cb i).2
  | DoEvent cb e => on_event cb e i
  | DoStop cb => stop cb i
  end.

(** The sandbox exists exactly in the states that run callbacks (and, until it
    is torn down, in quarantine); an instance that may still run has not used
    up its faults. *)
Record driver_inv (i : DriverInstance) : Prop := mkDriverInv {
  dv_threshold : 0 < el_fault_threshold (di_limits i) < 2 ^ 32;
  dv_faults : 0 ≤ di_faults i ≤ el_fault_threshold (di_limits i);
  dv_quarantined : di_state i = Quarantined → di_faults i = el_fault_threshold (di_limits i);
  dv_active : di_state i = Discovered ∨ di_state i = Loaded ∨ di_state i = Started →
              di_faults i < el_fault_threshold (di_limits i);
  dv_sandbox : di_state i = Loaded ∨ di_state i = Started → is_Some (di_sandbox i);
  dv_no_sandbox : di_state i = Discovered ∨ di_state i = Failed → di_sandbox i = None;
}.

Lemma record_fault_inv i :
  driver_inv i → di_state i = Loaded ∨ di_state i = Started →
  driver_inv (record_fault i).2 ∧ di_faults (record_fault i).2 = di_faults i + 1.
Proof.
  intros [Ht Hf Hq Ha Hs Hn] Hst. specialize (Ha (or_intror Hst)). specialize (Hs Hst).
  unfold record_fault. cbn [di_limits]. unfold u32. rewrite Z.mod_small by lia.
  destruct (Z.leb_spec (el_fault_threshold (di_limits i)) (di_faults i + 1)); cbn [snd];
    (split; [|done]); split; cbn [set_state di_limits di_faults di_state di_sandbox];
    try done; try lia; try (intros; lia); try naive_solver.
  intros Hx. destruct Hst; congruence.
Qed.

Lemma run_callback_inv cb i :
  driver_inv i → di_state i = Loaded ∨ di_state i = Started →
  driver_inv (run_callback cb i).2 ∧ di_state (run_callback cb i).2 = di_state i ∧
  di_limits (run_callback cb i).2 = di_limits i.
Proof.
  intros [Ht Hf Hq Ha Hs Hn] Hst. split; [|done]. split; cbn; try done.
  intros [H|H]; rewrite H in Hst; naive_solver.
Qed.

Lemma call_optional_inv cb i r i' :
  driver_inv i → di_state i = Loaded ∨ di_state i = Started → call_optional cb i = (r, i') →
  driver_inv i' ∧ di_state i' = di_state i ∧ di_limits i' = di_limits i.
Proof.
  intros Hi Hst. destruct cb as [cb|]; cbn [call_optional]; [|by intros [= _ <-]].
  pose proof (run_callback_inv cb i Hi Hst) as H. intros Hr. rewrite Hr in H. done.
Qed.

Lemma start_inv cb i : driver_inv i → driver_inv (start cb i).2.
Proof.
  intros Hi. unfold start. case_bool_decide as Hst; cbn [negb]; [|done].
  destruct (call_optional cb i) as [r i'] eqn:Hc.
  destruct (call_optional_inv cb i r i') as (Hi' & Hs' & _); [done|by left|done|].
  rewrite Hst in Hs'. destruct r; cbn [snd]; [|apply record_fault_inv; auto].
  destruct Hi' as [Ht Hf Hq Ha Hs Hn]. split; cbn; try done; naive_solver.
Qed.

Lemma on_event_inv cb e i : driver_inv i → driver_inv (on_event cb e i).
Proof.
  intros Hi. unfold on_event, delivers. case_bool_decide as Hst; cbn [andb negb]; [|done].
  destruct (negb _); [done|]. destruct cb as [cb|]; [|done].
  destruct (run_callback_inv cb i Hi (or_intror Hst)) as (Hi' & Hs' & _).
  destruct (run_callback cb i) as [[] i']; cbn [snd] in *; [done|].
  apply record_fault_inv; [done|]. right. congruence.
Qed.

Lemma stop_sandbox_inv i :
  driver_inv i → driver_inv (match di_state i with
                             | Started | Loaded => set_state Discovered (set_sandbox None i)
                             | _ => set_sandbox None i
                             end).
Proof.
  intros [Ht Hf Hq Ha Hs Hn]. destruct (di_state i) eqn:Hst; split; cbn; rewrite ?Hst; try done;
    naive_solver.
Qed.

Lemma stop_callback_inv cb i : driver_inv i → driver_inv (stop_callback cb i).
Proof.
  intros Hi. unfold stop_callback. destruct (di_state i) eqn:Hst; try done.
  destruct (di_sandbox i); [|done]. destruct (call_optional cb i) as [r i'] eqn:Hc.
  destruct (call_optional_inv cb i r i') as (Hi' & Hs' & _); [done|by right|done|].
  destruct r; [done|]. apply record_fault_inv; [done|]. right. congruence.
Qed.

Lemma stop_inv cb i : driver_inv i → driver_inv (stop cb i).
Proof. intros Hi. apply (stop_sandbox_inv (stop_callback cb i)). by apply stop_callback_inv. Qed.

Lemma load_failed_inv e i :
  0 < el_fault_threshold (di_limits i) < 2 ^ 32 →
  0 ≤ di_faults i ≤ el_fault_threshold (di_limits i) → driver_inv (load_failed e i).2.
Proof. intros Ht Hf. split; cbn; try done; naive_solver. Qed.

(** While it loads, an instance is still in the discovered state. *)
Lemma record_fault_loading i :
  0 < el_fault_threshold (di_limits i) < 2 ^ 32 →
  0 ≤ di_faults i < el_fault_threshold (di_limits i) →
  di_limits (record_fault i).2 = di_limits i ∧
  0 ≤ di_faults (record_fault i).2 ≤ el_fault_threshold (di_limits i).
Proof.
  intros Ht Hf. unfold record_fault. cbn [di_limits]. unfold u32. rewrite Z.mod_small by lia.
  destruct (_ <=? _); cbn; split; done || lia.
Qed.

Lemma load_inv env source i : driver_inv i → driver_inv (load env source i).2.
Proof.
  intros Hi. unfold load. case_bool_decide as Hst; cbn [negb]; [|done].
  destruct Hi as [Ht Hf _ Ha _ _]. specialize (Ha (or_introl Hst)).
  destruct (le_created env); cbn [negb]; [|by apply load_failed_inv].
  destruct (le_bindings env); [|by apply load_failed_inv].
  destruct (load_source _ source); [|by apply load_failed_inv].
  destruct (run_callback (le_chunk env) _) as [[] i1] eqn:E1; injection E1 as _ <-;
    [|by apply load_failed_inv].
  destruct (le_on_load env) as [cb|]; [|by apply load_failed_inv].
  destruct (run_callback cb _) as [[] i2] eqn:E2; injection E2 as _ <-.
  - split; cbn; try done; naive_solver lia.
  - set (k := mkInstance _ _ _ _ _ _ _).
    destruct (record_fault_loading k) as [Hl Hk]; [done|by cbn; lia|].
    apply load_failed_inv; by rewrite Hl.
Qed.

Lemma driver_exec_inv op i : driver_inv i → driver_inv (driver_exec op i).
Proof.
  destruct op; cbn [driver_exec]; auto using load_inv, start_inv, on_event_inv, stop_inv.
Qed.

(** In quarantine nothing but the teardown happens. *)
Lemma quarantine_stays op i :
  di_state i = Quarantined →
  di_state (driver_exec op i) = Quarantined ∧ di_faults (driver_exec op i) = di_faults i ∧
  di_capture_filters (driver_exec op i) = di_capture_filters i.
Proof.
  intros H. destruct op as [env source|cb|cb e|cb]; cbn [driver_exec].
  - unfold load. by rewrite H.
  - unfold start. by rewrite H.
  - unfold on_event, delivers. by rewrite H.
  - unfold stop, stop_callback. rewrite H. cbn [set_sandbox di_state]. by rewrite H.
Qed.

Definition driver_run (ops : list driver_op) (i : DriverInstance) : DriverInstance :=
  foldl (λ i op, driver_exec op i) i ops.

Lemma driver_run_inv ops i : driver_inv i → driver_inv (driver_run ops i).
Proof. revert i. induction ops as [|op ops IH]; intros i Hi; [done|]. by apply IH, driver_exec_inv. Qed.

Lemma driver_run_quarantined ops i :
  di_state i = Quarantined →
  di_state (driver_run ops i) = Quarantined ∧ di_faults (driver_run ops i) = di_faults i ∧
  di_capture_filters (driver_run ops i) = di_capture_filters i.
Proof.
  revert i. induction ops as [|op ops IH]; intros i Hi; [done|].
  destruct (quarantine_stays op i Hi) as (H1 & H2 & H3).
  destruct (IH _ H1) as (K1 & K2 & K3). split_and!; [done|..]; etransitivity; eassumption || done.
Qed.

(** C24: Over the whole life of a driver, however it is loaded, started, given
    events, stopped and loaded again, and whatever its script does: it faults
    at most as often as the threshold allows, callbacks run only in a sandbox
    that exists, a torn-down or failed driver has none, and once quarantined it
    stays so: no later operation delivers an event to it or changes its fault
    count or its filters. *)
Theorem driver_lifecycle m limits ops1 ops2 :
  0 < el_fault_threshold limits < 2 ^ 32 →
  let i := driver_run ops1 (new_instance m limits) in
  di_faults i ≤ el_fault_threshold (di_limits i) ∧
  (di_state i = Loaded ∨ di_state i = Started → is_Some (di_sandbox i)) ∧
  (di_state i = Discovered ∨ di_state i = Failed → di_sandbox i = None) ∧
  (di_state i = Quarantined →
   di_faults i = el_fault_threshold (di_limits i) ∧
   let j := driver_run ops2 i in
   di_state j = Quarantined ∧ di_faults j = di_faults i ∧
   di_capture_filters j = di_capture_filters i ∧ ∀ e, delivers j e = false).
Proof.
  intros Ht i. assert (Hi : driver_inv i).
  { apply driver_run_inv. split; cbn; try done; naive_solver lia. }
  destruct Hi as [_ Hf Hq _ Hs Hn]. split_and!; [lia|done..|].
  intros H. split; [by apply Hq|].
  destruct (driver_run_quarantined ops2 i H) as (H1 & H2 & H3). split_and!; [done..|].
  intros e. unfold delivers. by rewrite H1.
Qed.

(** A script whose every callback raises an error, and one that is well-behaved. *)
Definition raising : Callback := mkCallback false (Err (Some (lit "boom"))) [].
Definition quiet : Callback := mkCallback false (Ok ()) [].
Definition good_load : driver_op :=
  DoLoad (mkLoadEnv true (Ok ()) (Ok ()) quiet (Some quiet)) "x = 1".
Definition three_faults : list driver_op :=
  [good_load; DoStart None] ++ replicate 3 (DoEvent (Some raising) default_Event).

Lemma driver_lifecycle_witness :
  let i := driver_run three_faults (new_instance default_Manifest default_limits) in
  di_state i = Quarantined ∧ di_faults i = 3 ∧
  di_state (driver_run [DoStop None; good_load] i) = Quarantined.
Proof.
  destruct (driver_lifecycle default_Manifest default_limits three_faults [DoStop None; good_load])
    as (_ & _ & _ & Hq); [split; reflexivity|].
  split; [vm_compute; reflexivity|]. split; [vm_compute; reflexivity|].
  apply Hq. vm_compute. reflexivity.
Defined.

(** A driver that was stopped can be loaded again, and keeps its fault count and
    the filters of its first life. *)
Example stopped_driver_reloads :
  let i := driver_run [good_load; DoStart None; DoEvent (Some raising) default_Event; DoStop None]
             (new_instance default_Manifest default_limits) in
  di_state i = Discovered ∧ di_state (driver_exec good_load i) = Loaded ∧
  di_faults (driver_exec good_load i) = 1.
Proof. vm_compute. auto. Qed.

(** The backoff doubles from 25 ms up to 8 s, for every fault count whose shift
    is defined (less than the width of the unsigned operand). *)
Lemma backoff_ms_spec faults :
  1 ≤ faults ≤ 32 → backoff_ms faults = Z.min (25 * 2 ^ (faults - 1)) 8000.
Proof.
  intros H. assert (Hall : Forall (λ n, backoff_ms (Z.of_nat n) =
    Z.min (25 * 2 ^ (Z.of_nat n - 1)) 8000) (seq 1 32)).
  { apply (bool_decide_unpack _). vm_compute. exact I. }
  rewrite Forall_forall in Hall. specialize (Hall (Z.to_nat faults)).
  rewrite Z2Nat.id in Hall by lia. apply Hall, elem_of_seq. lia.
Qed.

(** ** Confinement of what is loaded *)
Lemma read_all_length size reads source :
  read_all size reads = Some source → length source = size.
Proof.
  revert size source. induction reads as [|piece reads IH]; intros [|size] source; cbn [read_all];
    try (by intros [= <-]).
  destruct piece as [|c piece]; [done|].
  destruct (read_all (S size - length (take (S size) (c :: piece))) reads) as [rest|] eqn:E;
    [|done]. cbn [mbind option_bind]. intros [= <-]. apply IH in E.
  rewrite length_cons, length_app. cbn [take length] in E. rewrite E.
  rewrite length_take. lia.
Qed.

(** What a successful read says about the file. *)
Definition safe_file (open_nofollow : cstring → option OpenFile) (path source : cstring) : Prop :=
  ∃ f size link, open_nofollow path = Some f ∧ of_stat f = Some (true, size) ∧
    of_link f = Some link ∧ take (kPathMax - 1) link = path ∧
    zlen source = u64 size ∧ zlen source ≤ kMaxScriptBytes.

Lemma read_script_safe open_nofollow path source :
  read_script_safely open_nofollow path = Ok source → safe_file open_nofollow path source.
Proof.
  unfold read_script_safely. intros H. destruct (open_nofollow path) as [f|] eqn:Ho; [|done].
  destruct (of_stat f) as [[[] size]|] eqn:Hs; cbn [negb] in H; [|done..].
  destruct (Z.ltb_spec kMaxScriptBytes (u64 size)) as [|Hle]; [done|].
  destruct (of_link f) as [[|c link]|] eqn:Hl; [done| |done].
  destruct (str_eqb_spec (take (kPathMax - 1) (c :: link)) path) as [Hp|]; cbn [negb] in H; [|done].
  destruct (read_all (Z.to_nat (u64 size)) (of_reads f)) as [src|] eqn:Hr; [|done].
  injection H as ->. apply read_all_length in Hr.
  assert (0 ≤ u64 size) by (apply Z.mod_pos_bound; lia).
  exists f, size, (c :: link). unfold zlen. rewrite Hr. unfold kMaxScriptBytes in *.
  split_and!; done || lia.
Qed.

#[local] Opaque hex_digest.

Lemma load_source_text compile source :
  load_source compile source = Ok () → head source ≠ Some "027"%char.
Proof. destruct source as [|c source]; [done|]. intros H [= ->]. done. Qed.

Lemma load_ok env source i i' :
  load env source i = (Ok (), i') →
  di_state i' = Loaded ∧ di_manifest i' = di_manifest i ∧
  di_resource_limits i' = di_resource_limits i ∧ head source ≠ Some "027"%char.
Proof.
  unfold load, load_failed. intros H. destruct (negb _); [done|]. destruct (negb _); [done|].
  destruct (le_bindings env); [|done].
  destruct (load_source _ source) as [[]|] eqn:Hs; [|done]. apply load_source_text in Hs.
  destruct (run_callback (le_chunk env) _) as [[] i1] eqn:E1; [|done]. injection E1 as _ <-.
  destruct (le_on_load env) as [cb|]; [|done].
  destruct (run_callback cb _) as [[] i2] eqn:E2; [|done]. injection E2 as _ <-.
  by injection H as <-.
Qed.

Lemma verify_script_hash_ok m source :
  verify_script_hash m source = Ok () →
  dm_script_sha256 m ≠ [] → hex_digest source = dm_script_sha256 m.
Proof.
  unfold verify_script_hash. intros H Hne. rewrite (proj2 (is_empty_false _)) in H by done.
  destruct (str_eqb_spec (hex_digest source) (dm_script_sha256 m)); done.
Qed.

(** C23: A driver is loaded only from a valid manifest, only from a regular file
    whose canonical path is the manifest's script path, at or below one of the
    allowlisted directories when there are any, of at most 256 KiB, that is not
    bytecode; if the manifest pins a hash, the script has that SHA-256; and its
    limits are at most the engine's. *)
Theorem load_confined (L : JsonLib) (HL : JsonLaws L) open_nofollow limits allowdirs env text i :
  load_from_manifest_text open_nofollow limits allowdirs env text = Ok i →
  let m := di_manifest i in
  manifest_ok m ∧ di_state i = Loaded ∧
  (allowdirs ≠ [] → ∃ dir, dir ∈ allowdirs ∧ inside (dm_script_path m) dir) ∧
  (∃ source, safe_file open_nofollow (dm_script_path m) source ∧
     head source ≠ Some "027"%char ∧
     (dm_script_sha256 m ≠ [] → hex_digest source = dm_script_sha256 m)) ∧
  rl_max_endpoints (di_resource_limits i) ≤ el_max_endpoints_per_driver limits ∧
  rl_max_subscriptions (di_resource_limits i) ≤ el_max_subscriptions_per_driver limits.
Proof.
  unfold load_from_manifest_text. intros H.
  destruct (manifest_parse text default_Manifest) as [m|] eqn:Hm; [|done].
  cbn [mbind result_bind] in H. unfold ensure in H.
  destruct (is_empty allowdirs || _) eqn:Ha; [|done]. cbn [mbind result_bind] in H.
  destruct (read_script_safely _ _) as [source|] eqn:Hr; [|done]. cbn [mbind result_bind] in H.
  destruct (verify_script_hash m source) as [[]|] eqn:Hv; [|done]. cbn [mbind result_bind] in H.
  destruct (load env source _) as [[[]|] j] eqn:Hl; [|done]. injection H as ->.
  apply load_ok in Hl as (Hst & Hmi & Hri & Hh). rewrite Hst, Hmi, Hri. cbn.
  split_and!; [|done| | |lia..].
  - unfold manifest_parse in Hm. destruct (json_parse text) as [doc|] eqn:Hp; [|done].
    eapply parse_manifest_ok, Hm. by apply parse_wf in Hp as [??].
  - intros Hne. apply orb_true_iff in Ha as [?%is_empty_true|Ha]; [done|].
    by apply path_within_allowlist_spec.
  - exists source. split_and!; [by apply read_script_safe|done|by apply verify_script_hash_ok].
Qed.

Definition script_file : OpenFile :=
  mkOpenFile (Some (true, 5)) (Some (lit "/d/s")) [lit "x ="; lit " 1"].
Definition open_script (path : cstring) : option OpenFile :=
  if path =s "/d/s" then Some script_file else None.
Definition pinned_manifest : json :=
  jobject [(lit "name", JString "tls-notes"); (lit "version", JString "1.0");
           (lit "script", JString "/d/s");
           (lit "script_sha256",
            JString (hex_digest "x = 1"))].
Definition loaded_driver : result cstring DriverInstance :=
  load_from_manifest_text (JL := TreeJson.lib) open_script default_limits [lit "/d"]
    (mkLoadEnv true (Ok ()) (Ok ()) quiet (Some quiet)) (manifest_text pinned_manifest).

Lemma load_confined_witness :
  ∃ i, loaded_driver = Ok i ∧ di_state i = Loaded ∧
    ∃ dir, dir ∈ [lit "/d"] ∧ inside (dm_script_path (di_manifest i)) dir.
Proof.
  assert (Hl : is_ok loaded_driver = true) by (vm_compute; reflexivity).
  destruct loaded_driver as [i|] eqn:Hi; [|discriminate Hl]. unfold loaded_driver in Hi.
  destruct (load_confined TreeJson.lib TreeJson.laws _ _ _ _ _ _ Hi) as (_ & Hs & Hd & _).
  exists i. split; [reflexivity|]. split; [exact Hs|]. apply Hd. discriminate.
Defined.
