(* ===== verification/Descriptor.v ===== *)
(** * Endpoint descriptors ([src/specgen/model/descriptor.cpp])

    The validation of endpoint descriptors and of the JSON Schema subset they
    may contain, and the construction of a descriptor from a valid document.
    A [ValidationResult] is [Ok] or [Err] with the reported reason. *)
From S2P Require Import Prelude Json PacketParser Manifest.
Open Scope Z_scope.

(** ** Data *)
Record EndpointDescriptor := mkEndpoint {
  ep_name : cstring;
  ep_ns : cstring;
  ep_version : cstring;
  ep_kind : cstring;
  ep_summary : cstring;
  ep_description : cstring;
  ep_request : json;
  ep_response : json;
  ep_metadata_only : bool;
  ep_attribution : list cstring;
  ep_confidence : cstring;
  ep_privacy : list cstring;
}.

(** ** Fields *)
Definition name_char (c : ascii) : bool := isalnum c || is_char "_" c || is_char "-" c.

Definition matches_pattern_length (value : cstring) (max_len : Z) (allow_upper : bool) : bool :=
  if is_empty value || (max_len <? zlen value) then false
  else forallb name_char value && (allow_upper || negb (existsb isupper value)).

Definition valid_version (version : cstring) : bool := version_loop 2 version 0 [].

Fixpoint read_items (key : cstring) (max_item_len : Z) (l : list json) (out : list cstring) :
    result cstring (list cstring) :=
  match l with
  | [] => Ok out
  | JString item :: l =>
      if max_item_len <? zlen item then Err (key ++ lit " entry exceeds maximum length")
      else read_items key max_item_len l (out ++ [item])
  | _ :: _ => Err (key ++ lit " entries must be strings")
  end.

Definition valid_string_list (parent : json) (key : cstring) (max_items max_item_len : Z) :
    result cstring (list cstring) :=
  match member key parent with
  | None => Ok []
  | Some (JArray l) =>
      if max_items <? zlen l then Err (key ++ lit " exceeds the item limit")
      else read_items key max_item_len l []
  | Some _ => Err (key ++ lit " must be an array")
  end.

(** ** The JSON Schema subset *)
Definition kMaxSchemaDepth : Z := 8.
Definition kMaxSchemaProperties : Z := 64.
Definition kMaxSchemaEnumItems : Z := 64.

Definition kSchemaKeys : list cstring :=
  lit <$> ["type"; "description"; "properties"; "items"; "required"; "enum"]%string.
Definition kTypes : list cstring :=
  lit <$> ["object"; "array"; "string"; "number"; "integer"; "boolean"; "null"]%string.

Definition object_items (j : json) : list (cstring * json) :=
  match j with JObject kvs => kvs | _ => [] end.

Definition short_string (max : Z) (j : json) : bool :=
  match j with JString s => zlen s <=? max | _ => false end.
Definition scalar (j : json) : bool :=
  is_string j || is_number j || is_boolean j || is_null j.
Definition property_char (c : ascii) : bool := isalnum c || is_char "_" c.
Definition property_name (name : cstring) : bool :=
  negb (is_empty name || (64 <? zlen name) || negb (forallb property_char name)).

(** A check on an optional member. *)
Definition on_member (key : cstring) (doc : json) (check : json → result cstring ()) :
    result cstring () :=
  match member key doc with Some v => check v | None => Ok () end.

Definition check_type (doc : json) : result cstring () :=
  match member "type" doc with
  | Some (JString type) =>
      ensure (mem type kTypes) (lit "request/response schema has unknown type")
  | _ => Err (lit "request/response schema requires a type")
  end.

Definition check_description (v : json) : result cstring () :=
  ensure (short_string 512 v) (lit "schema description must be a bounded string").

Definition check_required (v : json) : result cstring () :=
  match v with
  | JArray l =>
      _ ← ensure (zlen l <=? kMaxSchemaProperties) (lit "schema required must be a bounded array");
      ensure (forallb (short_string 64) l)
        (lit "schema required entries must be bounded strings")
  | _ => Err (lit "schema required must be a bounded array")
  end.

Definition check_enum (v : json) : result cstring () :=
  match v with
  | JArray l =>
      _ ← ensure (zlen l <=? kMaxSchemaEnumItems) (lit "schema enum must be a bounded array");
      ensure (forallb scalar l) (lit "schema enum entries must be scalars")
  | _ => Err (lit "schema enum must be a bounded array")
  end.

(** The loop over [properties]: each name, then its schema ([sub]). *)
Fixpoint check_each (sub : json → result cstring ()) (props : list (cstring * json)) :
    result cstring () :=
  match props with
  | [] => Ok ()
  | (name, s) :: props =>
      _ ← ensure (property_name name) (lit "schema property name is invalid");
      _ ← sub s; check_each sub props
  end.

Definition check_properties (sub : json → result cstring ()) (v : json) : result cstring () :=
  match v with
  | JObject props =>
      _ ← ensure (zlen props <=? kMaxSchemaProperties)
            (lit "schema properties must be a bounded object");
      check_each sub props
  | _ => Err (lit "schema properties must be a bounded object")
  end.

(** [levels] is the number of nested calls the depth limit still allows; the
    check on [depth] comes first, so it is never exhausted (see
    [schema_levels_enough]). *)
Fixpoint schema_at (levels : nat) (doc : json) (depth : Z) : result cstring () :=
  if kMaxSchemaDepth <? depth then Err (lit "request/response schema exceeds maximum depth")
  else
    match levels with
    | O => Err (lit "out of levels")
    | S levels =>
        let sub doc := schema_at levels doc (depth + 1) in
        _ ← ensure (is_object doc) (lit "request/response schema must be an object");
        _ ← ensure (forallb (λ kv, mem kv.1 kSchemaKeys) (object_items doc))
              (lit "request/response schema contains unsupported key");
        _ ← check_type doc;
        _ ← on_member "description" doc check_description;
        _ ← on_member "properties" doc (check_properties sub);
        _ ← on_member "items" doc sub;
        _ ← on_member "required" doc check_required;
        on_member "enum" doc check_enum
    end.

Definition valid_schema_subset (doc : json) (depth : Z) : result cstring () :=
  schema_at (Z.to_nat (kMaxSchemaDepth + 1 - depth)) doc depth.

(** ** Descriptors *)
Definition kDescriptorKeys : list cstring :=
  lit <$> ["name"; "namespace"; "version"; "kind"; "summary"; "description"; "request";
           "response"; "metadata_only"; "attribution"; "confidence"; "privacy"]%string.

(** A check on an optional member that may be null. *)
Definition on_present (key : cstring) (doc : json) (check : json → result cstring ()) :
    result cstring () :=
  on_member key doc (λ v, if is_null v then Ok () else check v).

Definition check_metadata_only (doc : json) : result cstring () :=
  match member "metadata_only" doc with
  | Some (JBool b) => ensure b (lit "descriptor.metadata_only must be true")
  | _ => Err (lit "descriptor.metadata_only is required")
  end.

Definition validate_endpoint_descriptor (doc : json) : result cstring () :=
  _ ← ensure (is_object doc) (lit "descriptor must be a JSON object");
  name ← required_string doc "name" "descriptor.name is required";
  _ ← ensure (matches_pattern_length name 64 true)
        (lit "descriptor.name must match [a-zA-Z0-9_-]{1,64}");
  ns ← required_string doc "namespace" "descriptor.namespace is required";
  _ ← ensure (matches_pattern_length ns 64 false)
        (lit "descriptor.namespace must match [a-z0-9-]{1,64}");
  version ← required_string doc "version" "descriptor.version is required";
  _ ← ensure (valid_version version) (lit "descriptor.version must be numeric x.y[.z]");
  kind ← required_string doc "kind" "descriptor.kind is required";
  _ ← ensure ((kind =s "operation") || (kind =s "stream") || (kind =s "event"))
        (lit "descriptor.kind must be operation, stream, or event");
  summary ← required_string doc "summary" "descriptor.summary is required";
  _ ← ensure (negb (is_empty summary || (256 <? zlen summary)))
        (lit "descriptor.summary must be 1..256 characters");
  _ ← check_metadata_only doc;
  _ ← ensure (forallb (λ kv, mem kv.1 kDescriptorKeys) (object_items doc))
        (lit "descriptor contains unknown field");
  _ ← on_present "description" doc
        (λ v, ensure (short_string 2048 v)
                (lit "descriptor.description must be a bounded string"));
  _ ← on_present "confidence" doc
        (λ v, ensure (short_string 256 v)
                (lit "descriptor.confidence must be a bounded string"));
  _ ← valid_string_list doc "attribution" 16 512;
  _ ← valid_string_list doc "privacy" 16 512;
  _ ← on_present "request" doc (λ v, valid_schema_subset v 0);
  on_present "response" doc (λ v, valid_schema_subset v 0).

(** [doc.at(key).get<std::string>()] of a member known to be a string, the empty
    string when it is absent or not one; the strings of an array; and an object
    or the null value. *)
Definition string_or_empty (key : cstring) (doc : json) : cstring :=
  match member key doc with Some (JString s) => s | _ => [] end.
Definition strings_of (key : cstring) (doc : json) : list cstring :=
  match member key doc with
  | Some (JArray l) => l ≫= λ j, match j with JString s => [s] | _ => [] end
  | _ => []
  end.
Definition object_or_null (key : cstring) (doc : json) : json :=
  match member key doc with Some (JObject kvs) => JObject kvs | _ => JNull end.

Definition parse_endpoint_descriptor (doc : json) : result cstring EndpointDescriptor :=
  _ ← validate_endpoint_descriptor doc;
  Ok {| ep_name := string_or_empty "name" doc;
        ep_ns := string_or_empty "namespace" doc;
        ep_version := string_or_empty "version" doc;
        ep_kind := string_or_empty "kind" doc;
        ep_summary := string_or_empty "summary" doc;
        ep_description := string_or_empty "description" doc;
        ep_request := object_or_null "request" doc;
        ep_response := object_or_null "response" doc;
        ep_metadata_only := true;
        ep_attribution := strings_of "attribution" doc;
        ep_confidence := string_or_empty "confidence" doc;
        ep_privacy := strings_of "privacy" doc |}.

(** ** What an accepted schema is

    [schema_ok n doc]: the document is a schema of the subset with at most [n]
    levels of nesting. *)
Inductive schema_ok : nat → json → Prop :=
  | schema_ok_intro n kvs type :
      Forall (λ kv, kv.1 ∈ kSchemaKeys) kvs →
      assoc_get "type" kvs = Some (JString type) → type ∈ kTypes →
      (∀ v, assoc_get "description" kvs = Some v → ∃ s, v = JString s ∧ zlen s ≤ 512) →
      (∀ v, assoc_get "properties" kvs = Some v →
        ∃ props, v = JObject props ∧ zlen props ≤ 64 ∧
          Forall (λ p, (1 ≤ zlen p.1 ≤ 64 ∧ Forall (λ c, property_char c = true) p.1)
                       ∧ schema_ok n p.2) props) →
      (∀ v, assoc_get "items" kvs = Some v → schema_ok n v) →
      (∀ v, assoc_get "required" kvs = Some v →
        ∃ l, v = JArray l ∧ zlen l ≤ 64 ∧ Forall (λ j, ∃ s, j = JString s ∧ zlen s ≤ 64) l) →
      (∀ v, assoc_get "enum" kvs = Some v →
        ∃ l, v = JArray l ∧ zlen l ≤ 64 ∧ Forall (λ j, scalar j = true) l) →
      schema_ok (S n) (JObject kvs).

Lemma short_string_spec max j : short_string max j = true ↔ ∃ s, j = JString s ∧ zlen s ≤ max.
Proof. destruct j; cbn; rewrite ?Z.leb_le; naive_solver. Qed.

Lemma property_name_spec name :
  property_name name = true ↔ 1 ≤ zlen name ≤ 64 ∧ Forall (λ c, property_char c = true) name.
Proof.
  unfold property_name. rewrite negb_true_iff, !orb_false_iff, Z.ltb_ge, negb_false_iff.
  rewrite (forallb_Forall _ (λ c, property_char c = true)) by done.
  assert (is_empty name = false ↔ 1 ≤ zlen name) as ->; [|naive_solver].
  destruct name; cbn; unfold zlen; cbn [length]; naive_solver lia.
Qed.

Lemma on_member_Ok key kvs check u :
  on_member key (JObject kvs) check = Ok u ↔ ∀ v, assoc_get key kvs = Some v → check v = Ok ().
Proof. unfold on_member. cbn. destruct u, (assoc_get key kvs); naive_solver. Qed.

Lemma check_required_Ok v u :
  check_required v = Ok u ↔
  ∃ l, v = JArray l ∧ zlen l ≤ 64 ∧ Forall (λ j, ∃ s, j = JString s ∧ zlen s ≤ 64) l.
Proof.
  unfold check_required. destruct v; try (split; [done|]; naive_solver).
  rewrite ensure_bind_Ok, ensure_Ok, Z.leb_le.
  rewrite (forallb_Forall _ _ _ (short_string_spec 64)). naive_solver.
Qed.

Lemma check_enum_Ok v u :
  check_enum v = Ok u ↔
  ∃ l, v = JArray l ∧ zlen l ≤ 64 ∧ Forall (λ j, scalar j = true) l.
Proof.
  unfold check_enum. destruct v; try (split; [done|]; naive_solver).
  rewrite ensure_bind_Ok, ensure_Ok, Z.leb_le.
  rewrite (forallb_Forall _ (λ j, scalar j = true)) by done. naive_solver.
Qed.

Lemma check_each_Ok sub props u :
  check_each sub props = Ok u ↔
  Forall (λ p, property_name p.1 = true ∧ sub p.2 = Ok ()) props.
Proof.
  destruct u. induction props as [|[name s] props IH]; cbn [check_each]; [by split|].
  rewrite ensure_bind_Ok, bind_Ok, Forall_cons, <-IH. cbn [fst snd].
  split; [intros (? & [] & ? & ?)|intros [[??] ?]]; eauto.
Qed.

Lemma check_properties_Ok sub v u :
  check_properties sub v = Ok u ↔
  ∃ props, v = JObject props ∧ zlen props ≤ 64 ∧
    Forall (λ p, property_name p.1 = true ∧ sub p.2 = Ok ()) props.
Proof.
  unfold check_properties. destruct v; try (split; [done|]; naive_solver).
  rewrite ensure_bind_Ok, check_each_Ok, Z.leb_le. naive_solver.
Qed.

Lemma check_type_Ok kvs u :
  check_type (JObject kvs) = Ok u ↔
  ∃ type, assoc_get "type" kvs = Some (JString type) ∧ type ∈ kTypes.
Proof.
  unfold check_type. cbn [member]. destruct (assoc_get "type" kvs) as [[]|];
    try (split; [done|]; naive_solver).
  rewrite ensure_Ok, mem_spec. naive_solver.
Qed.

Lemma schema_at_spec n doc depth :
  depth + Z.of_nat n = kMaxSchemaDepth + 1 → schema_at n doc depth = Ok () ↔ schema_ok n doc.
Proof.
  revert doc depth. induction n as [|n IH]; intros doc depth Hn.
  { cbn [schema_at]. rewrite (proj2 (Z.ltb_lt _ _)) by lia. split; [done|by inversion 1]. }
  cbn [schema_at]. rewrite (proj2 (Z.ltb_ge _ _)) by lia.
  assert (Hsub : ∀ s u, schema_at n s (depth + 1) = Ok u ↔ schema_ok n s).
  { intros s []. apply IH. lia. }
  destruct doc as [| | | | | | |kvs];
    try (split; [intros H; apply ensure_bind_Ok in H as [? _]; done|by inversion 1]).
  rewrite ensure_bind_Ok, ensure_bind_Ok. cbn [object_items].
  rewrite (forallb_Forall _ (λ kv, kv.1 ∈ kSchemaKeys)) by (intros; apply mem_spec).
  split.
  - intros (_ & Hkeys & H). apply bind_Ok in H as ([] & Ht & H).
    apply bind_Ok in H as ([] & Hd & H).
    apply bind_Ok in H as ([] & Hp & H). apply bind_Ok in H as ([] & Hi & H).
    apply bind_Ok in H as ([] & Hr & He).
    apply check_type_Ok in Ht as (type & Ht & Hin). rewrite on_member_Ok in Hd, Hp, Hi, Hr, He.
    apply (schema_ok_intro n kvs type); [done..| | | | |].
    + intros v Hv%Hd. by apply ensure_Ok, short_string_spec in Hv.
    + intros v (props & -> & Hl & Hf)%Hp%check_properties_Ok. exists props. split_and!; [done..|].
      eapply Forall_impl; [exact Hf|]. intros p [Hname%property_name_spec Hs%Hsub]. done.
    + intros v Hv%Hi. by apply Hsub in Hv.
    + intros v Hv%Hr. by apply check_required_Ok in Hv.
    + intros v Hv%He. by apply check_enum_Ok in Hv.
  - inversion 1 as [n' kvs' type Hkeys Ht Hin Hd Hp Hi Hr He]; subst. split_and!; [done..|].
    rewrite bind_Ok. exists (). split; [apply check_type_Ok; eauto|].
    rewrite bind_Ok. exists ().
    split; [apply on_member_Ok; intros v Hv%Hd; by apply ensure_Ok, short_string_spec|].
    rewrite bind_Ok. exists (). split.
    { apply on_member_Ok. intros v (props & -> & Hl & Hf)%Hp. apply check_properties_Ok.
      exists props. split_and!; [done..|]. eapply Forall_impl; [exact Hf|].
      intros p [Hname Hs]. split; [by apply property_name_spec|by apply Hsub]. }
    rewrite bind_Ok. exists (). split; [apply on_member_Ok; intros v Hv%Hi; by apply Hsub|].
    rewrite bind_Ok. exists (). split; [apply on_member_Ok; intros v Hv%Hr; by apply check_required_Ok|].
    apply on_member_Ok. intros v Hv%He. by apply check_enum_Ok.
Qed.

(** The levels given by [valid_schema_subset] are never exhausted: more of them
    change nothing. *)
Lemma schema_levels_enough n k doc depth :
  depth + Z.of_nat n = kMaxSchemaDepth + 1 →
  schema_at (n + k) doc depth = schema_at n doc depth.
Proof.
  revert doc depth. induction n as [|n IH]; intros doc depth Hn.
  { cbn [Nat.add]. destruct k; cbn [schema_at]; by rewrite (proj2 (Z.ltb_lt _ _)) by lia. }
  cbn [Nat.add schema_at]. destruct (kMaxSchemaDepth <? depth); [done|].
  destruct (is_object doc) eqn:Ho; [|done]. cbn [ensure mbind result_bind].
  assert (Hsub : ∀ s, schema_at (n + k) s (depth + 1) = schema_at n s (depth + 1)).
  { intros s. apply IH. lia. }
  assert (Hon : ∀ key f g, (∀ v, f v = g v) → on_member key doc f = on_member key doc g).
  { intros key f g Hfg. unfold on_member. by destruct (member key doc). }
  rewrite (Hon "properties"%string _ (check_properties (λ d, schema_at n d (depth + 1)))).
  { by rewrite (Hon "items"%string _ (λ d, schema_at n d (depth + 1))) by apply Hsub. }
  intros [| | | | | | |props]; try done. unfold check_properties. f_equal.
  enough (∀ ps, check_each (λ d, schema_at (n + k) d (depth + 1)) ps =
                check_each (λ d, schema_at n d (depth + 1)) ps) as -> by done.
  induction ps as [|[name s] ps IHps]; [done|]. cbn [check_each]. by rewrite Hsub, IHps.
Qed.

(** C40: The schema validator accepts exactly the documents of the subset: objects
    with the six supported keys, a known type, bounded descriptions, property
    names, lists and enumerations, nested at most eight levels below the top. *)
Theorem valid_schema_subset_spec doc :
  valid_schema_subset doc 0 = Ok () ↔ schema_ok 9 doc.
Proof. by apply schema_at_spec. Qed.

(** ** What an accepted descriptor is *)
Definition kKinds : list cstring := lit <$> ["operation"; "stream"; "event"]%string.

Record descriptor_ok (d : EndpointDescriptor) : Prop := mkDescriptorOk {
  ok_name : 1 ≤ zlen (ep_name d) ≤ 64 ∧ Forall (λ c, name_char c = true) (ep_name d);
  ok_ns : 1 ≤ zlen (ep_ns d) ≤ 64 ∧
          Forall (λ c, name_char c = true ∧ isupper c = false) (ep_ns d);
  ok_version : ∃ parts, ep_version d = join_dots parts ∧ Forall digits parts ∧
                 2 ≤ zlen parts ≤ 3;
  ok_kind : ep_kind d ∈ kKinds;
  ok_summary : 1 ≤ zlen (ep_summary d) ≤ 256;
  ok_description : zlen (ep_description d) ≤ 2048;
  ok_request : ep_request d = JNull ∨ schema_ok 9 (ep_request d);
  ok_response : ep_response d = JNull ∨ schema_ok 9 (ep_response d);
  ok_metadata_only : ep_metadata_only d = true;
  ok_attribution : zlen (ep_attribution d) ≤ 16 ∧ Forall (λ s, zlen s ≤ 512) (ep_attribution d);
  ok_confidence : zlen (ep_confidence d) ≤ 256;
  ok_privacy : zlen (ep_privacy d) ≤ 16 ∧ Forall (λ s, zlen s ≤ 512) (ep_privacy d);
}.

(** The document that declares a descriptor. *)
Definition descriptor_json (d : EndpointDescriptor) : json :=
  jobject
    [(lit "name", JString (ep_name d)); (lit "namespace", JString (ep_ns d));
     (lit "version", JString (ep_version d)); (lit "kind", JString (ep_kind d));
     (lit "summary", JString (ep_summary d)); (lit "description", JString (ep_description d));
     (lit "request", ep_request d); (lit "response", ep_response d);
     (lit "metadata_only", JBool (ep_metadata_only d));
     (lit "attribution", JArray (JString <$> ep_attribution d));
     (lit "confidence", JString (ep_confidence d));
     (lit "privacy", JArray (JString <$> ep_privacy d))].

Lemma nonempty_zlen {A} (l : list A) : is_empty l = false ↔ 1 ≤ zlen l.
Proof. destruct l; cbn; unfold zlen; cbn [length]; naive_solver lia. Qed.

Lemma matches_name_spec s :
  matches_pattern_length s 64 true = true ↔
  1 ≤ zlen s ≤ 64 ∧ Forall (λ c, name_char c = true) s.
Proof.
  unfold matches_pattern_length. destruct (is_empty s) eqn:He; cbn [orb].
  { apply is_empty_true in He as ->. split; [done|]. change (zlen []) with 0. lia. }
  apply nonempty_zlen in He. destruct (Z.ltb_spec 64 (zlen s)); [split; [done|lia]|].
  rewrite andb_true_r, (forallb_Forall _ (λ c, name_char c = true)) by done. naive_solver.
Qed.

Lemma matches_ns_spec s :
  matches_pattern_length s 64 false = true ↔
  1 ≤ zlen s ≤ 64 ∧ Forall (λ c, name_char c = true ∧ isupper c = false) s.
Proof.
  transitivity (matches_pattern_length s 64 true = true ∧ existsb isupper s = false).
  - unfold matches_pattern_length. destruct (is_empty s || _); [naive_solver|].
    rewrite andb_true_r, andb_true_iff, orb_false_l, negb_true_iff. done.
  - rewrite matches_name_spec, Forall_and.
    assert (existsb isupper s = false ↔ Forall (λ c, isupper c = false) s) as ->; [|naive_solver].
    induction s as [|c s IH]; cbn [existsb]; [by split|].
    by rewrite orb_false_iff, Forall_cons, IH.
Qed.

Lemma read_items_Ok key max l out ss :
  read_items key max l out = Ok ss ↔
  ∃ items, l = JString <$> items ∧ ss = out ++ items ∧ Forall (λ s, zlen s ≤ max) items.
Proof.
  revert out. induction l as [|j l IH]; intros out; cbn [read_items].
  { split; [intros [= <-]; exists []; by rewrite app_nil_r|].
    intros ([] & Hl & -> & _); [by rewrite app_nil_r|done]. }
  destruct j as [| | | | |s| |];
    try (split; [done|]; intros ([] & Hl & _); cbn in Hl; congruence).
  destruct (Z.ltb_spec max (zlen s)).
  - split; [done|]. intros ([|i items] & Hl & _ & Hf); [done|].
    cbn in Hl. inversion Hf; subst. injection Hl as -> _. lia.
  - rewrite IH. split.
    + intros (items & -> & -> & Hf). exists (s :: items). rewrite <-(assoc_L (++)).
      split_and!; [done..|]. by constructor.
    + intros ([|i items] & Hl & -> & Hf); [done|]. cbn in Hl. injection Hl as -> ->.
      inversion Hf; subst. exists items. by rewrite <-(assoc_L (++)).
Qed.

Lemma valid_string_list_Ok doc key n max ss :
  valid_string_list doc key n max = Ok ss →
  ss = strings_of key doc ∧ Forall (λ s, zlen s ≤ max) ss ∧ (0 ≤ n → zlen ss ≤ n).
Proof.
  unfold valid_string_list, strings_of. destruct (member key doc) as [[]|]; try done.
  - destruct (Z.ltb_spec n (zlen l)) as [|Hl]; [done|].
    intros (items & -> & -> & Hf)%read_items_Ok. cbn [app].
    split_and!; [|done|intros _; unfold zlen in *; by rewrite length_fmap in Hl].
    clear. induction items as [|i items IH]; [done|]. cbn. by rewrite <-IH.
  - intros [= <-]. by split_and!.
Qed.

Lemma required_string_Ok doc key e s :
  required_string doc key e = Ok s ↔ member key doc = Some (JString s).
Proof. unfold required_string. destruct (member key doc) as [[]|]; naive_solver. Qed.

Lemma on_present_Ok key doc check u :
  on_present key doc check = Ok u ↔
  ∀ v, member key doc = Some v → v = JNull ∨ check v = Ok ().
Proof.
  unfold on_present, on_member. destruct u, (member key doc) as [v|]; [|naive_solver].
  destruct v; cbn [is_null]; naive_solver.
Qed.

Lemma bounded_member_string key doc max e :
  0 ≤ max → on_present key doc (λ v, ensure (short_string max v) e) = Ok () →
  zlen (string_or_empty key doc) ≤ max.
Proof.
  intros Hm H. rewrite on_present_Ok in H. unfold string_or_empty.
  destruct (member key doc) as [[]|]; try done.
  destruct (H _ eq_refl) as [|(? & [= ->] & ?)%ensure_Ok%short_string_spec]; done.
Qed.

Lemma schema_member key doc :
  on_present key doc (λ v, valid_schema_subset v 0) = Ok () →
  object_or_null key doc = JNull ∨ schema_ok 9 (object_or_null key doc).
Proof.
  rewrite on_present_Ok. intros H. unfold object_or_null.
  destruct (member key doc) as [[| | | | | | |kvs]|]; eauto.
  destruct (H _ eq_refl) as [|Hs]; [done|]. right. by apply schema_at_spec in Hs.
Qed.

(** Taking a sequence of steps apart, one hypothesis per step. *)
Ltac bind_steps H :=
  repeat first
    [ let Hb := fresh "Hb" in apply ensure_bind_Ok in H as [Hb H]
    | let a := fresh "a" in let Ha := fresh "Ha" in apply bind_Ok in H as (a & Ha & H) ].

Lemma parse_descriptor_ok doc d : parse_endpoint_descriptor doc = Ok d → descriptor_ok d.
Proof.
  unfold parse_endpoint_descriptor. intros H. apply bind_Ok in H as ([] & H & [= <-]).
  unfold validate_endpoint_descriptor in H. bind_steps H.
  repeat match goal with
  | Hm : required_string doc _ _ = Ok _ |- _ => apply required_string_Ok in Hm
  | a : unit |- _ => destruct a
  end.
  assert (Hs : ∀ key s, member key doc = Some (JString s) → string_or_empty key doc = s).
  { intros key s Hm. unfold string_or_empty. by rewrite Hm. }
  split; cbn [ep_name ep_ns ep_version ep_kind ep_summary ep_description ep_request
    ep_response ep_metadata_only ep_attribution ep_confidence ep_privacy].
  - erewrite Hs by done. by apply matches_name_spec.
  - erewrite Hs by done. by apply matches_ns_spec.
  - erewrite Hs by done. by apply (version_loop_spec 2).
  - erewrite Hs by done. apply mem_spec. unfold mem, kKinds. cbn [fmap list_fmap existsb].
    by rewrite orb_false_r, orb_assoc.
  - erewrite Hs by done. match goal with Hb : negb _ = true |- _ => revert Hb end.
    rewrite negb_true_iff, orb_false_iff, Z.ltb_ge. by intros [?%nonempty_zlen ?].
  - by eapply bounded_member_string.
  - by apply schema_member.
  - by apply schema_member.
  - done.
  - match goal with Hl : valid_string_list doc (lit "attribution") _ _ = _ |- _ =>
      apply valid_string_list_Ok in Hl as (<- & ? & ?) end. auto with lia.
  - by eapply bounded_member_string.
  - match goal with Hl : valid_string_list doc (lit "privacy") _ _ = _ |- _ =>
      apply valid_string_list_Ok in Hl as (<- & ? & ?) end. auto with lia.
Qed.

Lemma required_member d key e s :
  member key (descriptor_json d) = Some (JString s) →
  required_string (descriptor_json d) key e = Ok s.
Proof. intros H. by apply required_string_Ok. Qed.

Lemma present_member key doc v check :
  member key doc = Some v → (v = JNull ∨ check v = Ok ()) → on_present key doc check = Ok ().
Proof. intros Hv Hc. apply on_present_Ok. intros v' ?. by simplify_eq. Qed.

Lemma string_list_member key doc n max ss :
  member key doc = Some (JArray (JString <$> ss)) → zlen ss ≤ n →
  Forall (λ s, zlen s ≤ max) ss → valid_string_list doc key n max = Ok ss.
Proof.
  intros Hm Hn Hf. unfold valid_string_list. rewrite Hm.
  assert (zlen (JString <$> ss) = zlen ss) as -> by (unfold zlen; by rewrite length_fmap).
  rewrite (proj2 (Z.ltb_ge _ _)) by lia. apply read_items_Ok. by exists ss.
Qed.

Lemma validate_descriptor_json d :
  descriptor_ok d → validate_endpoint_descriptor (descriptor_json d) = Ok ().
Proof.
  intros []. unfold validate_endpoint_descriptor.
  apply ensure_bind_Ok. split; [done|]. apply bind_Ok. exists (ep_name d).
  split; [by apply required_member|]. apply ensure_bind_Ok. split; [by apply matches_name_spec|].
  apply bind_Ok. exists (ep_ns d). split; [by apply required_member|].
  apply ensure_bind_Ok. split; [by apply matches_ns_spec|].
  apply bind_Ok. exists (ep_version d). split; [by apply required_member|].
  apply ensure_bind_Ok. split; [by apply (version_loop_spec 2)|].
  apply bind_Ok. exists (ep_kind d). split; [by apply required_member|].
  apply ensure_bind_Ok. split.
  { apply mem_spec in ok_kind0. unfold mem, kKinds in ok_kind0. revert ok_kind0.
    cbn [fmap list_fmap existsb]. by rewrite orb_false_r, orb_assoc. }
  apply bind_Ok. exists (ep_summary d). split; [by apply required_member|].
  apply ensure_bind_Ok. split.
  { apply negb_true_iff, orb_false_iff. rewrite Z.ltb_ge, nonempty_zlen. lia. }
  apply bind_Ok. exists (). split.
  { unfold check_metadata_only.
    change (member (lit "metadata_only") (descriptor_json d)) with (Some (JBool (ep_metadata_only d))).
    by rewrite ok_metadata_only0. }
  apply ensure_bind_Ok. split; [done|]. apply bind_Ok. exists (). split.
  { eapply present_member; [done|]. right. apply ensure_Ok, short_string_spec. eauto. }
  apply bind_Ok. exists (). split.
  { eapply present_member; [done|]. right. apply ensure_Ok, short_string_spec. eauto. }
  apply bind_Ok. exists (ep_attribution d). split; [apply string_list_member; tauto || reflexivity|].
  apply bind_Ok. exists (ep_privacy d). split; [apply string_list_member; tauto || reflexivity|].
  apply bind_Ok. exists (). split.
  - eapply present_member; [done|]. destruct ok_request0; [by left|right]. by apply schema_at_spec.
  - eapply present_member; [done|]. destruct ok_response0; [by left|right]. by apply schema_at_spec.
Qed.

Lemma strings_of_fmap key doc ss :
  member key doc = Some (JArray (JString <$> ss)) → strings_of key doc = ss.
Proof.
  intros Hm. unfold strings_of. rewrite Hm. clear Hm.
  induction ss as [|s ss IH]; [done|]. cbn. by rewrite IH.
Qed.

Lemma object_or_null_member key doc v :
  member key doc = Some v → v = JNull ∨ schema_ok 9 v → object_or_null key doc = v.
Proof. intros Hm Hv. unfold object_or_null. rewrite Hm. by destruct Hv as [->|[]]. Qed.

(** C39: Descriptor parsing is exact: every accepted document yields a descriptor
    within all documented bounds whose schemas belong to the subset, and every
    such descriptor is read back unchanged from the document that declares it. *)
Theorem parse_endpoint_descriptor_exact :
  (∀ doc d, parse_endpoint_descriptor doc = Ok d → descriptor_ok d) ∧
  (∀ d, descriptor_ok d → parse_endpoint_descriptor (descriptor_json d) = Ok d).
Proof.
  split; [apply parse_descriptor_ok|]. intros d Hd. unfold parse_endpoint_descriptor.
  apply bind_Ok. exists (). split; [by apply validate_descriptor_json|].
  rewrite (strings_of_fmap "attribution" _ (ep_attribution d)) by done.
  rewrite (strings_of_fmap "privacy" _ (ep_privacy d)) by done.
  rewrite (object_or_null_member "request" _ (ep_request d)) by (reflexivity || apply Hd).
  rewrite (object_or_null_member "response" _ (ep_response d)) by (reflexivity || apply Hd).
  destruct d as [? ? ? ? ? ? ? ? b ? ? ?]. pose proof (ok_metadata_only _ Hd) as Hb.
  cbn [ep_metadata_only] in Hb. subst b. reflexivity.
Qed.
