(* ===== verification/Specgen.v ===== *)
(** * The specification generator ([src/specgen/])

    The three emitters ([emitters/emitters.cpp]) and the entry point
    ([specgen.cpp]).  Documents are JSON values; writing them as text is the
    JSON library's [dump(2)], a parameter with its documented behaviour. *)
From S2P Require Import Prelude Json PacketParser Manifest Descriptor.
From stdpp Require Import sorting.
Open Scope Z_scope.

(** ** Data *)
Inductive Format := OpenApi31 | AsyncApi2 | JsonSchema.

Record GenerationContext := mkContext {
  gc_source : cstring;
  gc_generator_version : cstring;
  gc_schema_version : Z;
}.

Definition format_id (f : Format) : cstring :=
  match f with
  | OpenApi31 => "openapi-3.1" | AsyncApi2 => "asyncapi-2" | JsonSchema => "json-schema"
  end.

Definition format_from_id (id : cstring) : option Format :=
  if id =s "openapi-3.1" then Some OpenApi31
  else if id =s "asyncapi-2" then Some AsyncApi2
  else if id =s "json-schema" then Some JsonSchema
  else None.

Definition list_formats : list cstring := format_id <$> [OpenApi31; AsyncApi2; JsonSchema].

(** [dump(indent)], with [None] for the exception on invalid UTF-8. *)
Class JsonPretty := { json_dump_indent : Z → json → option cstring }.

Class JsonPrettyLaws (L : JsonLib) (P : JsonPretty) : Prop := {
  indent_defined n j : json_utf8 j = true → is_Some (json_dump_indent n j);
  indent_throws n j : json_utf8 j = false → json_dump_indent n j = None;
  parse_indent n j s :
    json_wf j = true → json_dump_indent n j = Some s →
    json_parse (s ++ ["010"%char]) = Some (json_canon j);
}.

(** ** Order of the endpoints *)
Definition ep_lt (a b : EndpointDescriptor) : bool :=
  if ep_ns a <>s ep_ns b then str_ltb (ep_ns a) (ep_ns b)
  else if ep_name a <>s ep_name b then str_ltb (ep_name a) (ep_name b)
  else str_ltb (ep_version a) (ep_version b).

Definition ep_le (a b : EndpointDescriptor) : Prop := ep_lt b a = false.

#[global] Instance ep_le_dec a b : Decision (ep_le a b).
Proof. unfold ep_le. apply _. Defined.

(** [std::sort]; what it does with equivalent elements is unspecified, but
    [generate] refuses them (see [sort_endpoints_unique]). *)
Definition sort_endpoints (endpoints : list EndpointDescriptor) : list EndpointDescriptor :=
  merge_sort ep_le endpoints.

(** ** Shared pieces *)

(** Successive assignments [target[k] = v], and [target[k]] read for update. *)
Definition set_all (fields : list (cstring * json)) (target : json) : json :=
  foldl (λ j kv, jset kv.1 kv.2 j) target fields.
Definition jget (k : cstring) (j : json) : json := default JNull (member k j).
Definition jupdate (k : cstring) (f : json → json) (j : json) : json := jset k (f (jget k j)) j.

Definition notes (l : list cstring) : json := JArray (JString <$> l).

Definition privacy_fields (e : EndpointDescriptor) : list (cstring * json) :=
  when (negb (is_empty (ep_attribution e)))
    [(lit "x-ezcap-attribution", notes (ep_attribution e))]
  ++ when (negb (is_empty (ep_confidence e)))
       [(lit "x-ezcap-confidence", JString (ep_confidence e))]
  ++ when (negb (is_empty (ep_privacy e))) [(lit "x-ezcap-privacy", notes (ep_privacy e))]
  ++ [(lit "x-ezcap-metadata-only", JBool true)].

Definition apply_privacy_annotations (target : json) (e : EndpointDescriptor) : json :=
  set_all (privacy_fields e) target.

Definition description_field (e : EndpointDescriptor) : list (cstring * json) :=
  when (negb (is_empty (ep_description e))) [(lit "description", JString (ep_description e))].

Definition ref_to (target : cstring) : json := jobject [(lit "$ref", JString target)].

(** ** OpenAPI 3.1 *)
Definition openapi_path (e : EndpointDescriptor) : cstring :=
  lit "/" ++ ep_ns e ++ lit "/" ++ ep_name e ++ lit "/v" ++ ep_version e.
Definition schema_name (e : EndpointDescriptor) (suffix : cstring) : cstring :=
  ep_ns e ++ lit "_" ++ ep_name e ++ suffix.

Definition json_content (schema : cstring) : json :=
  jobject [(lit "application/json",
            jobject [(lit "schema", ref_to (lit "#/components/schemas/" ++ schema))])].

Definition openapi_operation (e : EndpointDescriptor) : json :=
  let operation :=
    set_all ([(lit "operationId", JString (ep_ns e ++ lit "." ++ ep_name e));
              (lit "summary", JString (ep_summary e))]
             ++ description_field e
             ++ [(lit "x-ezcap-example", JString "synthetic placeholder; not observed data")])
      JNull in
  let operation := apply_privacy_annotations operation e in
  let operation :=
    set_all (when (is_object (ep_request e))
               [(lit "requestBody",
                 jobject [(lit "required", JBool true);
                          (lit "content", json_content (schema_name e "_request"))])])
      operation in
  jset "responses"
    (if is_object (ep_response e)
     then jobject [(lit "200",
                    jobject [(lit "description", JString "Success");
                             (lit "content", json_content (schema_name e "_response"))])]
     else jobject [(lit "204", jobject [(lit "description", JString "No content")])])
    operation.

Definition stream_marker (e : EndpointDescriptor) : json :=
  apply_privacy_annotations
    (set_all [(lit "summary", JString (ep_summary e ++ lit " (stream; see AsyncAPI spec)"));
              (lit "x-ezcap-kind", JString "stream")] JNull) e.

Record OpenApi := mkOpenApi {
  oa_paths : json;
  oa_schemas : json;
  oa_seen : list cstring;
}.
Definition empty_OpenApi : OpenApi := mkOpenApi (JObject []) (JObject []) [].

Definition add_schemas (e : EndpointDescriptor) (schemas : json) : json :=
  set_all (when (is_object (ep_request e)) [(schema_name e "_request", ep_request e)]
           ++ when (is_object (ep_response e)) [(schema_name e "_response", ep_response e)])
    schemas.

Definition openapi_step (st : OpenApi) (e : EndpointDescriptor) : OpenApi :=
  let path := openapi_path e in
  let schemas := add_schemas e (oa_schemas st) in
  if (ep_kind e =s "operation") || (ep_kind e =s "event") then
    let fresh := negb (mem path (oa_seen st)) in
    let paths := if fresh then jset path (JObject []) (oa_paths st) else oa_paths st in
    let paths := jupdate path (jset "post" (openapi_operation e)) paths in
    let paths :=
      if ep_kind e =s "event"
      then jupdate path (jupdate "post" (jset "x-ezcap-kind" (JString "event"))) paths
      else paths in
    mkOpenApi paths schemas (if fresh then path :: oa_seen st else oa_seen st)
  else
    let mark := path ++ lit "#stream" in
    if mem mark (oa_seen st) then mkOpenApi (oa_paths st) schemas (oa_seen st)
    else mkOpenApi (jset path (jobject [(lit "get", stream_marker e)]) (oa_paths st)) schemas
           (mark :: oa_seen st).

Definition openapi_doc (endpoints : list EndpointDescriptor) (c : GenerationContext) : json :=
  let st := foldl openapi_step empty_OpenApi (sort_endpoints endpoints) in
  set_all
    ([(lit "openapi", JString "3.1.0");
      (lit "info",
       jobject [(lit "title", JString "ezcap generated API");
                (lit "version", JString (gc_generator_version c));
                (lit "summary", JString "Generated from ezcap endpoint descriptors");
                (lit "x-ezcap-source", JString (gc_source c));
                (lit "x-ezcap-schema-version", JUint (gc_schema_version c));
                (lit "x-ezcap-generated", JString "synthetic; contains no observed data")]);
      (lit "paths", oa_paths st)]
     ++ when (negb (jsize (oa_schemas st) =? 0))
          [(lit "components", jobject [(lit "schemas", oa_schemas st)])])
    JNull.

(** ** AsyncAPI 2 *)
Definition async_channel (e : EndpointDescriptor) : cstring :=
  ep_ns e ++ lit "/" ++ ep_name e ++ lit "/v" ++ ep_version e.
Definition message_name (e : EndpointDescriptor) : cstring := ep_ns e ++ lit "_" ++ ep_name e.

Definition async_message (e : EndpointDescriptor) : json :=
  apply_privacy_annotations
    (set_all ([(lit "name", JString (ep_ns e ++ lit "." ++ ep_name e));
               (lit "title", JString (ep_summary e))]
              ++ description_field e
              ++ [(lit "x-ezcap-example", JString "synthetic placeholder; not observed data")]
              ++ when (is_object (ep_response e)) [(lit "payload", ep_response e)])
       JNull) e.

Definition channel_doc (e : EndpointDescriptor) : json :=
  set_all (when (negb (is_empty (ep_confidence e)))
             [(lit "x-ezcap-confidence", JString (ep_confidence e))])
    (jobject [(lit "publish",
               jobject [(lit "message",
                         ref_to (lit "#/components/messages/" ++ message_name e))])]).

Record AsyncApi := mkAsyncApi { aa_channels : json; aa_messages : json }.
Definition empty_AsyncApi : AsyncApi := mkAsyncApi (JObject []) (JObject []).

Definition asyncapi_step (st : AsyncApi) (e : EndpointDescriptor) : AsyncApi :=
  if ep_kind e =s "operation" then st
  else mkAsyncApi (jset (async_channel e) (channel_doc e) (aa_channels st))
         (jset (message_name e) (async_message e) (aa_messages st)).

Definition asyncapi_doc (endpoints : list EndpointDescriptor) (c : GenerationContext) : json :=
  let st := foldl asyncapi_step empty_AsyncApi (sort_endpoints endpoints) in
  set_all
    ([(lit "asyncapi", JString "2.6.0");
      (lit "info",
       jobject [(lit "title", JString "ezcap generated event API");
                (lit "version", JString (gc_generator_version c));
                (lit "x-ezcap-source", JString (gc_source c));
                (lit "x-ezcap-schema-version", JUint (gc_schema_version c));
                (lit "x-ezcap-generated", JString "synthetic; contains no observed data")]);
      (lit "channels", aa_channels st)]
     ++ when (negb (jsize (aa_messages st) =? 0))
          [(lit "components", jobject [(lit "messages", aa_messages st)])])
    JNull.

(** ** JSON Schema *)
Definition schema_entry (e : EndpointDescriptor) : json :=
  apply_privacy_annotations
    (set_all ([(lit "title", JString (ep_summary e))]
              ++ description_field e
              ++ when (is_object (ep_request e)) [(lit "x-ezcap-request", ep_request e)]
              ++ when (is_object (ep_response e)) [(lit "x-ezcap-response", ep_response e)])
       JNull) e.

Definition schema_defs (endpoints : list EndpointDescriptor) : json :=
  foldl (λ defs e, jset (message_name e) (schema_entry e) defs) (JObject [])
    (sort_endpoints endpoints).

Definition json_schema_doc (endpoints : list EndpointDescriptor) (c : GenerationContext) : json :=
  set_all
    ([(lit "$schema", JString "https://json-schema.org/draft/2020-12/schema");
      (lit "title", JString "ezcap endpoint schema bundle");
      (lit "x-ezcap-source", JString (gc_source c));
      (lit "x-ezcap-generator-version", JString (gc_generator_version c));
      (lit "x-ezcap-schema-version", JUint (gc_schema_version c));
      (lit "x-ezcap-generated", JString "synthetic; contains no observed data");
      (lit "type", JString "object")]
     ++ when (negb (jsize (schema_defs endpoints) =? 0)) [(lit "$defs", schema_defs endpoints)])
    JNull.

(** ** The entry point *)
Definition same_endpoint (a b : EndpointDescriptor) : bool :=
  (ep_ns a =s ep_ns b) && (ep_name a =s ep_name b) && (ep_version a =s ep_version b).

Fixpoint has_duplicate (endpoints : list EndpointDescriptor) : bool :=
  match endpoints with
  | [] => false
  | e :: endpoints => existsb (same_endpoint e) endpoints || has_duplicate endpoints
  end.

Definition document (format : Format) (endpoints : list EndpointDescriptor)
    (context : GenerationContext) : json :=
  match format with
  | OpenApi31 => openapi_doc endpoints context
  | AsyncApi2 => asyncapi_doc endpoints context
  | JsonSchema => json_schema_doc endpoints context
  end.

Definition emit {P : JsonPretty} (doc : json) : option cstring :=
  text ← json_dump_indent 2 doc; Some (text ++ ["010"%char]).

(** [None] is an exception that leaves the generator. *)
Definition generate {P : JsonPretty} (format : Format) (endpoints : list EndpointDescriptor)
    (context : GenerationContext) : option (result cstring cstring) :=
  if 256 <? zlen endpoints then Some (Err (lit "too many endpoints for one spec"))
  else if has_duplicate endpoints
  then Some (Err (lit "duplicate endpoint (namespace, name, version)"))
  else Ok <$> emit (document format endpoints context).

(** ** Lemmas: the order *)
Definition ep_key (e : EndpointDescriptor) : cstring * cstring * cstring :=
  (ep_ns e, ep_name e, ep_version e).

Lemma str_ltb_irrefl a : str_ltb a a = false.
Proof.
  induction a as [|x a IH]; [done|]. cbn [str_ltb]. by rewrite Z.ltb_irrefl, IH, andb_false_r.
Qed.

Lemma str_ltb_trans a b c : str_ltb a b = true → str_ltb b c = true → str_ltb a c = true.
Proof.
  revert b c. induction a as [|x a IH]; intros [|y b] [|z c]; cbn [str_ltb]; try done.
  rewrite !orb_true_iff, !andb_true_iff, !Z.ltb_lt, !Z.eqb_eq.
  intros [?|[? Hab]] [?|[? Hbc]]; [left; lia..|]. right. split; [lia|eauto].
Qed.

Lemma str_ltb_asym a b : str_ltb a b = true → str_ltb b a = false.
Proof.
  intros H. destruct (str_ltb b a) eqn:E; [|done].
  pose proof (str_ltb_trans _ _ _ H E) as Haa. by rewrite str_ltb_irrefl in Haa.
Qed.

Lemma ep_lt_spec a b :
  ep_lt a b = true ↔
  str_ltb (ep_ns a) (ep_ns b) = true ∨
  ep_ns a = ep_ns b ∧
  (str_ltb (ep_name a) (ep_name b) = true ∨
   ep_name a = ep_name b ∧ str_ltb (ep_version a) (ep_version b) = true).
Proof.
  unfold ep_lt. destruct (str_eqb_spec (ep_ns a) (ep_ns b)) as [->|]; cbn [negb]; [|naive_solver].
  rewrite str_ltb_irrefl.
  destruct (str_eqb_spec (ep_name a) (ep_name b)) as [->|]; cbn [negb]; [|naive_solver].
  rewrite str_ltb_irrefl. naive_solver.
Qed.

Lemma ep_lt_trans a b c : ep_lt a b = true → ep_lt b c = true → ep_lt a c = true.
Proof.
  rewrite !ep_lt_spec. intros [H1|(H1 & [H2|[H2 H3]])] [G1|(G1 & [G2|[G2 G3]])];
    rewrite ?H1, ?H2, <-?G1, <-?G2; eauto 6 using str_ltb_trans.
Qed.

Lemma ep_lt_irrefl a : ep_lt a a = false.
Proof. unfold ep_lt. rewrite !str_eqb_refl. apply str_ltb_irrefl. Qed.

(** Elements that are not ordered either way have the same key. *)
Lemma ep_lt_total a b : ep_lt a b = false → ep_lt b a = false → ep_key a = ep_key b.
Proof.
  unfold ep_lt, ep_key.
  assert (Hs : ∀ x y : cstring, str_ltb x y = false → str_ltb y x = false → x = y).
  { intros x y Hxy Hyx. destruct (str_eqb_spec x y) as [|Hne]; [done|].
    by rewrite str_ltb_total in Hyx. }
  destruct (str_eqb_spec (ep_ns a) (ep_ns b)) as [->|Hns]; cbn [negb].
  - rewrite str_eqb_refl. cbn [negb].
    destruct (str_eqb_spec (ep_name a) (ep_name b)) as [->|Hn]; cbn [negb].
    + rewrite str_eqb_refl. cbn [negb]. intros H1 H2. by rewrite (Hs _ _ H1 H2).
    + rewrite (proj2 (str_eqb_neq _ _)) by done. cbn [negb]. intros H1 H2. by destruct Hn; auto.
  - rewrite (proj2 (str_eqb_neq _ _)) by done. cbn [negb]. intros H1 H2. by destruct Hns; auto.
Qed.

#[global] Instance ep_le_total : Total ep_le.
Proof.
  intros a b. unfold ep_le. destruct (ep_lt b a) eqn:E; [|by left]. right.
  destruct (ep_lt a b) eqn:E'; [|done].
  pose proof (ep_lt_trans _ _ _ E E') as H. by rewrite ep_lt_irrefl in H.
Qed.

#[global] Instance ep_le_trans : Transitive ep_le.
Proof.
  intros a b c Hab Hbc. unfold ep_le in *. destruct (ep_lt c a) eqn:E; [|done].
  destruct (ep_lt b c) eqn:E1.
  - by rewrite (ep_lt_trans _ _ _ E1 E) in Hab.
  - pose proof (ep_lt_total _ _ E1 Hbc) as Hk. injection Hk as Hns Hn Hv.
    apply ep_lt_spec in E. rewrite <-Hns, <-Hn, <-Hv in E. apply ep_lt_spec in E. congruence.
Qed.

(** ** Lemmas: the output does not depend on the order of the input *)
Lemma same_endpoint_spec a b : same_endpoint a b = true ↔ ep_key a = ep_key b.
Proof.
  unfold same_endpoint, ep_key. rewrite !andb_true_iff, !str_eqb_eq.
  split; [by intros [[-> ->] ->]|by intros [= -> -> ->]].
Qed.

Lemma has_duplicate_spec endpoints :
  has_duplicate endpoints = false ↔ NoDup (ep_key <$> endpoints).
Proof.
  induction endpoints as [|e l IH]; cbn [has_duplicate fmap list_fmap].
  { split; [intros _; constructor|done]. }
  rewrite orb_false_iff, NoDup_cons, IH, list_elem_of_fmap.
  assert (existsb (same_endpoint e) l = false ↔ ¬ ∃ y, ep_key e = ep_key y ∧ y ∈ l) as ->; [|done].
  rewrite <-not_true_iff_false, existsb_exists. setoid_rewrite same_endpoint_spec.
  setoid_rewrite <-list_elem_of_In. split; intros H (y & ? & ?); apply H; eauto.
Qed.

Lemma ep_key_inj endpoints a b :
  NoDup (ep_key <$> endpoints) → a ∈ endpoints → b ∈ endpoints → ep_key a = ep_key b → a = b.
Proof.
  induction endpoints as [|e l IH]; cbn; [by intros _ ?%not_elem_of_nil|].
  rewrite NoDup_cons. intros [Hn Hd] Ha Hb Hk.
  apply elem_of_cons in Ha as [->|Ha], Hb as [->|Hb]; [done| | |by apply IH].
  - destruct Hn. rewrite Hk. by apply list_elem_of_fmap_2.
  - destruct Hn. rewrite <-Hk. by apply list_elem_of_fmap_2.
Qed.

Lemma sort_endpoints_perm endpoints : sort_endpoints endpoints ≡ₚ endpoints.
Proof. apply merge_sort_Permutation. Qed.

(** Any sorting procedure gives the same list when no two endpoints are
    equivalent. *)
Lemma sort_endpoints_unique endpoints sorted :
  NoDup (ep_key <$> endpoints) → Sorted ep_le sorted → sorted ≡ₚ endpoints →
  sorted = sort_endpoints endpoints.
Proof.
  intros Hd Hs Hp. apply (StronglySorted_unique_strong ep_le).
  - intros a b Ha Hb Hab Hba. rewrite Hp in Ha. rewrite sort_endpoints_perm in Hb.
    eapply ep_key_inj; [done..|]. by apply ep_lt_total.
  - by apply Sorted_StronglySorted; [apply _|].
  - apply StronglySorted_merge_sort; apply _.
  - by rewrite Hp, sort_endpoints_perm.
Qed.

Lemma sort_endpoints_eq a b :
  NoDup (ep_key <$> a) → a ≡ₚ b → sort_endpoints a = sort_endpoints b.
Proof.
  intros Hd Hp. apply sort_endpoints_unique.
  - by rewrite <-Hp.
  - apply Sorted_merge_sort, _.
  - by rewrite sort_endpoints_perm.
Qed.

Lemma document_eq format a b c :
  NoDup (ep_key <$> a) → a ≡ₚ b → document format a c = document format b c.
Proof.
  intros Hd Hp. pose proof (sort_endpoints_eq _ _ Hd Hp) as Hs.
  destruct format; cbn [document]; unfold openapi_doc, asyncapi_doc, json_schema_doc, schema_defs;
    by rewrite Hs.
Qed.

(** Generation is deterministic up to the order of its input: the same set
    of endpoints in any order gives the same result, byte for byte, errors and
    exceptions included. *)
Theorem generate_order_independent (P : JsonPretty) format endpoints endpoints' context :
  endpoints ≡ₚ endpoints' →
  generate format endpoints context = generate format endpoints' context.
Proof.
  intros Hp. unfold generate.
  assert (zlen endpoints = zlen endpoints') as -> by (unfold zlen; by rewrite Hp).
  destruct (256 <? zlen endpoints'); [done|].
  assert (has_duplicate endpoints = has_duplicate endpoints') as Hd.
  { apply eq_true_iff_eq. rewrite <-!not_false_iff_true, !has_duplicate_spec. by rewrite Hp. }
  rewrite Hd. destruct (has_duplicate endpoints') eqn:E; [done|].
  apply has_duplicate_spec in E. rewrite (document_eq format endpoints endpoints'); [done| |done].
  by rewrite Hp.
Qed.

(** ** Lemmas: every endpoint is in the document *)
Definition path_item (e : EndpointDescriptor) : json :=
  if ep_kind e =s "event"
  then jobject [(lit "post", jset "x-ezcap-kind" (JString "event") (openapi_operation e))]
  else if ep_kind e =s "operation" then jobject [(lit "post", openapi_operation e)]
  else jobject [(lit "get", stream_marker e)].

Lemma is_object_set_all fields j :
  is_object j = true → is_object (set_all fields j) = true.
Proof.
  unfold set_all. revert j. induction fields as [|kv fields IH]; intros j Hj; [done|].
  cbn [foldl]. apply IH. by apply is_object_jset.
Qed.

Lemma member_set_all k fields j :
  is_object j = true →
  member k (set_all fields j) =
    match assoc_get k (reverse fields) with Some v => Some v | None => member k j end.
Proof. apply member_foldl. Qed.

Lemma is_object_jupdate k f j : is_object j = true → is_object (jupdate k f j) = true.
Proof. apply is_object_jset. Qed.

Lemma member_jupdate k k' f j :
  is_object j = true →
  member k (jupdate k' f j) = if k =s k' then Some (f (jget k' j)) else member k j.
Proof. apply member_jset. Qed.

Lemma jget_jset k v j : is_object j = true → jget k (jset k v j) = v.
Proof. intros Hj. unfold jget. by rewrite member_jset, str_eqb_refl. Qed.

(** The names of an OpenAPI step that must not have been seen before. *)
Definition unseen (st : OpenApi) (e : EndpointDescriptor) : Prop :=
  (openapi_path e ∉ oa_seen st) ∧ (openapi_path e ++ lit "#stream") ∉ oa_seen st.

Lemma openapi_step_paths st e p :
  is_object (oa_paths st) = true → unseen st e → ep_kind e ∈ kKinds →
  is_object (oa_paths (openapi_step st e)) = true ∧
  member p (oa_paths (openapi_step st e)) =
    if p =s openapi_path e then Some (path_item e) else member p (oa_paths st).
Proof.
  intros Ho [H1%mem_false H2%mem_false] Hk. unfold openapi_step, path_item. rewrite H1, H2.
  cbn [negb]. unfold kKinds in Hk. cbn [fmap list_fmap] in Hk.
  rewrite !elem_of_cons in Hk. destruct Hk as [->|[->|[->|[]%not_elem_of_nil]]];
    cbn [oa_paths]; cbv beta iota.
  - change (lit "operation" =s "operation") with true.
    change (lit "operation" =s "event") with false. cbn [orb oa_paths].
    split; [by apply is_object_jupdate, is_object_jset|].
    rewrite member_jupdate by (by apply is_object_jset). rewrite jget_jset by done.
    destruct (p =s openapi_path e) eqn:E; [done|]. rewrite member_jset by done. by rewrite E.
  - change (lit "stream" =s "operation") with false.
    change (lit "stream" =s "event") with false. cbn [orb oa_paths].
    split; [by apply is_object_jset|]. by rewrite member_jset.
  - change (lit "event" =s "operation") with false.
    change (lit "event" =s "event") with true. cbn [orb oa_paths].
    split; [by apply is_object_jupdate, is_object_jupdate, is_object_jset|].
    rewrite member_jupdate by (by apply is_object_jupdate, is_object_jset).
    rewrite member_jupdate by (by apply is_object_jset).
    unfold jget at 1. rewrite member_jupdate by (by apply is_object_jset).
    rewrite str_eqb_refl, jget_jset by done.
    destruct (p =s openapi_path e) eqn:E; [done|]. rewrite member_jset by done. by rewrite E.
Qed.

Lemma openapi_step_seen st e x :
  x ∈ oa_seen (openapi_step st e) →
  x ∈ oa_seen st ∨ x = openapi_path e ∨ x = openapi_path e ++ lit "#stream".
Proof.
  unfold openapi_step. destruct (_ || _); cbn [oa_seen].
  - destruct (negb _); rewrite ?elem_of_cons; naive_solver.
  - destruct (mem _ _); cbn [oa_seen]; rewrite ?elem_of_cons; naive_solver.
Qed.

(** Paths that contain no [#] are never taken for a stream mark. *)
Definition plain (e : EndpointDescriptor) : Prop := "#"%char ∉ openapi_path e.

Lemma stream_mark_plain a b : plain a → openapi_path a ≠ openapi_path b ++ lit "#stream".
Proof.
  unfold plain. intros Ha Heq. destruct Ha. rewrite Heq, elem_of_app. right.
  change (lit "#stream") with ("#"%char :: lit "stream"). apply elem_of_cons. by left.
Qed.

Lemma openapi_fold st l p :
  is_object (oa_paths st) = true → Forall (unseen st) l → Forall plain l →
  Forall (λ e, ep_kind e ∈ kKinds) l → NoDup (openapi_path <$> l) →
  member p (oa_paths (foldl openapi_step st l)) =
    match list_find (λ e, openapi_path e = p) l with
    | Some (_, e) => Some (path_item e)
    | None => member p (oa_paths st)
    end.
Proof.
  revert st. induction l as [|e l IH]; intros st Ho Hu Hp Hk Hd; [done|].
  apply Forall_cons in Hu as [Hu Hus], Hp as [Hp Hps], Hk as [Hk Hks].
  cbn [fmap list_fmap] in Hd. apply NoDup_cons in Hd as [Hn Hd].
  destruct (openapi_step_paths st e p Ho Hu Hk) as [Ho' Hm]. cbn [foldl].
  rewrite IH; [|done| |done..].
  - rewrite Hm. cbn [list_find]. destruct (decide (openapi_path e = p)) as [<-|Hne].
    + rewrite str_eqb_refl. destruct (list_find _ l) as [[i e']|] eqn:Hf; [|done].
      apply list_find_Some in Hf as (He' & Heq & _). destruct Hn. rewrite <-Heq.
      apply list_elem_of_fmap_2. by eapply list_elem_of_lookup_2.
    + rewrite (proj2 (str_eqb_neq p (openapi_path e))) by done.
      by destruct (list_find _ l) as [[]|].
  - rewrite Forall_forall in Hus, Hps |- *. intros e' He'.
    assert (openapi_path e' ≠ openapi_path e) as Hne.
    { intros Heq. apply Hn. rewrite <-Heq. by apply list_elem_of_fmap_2. }
    destruct (Hus _ He') as [H1 H2]. split; intros [?|[Heq|Heq]]%openapi_step_seen; try done.
    + by eapply stream_mark_plain, Heq; apply Hps.
    + by apply (stream_mark_plain e e').
    + by apply (inj (.++ _)) in Heq.
Qed.

(** *** Paths identify endpoints *)
Lemma app_sep_inj (c : ascii) a a' b b' :
  c ∉ a → c ∉ a' → a ++ c :: b = a' ++ c :: b' → a = a' ∧ b = b'.
Proof.
  revert a'. induction a as [|x a IH]; intros [|x' a'] Ha Ha' H; cbn in H.
  - by injection H as ->.
  - injection H as -> _. destruct Ha'. by apply elem_of_cons; left.
  - injection H as -> _. destruct Ha. by apply elem_of_cons; left.
  - injection H as -> H. rewrite not_elem_of_cons in Ha, Ha'.
    destruct (IH a') as [-> ->]; naive_solver.
Qed.

Lemma name_char_not c s :
  name_char c = false → Forall (λ c, name_char c = true) s → c ∉ s.
Proof. intros Hc Hf Hin. rewrite Forall_forall in Hf. specialize (Hf _ Hin). congruence. Qed.

Lemma digits_dots_not c parts :
  Forall digits parts → isdigit c = false → c ≠ "."%char → c ∉ join_dots parts.
Proof.
  intros Hf Hc Hdot. assert (Hd : ∀ p, digits p → c ∉ p).
  { intros p [_ Hp] Hin. rewrite Forall_forall in Hp. specialize (Hp _ Hin). congruence. }
  destruct Hf as [|p ps Hp Hps]; [apply not_elem_of_nil|]. unfold join_dots.
  rewrite elem_of_app. intros [?|Hin]; [by apply (Hd p)|].
  induction Hps as [|q qs Hq _ IH]; [by apply not_elem_of_nil in Hin|]. cbn in Hin.
  rewrite elem_of_cons, elem_of_app in Hin. destruct Hin as [|[?|?]]; [done|by apply (Hd q)|auto].
Qed.

Lemma descriptor_chars d :
  descriptor_ok d →
  ("/"%char ∉ ep_ns d) ∧ ("/"%char ∉ ep_name d) ∧ plain d.
Proof.
  intros Hd. assert (Hns : Forall (λ c, name_char c = true) (ep_ns d)).
  { eapply Forall_impl; [apply (ok_ns d Hd)|]. by intros c []. }
  pose proof (proj2 (ok_name d Hd)) as Hn. destruct (ok_version d Hd) as (parts & Hv & Hp & _).
  split_and!; [by apply name_char_not..|]. unfold plain, openapi_path.
  rewrite !elem_of_app, Hv. intros [H|[H|[H|[H|[H|H]]]]]; revert H.
  all: try (by apply (not_mem_ascii "#")). 1-2: by apply name_char_not. by apply digits_dots_not.
Qed.

Lemma openapi_path_inj a b :
  descriptor_ok a → descriptor_ok b → openapi_path a = openapi_path b → ep_key a = ep_key b.
Proof.
  intros Ha Hb H. destruct (descriptor_chars a Ha) as (Ha1 & Ha2 & _).
  destruct (descriptor_chars b Hb) as (Hb1 & Hb2 & _). unfold openapi_path in H.
  apply (inj (lit "/" ++.)) in H. apply app_sep_inj in H as [H1 H]; [|done..].
  apply (app_sep_inj "/"%char (ep_name a) (ep_name b) ("v"%char :: ep_version a)
    ("v"%char :: ep_version b)) in H as [H2 H3]; [|done..].
  injection H3 as H3. unfold ep_key. by rewrite H1, H2, H3.
Qed.

(** *** The documents are well-formed values *)
Definition wf_object (j : json) : Prop := is_object j = true ∧ json_wf j = true.

Lemma wf_object_empty : wf_object (JObject []).
Proof. done. Qed.

Lemma wf_object_jset k v j : wf_object j → json_wf v = true → wf_object (jset k v j).
Proof. intros [] ?. split; [by apply is_object_jset|by apply jset_wf]. Qed.

Lemma wf_object_set_all fields j :
  wf_object j → Forall (λ kv, json_wf kv.2 = true) fields → wf_object (set_all fields j).
Proof.
  intros Hj Hf. revert j Hj. unfold set_all.
  induction Hf as [|kv fields Hv _ IH]; intros j Hj; [done|]. cbn [foldl].
  by apply IH, wf_object_jset.
Qed.

(** The first assignment turns a null value into an object. *)
Lemma wf_object_set_null fields :
  fields ≠ [] → Forall (λ kv, json_wf kv.2 = true) fields → wf_object (set_all fields JNull).
Proof.
  intros Hne Hall. destruct fields as [|[k v] fields']; [done|].
  apply Forall_cons in Hall as [Hv Hf]. cbn [snd] in Hv.
  change (set_all ((k, v) :: fields') JNull) with (set_all fields' (JObject [(k, v)])).
  apply wf_object_set_all; [|done]. split; [done|]. cbn [json_wf keys_sorted forallb snd].
  by rewrite Hv.
Qed.

Lemma wf_object_jobject fields :
  Forall (λ kv, json_wf kv.2 = true) fields → wf_object (jobject fields).
Proof. intros H. split; [apply jobject_is_object|by apply jobject_wf]. Qed.

Lemma wf_jget k j : json_wf j = true → json_wf (jget k j) = true.
Proof.
  intros Hj. unfold jget. destruct (member k j) eqn:E; [|done]. by eapply member_wf.
Qed.

Lemma notes_wf l : json_wf (notes l) = true.
Proof. unfold notes. cbn [json_wf]. by induction l. Qed.

Lemma when_Forall {A} (P : A → Prop) b l : (b = true → Forall P l) → Forall P (when b l).
Proof. destruct b; cbn; auto. Qed.

Lemma privacy_fields_wf e : Forall (λ kv, json_wf kv.2 = true) (privacy_fields e).
Proof.
  unfold privacy_fields. repeat apply Forall_app_2; try apply when_Forall; intros;
    repeat constructor; apply notes_wf.
Qed.

Lemma description_field_wf e : Forall (λ kv, json_wf kv.2 = true) (description_field e).
Proof. apply when_Forall. by repeat constructor. Qed.

Lemma json_content_wf s : json_wf (json_content s) = true.
Proof. apply jobject_wf. constructor; [|done]. apply jobject_wf. constructor; [|done]. done. Qed.

Lemma openapi_operation_wf e : wf_object (openapi_operation e).
Proof.
  unfold openapi_operation, apply_privacy_annotations. apply wf_object_jset.
  - apply wf_object_set_all.
    + apply wf_object_set_all; [|apply privacy_fields_wf]. apply wf_object_set_null; [done|].
      repeat apply Forall_app_2; [by repeat constructor|apply description_field_wf|].
      by repeat constructor.
    + apply when_Forall. intros _. constructor; [|done]. apply jobject_wf.
      repeat constructor; apply json_content_wf.
  - destruct (is_object (ep_response e)); [|done]. apply jobject_wf. constructor; [|done].
    apply jobject_wf. repeat constructor; apply json_content_wf.
Qed.

Lemma stream_marker_wf e : wf_object (stream_marker e).
Proof.
  apply wf_object_set_all; [|apply privacy_fields_wf]. apply wf_object_set_null; [done|].
  by repeat constructor.
Qed.

Definition schemas_wf (e : EndpointDescriptor) : Prop :=
  json_wf (ep_request e) = true ∧ json_wf (ep_response e) = true.

Lemma jset_wf_any k v j : json_wf j = true → json_wf v = true → json_wf (jset k v j) = true.
Proof.
  intros Hj Hv. destruct j; try done; [|by apply jset_wf].
  cbn [jset json_wf keys_sorted forallb snd]. by rewrite Hv.
Qed.

Lemma jupdate_wf k f j :
  (∀ x, json_wf x = true → json_wf (f x) = true) → json_wf j = true →
  json_wf (jupdate k f j) = true.
Proof. intros Hf Hj. by apply jset_wf_any; [|apply Hf, wf_jget]. Qed.

Lemma wf_object_jupdate k f j :
  (∀ x, json_wf x = true → json_wf (f x) = true) → wf_object j → wf_object (jupdate k f j).
Proof. intros Hf [Ho Hj]. split; [by apply is_object_jupdate|by apply jupdate_wf]. Qed.

Lemma openapi_step_wf st e :
  schemas_wf e → wf_object (oa_paths st) → wf_object (oa_schemas st) →
  wf_object (oa_paths (openapi_step st e)) ∧ wf_object (oa_schemas (openapi_step st e)).
Proof.
  intros [Hq Hr] Hp Hs.
  assert (Hs' : wf_object (add_schemas e (oa_schemas st))).
  { apply wf_object_set_all; [done|]. apply Forall_app_2; apply when_Forall; by repeat constructor. }
  unfold openapi_step. destruct (_ || _); cbn [oa_paths oa_schemas].
  - split; [|done].
    assert (wf_object (jupdate (openapi_path e) (jset "post" (openapi_operation e))
      (if negb (mem (openapi_path e) (oa_seen st))
       then jset (openapi_path e) (JObject []) (oa_paths st) else oa_paths st))) as Hpost.
    { apply wf_object_jupdate.
      - intros x Hx. apply jset_wf_any; [done|apply openapi_operation_wf].
      - destruct (negb _); [by apply wf_object_jset|done]. }
    destruct (ep_kind e =s "event"); [|done]. apply wf_object_jupdate; [|done].
    intros x Hx. apply jupdate_wf; [|done]. intros y Hy. by apply jset_wf_any.
  - destruct (mem _ _); cbn [oa_paths oa_schemas]; [done|]. split; [|done].
    apply wf_object_jset; [done|]. apply jobject_wf. constructor; [|done]. apply stream_marker_wf.
Qed.

Lemma openapi_fold_wf st l :
  Forall schemas_wf l → wf_object (oa_paths st) → wf_object (oa_schemas st) →
  wf_object (oa_paths (foldl openapi_step st l)) ∧ wf_object (oa_schemas (foldl openapi_step st l)).
Proof.
  intros Hl. revert st. induction Hl as [|e l He _ IH]; intros st Hp Hs; [done|].
  cbn [foldl]. by destruct (openapi_step_wf st e He Hp Hs); apply IH.
Qed.

Definition context_ok (c : GenerationContext) : Prop := 0 ≤ gc_schema_version c < 2 ^ 32.

Lemma schema_version_wf c : context_ok c → json_wf (JUint (gc_schema_version c)) = true.
Proof. intros []. cbn. rewrite andb_true_iff, Z.leb_le, Z.ltb_lt. lia. Qed.

Lemma openapi_doc_wf endpoints c :
  Forall schemas_wf endpoints → context_ok c → json_wf (openapi_doc endpoints c) = true.
Proof.
  intros Hl Hc. destruct (openapi_fold_wf empty_OpenApi (sort_endpoints endpoints)) as [Hp Hs];
    [by rewrite sort_endpoints_perm|done..|].
  apply wf_object_set_null; [done|]. apply Forall_app_2.
  - constructor; [done|]. constructor.
    + apply jobject_wf. repeat (constructor; [done|]). constructor; [by apply schema_version_wf|].
      by repeat constructor.
    + constructor; [apply Hp|done].
  - apply when_Forall. intros _. constructor; [|done]. apply jobject_wf.
    constructor; [apply Hs|done].
Qed.

(** *** Completeness *)
Definition item_verb (e : EndpointDescriptor) : cstring :=
  if (ep_kind e =s "event") || (ep_kind e =s "operation") then lit "post" else lit "get".

Lemma is_object_set_null fields : fields ≠ [] → is_object (set_all fields JNull) = true.
Proof.
  intros Hne. destruct fields as [|kv fields]; [done|].
  change (is_object (set_all fields (JObject [(kv.1, kv.2)])) = true).
  by apply is_object_set_all.
Qed.

Lemma metadata_only_field j e :
  is_object j = true →
  member "x-ezcap-metadata-only" (apply_privacy_annotations j e) = Some (JBool true).
Proof.
  intros Hj. unfold apply_privacy_annotations. rewrite member_set_all by done.
  unfold privacy_fields. rewrite !reverse_app. done.
Qed.

(** Every path item says that its endpoint is metadata-only. *)
Lemma path_item_metadata_only e :
  member "x-ezcap-metadata-only" (jget (item_verb e) (path_item e)) = Some (JBool true).
Proof.
  assert (Hop : member "x-ezcap-metadata-only" (openapi_operation e) = Some (JBool true)).
  { unfold openapi_operation.
    rewrite member_jset by (by apply is_object_set_all, is_object_set_all, is_object_set_null).
    change (lit "x-ezcap-metadata-only" =s "responses") with false. cbv iota.
    rewrite member_set_all by (by apply is_object_set_all, is_object_set_null).
    destruct (is_object (ep_request e)); cbn [when reverse rev_append assoc_get].
    all: by apply metadata_only_field, is_object_set_null. }
  unfold path_item, item_verb. destruct (ep_kind e =s "event"); cbn [orb].
  - change (jget (lit "post") (jobject [(lit "post", ?x)])) with x.
    rewrite member_jset by apply openapi_operation_wf. done.
  - destruct (ep_kind e =s "operation"); [exact Hop|].
    by apply metadata_only_field, is_object_set_null.
Qed.

Lemma openapi_paths_exact endpoints p :
  Forall descriptor_ok endpoints → NoDup (ep_key <$> endpoints) →
  member p (oa_paths (foldl openapi_step empty_OpenApi (sort_endpoints endpoints))) =
    match list_find (λ e, openapi_path e = p) (sort_endpoints endpoints) with
    | Some (_, e) => Some (path_item e)
    | None => None
    end.
Proof.
  intros Hok Hd. pose proof (sort_endpoints_perm endpoints) as Hp.
  rewrite <-Hp in Hok. rewrite <-Hp in Hd.
  apply (openapi_fold empty_OpenApi); [done|..].
  - apply Forall_forall. intros e _. split; apply not_elem_of_nil.
  - eapply Forall_impl; [done|]. intros e He. by apply descriptor_chars.
  - eapply Forall_impl; [done|]. intros e He. by apply ok_kind.
  - clear Hp. induction Hok as [|e l He Hl IH]; [constructor|]. cbn in Hd |- *.
    apply NoDup_cons in Hd as [Hn Hd]. apply NoDup_cons. split; [|auto].
    intros (e' & Heq & Hin)%list_elem_of_fmap. destruct Hn. rewrite Forall_forall in Hl.
    rewrite (openapi_path_inj e e'); [by apply list_elem_of_fmap_2|done|by apply Hl|done].
Qed.

(** C38: A generated OpenAPI document is complete and exact: its text parses, and
    under [paths] there is one item for every endpoint, carrying its operation
    or its stream marker and marked metadata-only, and nothing else. *)
Theorem openapi_complete (L : JsonLib) (P : JsonPretty) (HP : JsonPrettyLaws L P)
    endpoints context text :
  Forall descriptor_ok endpoints → Forall schemas_wf endpoints → context_ok context →
  generate OpenApi31 endpoints context = Some (Ok text) →
  ∃ doc paths, json_parse text = Some doc ∧ member "paths" doc = Some paths ∧
    (∀ e, e ∈ endpoints →
      member (openapi_path e) paths = Some (json_canon (path_item e)) ∧
      member "x-ezcap-metadata-only" (jget (item_verb e) (path_item e)) = Some (JBool true)) ∧
    (∀ p, p ∉ openapi_path <$> endpoints → member p paths = None).
Proof.
  intros Hok Hwf Hc Hg. unfold generate in Hg. destruct (256 <? _); [done|].
  destruct (has_duplicate endpoints) eqn:Hd; [done|]. apply has_duplicate_spec in Hd.
  apply fmap_Some in Hg as (text' & He & [= <-]). unfold emit in He.
  apply bind_Some in He as (s & Hs & [= <-]). cbn [document] in Hs.
  apply parse_indent in Hs; [|by apply openapi_doc_wf]. pose proof openapi_paths_exact as Hx.
  set (paths := oa_paths (foldl openapi_step empty_OpenApi (sort_endpoints endpoints))) in *.
  exists (json_canon (openapi_doc endpoints context)), (json_canon paths). split; [done|].
  rewrite member_canon. split.
  { assert (member "paths" (openapi_doc endpoints context) = Some paths) as ->; [|done].
    unfold openapi_doc. fold paths. set (sc := oa_schemas _). clearbody paths sc.
    by destruct (negb (jsize sc =? 0)). }
  setoid_rewrite member_canon. split.
  - intros e Hin. split; [|apply path_item_metadata_only]. unfold paths. rewrite Hx by done.
    destruct (list_find _ _) as [[i e']|] eqn:Hf.
    + apply list_find_Some in Hf as (Hl & Heq & _). apply list_elem_of_lookup_2 in Hl.
      rewrite sort_endpoints_perm in Hl. rewrite Forall_forall in Hok.
      apply openapi_path_inj in Heq; [|by apply Hok..]. by rewrite (ep_key_inj endpoints e' e).
    + rewrite list_find_None, Forall_forall in Hf. destruct (Hf e); [|done].
      by rewrite sort_endpoints_perm.
  - intros p Hp. unfold paths. rewrite Hx by done.
    destruct (list_find _ _) as [[i e']|] eqn:Hf; [|done].
    apply list_find_Some in Hf as (Hl & <- & _). apply list_elem_of_lookup_2 in Hl.
    rewrite sort_endpoints_perm in Hl. destruct Hp. by apply list_elem_of_fmap_2.
Qed.

(** ** Concrete endpoints *)
Module TreePretty.
#[local] Instance pretty : JsonPretty :=
  {| json_dump_indent _ j := json_dump (JsonLib := TreeJson.lib) j |}.

Lemma unbits_newline p : TreeJson.unbits (TreeJson.bits p ++ ["010"%char]) = Some p.
Proof. induction p as [p IH|p IH|]; cbn; by rewrite ?IH. Qed.

#[local] Instance laws : JsonPrettyLaws TreeJson.lib pretty.
Proof.
  pose proof TreeJson.laws as HL. split; unfold json_dump_indent, pretty.
  - intros _ j. apply (dump_defined (L := TreeJson.lib)).
  - intros _ j. apply (dump_throws (L := TreeJson.lib)).
  - intros _ j s Hwf Hs. rewrite <-(parse_dump (L := TreeJson.lib) j s Hwf Hs).
    unfold json_dump, TreeJson.lib in Hs. destruct (json_utf8 j); [|done].
    apply (inj Some) in Hs as <-. unfold json_parse, TreeJson.lib.
    by rewrite unbits_newline, TreeJson.unbits_bits.
Qed.
End TreePretty.

Definition sample_endpoint (version kind summary : cstring) : EndpointDescriptor :=
  {| ep_name := lit "lookup"; ep_ns := lit "dns"; ep_version := version; ep_kind := kind;
     ep_summary := summary; ep_description := []; ep_request := JNull;
     ep_response := jobject [(lit "type", JString "string")]; ep_metadata_only := true;
     ep_attribution := []; ep_confidence := []; ep_privacy := [] |}.
Definition first_party : GenerationContext := mkContext "first-party" "0.1.0" 1.

(** A descriptor is valid when its document is accepted. *)
Lemma parsed_descriptor_ok d :
  parse_endpoint_descriptor (descriptor_json d) = Ok d → descriptor_ok d.
Proof. apply parse_descriptor_ok. Qed.

Definition two_versions : list EndpointDescriptor :=
  [sample_endpoint "1.1" "event" "new"; sample_endpoint "1.0" "event" "old"].

Lemma two_versions_ok : Forall descriptor_ok two_versions.
Proof.
  repeat (apply List.Forall_cons; [apply parsed_descriptor_ok; vm_compute; reflexivity|]).
  apply List.Forall_nil.
Qed.

Lemma openapi_complete_witness :
  ∃ text doc paths,
    generate (P := TreePretty.pretty) OpenApi31 two_versions first_party = Some (Ok text) ∧
    json_parse (JsonLib := TreeJson.lib) text = Some doc ∧ member "paths" doc = Some paths ∧
    member "/dns/lookup/v1.0" paths =
      Some (json_canon (path_item (sample_endpoint "1.0" "event" "old"))).
Proof.
  destruct (generate (P := TreePretty.pretty) OpenApi31 two_versions first_party)
    as [[text|]|] eqn:Hg; [|exfalso; vm_compute in Hg; discriminate Hg..].
  destruct (openapi_complete TreeJson.lib TreePretty.pretty TreePretty.laws
    two_versions first_party text) as (doc & paths & Hp & Hm & He & _).
  - exact two_versions_ok.
  - repeat constructor.
  - split; [discriminate|reflexivity].
  - exact Hg.
  - exists text, doc, paths. split; [reflexivity|]. split; [exact Hp|]. split; [exact Hm|].
    apply (He (sample_endpoint "1.0" "event" "old")).
    apply elem_of_cons. right. by apply elem_of_cons; left.
Defined.

Lemma generate_order_independent_witness :
  generate (P := TreePretty.pretty) AsyncApi2 two_versions first_party =
  generate (P := TreePretty.pretty) AsyncApi2 (rev two_versions) first_party.
Proof. apply generate_order_independent. apply Permutation_rev. Defined.

(** ** AsyncAPI documents *)
Lemma async_channel_path a b :
  async_channel a = async_channel b → openapi_path a = openapi_path b.
Proof. unfold async_channel, openapi_path. by intros ->. Qed.

Lemma asyncapi_fold st l e :
  is_object (aa_channels st) = true → is_object (aa_messages st) = true →
  NoDup (async_channel <$> l) → e ∈ l → ep_kind e ≠ lit "operation" →
  member (async_channel e) (aa_channels (foldl asyncapi_step st l)) = Some (channel_doc e) ∧
  is_Some (member (message_name e) (aa_messages (foldl asyncapi_step st l))).
Proof.
  intros Hc Hm Hd Hin Hk. induction l as [|x l IH] using rev_ind.
  { by apply not_elem_of_nil in Hin. }
  rewrite fmap_app, NoDup_app in Hd. destruct Hd as (Hd & Hn & _). rewrite foldl_snoc.
  assert (is_object (aa_channels (foldl asyncapi_step st l)) = true ∧
    is_object (aa_messages (foldl asyncapi_step st l)) = true) as [Hc' Hm'].
  { clear -Hc Hm. induction l as [|y l IH] using rev_ind; [done|]. rewrite foldl_snoc.
    unfold asyncapi_step at 1 3. destruct (ep_kind y =s "operation"); [done|].
    destruct IH. by split; apply is_object_jset. }
  unfold asyncapi_step at 1 3. apply elem_of_app in Hin as [Hin|Hin].
  - destruct (IH Hd Hin) as [H1 H2]. destruct (ep_kind x =s "operation"); [done|].
    cbn [aa_channels aa_messages]. rewrite !member_jset by done. split.
    + destruct (str_eqb_spec (async_channel e) (async_channel x)) as [Heq|]; [|done].
      destruct (Hn (async_channel e)); [by apply list_elem_of_fmap_2|].
      rewrite Heq. by apply list_elem_of_singleton.
    + by destruct (message_name e =s message_name x).
  - apply list_elem_of_singleton in Hin as ->. rewrite (proj2 (str_eqb_neq _ _)) by done.
    cbn [aa_channels aa_messages]. by rewrite !member_jset, !str_eqb_refl.
Qed.

(** Every stream and event has its channel, and the message the channel refers
    to is defined. *)
Lemma asyncapi_complete endpoints e :
  Forall descriptor_ok endpoints → NoDup (ep_key <$> endpoints) → e ∈ endpoints →
  ep_kind e ≠ lit "operation" →
  let st := foldl asyncapi_step empty_AsyncApi (sort_endpoints endpoints) in
  member (async_channel e) (aa_channels st) = Some (channel_doc e) ∧
  is_Some (member (message_name e) (aa_messages st)).
Proof.
  intros Hok Hd Hin Hk. apply asyncapi_fold; [done..| |by rewrite sort_endpoints_perm|done].
  rewrite sort_endpoints_perm. clear Hin.
  induction Hok as [|x l Hx Hl IH]; [constructor|]. cbn in Hd |- *.
  apply NoDup_cons in Hd as [Hn Hd]. apply NoDup_cons. split; [|auto].
  intros (e' & Heq & Hin)%list_elem_of_fmap. destruct Hn. rewrite Forall_forall in Hl.
  apply async_channel_path in Heq.
  rewrite (openapi_path_inj x e'); [by apply list_elem_of_fmap_2|done|by apply Hl|done].
Qed.

(** *** Two versions of an endpoint share one definition *)
Lemma sort_pair a b : ep_lt a b = true → sort_endpoints [a; b] = [a; b].
Proof.
  intros Hlt. symmetry. apply sort_endpoints_unique; [| |done].
  - cbn. apply NoDup_cons. split; [|apply NoDup_singleton]. rewrite list_elem_of_singleton.
    intros Hk. apply ep_lt_spec in Hlt. unfold ep_key in Hk. injection Hk as Hns Hn Hv.
    rewrite Hns, Hn, Hv, !str_ltb_irrefl in Hlt. naive_solver.
  - repeat constructor. unfold ep_le. destruct (ep_lt b a) eqn:E; [|done].
    pose proof (ep_lt_trans _ _ _ Hlt E) as Haa. by rewrite ep_lt_irrefl in Haa.
Qed.

(** The names of definitions leave out the version: of two versions of an
    endpoint, which [generate] accepts, the JSON Schema bundle and the AsyncAPI
    messages keep only the later one, and the channel of the earlier one refers
    to the message of the later one. *)
Theorem versions_share_definition a b :
  ep_ns a = ep_ns b → ep_name a = ep_name b → ep_lt a b = true →
  has_duplicate [a; b] = false ∧
  schema_defs [a; b] = JObject [(message_name b, schema_entry b)] ∧
  (ep_kind a ≠ lit "operation" → ep_kind b ≠ lit "operation" →
   let st := foldl asyncapi_step empty_AsyncApi (sort_endpoints [a; b]) in
   aa_messages st = JObject [(message_name b, async_message b)] ∧
   message_name a = message_name b).
Proof.
  intros Hns Hn Hlt. assert (Hm : message_name a = message_name b).
  { unfold message_name. by rewrite Hns, Hn. }
  unfold schema_defs. rewrite sort_pair by done. split_and!.
  - cbn [has_duplicate existsb]. rewrite !orb_false_r. unfold same_endpoint.
    destruct (str_eqb_spec (ep_version a) (ep_version b)) as [Hv|]; [|by rewrite andb_false_r].
    apply ep_lt_spec in Hlt. rewrite Hns, Hn, Hv, !str_ltb_irrefl in Hlt. naive_solver.
  - cbn [foldl jset assoc_set]. by rewrite Hm, str_eqb_refl.
  - intros Ha Hb. cbn [foldl]. unfold asyncapi_step.
    rewrite !(proj2 (str_eqb_neq _ (lit "operation"))) by done.
    cbn [aa_messages empty_AsyncApi jset assoc_set]. by rewrite Hm, str_eqb_refl.
Qed.

Lemma versions_share_definition_witness :
  let a := sample_endpoint "1.0" "event" "old" in
  let b := sample_endpoint "1.1" "event" "new" in
  schema_defs [a; b] = JObject [(lit "dns_lookup", schema_entry b)].
Proof.
  apply (versions_share_definition (sample_endpoint "1.0" "event" "old")
    (sample_endpoint "1.1" "event" "new")); reflexivity.
Defined.
