(* ===== verification/LuaApi.v ===== *)
(** * The Lua C API the bindings use

    [src/drivers/lua/bindings/lezcap.cpp] is written against the stack interface
    of Lua 5.1: a C function finds its arguments on a stack, addresses them by
    positive (from the bottom) or negative (from the top) indices, pushes its
    results and returns their number.  This file gives those operations the
    documented behaviour, with misuse the manual leaves undefined as an outcome
    of its own.  Number formatting and parsing are parameters, and so is the
    script: its tables, and what its [__index] metamethods do when a C function
    asks a table for a field. *)
From S2P Require Import Prelude Double.
Open Scope Z_scope.

(** ** Values *)
Inductive lval :=
  | VNil
  | VBool (b : bool)
  | VNumber (d : double)
  | VString (s : cstring)
  | VTable (t : Z)
  | VFunction (f : Z)
  | VUserdata (p : Z).

#[global] Instance lval_eq_dec : EqDecision lval.
Proof. solve_decision. Defined.

(** A table: its entries in the order of traversal, its length and whether it
    has an [__index] metamethod.  Tables refer to tables, so cycles are
    possible; the bindings never modify one. *)
Record LuaTable := mkTable {
  tb_entries : list (lval * lval);
  tb_len : Z;
  tb_meta : bool;
}.

(** What a field is without running a metamethod; [None] when one is asked. *)
Definition tb_get (tb : LuaTable) (key : cstring) : option lval :=
  match list_find (λ kv, kv.1 = VString key) (tb_entries tb) with
  | Some (_, kv) => Some kv.2
  | None => if tb_meta tb then None else Some VNil
  end.

(** The runtime's number conversions ([tostring] and [tonumber]). *)
Class LuaLib := {
  number_text : double → cstring;
  text_number : cstring → option double;
}.

(** ** Outcomes

    A call finishes, returns early from the C function with [n] results, raises
    a Lua error, is left by a C++ exception, is undefined behaviour, or is still
    running when the fuel is used up. *)
Inductive outcome (S A : Type) :=
  | Done (a : A) (st : S)
  | Return (n : Z) (st : S)
  | Raised (msg : cstring) (st : S)
  | Thrown (st : S)
  | Undefined
  | OutOfFuel.
Arguments Done {S A} a st.
Arguments Return {S A} n st.
Arguments Raised {S A} msg st.
Arguments Thrown {S A} st.
Arguments Undefined {S A}.
Arguments OutOfFuel {S A}.

(** ** The script

    A metamethod is code of the script: it may call the registered functions
    again and change what the host state [H] holds, the script's own memory
    included.  It gives the field, raises an error, lets the C++ exception of a
    function it called through, does something undefined, or does not end. *)
Inductive index_result (H : Type) :=
  | IndexValue (v : lval) (h : H)
  | IndexError (msg : cstring) (h : H)
  | IndexThrows (h : H)
  | IndexUndefined
  | IndexEndless.
Arguments IndexValue {H} v h.
Arguments IndexError {H} msg h.
Arguments IndexThrows {H} h.
Arguments IndexUndefined {H}.
Arguments IndexEndless {H}.

(** The state of the script's memory is part of the host state, as a number. *)
Class ScriptMemory (H : Type) := memory_of : H → Z.

(** The tables that a state of the memory holds, and the metamethods. *)
Record Script (H : Type) := mkScript {
  sc_table : Z → Z → LuaTable;
  sc_index : Z → cstring → H → index_result H;
}.
Arguments mkScript {H} _ _.
Arguments sc_table {H} _ _ _.
Arguments sc_index {H} _ _ _ _.

(** The host state that a metamethod leaves. *)
Definition index_leaves {H} (sc : Script H) (t : Z) (key : cstring) (h h' : H) : Prop :=
  match sc_index sc t key h with
  | IndexValue _ g | IndexError _ g | IndexThrows g => h' = g
  | IndexUndefined | IndexEndless => False
  end.

(** ** The stack machine, over any further state [H] *)
Record machine (H : Type) := mkMachine {
  mc_stack : list lval;
  mc_host : H;
}.
Arguments mkMachine {H} _ _.
Arguments mc_stack {H} _.
Arguments mc_host {H} _.

Section api.
Context {H : Type} {LL : LuaLib} {SM : ScriptMemory H} (sc : Script H).
Implicit Types st : machine H.

Definition lua (A : Type) : Type := machine H → outcome (machine H) A.

#[global] Instance lua_ret : MRet lua := λ A a st, Done a st.
#[global] Instance lua_bind : MBind lua := λ A B f m st,
  match m st with
  | Done a st => f a st
  | Return n st => Return n st
  | Raised msg st => Raised msg st
  | Thrown st => Thrown st
  | Undefined => Undefined
  | OutOfFuel => OutOfFuel
  end.

Definition return_ {A} (n : Z) : lua A := λ st, Return n st.
Definition raise {A} (msg : cstring) : lua A := λ st, Raised msg st.
Definition throw {A} : lua A := λ st, Thrown st.
Definition undefined {A} : lua A := λ _, Undefined.
Definition get_host : lua H := λ st, Done (mc_host st) st.
Definition set_host (h : H) : lua () := λ st, Done () (mkMachine (mc_stack st) h).

(** An index resolves to a position from the bottom. *)
Definition position (i : Z) (stack : list lval) : Z :=
  if 0 <? i then i - 1 else zlen stack + i.
Definition index_value (i : Z) (stack : list lval) : option lval :=
  let p := position i stack in if p <? 0 then None else stack !! Z.to_nat p.

(** [None] is an index past the top ([LUA_TNONE]). *)
Definition value_at (i : Z) : lua (option lval) :=
  λ st, Done (index_value i (mc_stack st)) st.

Definition push (v : lval) : lua () :=
  λ st, Done () (mkMachine (mc_stack st ++ [v]) (mc_host st)).
Definition pop (n : nat) : lua () := λ st,
  if (length (mc_stack st) <? n)%nat then Undefined
  else Done () (mkMachine (take (length (mc_stack st) - n) (mc_stack st)) (mc_host st)).
Definition replace_at (i : Z) (v : lval) : lua () := λ st,
  Done () (mkMachine (<[Z.to_nat (position i (mc_stack st)) := v]> (mc_stack st)) (mc_host st)).

Definition is_table (v : option lval) : bool :=
  match v with Some (VTable _) => true | _ => false end.
Definition is_nil (v : option lval) : bool :=
  match v with Some VNil => true | _ => false end.
Definition is_none_or_nil (v : option lval) : bool :=
  match v with None | Some VNil => true | _ => false end.
Definition is_function (v : option lval) : bool :=
  match v with Some (VFunction _) => true | _ => false end.
Definition is_number_value (v : option lval) : bool :=
  match v with Some (VNumber _) => true | _ => false end.
Definition to_boolean (v : option lval) : bool :=
  match v with None | Some VNil | Some (VBool false) => false | _ => true end.
Definition to_number (v : option lval) : option double :=
  match v with
  | Some (VNumber d) => Some d
  | Some (VString s) => text_number s
  | _ => None
  end.

(** [lua_tostring], read as a C string; a number is converted in place. *)
Definition lua_tostring (i : Z) : lua (option cstring) :=
  v ← value_at i;
  match v with
  | Some (VString s) => mret (Some (c_string s))
  | Some (VNumber d) =>
      _ ← replace_at i (VString (number_text d)); mret (Some (c_string (number_text d)))
  | _ => mret None
  end.

Definition table_of (t : Z) : lua LuaTable := λ st, Done (sc_table sc (memory_of (mc_host st)) t) st.

(** The call of a metamethod, whose result is pushed. *)
Definition index_event (t : Z) (key : cstring) : lua () := λ st,
  match sc_index sc t key (mc_host st) with
  | IndexValue v h => Done () (mkMachine (mc_stack st ++ [v]) h)
  | IndexError msg h => Raised msg (mkMachine (mc_stack st) h)
  | IndexThrows h => Thrown (mkMachine (mc_stack st) h)
  | IndexUndefined => Undefined
  | IndexEndless => OutOfFuel
  end.

(** [lua_getfield] on a table pushes the field. *)
Definition lua_getfield (i : Z) (key : cstring) : lua () :=
  v ← value_at i;
  match v with
  | Some (VTable t) =>
      tb ← table_of t;
      match tb_get tb key with
      | Some field => push field
      | None => index_event t key
      end
  | _ => raise "attempt to index a non-table value"
  end.

(** The entry after [key], the first one for nil; [None] for a key that is not
    in the table. *)
Fixpoint entry_after (key : lval) (entries : list (lval * lval)) :
    option (option (lval * lval)) :=
  match entries with
  | [] => None
  | (k, _) :: entries =>
      if bool_decide (k = key) then Some (head entries) else entry_after key entries
  end.
Definition next_entry (key : lval) (entries : list (lval * lval)) :
    option (option (lval * lval)) :=
  if bool_decide (key = VNil) then Some (head entries) else entry_after key entries.

(** [lua_next(L, i)]: the index is resolved while the key is still on top of the
    stack.  On a value that is not a table the manual defines nothing. *)
Definition lua_next (i : Z) : lua bool :=
  v ← value_at i; key ← value_at (-1);
  match v, key with
  | Some (VTable t), Some key =>
      tb ← table_of t;
      match next_entry key (tb_entries tb) with
      | None => raise "invalid key to 'next'"
      | Some None => _ ← pop 1; mret false
      | Some (Some (k, v)) => _ ← pop 1; _ ← push k; _ ← push v; mret true
      end
  | _, _ => undefined
  end.

(** [lua_rawgeti] and [lua_objlen] on a table. *)
Definition raw_number (tb : LuaTable) (n : Z) : lval :=
  match list_find (λ kv, kv.1 = VNumber (dint n)) (tb_entries tb) with
  | Some (_, kv) => kv.2
  | None => VNil
  end.
Definition lua_rawgeti (i : Z) (n : Z) : lua () :=
  v ← value_at i;
  match v with
  | Some (VTable t) => tb ← table_of t; push (raw_number tb n)
  | _ => undefined
  end.
Definition lua_objlen (v : option lval) : lua Z :=
  match v with
  | Some (VTable t) => tb ← table_of t; mret (tb_len tb)
  | Some (VString s) => mret (zlen s)
  | _ => mret 0
  end.
End api.

(** A finished step hands its result on. *)
Lemma bind_done {H A B} (m : lua (H := H) A) (f : A → lua B) st st' a :
  m st = Done a st' → (m ≫= f) st = f a st'.
Proof. unfold mbind, lua_bind. by intros ->. Qed.

(** A property of the value a computation finishes with. *)
Definition yields {H A} (m : lua (H := H) A) (Q : A → Prop) : Prop :=
  ∀ st a st', m st = Done a st' → Q a.

Lemma yields_bind {H A B} (m : lua (H := H) A) (f : A → lua B) Q :
  (∀ a, yields (f a) Q) → yields (m ≫= f) Q.
Proof.
  intros Hf st b st'. unfold mbind, lua_bind. destruct (m st); try done. apply Hf.
Qed.

Lemma yields_ret {H A} (a : A) (Q : A → Prop) : Q a → yields (H := H) (mret a) Q.
Proof. by intros HQ st a' st' [= <- <-]. Qed.

(** ** A program logic for the host state

    [triple P m Q E]: from a host state in [P], [m] finishes in [Q] and leaves
    the C function (by a return, an error or an exception) in [E]. *)
Section logic.
Context {H : Type}.
Implicit Types P E : H → Prop.

Definition triple {A} P (m : lua (H := H) A) (Q : A → H → Prop) E : Prop :=
  ∀ st, P (mc_host st) →
    match m st with
    | Done a st => Q a (mc_host st)
    | Return _ st | Raised _ st | Thrown st => E (mc_host st)
    | Undefined | OutOfFuel => True
    end.

(** Operations that leave the host state alone. *)
Definition inert {A} (m : lua (H := H) A) : Prop := ∀ P, triple P m (λ _, P) P.

(** Operations that leave it alone but for the metamethods they run: they keep
    whatever the metamethods keep. *)
Definition index_keeps (sc : Script H) P : Prop :=
  ∀ t key h h', index_leaves sc t key h h' → P h → P h'.
Definition indexing {A} (sc : Script H) (m : lua (H := H) A) : Prop :=
  ∀ P, index_keeps sc P → triple P m (λ _, P) P.

Lemma triple_bind {A B} P Q R E (m : lua A) (f : A → lua B) :
  triple P m Q E → (∀ a, triple (Q a) (f a) R E) → triple P (m ≫= f) R E.
Proof.
  intros Hm Hf st Hst. specialize (Hm st Hst). unfold mbind, lua_bind.
  destruct (m st); try done. by apply Hf.
Qed.

Lemma triple_ret {A} P (Q : A → H → Prop) E a : (∀ h, P h → Q a h) → triple P (mret a) Q E.
Proof. intros HQ st Hst. by apply HQ. Qed.

Lemma triple_conseq {A} P P' (Q : A → H → Prop) E (m : lua A) :
  triple P' m Q E → (∀ h, P h → P' h) → triple P m Q E.
Proof. intros Hm HP st Hst. by apply Hm, HP. Qed.

Lemma triple_get {B} P (R : B → H → Prop) E (f : H → lua B) :
  (∀ h, triple (λ h', h' = h ∧ P h) (f h) R E) → triple P (get_host ≫= f) R E.
Proof. intros Hf st Hst. by apply Hf. Qed.

Lemma triple_set P E {B} (R : B → H → Prop) h (f : () → lua B) :
  (∀ h', P h' → triple (λ h'', h'' = h) (f ()) R E) → triple P (set_host h ≫= f) R E.
Proof. intros Hf st Hst. by apply (Hf _ Hst). Qed.

Lemma triple_return {A} P (Q : A → H → Prop) E n :
  (∀ h, P h → E h) → triple P (return_ n) Q E.
Proof. intros HE st Hst. by apply HE. Qed.

Lemma triple_inert_bind {A B} P (R : B → H → Prop) E (m : lua A) (f : A → lua B) :
  inert m → (∀ h, P h → E h) → (∀ a, triple P (f a) R E) → triple P (m ≫= f) R E.
Proof.
  intros Hm HE Hf. apply (triple_bind P (λ _, P)); [|done].
  intros st Hst. specialize (Hm P st Hst). destruct (m st); auto.
Qed.

Lemma inert_bind {A B} (m : lua A) (f : A → lua B) :
  inert m → (∀ a, inert (f a)) → inert (m ≫= f).
Proof. intros Hm Hf P. apply triple_inert_bind; [done..|]. intros a. apply Hf. Qed.

Lemma inert_triple {A} P (R : A → H → Prop) E (m : lua A) :
  inert m → (∀ h, P h → E h) → (∀ a h, P h → R a h) → triple P m R E.
Proof. intros Hm HE HR st Hst. specialize (Hm P st Hst). destruct (m st); auto. Qed.

Lemma triple_indexing_bind {A B} sc P (R : B → H → Prop) E (m : lua A) (f : A → lua B) :
  indexing sc m → index_keeps sc P → (∀ h, P h → E h) → (∀ a, triple P (f a) R E) →
  triple P (m ≫= f) R E.
Proof.
  intros Hm Hk HE Hf. apply (triple_bind P (λ _, P)); [|done].
  intros st Hst. specialize (Hm P Hk st Hst). destruct (m st); auto.
Qed.

Lemma indexing_bind {A B} sc (m : lua A) (f : A → lua B) :
  indexing sc m → (∀ a, indexing sc (f a)) → indexing sc (m ≫= f).
Proof.
  intros Hm Hf P Hk. eapply triple_indexing_bind; [done..|]. intros a. by apply Hf.
Qed.

Lemma indexing_inert {A} sc (m : lua A) : inert m → indexing sc m.
Proof. intros Hm P _. apply Hm. Qed.
End logic.

Create HintDb lua_inert.
Create HintDb lua_index.

Section inert.
Context {H : Type} {LL : LuaLib} {SM : ScriptMemory H} (sc : Script H).

Lemma inert_ret {A} (a : A) : inert (H := H) (mret a).
Proof. by intros P st Hst. Qed.
Lemma inert_value_at i : inert (H := H) (value_at i).
Proof. by intros P st Hst. Qed.
Lemma inert_push v : inert (H := H) (push v).
Proof. by intros P st Hst. Qed.
Lemma inert_pop n : inert (H := H) (pop n).
Proof. intros P st Hst. unfold pop. by destruct (_ <? _)%nat. Qed.
Lemma inert_replace_at i v : inert (H := H) (replace_at i v).
Proof. by intros P st Hst. Qed.
Lemma inert_return {A} n : inert (H := H) (return_ (A := A) n).
Proof. by intros P st Hst. Qed.
Lemma inert_raise {A} msg : inert (H := H) (raise (A := A) msg).
Proof. by intros P st Hst. Qed.
Lemma inert_throw {A} : inert (H := H) (throw (A := A)).
Proof. by intros P st Hst. Qed.
Lemma inert_undefined {A} : inert (H := H) (undefined (A := A)).
Proof. by intros P st Hst. Qed.
Lemma inert_fuel {A} : inert (H := H) (λ _, OutOfFuel : outcome (machine H) A).
Proof. by intros P st Hst. Qed.
Lemma inert_get_host : inert (H := H) get_host.
Proof. by intros P st Hst. Qed.
#[local] Hint Resolve inert_ret inert_value_at inert_push inert_pop inert_replace_at
  inert_return inert_raise inert_throw inert_undefined inert_fuel : lua_inert.

Lemma inert_tostring i : inert (H := H) (lua_tostring i).
Proof.
  apply inert_bind; [auto with lua_inert|]. intros [[]|]; auto with lua_inert.
  apply inert_bind; auto with lua_inert.
Qed.
Lemma inert_table_of t : inert (H := H) (table_of sc t).
Proof. by intros P st Hst. Qed.
#[local] Hint Resolve inert_table_of : lua_inert.

Lemma indexing_event t key : indexing (H := H) sc (index_event sc t key).
Proof.
  intros P Hk st Hst. specialize (Hk t key (mc_host st)). unfold index_event, index_leaves in *.
  destruct (sc_index sc t key (mc_host st)); cbn [mc_host]; eauto.
Qed.
Lemma indexing_getfield i key : indexing (H := H) sc (lua_getfield sc i key).
Proof.
  apply indexing_bind; [apply indexing_inert; auto with lua_inert|].
  intros [[]|]; try solve [apply indexing_inert; auto with lua_inert].
  apply indexing_bind; [apply indexing_inert; auto with lua_inert|]. intros tb.
  destruct (tb_get _ _); [apply indexing_inert; auto with lua_inert|apply indexing_event].
Qed.
Lemma inert_next i : inert (H := H) (lua_next sc i).
Proof.
  apply inert_bind; [auto with lua_inert|]. intros v. apply inert_bind; [auto with lua_inert|].
  intros key. destruct v as [[]|]; auto with lua_inert. destruct key; auto with lua_inert.
  apply inert_bind; [auto with lua_inert|]. intros tb.
  destruct (next_entry _ _) as [[[]|]|]; repeat (apply inert_bind; intros); auto with lua_inert.
Qed.
Lemma inert_rawgeti i n : inert (H := H) (lua_rawgeti sc i n).
Proof.
  apply inert_bind; [auto with lua_inert|]. intros [[]|]; auto with lua_inert.
  apply inert_bind; auto with lua_inert.
Qed.
Lemma inert_objlen v : inert (H := H) (lua_objlen sc v).
Proof. destruct v as [[]|]; cbn; auto with lua_inert. apply inert_bind; auto with lua_inert. Qed.
End inert.

#[export] Hint Resolve inert_ret inert_value_at inert_push inert_pop inert_replace_at
  inert_return inert_raise inert_throw inert_undefined inert_fuel inert_get_host
  inert_tostring inert_table_of inert_next inert_rawgeti inert_objlen : lua_inert.
#[export] Hint Resolve indexing_getfield : lua_index.

(** Walk through a computation whose pieces are inert, or run metamethods. *)
Ltac solve_inert :=
  repeat first
    [ progress (intros)
    | solve [auto with lua_inert]
    | apply inert_bind
    | case_match ].
Ltac solve_indexing :=
  repeat first
    [ progress (intros)
    | solve [auto with lua_index]
    | solve [apply indexing_inert; auto with lua_inert]
    | apply indexing_bind
    | case_match ].
