(* ===== verification/LuaGlobals.v ===== *)
(** * The globals of a driver's Lua state ([src/drivers/lua/sandbox.cpp])

    The curated library set: what [open_curated_libs] leaves in the global
    table, and how the host error handler turns a raised value into a message.
    Tables are mutable and shared, so the state is a heap of tables; the global
    table is the one at [LUA_GLOBALSINDEX].  The library openers are LuaJIT's and
    therefore parameters: a function from the heap and the module name to the
    heap and the value the opener returns. *)
From S2P Require Import Prelude Double LuaApi LuaSandbox.
Open Scope Z_scope.

(** String-keyed fields of each table; a field set to nil is absent. *)
Abbreviation lua_heap := (gmap Z (gmap cstring lval)).
Definition LUA_GLOBALSINDEX : Z := -10002.

Definition raw_get (h : lua_heap) (t : Z) (k : cstring) : lval :=
  default VNil (h !! t ≫= lookup k).
Definition raw_set (t : Z) (k : cstring) (v : lval) (h : lua_heap) : lua_heap :=
  let fields := default ∅ (h !! t) in
  <[t := if bool_decide (v = VNil) then delete k fields else <[k := v]> fields]> h.
Definition get_global (h : lua_heap) (k : cstring) : lval := raw_get h LUA_GLOBALSINDEX k.

(** Names removed from [_G]. *)
Definition kForbiddenGlobals : list cstring := lit <$>
  ["io"; "os"; "package"; "debug"; "require"; "dofile"; "loadfile"; "ffi"; "jit";
   "collectgarbage"; "newproxy"; "load"; "loadstring"; "bit"]%string.

Definition scrub_globals (names : list cstring) (h : lua_heap) : lua_heap :=
  foldl (λ h name, raw_set LUA_GLOBALSINDEX name VNil h) h names.

(** [string.dump = nil] *)
Definition remove_dump (h : lua_heap) : lua_heap :=
  match get_global h (lit "string") with
  | VTable t => raw_set t (lit "dump") VNil h
  | _ => h
  end.

(** A library opener. *)
Definition opener := cstring → lua_heap → lval * lua_heap.

Definition open_one_lib (name : cstring) (open : opener) (h : lua_heap) : lua_heap :=
  let '(v, h) := open name h in raw_set LUA_GLOBALSINDEX name v h.

Definition open_curated_libs (luaopen_string luaopen_table luaopen_math luaopen_base : opener)
    (h : lua_heap) : lua_heap :=
  let h := open_one_lib "string" luaopen_string h in
  let h := open_one_lib "table" luaopen_table h in
  let h := open_one_lib "math" luaopen_math h in
  let h := (luaopen_base [] h).2 in
  remove_dump (scrub_globals kForbiddenGlobals h).

(** ** The error handler

    [meta] is what the [__tostring] metamethod of the raised value returned, if
    it has one; [traceback] is what [luaL_traceback] pushes for a message. *)
Section handler.
Context {LL : LuaLib} (traceback : cstring → cstring).

Definition type_name (v : lval) : cstring :=
  match v with
  | VNil => "nil" | VBool _ => "boolean" | VNumber _ => "number" | VString _ => "string"
  | VTable _ => "table" | VFunction _ => "function" | VUserdata _ => "userdata"
  end.

Definition host_error_handler (raised : lval) (meta : option lval) : lval :=
  match raised with
  | VString s => VString (traceback (c_string s))
  | VNumber d => VString (traceback (c_string (number_text d)))
  | _ =>
      match meta with
      | Some (VString s) => VString s
      | _ => VString (lit "(error object: " ++ type_name raised ++ ")")
      end
  end.

(** [lua_tostring] of the message in [pcall]; [handled] is [false] for the errors
    that the runtime reports without calling the handler. *)
Definition error_text (handled : bool) (raised : lval) (meta : option lval) : option cstring :=
  match if handled then host_error_handler raised meta else raised with
  | VString s => Some (c_string s)
  | VNumber d => Some (c_string (number_text d))
  | _ => None
  end.
End handler.

(** ** Lemmas *)
Lemma raw_get_set_eq h t k v : raw_get (raw_set t k v h) t k = v.
Proof.
  unfold raw_get, raw_set. rewrite lookup_insert_eq. cbn.
  case_bool_decide as E; [by rewrite lookup_delete_eq, E|by rewrite lookup_insert_eq].
Qed.

Lemma raw_get_set_ne h t k v t' k' :
  t' ≠ t ∨ k' ≠ k → raw_get (raw_set t k v h) t' k' = raw_get h t' k'.
Proof.
  intros Hne. unfold raw_get, raw_set. destruct (decide (t' = t)) as [->|Ht].
  - destruct Hne as [|Hk]; [done|]. rewrite lookup_insert_eq. cbn.
    case_bool_decide; rewrite ?lookup_delete_ne, ?lookup_insert_ne by done;
      by destruct (h !! t); cbn; rewrite ?lookup_empty.
  - by rewrite lookup_insert_ne.
Qed.

(** Clearing a field never brings another one back. *)
Lemma raw_set_nil_get h t k t' k' :
  raw_get (raw_set t k VNil h) t' k' = VNil ∨
  raw_get (raw_set t k VNil h) t' k' = raw_get h t' k'.
Proof.
  destruct (decide (t' = t ∧ k' = k)) as [[-> ->]|Hne]; [left; apply raw_get_set_eq|].
  right. apply raw_get_set_ne. destruct (decide (t' = t)), (decide (k' = k)); naive_solver.
Qed.

Lemma scrub_globals_get names h k :
  get_global (scrub_globals names h) k = if mem k names then VNil else get_global h k.
Proof.
  revert h. induction names as [|name names IH]; intros h; [done|].
  change (scrub_globals (name :: names) h)
    with (scrub_globals names (raw_set LUA_GLOBALSINDEX name VNil h)). rewrite IH.
  change (mem k (name :: names)) with ((k =s name) || mem k names). destruct (mem k names); [by rewrite orb_true_r|].
  rewrite orb_false_r. unfold get_global. destruct (str_eqb_spec k name) as [->|Hk].
  - apply raw_get_set_eq.
  - apply raw_get_set_ne. by right.
Qed.

Lemma remove_dump_spec h (names : list cstring) :
  (∀ name, name ∈ names → get_global h name = VNil) →
  (∀ name, name ∈ names → get_global (remove_dump h) name = VNil) ∧
  ∀ t, get_global (remove_dump h) (lit "string") = VTable t →
    raw_get (remove_dump h) t (lit "dump") = VNil.
Proof.
  intros H1. unfold remove_dump.
  destruct (get_global h (lit "string")) as [| | | |t| |] eqn:Hs;
    try (split; [exact H1|intros t' Ht; rewrite Ht in Hs; discriminate Hs]).
  split.
  - intros name Hn. specialize (H1 name Hn). unfold get_global in *.
    destruct (raw_set_nil_get h t (lit "dump") LUA_GLOBALSINDEX name) as [E|E]; [done|].
    by rewrite E.
  - intros t' Ht. assert (t' = t) as ->; [|apply raw_get_set_eq].
    unfold get_global in *. rewrite raw_get_set_ne in Ht by (right; discriminate).
    rewrite Hs in Ht. by injection Ht.
Qed.

Section globals.
Context (luaopen_string luaopen_table luaopen_math luaopen_base : opener) (h : lua_heap).

(** C37: Whatever the libraries of the runtime install, a driver starts without
    the forbidden globals and without [string.dump]: after the curated libraries
    are opened every forbidden name is nil in the global table and, when the
    global [string] is a table, it has no [dump] field, also for whoever reaches
    that table by another name. *)
Theorem sandbox_globals_scrubbed :
  let h' := open_curated_libs luaopen_string luaopen_table luaopen_math luaopen_base h in
  (∀ name, name ∈ kForbiddenGlobals → get_global h' name = VNil) ∧
  ∀ t, get_global h' (lit "string") = VTable t → raw_get h' t (lit "dump") = VNil.
Proof.
  unfold open_curated_libs. cbv zeta. apply remove_dump_spec.
  intros name Hn%mem_spec. by rewrite scrub_globals_get, Hn.
Qed.
End globals.

(** A message for every error that reaches the handler: the fixed text of
    [pcall] is left to the errors the runtime reports by itself. *)
Lemma handled_error_has_text (LL : LuaLib) traceback raised meta :
  is_Some (error_text traceback true raised meta).
Proof. destruct raised; cbn; try (by eexists); by destruct meta as [[]|]; eexists. Qed.
