(* ===== verification/Lezcap.v ===== *)
(** * The [lezcap] bindings ([src/drivers/lua/bindings/lezcap.cpp])

    The functions a driver script can call, over the stack interface of
    [LuaApi]: conversion of tables to JSON, endpoint declaration, filter
    registration, event emission with its rate limit, specification
    generation, the utilities, and their capability-gated registration. *)
From S2P Require Import Prelude Double Json Types Time PolicyEngine Sha256 Manifest.
From S2P Require Import LuaSandbox DriverEngine Descriptor Specgen LuaApi.
Open Scope Z_scope.

(** ** Data *)
Record DriverHostState := mkHostState {
  hs_manifest : DriverManifest;
  hs_limits : DriverResourceLimits;
  hs_endpoints : list EndpointDescriptor;
  hs_capture_filters : list CaptureFilter;
  hs_events_emitted : Z;
  hs_events_dropped : Z;
  hs_last_event_window_start_ms : Z;
  hs_events_in_window : Z;
}.

(** What a C function reaches besides its arguments: the registry (host state,
    snapshots and event sink, which stores the texts it is called with), the
    log and the memory of the script. *)
Record Host := mkHost {
  ho_state : option DriverHostState;
  ho_policy_snapshot : lval;
  ho_status_snapshot : lval;
  ho_sink : option (list cstring);
  ho_log : list (cstring * cstring);
  ho_memory : Z;
}.
#[global] Instance host_memory : ScriptMemory Host := ho_memory.

Definition with_state_set (s : DriverHostState) (h : Host) : Host :=
  mkHost (Some s) (ho_policy_snapshot h) (ho_status_snapshot h) (ho_sink h) (ho_log h) (ho_memory h).
Definition add_endpoint (d : EndpointDescriptor) (s : DriverHostState) : DriverHostState :=
  mkHostState (hs_manifest s) (hs_limits s) (hs_endpoints s ++ [d]) (hs_capture_filters s)
    (hs_events_emitted s) (hs_events_dropped s) (hs_last_event_window_start_ms s)
    (hs_events_in_window s).
Definition add_filter (f : CaptureFilter) (s : DriverHostState) : DriverHostState :=
  mkHostState (hs_manifest s) (hs_limits s) (hs_endpoints s) (hs_capture_filters s ++ [f])
    (hs_events_emitted s) (hs_events_dropped s) (hs_last_event_window_start_ms s)
    (hs_events_in_window s).
Definition set_window (start count : Z) (s : DriverHostState) : DriverHostState :=
  mkHostState (hs_manifest s) (hs_limits s) (hs_endpoints s) (hs_capture_filters s)
    (hs_events_emitted s) (hs_events_dropped s) start count.
Definition count_emitted (s : DriverHostState) : DriverHostState :=
  mkHostState (hs_manifest s) (hs_limits s) (hs_endpoints s) (hs_capture_filters s)
    (u64 (hs_events_emitted s + 1)) (hs_events_dropped s) (hs_last_event_window_start_ms s)
    (u32 (hs_events_in_window s + 1)).
Definition count_dropped (s : DriverHostState) : DriverHostState :=
  mkHostState (hs_manifest s) (hs_limits s) (hs_endpoints s) (hs_capture_filters s)
    (hs_events_emitted s) (u64 (hs_events_dropped s + 1)) (hs_last_event_window_start_ms s)
    (hs_events_in_window s).

(** ** Base64 *)
Definition kAlphabet : cstring :=
  "ABCDEFGHIJKLMNOPQRSTUVWXYZabcdefghijklmnopqrstuvwxyz0123456789+/".
Definition sextet (triple : Z) (shift : Z) : ascii :=
  nth (Z.to_nat (Z.land (Z.shiftr triple shift) 0x3f)) kAlphabet "000"%char.

Fixpoint base64_encode (input : cstring) : cstring :=
  match input with
  | [] => []
  | [a] =>
      let pair := Z.shiftl (ord a) 16 in [sextet pair 18; sextet pair 12] ++ lit "=="
  | [a; b] =>
      let pair := Z.lor (Z.shiftl (ord a) 16) (Z.shiftl (ord b) 8) in
      [sextet pair 18; sextet pair 12; sextet pair 6] ++ lit "="
  | a :: b :: c :: input =>
      let triple := Z.lor (Z.lor (Z.shiftl (ord a) 16) (Z.shiftl (ord b) 8)) (ord c) in
      [sextet triple 18; sextet triple 12; sextet triple 6; sextet triple 0]
      ++ base64_encode input
  end.

(** [static_cast] of a double to an unsigned integer type of [w] bits: towards
    zero, and defined only when the result is in range. *)
Definition double_to_unsigned (w : Z) (d : double) : option Z :=
  match d with
  | S754_zero _ => Some 0
  | S754_finite s m e =>
      let z := Z.shiftl (Zpos m) e in
      let z := if s then - z else z in
      if (0 <=? z) && (z <? 2 ^ w) then Some z else None
  | S754_infinity _ | S754_nan => None
  end.

Section bindings.
Context {LL : LuaLib} {JL : JsonLib} {JP : JsonPretty} (sc : Script Host).
Abbreviation L := (lua (H := Host)).

(** ** Results and arguments *)
Definition lezcap_fail {A} (code message : cstring) : L A :=
  _ ← push VNil; _ ← push (VString (code ++ lit ": " ++ c_string message)); return_ 2.
Definition push_ok {A} : L A := _ ← push (VBool true); _ ← push VNil; return_ 2.

Definition host_state : L (option DriverHostState) := h ← get_host; mret (ho_state h).
Definition put_state (s : DriverHostState) : L () := h ← get_host; set_host (with_state_set s h).
(** A change through the pointer, to the state as it is then. *)
Definition update_state (f : DriverHostState → DriverHostState) : L () :=
  h ← get_host;
  match ho_state h with
  | Some s => set_host (with_state_set (f s) h)
  | None => mret ()
  end.
(** The functions that need the host state. *)
Definition need_state : L DriverHostState :=
  s ← host_state;
  match s with
  | Some s => mret s
  | None => lezcap_fail "internal.host_state" "host state missing"
  end.

Definition check_string (index : Z) (max_bytes : Z) : L cstring :=
  raw ← lua_tostring index;
  match raw with
  | None => lezcap_fail "argument.type" "expected a string"
  | Some raw =>
      if max_bytes <? zlen raw
      then lezcap_fail "argument.too_long" "string exceeds the sandbox limit"
      else mret raw
  end.

(** Whether the field is present, and the value of [out] afterwards. *)
Definition opt_table_string (index : Z) (key : cstring) (max_bytes : Z) (out : cstring) :
    L (bool * cstring) :=
  _ ← lua_getfield sc index key;
  v ← value_at (-1);
  if is_nil v then _ ← pop 1; mret (false, out)
  else
    raw ← lua_tostring (-1);
    match raw with
    | None => _ ← pop 1; lezcap_fail "argument.type" (key ++ lit " must be a string")
    | Some raw =>
        if max_bytes <? zlen raw
        then _ ← pop 1; lezcap_fail "argument.too_long" (key ++ lit " exceeds the sandbox limit")
        else _ ← pop 1; mret (true, raw)
    end.

(** ** lezcap.util *)
Definition max_string_bytes (s : option DriverHostState) : Z :=
  match s with Some s => rl_max_string_bytes (hs_limits s) | None => 8 * 1024 end.

Definition util_now_ms (now : Z) : L () :=
  _ ← push (VNumber (dint (Z.quot now 1000000))); return_ 1.
Definition util_now_rfc3339 (now : Z) : L () :=
  _ ← push (VString (c_string (to_rfc3339 now))); return_ 1.
Definition util_sha256_hex : L () :=
  s ← host_state; input ← check_string 1 (max_string_bytes s);
  _ ← push (VString (c_string (hex_digest input))); return_ 1.
Definition util_base64_encode : L () :=
  s ← host_state; input ← check_string 1 (max_string_bytes s);
  _ ← push (VString (base64_encode input)); return_ 1.

Definition util_truncate : L () :=
  raw ← lua_tostring 1;
  match raw with
  | None => lezcap_fail "argument.type" "expected a string"
  | Some raw =>
      limit ← value_at 2;
      if is_none_or_nil limit then _ ← push (VString raw); return_ 1
      else
        match to_number limit with
        | None => lezcap_fail "argument.type" "limit must be a number"
        | Some limit =>
            if dlt limit (dint 0) then lezcap_fail "argument.range" "limit must be >= 0"
            else
              match double_to_unsigned 64 limit with
              | None => undefined
              | Some n => _ ← push (VString (take (Z.to_nat (Z.min (zlen raw) n)) raw)); return_ 1
              end
        end
  end.

(** ** lezcap.log *)
Definition log_level (level : cstring) : cstring :=
  if level =s "warn" then lit "warn" else if level =s "error" then lit "error"
  else if level =s "debug" then lit "debug" else lit "info".

Definition log_emit (level : cstring) : L () :=
  s ← host_state; message ← check_string 1 (max_string_bytes s);
  let driver := match s with Some s => dm_name (hs_manifest s) | None => lit "unknown" end in
  h ← get_host;
  _ ← set_host (mkHost (ho_state h) (ho_policy_snapshot h) (ho_status_snapshot h) (ho_sink h)
        (ho_log h ++ [(log_level level, lit "lua.driver[" ++ driver ++ lit "] " ++ message)]) (ho_memory h));
  push_ok.

(** ** Tables to JSON

    The traversal takes one unit of fuel per call and per iteration. *)
Fixpoint json_from_lua (fuel : nat) (index depth : Z) : L (result cstring json) :=
  match fuel with
  | O => λ _, OutOfFuel
  | S fuel =>
      if 16 <? depth then mret (Err (lit "value nesting exceeds the descriptor limit"))
      else
        v ← value_at index;
        match v with
        | Some VNil => mret (Ok JNull)
        | Some (VBool b) => mret (Ok (JBool b))
        | Some (VNumber d) => mret (Ok (JFloat d))
        | Some (VString s) =>
            if 8 * 1024 <? zlen (c_string s)
            then mret (Err (lit "string exceeds the sandbox limit"))
            else mret (Ok (JString (c_string s)))
        | Some (VTable _) =>
            _ ← push VNil; more ← lua_next sc index;
            if negb more then mret (Ok (JObject []))
            else
              first ← value_at (-2); _ ← pop 2; _ ← push VNil;
              if is_number_value first then array_loop fuel index depth []
              else object_loop fuel index depth (JObject [])
        | _ => mret (Err (lit "unsupported value type in descriptor"))
        end
  end
with array_loop (fuel : nat) (index depth : Z) (out : list json) : L (result cstring json) :=
  match fuel with
  | O => λ _, OutOfFuel
  | S fuel =>
      more ← lua_next sc index;
      if negb more then mret (Ok (JArray out))
      else
        item ← json_from_lua fuel (-1) (depth + 1);
        match item with
        | Err e => _ ← pop 2; mret (Err e)
        | Ok item => _ ← pop 1; array_loop fuel index depth (out ++ [item])
        end
  end
with object_loop (fuel : nat) (index depth : Z) (out : json) : L (result cstring json) :=
  match fuel with
  | O => λ _, OutOfFuel
  | S fuel =>
      more ← lua_next sc index;
      if negb more then mret (Ok out)
      else
        key ← lua_tostring (-2);
        match key with
        | None => _ ← pop 2; mret (Err (lit "table keys must be strings"))
        | Some key =>
            item ← json_from_lua fuel (-1) (depth + 1);
            match item with
            | Err e => _ ← pop 2; mret (Err e)
            | Ok item => _ ← pop 1; object_loop fuel index depth (jset key item out)
            end
        end
  end.

Definition probe_descriptor (schema : json) : json :=
  jobject [(lit "name", JString "probe"); (lit "namespace", JString "probe");
           (lit "version", JString "1.0"); (lit "kind", JString "operation");
           (lit "summary", JString "probe"); (lit "metadata_only", JBool true);
           (lit "request", schema)].

Definition schema_subset_from_lua (fuel : nat) (index depth : Z) : L (result cstring json) :=
  v ← value_at index;
  if negb (is_table v) then mret (Err (lit "schema must be a table"))
  else
    out ← json_from_lua fuel index depth;
    match out with
    | Err e => mret (Err e)
    | Ok out =>
        match validate_endpoint_descriptor (probe_descriptor out) with
        | Ok _ => mret (Ok out)
        | Err e => mret (Err e)
        end
    end.

(** ** lezcap.endpoint *)
Definition kRequired : list cstring :=
  lit <$> ["name"; "namespace"; "version"; "kind"; "summary"]%string.

Fixpoint required_fields (keys : list cstring) (doc : json) (value : cstring) :
    L (json * cstring) :=
  match keys with
  | [] => mret (doc, value)
  | key :: keys =>
      got ← opt_table_string 1 key 256 value;
      if negb got.1 then lezcap_fail "argument.missing" (key ++ lit " is required")
      else required_fields keys (jset key (JString got.2) doc) got.2
  end.

(** An optional string; the local [value] keeps what it held when the field is
    absent, and is cleared when it was used. *)
Definition optional_field (key : cstring) (max : Z) (doc : json) (value : cstring) :
    L (json * cstring) :=
  got ← opt_table_string 1 key max value;
  if is_empty got.2 then mret (doc, got.2)
  else mret (jset key (JString got.2) doc, []).

Definition schema_field (fuel : nat) (key : cstring) (doc : json) : L json :=
  _ ← lua_getfield sc 1 key;
  v ← value_at (-1);
  if is_nil v then _ ← pop 1; mret doc
  else
    schema ← schema_subset_from_lua fuel (-1) 0;
    match schema with
    | Err e => _ ← pop 1; lezcap_fail "argument.schema" e
    | Ok schema => _ ← pop 1; mret (jset key schema doc)
    end.

Definition list_field (fuel : nat) (key : cstring) (doc : json) : L json :=
  _ ← lua_getfield sc 1 key;
  v ← value_at (-1);
  if is_nil v then _ ← pop 1; mret doc
  else
    items ← (if is_table v then json_from_lua fuel (-1) 1 else mret (Err []));
    match items with
    | Err e =>
        _ ← pop 1;
        lezcap_fail "argument.type" (if is_empty e then key ++ lit " must be an array" else e)
    | Ok items => _ ← pop 1; mret (jset key items doc)
    end.

Definition endpoint_declare (fuel : nat) : L () :=
  state ← need_state;
  arg ← value_at 1;
  if negb (is_table arg) then lezcap_fail "argument.type" "descriptor must be a table"
  else if rl_max_endpoints (hs_limits state) <=? zlen (hs_endpoints state)
  then lezcap_fail "limit.endpoints" "endpoint limit reached"
  else
    dv ← required_fields kRequired (JObject []) [];
    dv ← optional_field "description" 2048 dv.1 dv.2;
    dv ← optional_field "confidence" 256 dv.1 dv.2;
    let doc := dv.1 in
    _ ← lua_getfield sc 1 "metadata_only";
    flag ← value_at (-1);
    if negb (is_nil flag) && negb (to_boolean flag)
    then _ ← pop 1; lezcap_fail "policy.violation" "metadata_only cannot be false"
    else
      _ ← pop 1;
      let doc := jset "metadata_only" (JBool true) doc in
      doc ← schema_field fuel "request" doc;
      doc ← schema_field fuel "response" doc;
      doc ← list_field fuel "attribution" doc;
      doc ← list_field fuel "privacy" doc;
      match parse_endpoint_descriptor doc with
      | Err e => lezcap_fail "argument.invalid" e
      | Ok descriptor => _ ← update_state (add_endpoint descriptor); push_ok
      end.

(** ** lezcap.spec *)

(** [new_table] is the reference of a fresh table with the given entries. *)
Definition format_entries : list (lval * lval) :=
  imap (λ i format, (VNumber (dint (Z.of_nat i + 1)), VString (c_string format))) list_formats.
Definition spec_list_formats (new_table : list (lval * lval) → Z) : L () :=
  _ ← push (VTable (new_table format_entries)); return_ 1.

Fixpoint spec_endpoints (fuel : nat) (i : Z) (count : nat) (out : list EndpointDescriptor) :
    L (list EndpointDescriptor) :=
  match count with
  | O => mret out
  | S count =>
      _ ← lua_rawgeti sc 2 i;
      v ← value_at (-1);
      doc ← (if is_table v then json_from_lua fuel (-1) 0 else mret (Err []));
      match doc with
      | Err e =>
          _ ← pop 1;
          lezcap_fail "argument.invalid" (if is_empty e then lit "endpoints must be tables" else e)
      | Ok doc =>
          _ ← pop 1;
          match parse_endpoint_descriptor doc with
          | Err e => lezcap_fail "argument.invalid" e
          | Ok d => spec_endpoints fuel (i + 1) count (out ++ [d])
          end
      end
  end.

Definition spec_generate (fuel : nat) : L () :=
  format_raw ← lua_tostring 1;
  match format_raw with
  | None => lezcap_fail "argument.type" "format must be a string"
  | Some format_raw =>
      match format_from_id format_raw with
      | None => lezcap_fail "argument.unknown_format" "format is not an allowed emitter"
      | Some format =>
          arg ← value_at 2;
          if negb (is_table arg) then lezcap_fail "argument.type" "endpoints must be a table"
          else
            count ← lua_objlen sc arg;
            if 256 <? count then lezcap_fail "limit.endpoints" "too many endpoints"
            else
              endpoints ← spec_endpoints fuel 1 (Z.to_nat count) [];
              state ← host_state;
              let source :=
                match state with
                | Some s => lit "driver:" ++ dm_name (hs_manifest s)
                | None => lit "first-party"
                end in
              match generate format endpoints (mkContext source kVersionString 1) with
              | None => throw
              | Some (Err e) => lezcap_fail "specgen.error" e
              | Some (Ok out) =>
                  if 512 * 1024 <? zlen out
                  then lezcap_fail "limit.output" "generated spec exceeds size cap"
                  else _ ← push (VString out); return_ 1
              end
      end
  end.

(** ** lezcap.capture *)

(** A filter string: absent and empty are the same; [known] is the check by
    name. *)
Definition filter_field (key : cstring) (max : Z) (known : cstring → bool) (error : cstring)
    (value : cstring) : L (cstring * cstring) :=
  got ← opt_table_string 1 key max value;
  if is_empty got.2 then mret ([], got.2)
  else if negb (known got.2) then lezcap_fail "argument.invalid" error
  else mret (got.2, []).

Definition is_some {A} (o : option A) : bool := match o with Some _ => true | None => false end.

Definition confidence_field : L Z :=
  _ ← lua_getfield sc 1 "min_confidence";
  v ← value_at (-1);
  if is_nil v then _ ← pop 1; mret 0
  else
    match to_number v with
    | None =>
        _ ← pop 1; lezcap_fail "argument.type" "min_confidence must be a number in [0, 1]"
    | Some confidence =>
        _ ← pop 1;
        if dlt confidence (dint 0) || dlt (dint 1) confidence
        then lezcap_fail "argument.range" "min_confidence must be in [0, 1]"
        else
          match double_to_unsigned 32 (dmul confidence (dint 1000)) with
          | None => undefined
          | Some permille => mret permille
          end
    end.

Definition capture_register_filter : L () :=
  state ← need_state;
  arg ← value_at 1;
  if negb (is_table arg) then lezcap_fail "argument.type" "filter must be a table"
  else if rl_max_subscriptions (hs_limits state) <=? zlen (hs_capture_filters state)
  then lezcap_fail "limit.subscriptions" "filter limit reached"
  else
    tv ← filter_field "event_type" 32 (λ v, is_some (event_type_from_name v))
           "unknown event_type" [];
    pv ← filter_field "transport" 8 (λ v, is_some (transport_from_name v))
           "unknown transport" tv.2;
    permille ← confidence_field;
    _ ← update_state (add_filter (mkFilter tv.1 pv.1 permille));
    push_ok.

(** ** lezcap.policy, lezcap.status *)
Definition policy_query : L () :=
  _ ← need_state;
  h ← get_host;
  _ ← push (ho_policy_snapshot h);
  v ← value_at (-1);
  if is_nil v then _ ← pop 1; lezcap_fail "policy.unavailable" "no policy snapshot"
  else return_ 1.

Definition status_backends : L () :=
  h ← get_host;
  _ ← push (ho_status_snapshot h);
  v ← value_at (-1);
  if is_nil v then _ ← pop 1; lezcap_fail "status.unavailable" "no status snapshot"
  else return_ 1.

(** ** lezcap.event *)

(** The rate limit: the state with the window brought up to date, and whether
    the event is refused. *)
Definition open_window (now_ms : Z) (s : DriverHostState) : DriverHostState :=
  if 1000 <=? now_ms - hs_last_event_window_start_ms s then set_window now_ms 0 s else s.
Definition over_limit (s : DriverHostState) : bool :=
  (0 <? rl_max_events_per_second (hs_limits s))
  && (rl_max_events_per_second (hs_limits s) <=? hs_events_in_window s).

(** The sink is called with the text and takes function and text off the stack;
    the closing [lua_pop] takes off one more value. *)
Definition call_sink (text : cstring) : L () :=
  h ← get_host;
  match ho_sink h with
  | Some texts =>
      _ ← set_host (mkHost (ho_state h) (ho_policy_snapshot h) (ho_status_snapshot h)
            (Some (texts ++ [text])) (ho_log h) (ho_memory h));
      pop 1
  | None => _ ← push VNil; pop 1
  end.

Definition event_emit (fuel : nat) (now_ms : Z) : L () :=
  state ← need_state;
  arg ← value_at 1;
  if negb (is_table arg) then lezcap_fail "argument.type" "event must be a table"
  else
    let state := open_window now_ms state in
    if over_limit state
    then _ ← put_state (count_dropped state);
         lezcap_fail "limit.rate" "event rate limit reached"
    else
      let state := count_emitted state in
      _ ← put_state state;
      doc ← json_from_lua fuel 1 0;
      match doc with
      | Err e => lezcap_fail "argument.invalid" e
      | Ok doc =>
          match json_dump doc with
          | None => throw
          | Some text =>
              if 32 * 1024 <? zlen text
              then _ ← put_state (count_dropped state);
                   lezcap_fail "limit.size" "event exceeds size cap"
              else _ ← call_sink text; push_ok
          end
      end.
End bindings.

(** ** Registration *)
Inductive binding :=
  | UtilNowMs | UtilNowRfc3339 | UtilSha256Hex | UtilBase64Encode | UtilTruncate
  | LogInfo | LogWarn | LogError | LogDebug
  | EndpointDeclare | SpecListFormats | SpecGenerate | CaptureRegisterFilter
  | PolicyQuery | EventEmit | StatusBackends.

(** A module of the [lezcap] table; a null function list makes an empty one. *)
Definition register_module (name : cstring) (functions : option (list (cstring * binding))) :
    cstring * list (cstring * binding) := (name, default [] functions).

(** The module a capability makes available and its functions. *)
Definition module_of (c : Capability) : cstring * list (cstring * binding) :=
  match c with
  | CapUtil => register_module "util" (Some [(lit "now_ms", UtilNowMs); (lit "now_rfc3339", UtilNowRfc3339);
                             (lit "sha256_hex", UtilSha256Hex);
                             (lit "base64_encode", UtilBase64Encode);
                             (lit "truncate", UtilTruncate)])
  | CapLog => register_module "log" (Some [(lit "info", LogInfo); (lit "warn", LogWarn);
                           (lit "error", LogError); (lit "debug", LogDebug)])
  | CapEndpoint => register_module "endpoint" (Some [(lit "declare", EndpointDeclare)])
  | CapSpec => register_module "spec" (Some [(lit "list_formats", SpecListFormats);
                             (lit "generate", SpecGenerate)])
  | CapCapture => register_module "capture" (Some [(lit "register_filter", CaptureRegisterFilter)])
  | CapPolicy => register_module "policy" (Some [(lit "query", PolicyQuery)])
  | CapEvents => register_module "event" (Some [(lit "emit", EventEmit)])
  | CapStatus => register_module "status" (Some [(lit "backends", StatusBackends)])
  | CapDns => register_module "dns" None
  | CapProcess => register_module "process" None
  end.

(** The order in which [register_lezcap] asks for them. *)
Definition registration_order : list Capability :=
  [CapUtil; CapLog; CapEndpoint; CapSpec; CapCapture; CapPolicy; CapEvents; CapStatus;
   CapDns; CapProcess].

Definition lezcap_modules (m : DriverManifest) : list (cstring * list (cstring * binding)) :=
  module_of <$> filter (.∈ dm_capabilities m) registration_order.

(** The registry entry under which the bindings find their host state. *)
Definition push_host_state_ptr (state : DriverHostState) (h : Host) : Host :=
  mkHost (Some state) (ho_policy_snapshot h) (ho_status_snapshot h) (ho_sink h) (ho_log h) (ho_memory h).

(** [register_lezcap]: the registry and the table of modules; [None] is the
    exception of [dump]. *)
Definition register_lezcap {JL : JsonLib} (state : DriverHostState) (policy : Policy) (h : Host) :
    option (Host * list (cstring * list (cstring * binding))) :=
  snapshot ← json_dump (to_json policy);
  let h := push_host_state_ptr state h in
  Some (mkHost (ho_state h) (VString snapshot) (ho_status_snapshot h) (ho_sink h) (ho_log h)
          (ho_memory h),
        lezcap_modules (hs_manifest state)).

(** What a script finds under [lezcap.module.function]. *)
Definition lookup_binding (modules : list (cstring * list (cstring * binding)))
    (module function : cstring) : option binding :=
  '(_, m) ← list_find (λ m, m.1 = module) modules;
  '(_, f) ← list_find (λ f, f.1 = function) m.2;
  Some f.2.

(** The environment of a call: the clocks and the fuel for traversals. *)
Record CallEnv := mkCallEnv {
  ce_now : Z;
  ce_now_ms : Z;
  ce_fuel : nat;
  ce_new_table : list (lval * lval) → Z;
}.

Definition run_binding {LL : LuaLib} {JL : JsonLib} {JP : JsonPretty} (sc : Script Host)
    (env : CallEnv) (b : binding) : lua (H := Host) () :=
  match b with
  | UtilNowMs => util_now_ms (ce_now env)
  | UtilNowRfc3339 => util_now_rfc3339 (ce_now env)
  | UtilSha256Hex => util_sha256_hex
  | UtilBase64Encode => util_base64_encode
  | UtilTruncate => util_truncate
  | LogInfo => log_emit "info"
  | LogWarn => log_emit "warn"
  | LogError => log_emit "error"
  | LogDebug => log_emit "debug"
  | EndpointDeclare => endpoint_declare sc (ce_fuel env)
  | SpecListFormats => spec_list_formats (ce_new_table env)
  | SpecGenerate => spec_generate sc (ce_fuel env)
  | CaptureRegisterFilter => capture_register_filter sc
  | PolicyQuery => policy_query
  | EventEmit => event_emit sc (ce_fuel env) (ce_now_ms env)
  | StatusBackends => status_backends
  end.

(** ** Lemmas: conversion of tables

    What a value at the top of the stack becomes; [None] is undefined
    behaviour: the traversal of a table there asks [lua_next] about the nil it
    has just pushed. *)
Definition scalar_json (v : lval) : option (result cstring json) :=
  match v with
  | VNil => Some (Ok JNull)
  | VBool b => Some (Ok (JBool b))
  | VNumber d => Some (Ok (JFloat d))
  | VString s =>
      Some (if 8 * 1024 <? zlen (c_string s) then Err (lit "string exceeds the sandbox limit")
            else Ok (JString (c_string s)))
  | VTable _ => None
  | VFunction _ | VUserdata _ => Some (Err (lit "unsupported value type in descriptor"))
  end.

Fixpoint items_of (entries : list (lval * lval)) (out : list json) : option (result cstring json) :=
  match entries with
  | [] => Some (Ok (JArray out))
  | (_, v) :: entries =>
      match scalar_json v with
      | Some (Ok item) => items_of entries (out ++ [item])
      | r => r
      end
  end.

Fixpoint members_of (entries : list (lval * lval)) (out : json) : option (result cstring json) :=
  match entries with
  | [] => Some (Ok out)
  | (VString key, v) :: entries =>
      match scalar_json v with
      | Some (Ok item) => members_of entries (jset (c_string key) item out)
      | r => r
      end
  | _ :: _ => Some (Err (lit "table keys must be strings"))
  end.

Definition number_key (kv : lval * lval) : bool := is_number_value (Some kv.1).

(** The reference conversion of a table given by its entries. *)
Definition table_json (entries : list (lval * lval)) : option (result cstring json) :=
  match entries with
  | [] => Some (Ok (JObject []))
  | kv :: _ => if number_key kv then items_of entries [] else members_of entries (JObject [])
  end.

(** The table [t] in the memory of a host state. *)
Abbreviation table_in sc h t := (sc_table sc (ho_memory h) t).

(** Keys of a table are distinct and not nil. *)
Definition keys_ok (entries : list (lval * lval)) : Prop :=
  NoDup entries.*1 ∧ VNil ∉ entries.*1.

Section conversion.
Context {LL : LuaLib} (sc : Script Host).
Implicit Types (stack : list lval) (h : Host).

Lemma index_top stack v : index_value (-1) (stack ++ [v]) = Some v.
Proof.
  unfold index_value, position. change (0 <? -1) with false. cbv iota.
  rewrite zlen_app. change (zlen [v]) with 1. pose proof (zlen_nonneg stack).
  rewrite (proj2 (Z.ltb_ge _ _)) by lia. unfold zlen.
  rewrite lookup_app_r by lia. by replace (Z.to_nat _ - _)%nat with 0%nat by lia.
Qed.

Lemma index_second stack v w : index_value (-2) (stack ++ [v; w]) = Some v.
Proof.
  unfold index_value, position. change (0 <? -2) with false. cbv iota.
  rewrite zlen_app. change (zlen [v; w]) with 2. pose proof (zlen_nonneg stack).
  rewrite (proj2 (Z.ltb_ge _ _)) by lia. unfold zlen.
  rewrite lookup_app_r by lia. by replace (Z.to_nat _ - _)%nat with 0%nat by lia.
Qed.

(** A positive index does not move when values are pushed. *)
Lemma index_below i stack v rest :
  0 < i → index_value i stack = Some v → index_value i (stack ++ rest) = Some v.
Proof.
  intros Hi. unfold index_value, position. rewrite (proj2 (Z.ltb_lt 0 i)) by done.
  rewrite (proj2 (Z.ltb_ge (i - 1) 0)) by lia. intros H. by apply lookup_app_l_Some.
Qed.

Lemma pop_app stack rest h n :
  length rest = n → pop n (mkMachine (stack ++ rest) h) = Done () (mkMachine stack h).
Proof.
  intros <-. unfold pop. cbn [mc_stack mc_host]. rewrite length_app.
  rewrite (proj2 (Nat.ltb_ge _ _)) by lia.
  replace (length stack + length rest - length rest)%nat with (length stack) by lia.
  by rewrite take_app_length.
Qed.

(** One step of a traversal. *)
Lemma next_step index t stack key h :
  0 < index → index_value index stack = Some (VTable t) →
  lua_next sc index (mkMachine (stack ++ [key]) h) =
    match next_entry key (tb_entries (table_in sc h t)) with
    | None => Raised (lit "invalid key to 'next'") (mkMachine (stack ++ [key]) h)
    | Some None => Done false (mkMachine stack h)
    | Some (Some (k, v)) => Done true (mkMachine (stack ++ [k; v]) h)
    end.
Proof.
  intros Hi Ht. unfold lua_next, value_at, mbind, lua_bind. cbn [mc_stack].
  rewrite (index_below index stack (VTable t)) by done. rewrite index_top.
  unfold table_of. cbn [mc_host]. change (memory_of h) with (ho_memory h).
  destruct (next_entry key (tb_entries (table_in sc h t))) as [[[k v]|]|]; [| |done];
    rewrite pop_app by done; [|done].
  unfold push. cbn [mc_stack mc_host]. by rewrite <-(assoc_L (++)).
Qed.

Lemma entry_after_app pre k v entries :
  NoDup (pre ++ (k, v) :: entries).*1 →
  entry_after k (pre ++ (k, v) :: entries) = Some (head entries).
Proof.
  induction pre as [|[k' v'] pre IH]; cbn; intros Hd; [by rewrite bool_decide_true|].
  apply NoDup_cons in Hd as [Hn Hd]. rewrite bool_decide_false; [by apply IH|].
  intros ->. apply Hn. rewrite fmap_app, elem_of_app. right. by apply elem_of_cons; left.
Qed.

Lemma next_entry_app pre k v entries :
  keys_ok (pre ++ (k, v) :: entries) →
  next_entry k (pre ++ (k, v) :: entries) = Some (head entries).
Proof.
  intros [Hd Hn]. unfold next_entry. rewrite bool_decide_false; [by apply entry_after_app|].
  intros ->. apply Hn. rewrite fmap_app, elem_of_app. right. by apply elem_of_cons; left.
Qed.

(** The value on top of the stack. *)
Lemma convert_top fuel depth stack v h :
  depth ≤ 16 →
  json_from_lua sc (S fuel) (-1) depth (mkMachine (stack ++ [v]) h) =
    match scalar_json v with
    | Some r => Done r (mkMachine (stack ++ [v]) h)
    | None => Undefined
    end.
Proof.
  intros Hd. cbn [json_from_lua]. rewrite (proj2 (Z.ltb_ge _ _)) by lia.
  unfold value_at, mbind at 1, lua_bind at 1. cbn [mc_stack]. rewrite index_top.
  destruct v; try done; cbn [scalar_json].
  - by destruct (8 * 1024 <? zlen (c_string s)).
  - unfold push, mbind, lua_bind. cbn [mc_stack mc_host].
    unfold lua_next, value_at, mbind, lua_bind. cbn [mc_stack]. by rewrite index_top.
Qed.

(** The state in which a traversal has [rest] before it: the key of the entry it
    last visited (nil at first) is on the stack. *)
Definition at_entry (key : lval) (rest entries : list (lval * lval)) : Prop :=
  next_entry key entries = Some (head rest).

Lemma at_entry_start entries : at_entry VNil entries entries.
Proof. unfold at_entry, next_entry. by rewrite bool_decide_true. Qed.

Lemma at_entry_step pre k v rest entries :
  keys_ok entries → entries = pre ++ (k, v) :: rest → at_entry k rest entries.
Proof. intros Hk ->. by apply next_entry_app. Qed.

Lemma array_loop_S fuel index depth out :
  array_loop sc (S fuel) index depth out =
    (more ← lua_next sc index;
     if negb more then mret (Ok (JArray out))
     else
       item ← json_from_lua sc fuel (-1) (depth + 1);
       match item with
       | Err e => _ ← pop 2; mret (Err e)
       | Ok item => _ ← pop 1; array_loop sc fuel index depth (out ++ [item])
       end).
Proof. reflexivity. Qed.

Lemma object_loop_S fuel index depth out :
  object_loop sc (S fuel) index depth out =
    (more ← lua_next sc index;
     if negb more then mret (Ok out)
     else
       key ← lua_tostring (-2);
       match key with
       | None => _ ← pop 2; mret (Err (lit "table keys must be strings"))
       | Some key =>
           item ← json_from_lua sc fuel (-1) (depth + 1);
           match item with
           | Err e => _ ← pop 2; mret (Err e)
           | Ok item => _ ← pop 1; object_loop sc fuel index depth (jset key item out)
           end
       end).
Proof. reflexivity. Qed.

Lemma array_loop_spec fuel index depth t stack h pre rest key out :
  0 < index → index_value index stack = Some (VTable t) → depth < 16 →
  keys_ok (tb_entries (table_in sc h t)) → tb_entries (table_in sc h t) = pre ++ rest →
  at_entry key rest (tb_entries (table_in sc h t)) → (length rest < fuel)%nat →
  array_loop sc fuel index depth out (mkMachine (stack ++ [key]) h) =
    match items_of rest out with
    | Some r => Done r (mkMachine stack h)
    | None => Undefined
    end.
Proof.
  intros Hi Ht Hd Hk. revert fuel pre key out.
  induction rest as [|[k v] rest IH]; intros fuel pre key out Hp Hat Hf;
    (destruct fuel as [|fuel]; [cbn in Hf; lia|]);
    rewrite array_loop_S; unfold mbind at 1, lua_bind at 1; rewrite (next_step _ t) by done;
    rewrite Hat; cbn [head items_of negb]; [done|].
  destruct fuel as [|fuel]; [cbn in Hf; lia|].
  unfold mbind at 1, lua_bind at 1. change [k; v] with ([k] ++ [v]). rewrite (assoc_L (++)).
  rewrite convert_top by lia. destruct (scalar_json v) as [[item|e]|]; [| |done].
  - unfold mbind at 1, lua_bind at 1. rewrite pop_app by done.
    apply (IH (S fuel) (pre ++ [(k, v)])); [by rewrite <-(assoc_L (++))| |cbn in Hf; lia].
    by eapply at_entry_step.
  - unfold mbind at 1, lua_bind at 1. rewrite <-(assoc_L (++)). by rewrite pop_app.
Qed.

Lemma tostring_second stack key v h :
  lua_tostring (-2) (mkMachine (stack ++ [key; v]) h) =
    match key with
    | VString s => Done (Some (c_string s)) (mkMachine (stack ++ [key; v]) h)
    | VNumber d =>
        Done (Some (c_string (number_text d)))
          (mkMachine (stack ++ [VString (number_text d); v]) h)
    | _ => Done None (mkMachine (stack ++ [key; v]) h)
    end.
Proof.
  unfold lua_tostring, value_at, mbind, lua_bind. cbn [mc_stack]. rewrite index_second.
  destruct key; try done. unfold replace_at, position. cbn [mc_stack mc_host].
  change (0 <? -2) with false. cbv iota. rewrite zlen_app. change (zlen [VNumber d; v]) with 2.
  replace (Z.to_nat (zlen stack + 2 + -2)) with (length stack + 0)%nat by (unfold zlen; lia).
  by rewrite insert_app_r.
Qed.

Lemma object_loop_spec fuel index depth t stack h pre rest key out :
  0 < index → index_value index stack = Some (VTable t) → depth < 16 →
  keys_ok (tb_entries (table_in sc h t)) → tb_entries (table_in sc h t) = pre ++ rest →
  at_entry key rest (tb_entries (table_in sc h t)) → (length rest < fuel)%nat →
  Forall (λ kv, number_key kv = false) rest →
  object_loop sc fuel index depth out (mkMachine (stack ++ [key]) h) =
    match members_of rest out with
    | Some r => Done r (mkMachine stack h)
    | None => Undefined
    end.
Proof.
  intros Hi Ht Hd Hk. revert fuel pre key out.
  induction rest as [|[k v] rest IH]; intros fuel pre key out Hp Hat Hf Hn;
    (destruct fuel as [|fuel]; [cbn in Hf; lia|]);
    rewrite object_loop_S; unfold mbind at 1, lua_bind at 1; rewrite (next_step _ t) by done;
    rewrite Hat; cbn [head negb]; [done|].
  apply Forall_cons in Hn as [Hkn Hn]. destruct fuel as [|fuel]; [cbn in Hf; lia|].
  unfold mbind at 1, lua_bind at 1. rewrite tostring_second.
  destruct k; try done; cbn [members_of];
    try (unfold mbind, lua_bind; rewrite pop_app by done; reflexivity).
  unfold mbind at 1, lua_bind at 1. change [VString s; v] with ([VString s] ++ [v]).
  rewrite (assoc_L (++)). rewrite convert_top by lia.
  destruct (scalar_json v) as [[item|e]|]; [| |done].
  - unfold mbind at 1, lua_bind at 1. rewrite pop_app by done.
    apply (IH (S fuel) (pre ++ [(VString s, v)])); [by rewrite <-(assoc_L (++))| |cbn in Hf; lia|done].
    by eapply at_entry_step.
  - unfold mbind at 1, lua_bind at 1. rewrite <-(assoc_L (++)). by rewrite pop_app.
Qed.

(** How the conversion of a table begins. *)
Lemma json_from_lua_table fuel index depth t stack h :
  0 < index → index_value index stack = Some (VTable t) → depth ≤ 16 →
  json_from_lua sc (S fuel) index depth (mkMachine stack h) =
    match tb_entries (table_in sc h t) with
    | [] => Done (Ok (JObject [])) (mkMachine stack h)
    | kv :: _ =>
        if number_key kv then array_loop sc fuel index depth [] (mkMachine (stack ++ [VNil]) h)
        else object_loop sc fuel index depth (JObject []) (mkMachine (stack ++ [VNil]) h)
    end.
Proof.
  intros Hi Ht Hd. cbn [json_from_lua].
  rewrite (proj2 (Z.ltb_ge _ _)) by lia. unfold value_at, mbind at 1, lua_bind at 1.
  cbn [mc_stack]. rewrite Ht. unfold mbind at 1, lua_bind at 1, push. cbn [mc_stack mc_host].
  unfold mbind at 1, lua_bind at 1. rewrite (next_step _ t) by done.
  rewrite at_entry_start. destruct (tb_entries (table_in sc h t)) as [|[k v] entries];
    cbn [head negb]; [done|].
  unfold mbind at 1, lua_bind at 1, value_at. cbn [mc_stack]. rewrite index_second.
  unfold mbind at 1, lua_bind at 1. rewrite pop_app by done.
  unfold mbind at 1, lua_bind at 1, push. cbn [mc_stack mc_host]. unfold number_key. cbn [fst].
  by destruct (is_number_value (Some k)).
Qed.

(** A traversal never converts a key: the first key is a number (an array), or
    none is. *)
Definition keys_uniform (entries : list (lval * lval)) : Prop :=
  (∃ kv, head entries = Some kv ∧ number_key kv = true) ∨
  Forall (λ kv, number_key kv = false) entries.

(** C35: Conversion of a table addressed from the bottom of the stack terminates
    and equals the reference conversion, whatever the tables (cyclic structures
    included), when its keys are uniform: fuel for its entries and three more
    steps is enough, the stack is left as it was, and the only undefined case is
    a table among the values. *)
Theorem json_from_lua_total fuel index depth t stack h :
  0 < index → index_value index stack = Some (VTable t) → depth < 16 →
  keys_ok (tb_entries (table_in sc h t)) → keys_uniform (tb_entries (table_in sc h t)) →
  (length (tb_entries (table_in sc h t)) + 2 < fuel)%nat →
  json_from_lua sc fuel index depth (mkMachine stack h) =
    match table_json (tb_entries (table_in sc h t)) with
    | Some r => Done r (mkMachine stack h)
    | None => Undefined
    end.
Proof.
  intros Hi Ht Hd Hk Hu Hf. destruct fuel as [|fuel]; [lia|].
  rewrite (json_from_lua_table _ _ _ t) by (done || lia). unfold table_json.
  destruct (tb_entries (table_in sc h t)) as [|[k v] entries] eqn:He; [done|].
  destruct (number_key (k, v)) eqn:Hnum.
  - rewrite (array_loop_spec fuel index depth t stack h [] ((k, v) :: entries));
      rewrite ?He; try done; try apply at_entry_start; cbn in *; lia.
  - rewrite (object_loop_spec fuel index depth t stack h [] ((k, v) :: entries));
      rewrite ?He; try done; try apply at_entry_start; try (cbn in *; lia).
    destruct Hu as [(kv & [= <-] & Hkv)|]; [congruence|done].
Qed.
End conversion.

(** ** Concrete tables *)
Definition digits_of (d : double) : cstring :=
  match double_to_unsigned 64 d with Some z => to_string z | None => lit "nan" end.
Definition SampleLua : LuaLib := {| number_text := digits_of; text_number _ := None |}.

(** A table without a metatable. *)
Definition plain_table (entries : list (lval * lval)) : LuaTable :=
  mkTable entries (zlen (filter (λ kv, number_key kv = true) entries)) false.

(** A script without metamethods, whose memory never changes. *)
Definition plain_script (heap : Z → LuaTable) : Script Host :=
  mkScript (λ _, heap) (λ _ _ h, IndexValue VNil h).

Definition empty_host (s : option DriverHostState) : Host := mkHost s VNil VNil None [] 0.

Lemma json_from_lua_total_witness :
  let sc := plain_script (λ t, plain_table (if t =? 1 then [(VString "port", VNumber (dint 53));
                                                (VString "up", VBool true)] else [])) in
  json_from_lua (LL := SampleLua) sc 10 1 0 (mkMachine [VTable 1] (empty_host None)) =
  Done (Ok (JObject [(lit "port", JFloat (dint 53)); (lit "up", JBool true)]))
    (mkMachine [VTable 1] (empty_host None)).
Proof.
  intros sc. rewrite (json_from_lua_total (LL := SampleLua) sc 10 1 0 1).
  - reflexivity.
  - lia.
  - reflexivity.
  - lia.
  - split.
    + apply (bool_decide_unpack (NoDup [VString "port"; VString "up"])). vm_compute. exact I.
    + apply (bool_decide_unpack (VNil ∉ [VString "port"; VString "up"])). vm_compute. exact I.
  - right. repeat constructor.
  - vm_compute. lia.
Defined.

(** ** What the conversion cannot do *)
Section pitfalls.
Context {LL : LuaLib} {JL : JsonLib} (sc : Script Host).

Lemma object_loop_stuck fuel index depth t s d v w j stack h out :
  0 < index → index_value index stack = Some (VTable t) → depth < 16 →
  tb_entries (table_in sc h t) = [(VString s, v); (VNumber d, w)] → number_text d = s →
  scalar_json w = Some (Ok j) →
  object_loop sc fuel index depth out (mkMachine (stack ++ [VString s]) h) = OutOfFuel.
Proof.
  intros Hi Ht Hd He Hs Hw. revert out. induction fuel as [|fuel IH]; intros out; [done|].
  rewrite object_loop_S. unfold mbind at 1, lua_bind at 1. rewrite (next_step _ _ t) by done.
  rewrite He. unfold next_entry. rewrite bool_decide_false by done. cbn [entry_after].
  rewrite bool_decide_true by done. cbn [head negb].
  unfold mbind at 1, lua_bind at 1. rewrite tostring_second. rewrite Hs.
  unfold mbind at 1, lua_bind at 1. destruct fuel as [|fuel]; [done|].
  change [VString s; w] with ([VString s] ++ [w]). rewrite (assoc_L (++)).
  rewrite convert_top by lia. rewrite Hw. unfold mbind at 1, lua_bind at 1.
  rewrite pop_app by done. apply IH.
Qed.

(** The conversion never returns on a table that holds a string key followed
    by the number written like it: [lua_tostring] turns the number into the
    string in place, and the traversal resumes at the earlier entry, for ever,
    outside the reach of the instruction budget. *)
Theorem mixed_keys_never_return fuel index depth t s d v w i j stack h :
  0 < index → index_value index stack = Some (VTable t) → depth < 16 →
  tb_entries (table_in sc h t) = [(VString s, v); (VNumber d, w)] → number_text d = s →
  scalar_json v = Some (Ok i) → scalar_json w = Some (Ok j) →
  json_from_lua sc fuel index depth (mkMachine stack h) = OutOfFuel.
Proof.
  intros Hi Ht Hd He Hs Hv Hw. destruct fuel as [|fuel]; [done|].
  rewrite (json_from_lua_table _ _ _ _ t) by (done || lia). rewrite He at 1.
  change (number_key (VString s, v)) with false. cbv iota.
  destruct fuel as [|fuel]; [done|]. rewrite object_loop_S.
  unfold mbind at 1, lua_bind at 1. rewrite (next_step _ _ t) by done.
  rewrite He at 1. unfold next_entry. rewrite bool_decide_true by done. cbn [head negb].
  unfold mbind at 1, lua_bind at 1. rewrite tostring_second.
  unfold mbind at 1, lua_bind at 1. destruct fuel as [|fuel]; [done|].
  change [VString s; v] with ([VString s] ++ [v]). rewrite (assoc_L (++)).
  rewrite convert_top by lia. rewrite Hv. unfold mbind at 1, lua_bind at 1.
  rewrite pop_app by done. by eapply object_loop_stuck.
Qed.
End pitfalls.

Lemma mixed_keys_never_return_witness :
  let sc := plain_script (λ _ : Z,
    plain_table [(VString "1", VBool true); (VNumber (dint 1), VBool false)]) in
  json_from_lua (LL := SampleLua) sc 1000 1 0 (mkMachine [VTable 1] (empty_host None)) = OutOfFuel.
Proof.
  intros sc.
  apply (mixed_keys_never_return (LL := SampleLua) sc 1000 1 0 1 (lit "1") (dint 1)
    (VBool true) (VBool false) (JBool true) (JBool false)); try reflexivity; lia.
Defined.

(** ** Lemmas: the functions, by execution *)
(** Results of a call: what it returned with and the host afterwards. *)
Definition returned {A} (o : outcome (machine Host) A) : option (list lval * Host) :=
  match o with
  | Return n st =>
      Some (drop (length (mc_stack st) - Z.to_nat n) (mc_stack st), mc_host st)
  | _ => None
  end.

Section execution.
Context {LL : LuaLib} {JL : JsonLib} {JP : JsonPretty} (sc : Script Host).

(** An event table that is not refused by the rate limit. *)
Lemma event_emit_run fuel now t s h :
  ho_state h = Some s → over_limit (open_window now s) = false →
  keys_ok (tb_entries (table_in sc h t)) → keys_uniform (tb_entries (table_in sc h t)) →
  (length (tb_entries (table_in sc h t)) + 2 < fuel)%nat →
  let s' := count_emitted (open_window now s) in
  event_emit sc fuel now (mkMachine [VTable t] h) =
    match table_json (tb_entries (table_in sc h t)) with
    | None => Undefined
    | Some (Err e) =>
        lezcap_fail "argument.invalid" e (mkMachine [VTable t] (with_state_set s' h))
    | Some (Ok doc) =>
        match json_dump doc with
        | None => Thrown (mkMachine [VTable t] (with_state_set s' h))
        | Some text =>
            (if 32 * 1024 <? zlen text
             then _ ← put_state (count_dropped s');
                  lezcap_fail "limit.size" "event exceeds size cap"
             else _ ← call_sink text; push_ok) (mkMachine [VTable t] (with_state_set s' h))
        end
    end.
Proof.
  intros Hs Hl Hk Hu Hf s'. unfold event_emit, need_state, host_state, put_state.
  unfold mbind, lua_bind, get_host, mret, lua_ret, value_at. cbn [mc_host mc_stack].
  rewrite Hs. cbn [mc_host mc_stack].
  change (is_table (index_value 1 [VTable t])) with true. cbn [negb]. rewrite Hl.
  unfold set_host. cbn [mc_host mc_stack]. fold s'.
  rewrite (json_from_lua_total sc fuel 1 0 t) by (done || lia).
  change (ho_memory (with_state_set s' h)) with (ho_memory h).
  destruct (table_json (tb_entries (table_in sc h t))) as [[doc|e]|]; [| |done].
  - destruct (json_dump doc) as [text|]; [|done]. by destruct (32 * 1024 <? zlen text).
  - done.
Qed.

(** An event whose table is flat and within the limits is emitted: the call
    returns true, the sink receives one text, which parses back to the converted
    table, the emission is counted and nothing else of the host changes. *)
Theorem event_emit_delivers (HL : JsonLaws JL) fuel now t s h texts doc text :
  ho_state h = Some s → ho_sink h = Some texts → over_limit (open_window now s) = false →
  keys_ok (tb_entries (table_in sc h t)) → keys_uniform (tb_entries (table_in sc h t)) →
  (length (tb_entries (table_in sc h t)) + 2 < fuel)%nat →
  table_json (tb_entries (table_in sc h t)) = Some (Ok doc) → json_wf doc = true →
  json_dump doc = Some text → zlen text ≤ 32 * 1024 →
  returned (event_emit sc fuel now (mkMachine [VTable t] h)) =
    Some ([VBool true; VNil],
          mkHost (Some (count_emitted (open_window now s))) (ho_policy_snapshot h)
            (ho_status_snapshot h) (Some (texts ++ [text])) (ho_log h) (ho_memory h)) ∧
  json_parse text = Some (json_canon doc).
Proof.
  intros Hs Ht Hl Hk Hu Hf Hd Hw Hj Hz. split; [|by eapply parse_dump].
  rewrite (event_emit_run _ _ t s) by done. rewrite Hd, Hj.
  rewrite (proj2 (Z.ltb_ge _ _)) by done.
  unfold call_sink, push_ok, mbind, lua_bind, get_host, set_host, pop, push, return_.
  cbn [mc_host mc_stack with_state_set ho_sink ho_state ho_policy_snapshot ho_status_snapshot ho_log].
  by rewrite Ht.
Qed.

(** An event table with a table among its values (and only scalars before it)
    is undefined behaviour: the conversion of the inner table addresses it
    relative to the top of the stack, where [lua_next] finds the nil pushed
    before. *)
Theorem nested_event_undefined fuel now t s h pre k inner post :
  ho_state h = Some s → over_limit (open_window now s) = false →
  keys_ok (tb_entries (table_in sc h t)) →
  tb_entries (table_in sc h t) = pre ++ (VString k, VTable inner) :: post →
  Forall (λ kv, number_key kv = false) (tb_entries (table_in sc h t)) →
  Forall (λ kv, ∃ key j, kv.1 = VString key ∧ scalar_json kv.2 = Some (Ok j)) pre →
  (length (tb_entries (table_in sc h t)) + 2 < fuel)%nat →
  event_emit sc fuel now (mkMachine [VTable t] h) = Undefined.
Proof.
  intros Hs Hl Hk He Hn Hpre Hf. rewrite (event_emit_run _ _ t s); try done; [|by right].
  assert (Hm : ∀ out, members_of (pre ++ (VString k, VTable inner) :: post) out = None).
  { clear -Hpre. induction Hpre as [|[k' v'] pre (key & j & Hkey & Hj) _ IH]; intros out; [done|].
    cbn in Hkey, Hj. subst k'. cbn [app members_of]. by rewrite Hj, IH. }
  rewrite He in Hn |- *. unfold table_json.
  destruct pre as [|kv pre]; cbn [app] in *; apply Forall_cons in Hn as [Hh _]; rewrite Hh.
  - by rewrite Hm.
  - by rewrite Hm.
Qed.
End execution.

Definition sample_limits : DriverResourceLimits := mkResourceLimits 2 2 3 8192.
Definition sample_state : DriverHostState :=
  mkHostState default_Manifest sample_limits [] [] 0 0 0 0.
Definition sample_host : Host := mkHost (Some sample_state) VNil VNil (Some []) [] 0.
Definition flat_heap (_ : Z) : LuaTable := plain_table [(VString "up", VBool true)].
Definition flat_script : Script Host := plain_script flat_heap.
Definition flat_doc : json := JObject [(lit "up", JBool true)].

Lemma flat_keys : keys_ok (tb_entries (flat_heap 1)).
Proof.
  split.
  - apply (bool_decide_unpack (NoDup [VString "up"])). vm_compute. exact I.
  - apply (bool_decide_unpack (VNil ∉ [VString "up"])). vm_compute. exact I.
Qed.

Lemma event_emit_delivers_witness :
  ∃ text, returned (event_emit (LL := SampleLua) (JL := TreeJson.lib) flat_script 9 5000
                      (mkMachine [VTable 1] sample_host)) =
    Some ([VBool true; VNil],
          mkHost (Some (count_emitted (set_window 5000 0 sample_state))) VNil VNil
            (Some [text]) [] 0) ∧
    json_parse (JsonLib := TreeJson.lib) text = Some flat_doc.
Proof.
  destruct (json_dump (JsonLib := TreeJson.lib) flat_doc) as [text|] eqn:Hd;
    [|vm_compute in Hd; discriminate Hd].
  exists text. apply (event_emit_delivers (LL := SampleLua) (JL := TreeJson.lib) flat_script
    TreeJson.laws 9 5000 1 sample_state sample_host [] flat_doc text); try reflexivity.
  - exact flat_keys.
  - right. repeat constructor.
  - vm_compute. lia.
  - exact Hd.
  - vm_compute in Hd. injection Hd as <-. vm_compute. discriminate.
Defined.

Definition nested_heap (t : Z) : LuaTable :=
  if t =? 1 then plain_table [(VString "process", VTable 2)] else flat_heap t.
Definition nested_script : Script Host := plain_script nested_heap.

Lemma nested_event_undefined_witness :
  event_emit (LL := SampleLua) (JL := TreeJson.lib) nested_script 9 5000
    (mkMachine [VTable 1] sample_host) = Undefined.
Proof.
  apply (nested_event_undefined (LL := SampleLua) (JL := TreeJson.lib) nested_script 9 5000 1
    sample_state sample_host [] (lit "process") 2 []); try reflexivity.
  - split.
    + apply (bool_decide_unpack (NoDup [VString "process"])). vm_compute. exact I.
    + apply (bool_decide_unpack (VNil ∉ [VString "process"])). vm_compute. exact I.
  - repeat constructor.
  - constructor.
  - vm_compute. lia.
Defined.

(** ** Endpoint declaration *)
Section declare.
Context {LL : LuaLib} (sc : Script Host) (t : Z).

(** The string fields of the table: absent, or short strings without NUL. *)
Definition has_string (h : Host) (key s : cstring) : Prop :=
  tb_get (table_in sc h t) key = Some (VString s) ∧ c_string s = s.
Definition has_nil (h : Host) (key : cstring) : Prop := tb_get (table_in sc h t) key = Some VNil.

Lemma index_first (rest : list lval) : index_value 1 (VTable t :: rest) = Some (VTable t).
Proof. done. Qed.

Lemma need_state_done stack s (h : Host) :
  ho_state h = Some s → need_state (mkMachine stack h) = Done s (mkMachine stack h).
Proof. intros Hs. unfold need_state, host_state, mbind, lua_bind. cbn. by rewrite Hs. Qed.

Lemma index_pair (v w : lval) : index_value (-1) [v; w] = Some w.
Proof. done. Qed.

Lemma pop_pair (v w : lval) (h : Host) : pop 1 (mkMachine [v; w] h) = Done () (mkMachine [v] h).
Proof. done. Qed.

Lemma getfield_first (h : Host) key v :
  tb_get (table_in sc h t) key = Some v →
  lua_getfield sc 1 key (mkMachine [VTable t] h) = Done () (mkMachine [VTable t; v] h).
Proof.
  intros Hv. unfold lua_getfield, value_at, mbind, lua_bind. cbn [mc_stack].
  rewrite index_first. unfold table_of. cbn [mc_host].
  change (memory_of h) with (ho_memory h). by rewrite Hv.
Qed.

Lemma opt_string_present key s max out (h : Host) :
  has_string h key s → zlen s ≤ max →
  opt_table_string sc 1 key max out (mkMachine [VTable t] h) =
  Done (true, s) (mkMachine [VTable t] h).
Proof.
  intros [Hs Hc] Hz. unfold opt_table_string, mbind at 1, lua_bind at 1.
  rewrite (getfield_first _ _ (VString s)) by done. unfold value_at, mbind, lua_bind.
  cbn [mc_stack]. rewrite index_pair. cbn [is_nil].
  unfold lua_tostring, value_at, mbind, lua_bind. cbn [mc_stack].
  rewrite index_pair. cbn [mret lua_ret]. rewrite Hc.
  rewrite (proj2 (Z.ltb_ge _ _)) by done. by rewrite pop_pair.
Qed.

Lemma opt_string_absent key max out (h : Host) :
  has_nil h key →
  opt_table_string sc 1 key max out (mkMachine [VTable t] h) =
  Done (false, out) (mkMachine [VTable t] h).
Proof.
  intros Hn. unfold opt_table_string, mbind at 1, lua_bind at 1.
  rewrite (getfield_first _ _ VNil) by done. unfold value_at, mbind, lua_bind.
  cbn [mc_stack]. rewrite index_pair. cbn [is_nil].
  by rewrite pop_pair.
Qed.

(** The document built from a table that has the required fields only. *)
Definition minimal_doc (name ns version kind summary : cstring) : json :=
  jset "metadata_only" (JBool true)
    (jobject [(lit "name", JString name); (lit "namespace", JString ns);
              (lit "version", JString version); (lit "kind", JString kind);
              (lit "summary", JString summary); (lit "description", JString summary)]).

Lemma schema_field_absent fuel key doc (h : Host) :
  has_nil h key →
  schema_field sc fuel key doc (mkMachine [VTable t] h) = Done doc (mkMachine [VTable t] h).
Proof.
  intros Hn. unfold schema_field, mbind at 1, lua_bind at 1.
  rewrite (getfield_first _ _ VNil) by done. unfold value_at, mbind, lua_bind.
  cbn [mc_stack]. rewrite index_pair. cbn [is_nil].
  by rewrite pop_pair.
Qed.

Lemma list_field_absent fuel key doc (h : Host) :
  has_nil h key →
  list_field sc fuel key doc (mkMachine [VTable t] h) = Done doc (mkMachine [VTable t] h).
Proof.
  intros Hn. unfold list_field, mbind at 1, lua_bind at 1.
  rewrite (getfield_first _ _ VNil) by done. unfold value_at, mbind at 1, lua_bind at 1.
  cbn [mc_stack]. rewrite index_pair. cbn [is_nil]. unfold mbind, lua_bind.
  by rewrite pop_pair.
Qed.

Lemma required_step key s keys doc value (h : Host) :
  has_string h key s → zlen s ≤ 256 →
  required_fields sc (key :: keys) doc value (mkMachine [VTable t] h) =
  required_fields sc keys (jset key (JString s) doc) s (mkMachine [VTable t] h).
Proof.
  intros Hs Hz. cbn [required_fields]. unfold mbind, lua_bind.
  by rewrite (opt_string_present key s) by done.
Qed.

Lemma optional_absent key max doc (h : Host) :
  has_nil h key →
  optional_field sc key max doc [] (mkMachine [VTable t] h) = Done (doc, []) (mkMachine [VTable t] h).
Proof.
  intros Hn. unfold optional_field. erewrite bind_done by (by apply opt_string_absent). done.
Qed.

(** What the local string still holds is taken for the absent field. *)
Lemma optional_leftover key max doc value (h : Host) :
  has_nil h key → value ≠ [] →
  optional_field sc key max doc value (mkMachine [VTable t] h) =
  Done (jset key (JString value) doc, []) (mkMachine [VTable t] h).
Proof.
  intros Hn Hv. unfold optional_field. erewrite bind_done by (by apply opt_string_absent).
  cbn [snd]. by rewrite (proj2 (is_empty_false value)).
Qed.

(** Declaring an endpoint with the required fields only: the descriptor that
    validation accepts is appended to the declared endpoints and the call
    returns true, errors are reported; its description is its summary, since
    the local string that reads the optional fields still holds it. *)
Theorem endpoint_declare_minimal fuel s h name ns version kind summary :
  ho_state h = Some s → zlen (hs_endpoints s) < rl_max_endpoints (hs_limits s) →
  has_string h "name" name → has_string h "namespace" ns → has_string h "version" version →
  has_string h "kind" kind → has_string h "summary" summary → summary ≠ [] →
  Forall (λ f, zlen f ≤ 256) [name; ns; version; kind; summary] →
  Forall (has_nil h) (lit <$> ["description"; "confidence"; "metadata_only"; "request"; "response";
                           "attribution"; "privacy"]%string) →
  endpoint_declare sc fuel (mkMachine [VTable t] h) =
    match parse_endpoint_descriptor (minimal_doc name ns version kind summary) with
    | Err e => lezcap_fail "argument.invalid" e (mkMachine [VTable t] h)
    | Ok d => Return 2 (mkMachine [VTable t; VBool true; VNil]
                          (with_state_set (add_endpoint d s) h))
    end ∧
  (∀ d, parse_endpoint_descriptor (minimal_doc name ns version kind summary) = Ok d →
    ep_description d = summary).
Proof.
  intros Hs Hm Hn1 Hn2 Hn3 Hn4 Hn5 Hne Hz Ha. split.
  2: { intros d Hd. unfold parse_endpoint_descriptor in Hd. apply bind_Ok in Hd as ([] & _ & Hd).
       by injection Hd as <-. }
  rewrite !Forall_cons in Hz. destruct Hz as (Hz1 & Hz2 & Hz3 & Hz4 & Hz5 & _).
  cbn [fmap list_fmap] in Ha. rewrite !Forall_cons in Ha.
  destruct Ha as (Ha1 & Ha2 & Ha3 & Ha4 & Ha5 & Ha6 & Ha7 & _).
  unfold endpoint_declare.
  erewrite bind_done by (by apply need_state_done).
  erewrite bind_done by done. cbn [mc_stack]. rewrite index_first. cbn [is_table negb].
  rewrite (proj2 (Z.leb_gt _ _)) by done.
  erewrite bind_done; [|unfold kRequired; cbn [fmap list_fmap];
    erewrite !required_step by eassumption; reflexivity].
  cbn [fst snd]. erewrite bind_done by (by apply optional_leftover). cbn [fst snd].
  erewrite bind_done by (by apply optional_absent). cbn [fst snd].
  erewrite bind_done by (by apply getfield_first). erewrite bind_done by done. cbn [mc_stack].
  rewrite index_pair. cbn [is_nil negb andb]. erewrite bind_done by apply pop_pair.
  do 2 (erewrite bind_done by (by apply schema_field_absent)).
  do 2 (erewrite bind_done by (by apply list_field_absent)).
  change (jset "metadata_only" (JBool true) _) with (minimal_doc name ns version kind summary).
  destruct (parse_endpoint_descriptor _) as [d|e]; [|done].
  unfold update_state, get_host, mbind, lua_bind. cbn [mc_host]. by rewrite Hs.
Qed.
End declare.

(** A field that should hold a schema or a list is converted where it lies, on
    top of the stack: any table there is undefined behaviour. *)
Lemma schema_field_table {LL : LuaLib} sc t u fuel key doc (h : Host) :
  tb_get (table_in sc h t) key = Some (VTable u) →
  schema_field sc (S fuel) key doc (mkMachine [VTable t] h) = Undefined.
Proof.
  intros Hu. unfold schema_field. erewrite bind_done by (by apply getfield_first).
  erewrite bind_done by done. cbn [mc_stack]. rewrite index_pair. cbn [is_nil].
  unfold schema_subset_from_lua, mbind at 1, lua_bind at 1. erewrite bind_done by done.
  cbn [mc_stack]. rewrite index_pair. cbn [is_table negb]. unfold mbind, lua_bind.
  change [VTable t; VTable u] with ([VTable t] ++ [VTable u]).
  by rewrite (convert_top sc fuel 0 [VTable t] (VTable u)) by lia.
Qed.

Lemma list_field_table {LL : LuaLib} sc t u fuel key doc (h : Host) :
  tb_get (table_in sc h t) key = Some (VTable u) →
  list_field sc (S fuel) key doc (mkMachine [VTable t] h) = Undefined.
Proof.
  intros Hu. unfold list_field. erewrite bind_done by (by apply getfield_first).
  erewrite bind_done by done. cbn [mc_stack]. rewrite index_pair. cbn [is_nil is_table].
  unfold mbind, lua_bind. change [VTable t; VTable u] with ([VTable t] ++ [VTable u]).
  by rewrite (convert_top sc fuel 1 [VTable t] (VTable u)) by lia.
Qed.

Definition endpoint_heap (_ : Z) : LuaTable :=
  plain_table [(VString "name", VString "lookup"); (VString "namespace", VString "dns");
               (VString "version", VString "1.0"); (VString "kind", VString "event");
               (VString "summary", VString "DNS lookups")].
Definition endpoint_script : Script Host := plain_script endpoint_heap.

Lemma endpoint_declare_minimal_witness :
  ∃ d, endpoint_declare (LL := SampleLua) endpoint_script 9 (mkMachine [VTable 1] sample_host) =
         Return 2 (mkMachine [VTable 1; VBool true; VNil]
                     (with_state_set (add_endpoint d sample_state) sample_host)) ∧
       ep_description d = lit "DNS lookups".
Proof.
  destruct (endpoint_declare_minimal (LL := SampleLua) endpoint_script 1 9 sample_state sample_host
    "lookup" "dns" "1.0" "event" "DNS lookups") as [Hr Hd]; try (split; reflexivity).
  - discriminate.
  - repeat constructor; vm_compute; discriminate.
  - repeat constructor.
  - destruct (parse_endpoint_descriptor
      (minimal_doc "lookup" "dns" "1.0" "event" "DNS lookups")) as [d|e] eqn:Hp.
    + exists d. split; [exact Hr|]. apply Hd. reflexivity.
    + exfalso. vm_compute in Hp. discriminate Hp.
Defined.

(** ** Base64, against a decoder (RFC 4648) *)
Definition sextet_value (c : ascii) : option Z :=
  Z.of_nat <$> (list_find (λ d, d = c) kAlphabet ≫= λ p, Some p.1).

Fixpoint base64_decode (text : cstring) : option cstring :=
  match text with
  | [] => Some []
  | a :: b :: c :: d :: text =>
      x ← sextet_value a; y ← sextet_value b;
      if is_char "=" d && is_empty text then
        if is_char "=" c then Some [chr (x * 4 + y / 16)]
        else z ← sextet_value c; Some [chr (x * 4 + y / 16); chr (y * 16 + z / 4)]
      else
        z ← sextet_value c; w ← sextet_value d; rest ← base64_decode text;
        Some (chr (x * 4 + y / 16) :: chr (y * 16 + z / 4) :: chr (z * 64 + w) :: rest)
  | _ => None
  end.

Definition alphabet_ok (n : Z) : bool :=
  let c := nth (Z.to_nat n) kAlphabet "000"%char in
  bool_decide (sextet_value c = Some n) && negb (is_char "=" c).

Lemma sextet_value_nth n :
  0 ≤ n < 64 → let c := nth (Z.to_nat n) kAlphabet "000"%char in
  sextet_value c = Some n ∧ c ≠ "="%char.
Proof.
  intros Hn. assert (Hall : forallb alphabet_ok (seqZ 0 64) = true) by (vm_compute; reflexivity).
  pose proof (seqZ_check _ 64 n Hn Hall) as H. unfold alphabet_ok in H.
  apply andb_prop in H as [H1%bool_decide_eq_true H2%negb_true_iff%is_char_false]. done.
Qed.

Lemma sextet_spec triple shift :
  0 ≤ triple → 0 ≤ shift →
  let c := sextet triple shift in
  sextet_value c = Some (triple / 2 ^ shift mod 64) ∧ c ≠ "="%char.
Proof.
  intros Ht Hs. unfold sextet. change 0x3f with (Z.ones 6). rewrite Z.land_ones by lia.
  rewrite Z.shiftr_div_pow2 by done. change (2 ^ 6) with 64. apply sextet_value_nth.
  apply Z.mod_pos_bound. lia.
Qed.

(** The value of three bytes and its four sextets. *)
Lemma lor_bytes a b c :
  0 ≤ b < 256 → 0 ≤ c < 256 →
  Z.lor (Z.lor (Z.shiftl a 16) (Z.shiftl b 8)) c = a * 65536 + b * 256 + c.
Proof.
  intros Hb Hc. rewrite (Z.shiftl_mul_pow2 b) by lia.
  rewrite (Z.lor_comm (Z.shiftl a 16)), lor_shiftl_add by lia.
  replace (b * 2 ^ 8 + a * 2 ^ 16) with (Z.shiftl (a * 256 + b) 8)
    by (rewrite Z.shiftl_mul_pow2; lia).
  rewrite Z.lor_comm, lor_shiftl_add by lia. lia.
Qed.

Lemma triple_sextets a b c :
  0 ≤ a < 256 → 0 ≤ b < 256 → 0 ≤ c < 256 →
  let t := a * 65536 + b * 256 + c in
  let x := t / 2 ^ 18 mod 64 in let y := t / 2 ^ 12 mod 64 in
  let z := t / 2 ^ 6 mod 64 in let w := t / 2 ^ 0 mod 64 in
  x * 4 + y / 16 = a ∧ u8 (y * 16 + z / 4) = b ∧ u8 (z * 64 + w) = c ∧ y mod 16 * 16 + z / 4 = b.
Proof.
  intros Ha Hb Hc t x y z w. unfold u8, x, y, z, w, t. change (2 ^ 8) with 256.
  change (2 ^ 18) with 262144. change (2 ^ 12) with 4096. change (2 ^ 6) with 64.
  change (2 ^ 0) with 1. split_and!; Z.to_euclidean_division_equations; lia.
Qed.

Lemma chr_u8 z : chr (u8 z) = chr z.
Proof. unfold chr, u8. change (2 ^ 8) with 256. by rewrite Z.mod_mod. Qed.

(** The three bytes from their sextets. *)
Lemma decode_triple (a b c : ascii) :
  let t := ord a * 65536 + ord b * 256 + ord c in
  let x := t / 2 ^ 18 mod 64 in let y := t / 2 ^ 12 mod 64 in
  let z := t / 2 ^ 6 mod 64 in let w := t / 2 ^ 0 mod 64 in
  chr (x * 4 + y / 16) = a ∧ chr (y * 16 + z / 4) = b ∧ chr (z * 64 + w) = c.
Proof.
  intros t x y z w. destruct (triple_sextets (ord a) (ord b) (ord c)) as (H1 & H2 & H3 & _);
    [apply ord_range..|]. fold t x y z w in H1, H2, H3.
  split_and!; [by rewrite H1, chr_ord|by rewrite <-chr_u8, H2, chr_ord|].
  by rewrite <-chr_u8, H3, chr_ord.
Qed.

Lemma encode_triple (a b c : ascii) (shift : Z) :
  0 ≤ shift →
  let t := ord a * 65536 + ord b * 256 + ord c in
  let d := sextet (Z.lor (Z.lor (Z.shiftl (ord a) 16) (Z.shiftl (ord b) 8)) (ord c)) shift in
  sextet_value d = Some (t / 2 ^ shift mod 64) ∧ is_char "=" d = false.
Proof.
  intros Hs t d. unfold d. pose proof (ord_range a) as Ha. pose proof (ord_range b) as Hb.
  pose proof (ord_range c) as Hc. rewrite lor_bytes by lia.
  destruct (sextet_spec t shift) as [H1 H2]; [unfold t; lia|done|].
  split; [done|by apply is_char_false].
Qed.

(** Base64 encoding is decoded back to the input, and its length is four
    characters for every started group of three bytes. *)
Theorem base64_roundtrip input :
  base64_decode (base64_encode input) = Some input ∧
  zlen (base64_encode input) = (zlen input + 2) / 3 * 4.
Proof.
  induction input as [input IH] using (well_founded_induction (Wf_nat.well_founded_ltof _ length)).
  destruct input as [|a [|b [|c input]]].
  - done.
  - destruct (encode_triple a "000" "000" 18) as [H1 _]; [lia|].
    destruct (encode_triple a "000" "000" 12) as [H2 _]; [lia|].
    change (ord "000") with 0 in H1, H2. rewrite Z.shiftl_0_l, !Z.lor_0_r in H1, H2.
    cbn [base64_encode app base64_decode]. rewrite H1, H2. cbn [mbind option_bind].
    destruct (decode_triple a "000" "000") as (H3 & _). change (ord "000") with 0 in H3.
    cbn. split; [by rewrite H3|done].
  - destruct (encode_triple a b "000" 18) as [H1 _]; [lia|].
    destruct (encode_triple a b "000" 12) as [H2 _]; [lia|].
    destruct (encode_triple a b "000" 6) as [H3 H4]; [lia|].
    change (ord "000") with 0 in H1, H2, H3, H4. rewrite !Z.lor_0_r in H1, H2, H3, H4.
    cbn [base64_encode app base64_decode]. rewrite H1, H2. cbn [mbind option_bind].
    change (is_char "=" "="%char && is_empty []) with true. cbv iota. rewrite H4, H3.
    cbn [mbind option_bind].
    destruct (decode_triple a b "000") as (H5 & H6 & _). change (ord "000") with 0 in H5, H6.
    split; [by rewrite H5, H6|done].
  - destruct (encode_triple a b c 18) as [H1 _]; [lia|].
    destruct (encode_triple a b c 12) as [H2 _]; [lia|].
    destruct (encode_triple a b c 6) as [H3 _]; [lia|].
    destruct (encode_triple a b c 0) as [H4 H5]; [lia|].
    destruct (decode_triple a b c) as (G1 & G2 & G3).
    destruct (IH input) as [IH1 IH2]; [unfold Wf_nat.ltof; cbn; lia|].
    cbn [base64_encode app base64_decode]. rewrite H1, H2. cbn [mbind option_bind].
    rewrite H5. cbn [andb]. rewrite H3, H4. cbn [mbind option_bind]. rewrite IH1.
    cbn [mbind option_bind]. rewrite G1, G2, G3. split; [done|].
    unfold zlen in *. cbn [length]. rewrite !Nat2Z.inj_succ, IH2.
    Z.to_euclidean_division_equations; lia.
Qed.
