(* ===== verification/LezcapState.v ===== *)
(** * The host state behind the bindings

    What a driver script can do to its host state by calling the [lezcap]
    functions in any order with any arguments: the limits that hold, the
    functions its capabilities give it, and the emission rate. *)
From S2P Require Import Prelude Double Json Types Time PolicyEngine Sha256 Manifest.
From S2P Require Import LuaSandbox DriverEngine Descriptor Specgen LuaApi Lezcap.
From stdpp Require Import sorting.
Open Scope Z_scope.

(** ** Functions that leave the host alone *)
Section inert_bindings.
Context {LL : LuaLib} {JL : JsonLib} {JP : JsonPretty} (sc : Script Host).

Lemma inert_fail {A} code message : inert (lezcap_fail (A := A) code message).
Proof. unfold lezcap_fail. solve_inert. Qed.
Lemma inert_push_ok {A} : inert (push_ok (A := A)).
Proof. unfold push_ok. solve_inert. Qed.
#[local] Hint Resolve inert_fail inert_push_ok : lua_inert.

Lemma inert_host_state : inert host_state.
Proof. unfold host_state. solve_inert. Qed.
#[local] Hint Resolve inert_host_state : lua_inert.

Lemma inert_check_string index max : inert (check_string index max).
Proof. unfold check_string. solve_inert. Qed.
#[local] Hint Resolve inert_check_string : lua_inert.

Lemma json_from_lua_S fuel index depth :
  json_from_lua sc (S fuel) index depth =
    (if 16 <? depth then mret (Err (lit "value nesting exceeds the descriptor limit"))
     else
       v ← value_at index;
       match v with
       | Some VNil => mret (Ok JNull)
       | Some (VBool b) => mret (Ok (JBool b))
       | Some (VNumber d) => mret (Ok (JFloat d))
       | Some (VString s) =>
           if 8 * 1024 <? zlen (c_string s)
           then mret (Err (lit "string exceeds the sandbox limit"))
           else mret (Ok (JString (c_string s)))
       | Some (VTable _) =>
           _ ← push VNil; more ← lua_next sc index;
           if negb more then mret (Ok (JObject []))
           else
             first ← value_at (-2); _ ← pop 2; _ ← push VNil;
             if is_number_value first then array_loop sc fuel index depth []
             else object_loop sc fuel index depth (JObject [])
       | _ => mret (Err (lit "unsupported value type in descriptor"))
       end).
Proof. reflexivity. Qed.

Lemma inert_conversion fuel :
  (∀ index depth, inert (json_from_lua sc fuel index depth)) ∧
  (∀ index depth out, inert (array_loop sc fuel index depth out)) ∧
  (∀ index depth out, inert (object_loop sc fuel index depth out)).
Proof.
  induction fuel as [|fuel (IH1 & IH2 & IH3)]; [split_and!; intros; apply inert_fuel|].
  split_and!; intros.
  - rewrite json_from_lua_S. solve_inert; auto.
  - rewrite array_loop_S. solve_inert; auto.
  - rewrite object_loop_S. solve_inert; auto.
Qed.

Lemma inert_json_from_lua fuel index depth : inert (json_from_lua sc fuel index depth).
Proof. apply inert_conversion. Qed.
#[local] Hint Resolve inert_json_from_lua : lua_inert.

Lemma inert_schema_subset fuel index depth :
  inert (schema_subset_from_lua sc fuel index depth).
Proof. unfold schema_subset_from_lua. solve_inert. Qed.
Lemma inert_spec_endpoints fuel i count out : inert (spec_endpoints sc fuel i count out).
Proof. revert i out. induction count; intros; cbn [spec_endpoints]; solve_inert; auto. Qed.
#[local] Hint Resolve inert_schema_subset inert_spec_endpoints : lua_inert.

(** The readers of fields run metamethods. *)
Lemma indexing_opt_string index key max out :
  indexing sc (opt_table_string sc index key max out).
Proof. unfold opt_table_string. solve_indexing. Qed.
#[local] Hint Resolve indexing_opt_string : lua_index.
Lemma indexing_schema_field fuel key doc : indexing sc (schema_field sc fuel key doc).
Proof. unfold schema_field. solve_indexing. Qed.
Lemma indexing_list_field fuel key doc : indexing sc (list_field sc fuel key doc).
Proof. unfold list_field. solve_indexing. Qed.
Lemma indexing_required keys doc value : indexing sc (required_fields sc keys doc value).
Proof.
  revert doc value. induction keys; intros; cbn [required_fields]; solve_indexing; auto.
Qed.
Lemma indexing_optional key max doc value : indexing sc (optional_field sc key max doc value).
Proof. unfold optional_field. solve_indexing. Qed.
Lemma indexing_filter_field key max known error value :
  indexing sc (filter_field sc key max known error value).
Proof. unfold filter_field. solve_indexing. Qed.
Lemma indexing_confidence : indexing sc (confidence_field sc).
Proof. unfold confidence_field. solve_indexing. Qed.

Lemma inert_need_state : inert need_state.
Proof. unfold need_state. solve_inert. Qed.
#[local] Hint Resolve inert_need_state : lua_inert.

(** The bindings that only compute. *)
Definition reads_only (b : binding) : bool :=
  match b with
  | LogInfo | LogWarn | LogError | LogDebug | EndpointDeclare | CaptureRegisterFilter
  | EventEmit => false
  | _ => true
  end.

Lemma inert_reads_only env b : reads_only b = true → inert (run_binding sc env b).
Proof.
  intros Hb. destruct b; try done; cbn [run_binding];
    unfold util_now_ms, util_now_rfc3339, util_sha256_hex, util_base64_encode, util_truncate,
      spec_list_formats, spec_generate, policy_query, status_backends; solve_inert.
Qed.
End inert_bindings.

#[export] Hint Resolve inert_fail inert_push_ok inert_host_state inert_check_string
  inert_json_from_lua inert_schema_subset inert_spec_endpoints inert_need_state : lua_inert.
#[export] Hint Resolve indexing_opt_string indexing_schema_field indexing_list_field
  indexing_required indexing_optional indexing_filter_field indexing_confidence : lua_index.

(** ** The limits *)
Definition filter_ok (f : CaptureFilter) : Prop :=
  (fl_event_type f = [] ∨ is_Some (event_type_from_name (fl_event_type f))) ∧
  (fl_transport f = [] ∨ is_Some (transport_from_name (fl_transport f))) ∧
  0 ≤ fl_min_confidence_permille f < 2 ^ 32.

(** A host state with at most [be] endpoints and [bf] filters, all of them valid,
    and an emission window within the rate; the limits are those of unsigned
    numbers. *)
Record host_within (be bf : Z) (s : DriverHostState) : Prop := mkHostWithin {
  ho_endpoints : zlen (hs_endpoints s) ≤ be;
  ho_descriptors : Forall descriptor_ok (hs_endpoints s);
  ho_filters : zlen (hs_capture_filters s) ≤ bf;
  ho_filters_ok : Forall filter_ok (hs_capture_filters s);
  ho_rate : 0 ≤ rl_max_events_per_second (hs_limits s) < 2 ^ 32;
  ho_window : rl_max_events_per_second (hs_limits s) ≠ 0 →
              0 ≤ hs_events_in_window s ≤ rl_max_events_per_second (hs_limits s);
}.

(** A host state within the limits of its driver. *)
Definition host_ok (s : DriverHostState) : Prop :=
  host_within (rl_max_endpoints (hs_limits s)) (rl_max_subscriptions (hs_limits s)) s.

(** What the script of a driver with the capabilities of [s0] may have made of
    the host state [s0]. *)
Record confined (be bf : Z) (s0 s : DriverHostState) : Prop := mkConfined {
  cf_ok : host_within be bf s;
  cf_manifest : hs_manifest s = hs_manifest s0;
  cf_limits : hs_limits s = hs_limits s0;
  cf_endpoints : CapEndpoint ∉ dm_capabilities (hs_manifest s0) →
                 hs_endpoints s = hs_endpoints s0;
  cf_filters : CapCapture ∉ dm_capabilities (hs_manifest s0) →
               hs_capture_filters s = hs_capture_filters s0;
  cf_events : CapEvents ∉ dm_capabilities (hs_manifest s0) →
              hs_events_emitted s = hs_events_emitted s0 ∧
              hs_events_dropped s = hs_events_dropped s0;
}.

Definition inv (be bf : Z) (s0 : DriverHostState) (h : Host) : Prop :=
  ∃ s, ho_state h = Some s ∧ confined be bf s0 s.

Lemma confined_mono be bf be' bf' s0 s :
  be ≤ be' → bf ≤ bf' → confined be bf s0 s → confined be' bf' s0 s.
Proof. intros ? ? [[] ? ? ? ? ?]. split; try done. split; try done; lia. Qed.

Lemma inv_mono be bf be' bf' s0 h :
  be ≤ be' → bf ≤ bf' → inv be bf s0 h → inv be' bf' s0 h.
Proof. intros ? ? (s & Hs & Hc). exists s. split; [done|by eapply confined_mono]. Qed.

(** *** Registered functions *)
Definition capability_of (b : binding) : Capability :=
  match b with
  | UtilNowMs | UtilNowRfc3339 | UtilSha256Hex | UtilBase64Encode | UtilTruncate => CapUtil
  | LogInfo | LogWarn | LogError | LogDebug => CapLog
  | EndpointDeclare => CapEndpoint
  | SpecListFormats | SpecGenerate => CapSpec
  | CaptureRegisterFilter => CapCapture
  | PolicyQuery => CapPolicy
  | EventEmit => CapEvents
  | StatusBackends => CapStatus
  end.

Lemma module_of_capability c name b : (name, b) ∈ (module_of c).2 → capability_of b = c.
Proof.
  destruct c; cbn [module_of register_module from_option id snd]; rewrite ?elem_of_cons; intros H; destruct_or?;
    try (by apply not_elem_of_nil in H); by simplify_eq.
Qed.

Lemma lookup_binding_capability m module function b :
  lookup_binding (lezcap_modules m) module function = Some b →
  capability_of b ∈ dm_capabilities m.
Proof.
  unfold lookup_binding. intros H. apply bind_Some in H as ([i mo] & Hmo & H).
  apply bind_Some in H as ([j fn] & Hfn & [= <-]).
  apply list_find_Some in Hmo as (Hmo & _ & _), Hfn as (Hfn & _ & _).
  apply list_elem_of_lookup_2 in Hmo, Hfn. unfold lezcap_modules in Hmo.
  apply list_elem_of_fmap in Hmo as (c & -> & [Hc _]%list_elem_of_filter).
  destruct fn as [name b]. cbn [snd]. by rewrite (module_of_capability c name b).
Qed.

(** *** Updates *)
Lemma confined_add_endpoint be bf s0 s d :
  confined be bf s0 s → CapEndpoint ∈ dm_capabilities (hs_manifest s0) → descriptor_ok d →
  confined (be + 1) bf s0 (add_endpoint d s).
Proof.
  intros [[] ? ? ? ? ?] Hc Hd. split; cbn; try done. split; cbn; try done.
  - rewrite zlen_app. change (zlen [d]) with 1. lia.
  - apply Forall_app_2; [done|by constructor].
Qed.

Lemma confined_add_filter be bf s0 s f :
  confined be bf s0 s → CapCapture ∈ dm_capabilities (hs_manifest s0) → filter_ok f →
  confined be (bf + 1) s0 (add_filter f s).
Proof.
  intros [[] ? ? ? ? ?] Hc Hd. split; cbn; try done. split; cbn; try done.
  - rewrite zlen_app. change (zlen [f]) with 1. lia.
  - apply Forall_app_2; [done|by constructor].
Qed.

Lemma confined_open_window be bf s0 s now :
  confined be bf s0 s → confined be bf s0 (open_window now s).
Proof.
  intros Hs. unfold open_window. destruct (1000 <=? _); [|done]. destruct Hs as [[] ? ? ? ? ?].
  split; cbn; try done. split; cbn; try done. intros _. lia.
Qed.

Lemma confined_count_dropped be bf s0 s :
  confined be bf s0 s → CapEvents ∈ dm_capabilities (hs_manifest s0) →
  confined be bf s0 (count_dropped s).
Proof. intros [[] ? ? ? ? ?] Hc. split; cbn; try done. Qed.

Lemma confined_count_emitted be bf s0 s :
  confined be bf s0 s → CapEvents ∈ dm_capabilities (hs_manifest s0) → over_limit s = false →
  confined be bf s0 (count_emitted s).
Proof.
  intros [[Ho1 Ho2 Ho3 Ho4 Ho5 Ho6] ? ? ? ? ?] Hc Hl. split; cbn; try done. split; cbn; try done.
  intros Hne. specialize (Ho6 Hne). unfold over_limit in Hl.
  rewrite (proj2 (Z.ltb_lt 0 _)) in Hl by lia. cbn [andb] in Hl. apply Z.leb_gt in Hl.
  unfold u32. rewrite Z.mod_small by lia. lia.
Qed.

(** *** The functions that change the state

    [k] is how deep the calls may be nested in metamethods: those that run while
    the fields of an argument are read keep every bound of [k] less one above
    what the check in front has found. *)
Section bindings_inv.
Context {LL : LuaLib} {JL : JsonLib} {JP : JsonPretty} (sc : Script Host).
Context (s0 : DriverHostState) (be bf k : Z).
Abbreviation max_e := (rl_max_endpoints (hs_limits s0)).
Abbreviation max_f := (rl_max_subscriptions (hs_limits s0)).
Context (Hk : 0 ≤ k) (Hbe : max_e + k ≤ be) (Hbf : max_f + k ≤ bf).
Context (Hindex : ∀ e f, max_e - 1 + k ≤ e → max_f - 1 + k ≤ f → index_keeps sc (inv e f s0)).
Implicit Types s : DriverHostState.
Abbreviation good := (inv be bf s0).

(** Reading the state: it is the one the invariant speaks of. *)
Lemma triple_need_state {B} (R : B → Host → Prop) (f : DriverHostState → lua B) :
  (∀ s, confined be bf s0 s → triple (λ h, ho_state h = Some s) (f s) R good) →
  triple good (need_state ≫= f) R good.
Proof.
  intros Hf st (s & Hs & Hc). unfold need_state, host_state, mbind, lua_bind. cbn.
  rewrite Hs. cbn. by apply (Hf s Hc).
Qed.

Lemma state_inv s h : confined be bf s0 s → ho_state h = Some s → good h.
Proof. intros Hc Hs. by exists s. Qed.

(** From here on the host state is [s]: steps that leave it alone, and its
    replacement by another confined one. *)
Lemma triple_step {A B} s (R : B → Host → Prop) (m : lua A) (f : A → lua B) :
  confined be bf s0 s → inert m →
  (∀ a, triple (λ h, ho_state h = Some s) (f a) R good) →
  triple (λ h, ho_state h = Some s) (m ≫= f) R good.
Proof. intros Hc Hm Hf. apply triple_inert_bind; eauto using state_inv. Qed.

Lemma triple_leave {A} s (R : A → Host → Prop) (m : lua A) :
  confined be bf s0 s → inert m → (∀ a h, ho_state h = Some s → R a h) →
  triple (λ h, ho_state h = Some s) m R good.
Proof. intros Hc Hm HR. apply inert_triple; eauto using state_inv. Qed.

Lemma triple_put {B} s s' (R : B → Host → Prop) (f : () → lua B) :
  triple (λ h, ho_state h = Some s') (f ()) R good →
  triple (λ h, ho_state h = Some s) (put_state s' ≫= f) R good.
Proof.
  intros Hf st Hst. unfold put_state, mbind, lua_bind, get_host, set_host. cbn. by apply Hf.
Qed.

Abbreviation final := (λ (_ : ()) (h : Host), good h).

Lemma fail_inv s code message :
  confined be bf s0 s →
  triple (λ h, ho_state h = Some s) (lezcap_fail (A := ()) code message) final good.
Proof. intros Hc. apply triple_leave; eauto using state_inv with lua_inert. Qed.

Lemma push_ok_inv s :
  confined be bf s0 s → triple (λ h, ho_state h = Some s) push_ok final good.
Proof. intros Hc. apply triple_leave; eauto using state_inv with lua_inert. Qed.

(** While the fields of an argument are read: with [e] endpoints and [f] filters
    at most, whatever the metamethods do. *)
Section reading.
Context (e f : Z) (He : max_e - 1 + k ≤ e ≤ be) (Hf : max_f - 1 + k ≤ f ≤ bf).
Abbreviation reading := (inv e f s0).

Lemma reading_good h : reading h → good h.
Proof. apply inv_mono; lia. Qed.

Lemma triple_read {A B} (R : B → Host → Prop) (m : lua A) (g : A → lua B) Q :
  indexing sc m → yields m Q → (∀ a, Q a → triple reading (g a) R good) →
  triple reading (m ≫= g) R good.
Proof.
  intros Hm HQ Hg st Hst. specialize (Hm reading (Hindex e f (proj1 He) (proj1 Hf)) st Hst).
  unfold mbind, lua_bind. destruct (m st) eqn:E; try done; try by apply reading_good.
  apply Hg; [by eapply HQ|done].
Qed.

Lemma fail_read code message :
  triple reading (lezcap_fail (A := ()) code message) final good.
Proof. apply inert_triple; auto using reading_good with lua_inert. Qed.

Lemma triple_update (u : DriverHostState → DriverHostState) :
  (∀ s, confined e f s0 s → confined be bf s0 (u s)) →
  triple reading (update_state u ≫= λ _, push_ok) final good.
Proof.
  intros Hu st (s & Hs & Hc). unfold update_state, mbind, lua_bind, get_host.
  rewrite Hs. apply (push_ok_inv (u s) (Hu s Hc)). reflexivity.
Qed.
End reading.

Lemma yields_any {A} (m : lua (H := Host) A) : yields m (λ _, True).
Proof. done. Qed.

(** One read of a field. *)
Ltac read_field :=
  eapply triple_read; [lia|lia|solve_indexing|apply yields_any|intros ? _].

Lemma endpoint_declare_inv fuel :
  CapEndpoint ∈ dm_capabilities (hs_manifest s0) →
  triple good (endpoint_declare sc fuel) final good.
Proof.
  intros Hcap. apply triple_need_state. intros s Hc.
  apply triple_step; [done|auto with lua_inert|]. intros arg.
  destruct (negb (is_table arg)); [by apply fail_inv|].
  destruct (Z.leb_spec (rl_max_endpoints (hs_limits s)) (zlen (hs_endpoints s)));
    [by apply fail_inv|].
  apply (triple_conseq _ (inv (max_e - 1 + k) bf s0)).
  2:{ intros h Hs. exists s. split; [done|]. rewrite (cf_limits _ _ _ _ Hc) in *.
      destruct Hc as [[] ? ? ? ? ?]. split; try done. split; try done. lia. }
  do 5 read_field.
  destruct (negb _ && negb _); read_field; [apply fail_read; lia|].
  do 4 read_field.
  destruct (parse_endpoint_descriptor _) as [d|e] eqn:Hd; [|apply fail_read; lia].
  apply triple_update. intros s1 Hs1. eapply confined_mono;
    [..|apply confined_add_endpoint; [exact Hs1|done|by eapply parse_descriptor_ok]]; lia.
Qed.

Lemma fail_yields {A} code message Q : yields (lezcap_fail (A := A) code message) Q.
Proof. by intros st a st' H. Qed.

Lemma filter_field_yields key max known error value :
  yields (filter_field sc key max known error value) (λ r, r.1 = [] ∨ known r.1 = true).
Proof.
  apply yields_bind. intros [present v]. cbn [snd].
  destruct (is_empty v); [by apply yields_ret; left|].
  destruct (known v) eqn:Hkn; cbn [negb]; [by apply yields_ret; right|apply fail_yields].
Qed.

Lemma double_to_unsigned_range w d z : double_to_unsigned w d = Some z → 0 ≤ w → 0 ≤ z < 2 ^ w.
Proof.
  intros H Hw. pose proof (Z.pow_pos_nonneg 2 w). destruct d; try done; cbn in H.
  - injection H as <-. lia.
  - destruct (_ && _) eqn:E; [|done]. injection H as <-. apply andb_prop in E as [].
    split; [by apply Z.leb_le|by apply Z.ltb_lt].
Qed.

Lemma confidence_yields : yields (confidence_field sc) (λ p, 0 ≤ p < 2 ^ 32).
Proof.
  apply yields_bind. intros []. apply yields_bind. intros v.
  destruct (is_nil v); [apply yields_bind; intros []; by apply yields_ret|].
  destruct (to_number v) as [c|]; apply yields_bind; intros []; [|apply fail_yields].
  destruct (_ || _); [apply fail_yields|].
  destruct (double_to_unsigned 32 _) as [p|] eqn:E; [|done].
  apply yields_ret. by apply double_to_unsigned_range in E.
Qed.

Lemma is_some_true {A} (o : option A) : is_some o = true → is_Some o.
Proof. destruct o; [by eexists|done]. Qed.

Lemma register_filter_inv :
  CapCapture ∈ dm_capabilities (hs_manifest s0) →
  triple good (capture_register_filter sc) final good.
Proof.
  intros Hcap. apply triple_need_state. intros s Hc.
  apply triple_step; [done|auto with lua_inert|]. intros arg.
  destruct (negb (is_table arg)); [by apply fail_inv|].
  destruct (Z.leb_spec (rl_max_subscriptions (hs_limits s)) (zlen (hs_capture_filters s)));
    [by apply fail_inv|].
  apply (triple_conseq _ (inv be (max_f - 1 + k) s0)).
  2:{ intros h Hs. exists s. split; [done|]. rewrite (cf_limits _ _ _ _ Hc) in *.
      destruct Hc as [[] ? ? ? ? ?]. split; try done. split; try done. lia. }
  eapply triple_read; [lia..|auto with lua_index|apply filter_field_yields|]. intros tv Htv.
  eapply triple_read; [lia..|auto with lua_index|apply filter_field_yields|]. intros pv Hpv.
  eapply triple_read; [lia..|auto with lua_index|apply confidence_yields|]. intros permille Hp.
  apply triple_update. intros s1 Hs1. eapply confined_mono;
    [..|apply confined_add_filter; [exact Hs1|done|]]; [lia..|].
  split_and!; cbn; [| |apply Hp..]; naive_solver eauto using is_some_true.
Qed.

Lemma call_sink_inv s text (R : () → Host → Prop) (f : () → lua ()) :
  confined be bf s0 s → triple (λ h, ho_state h = Some s) (f ()) R good →
  triple (λ h, ho_state h = Some s) (call_sink text ≫= f) R good.
Proof.
  intros Hc Hf [stack h] Hst. cbn in Hst.
  unfold call_sink, mbind, lua_bind, get_host, set_host, push, pop. cbn [mc_host mc_stack].
  destruct (ho_sink h); cbn [mc_host mc_stack];
    match goal with |- context [if ?b then Undefined else _] => destruct b end;
    try done; by apply Hf.
Qed.

Lemma event_emit_inv fuel now :
  CapEvents ∈ dm_capabilities (hs_manifest s0) →
  triple good (event_emit sc fuel now) final good.
Proof.
  intros Hcap. apply triple_need_state. intros s Hc.
  apply triple_step; [done|auto with lua_inert|]. intros arg.
  destruct (negb (is_table arg)); [by apply fail_inv|].
  pose proof (confined_open_window _ _ s0 s now Hc) as Hw. cbv zeta.
  destruct (over_limit (open_window now s)) eqn:Hl.
  - apply triple_put, fail_inv. by apply confined_count_dropped.
  - apply triple_put. pose proof (confined_count_emitted _ _ s0 _ Hw Hcap Hl) as He.
    apply triple_step; [done|auto with lua_inert|]. intros [doc|e]; [|by apply fail_inv].
    destruct (json_dump doc) as [text|]; [|apply triple_leave; eauto using state_inv with lua_inert].
    destruct (32 * 1024 <? zlen text).
    + apply triple_put, fail_inv. by apply confined_count_dropped.
    + apply call_sink_inv; [done|]. by apply push_ok_inv.
Qed.

Lemma log_emit_inv level : triple good (log_emit level) final good.
Proof.
  apply triple_inert_bind; [auto with lua_inert|done|]. intros s.
  apply triple_inert_bind; [auto with lua_inert|done|]. intros message.
  apply triple_get. intros h. apply triple_set. intros h' [-> (s' & Hs & Hc)].
  apply inert_triple; [auto with lua_inert|..]; intros; subst; by exists s'.
Qed.

Lemma run_binding_inv env b :
  capability_of b ∈ dm_capabilities (hs_manifest s0) →
  triple good (run_binding sc env b) final good.
Proof.
  intros Hb. destruct (reads_only b) eqn:Hr.
  { apply inert_triple; [by apply inert_reads_only|done..]. }
  destruct b; try done; cbn [run_binding]; try apply log_emit_inv.
  - by apply endpoint_declare_inv.
  - by apply register_filter_inv.
  - by apply event_emit_inv.
Qed.
End bindings_inv.

(** ** Scripts *)

(** The machine at the end of a call, if it ends. *)
Definition final_machine {A} (o : outcome (machine Host) A) : option (machine Host) :=
  match o with
  | Done _ st | Return _ st | Raised _ st | Thrown st => Some st
  | Undefined | OutOfFuel => None
  end.

Definition set_memory (m : Z) (h : Host) : Host :=
  mkHost (ho_state h) (ho_policy_snapshot h) (ho_status_snapshot h) (ho_sink h) (ho_log h) m.

(** What a script does to the host: it computes, which changes its memory, and
    calls registered functions, with any arguments, tables and environment and
    whatever they end in.  While a function reads the fields of an argument, the
    metamethods of the script run; they compute, or call functions in turn, to a
    depth of at most [d]. *)
Inductive script_runs {LL : LuaLib} {JL : JsonLib} {JP : JsonPretty}
    (modules : list (cstring * list (cstring * binding))) : nat → Host → Host → Prop :=
  | runs_end d h : script_runs modules d h h
  | runs_computes d h m h' :
      script_runs modules d (set_memory m h) h' → script_runs modules d h h'
  | runs_call d sc env module function b args h st h' :
      lookup_binding modules module function = Some b →
      (∀ t key g g', index_leaves sc t key g g' → ∃ m, g' = set_memory m g) →
      final_machine (run_binding sc env b (mkMachine args h)) = Some st →
      script_runs modules d (mc_host st) h' → script_runs modules d h h'
  | runs_nested d sc env module function b args h st h' :
      lookup_binding modules module function = Some b →
      (∀ t key g g', index_leaves sc t key g g' → script_runs modules d g g') →
      final_machine (run_binding sc env b (mkMachine args h)) = Some st →
      script_runs modules (S d) (mc_host st) h' → script_runs modules (S d) h h'.

Section scripts.
Context {LL : LuaLib} {JL : JsonLib} {JP : JsonPretty}.

Lemma memory_inv be bf s0 m h : inv be bf s0 h → inv be bf s0 (set_memory m h).
Proof. done. Qed.

Lemma call_inv sc env b be bf k s0 args h st :
  capability_of b ∈ dm_capabilities (hs_manifest s0) → 0 ≤ k →
  rl_max_endpoints (hs_limits s0) + k ≤ be → rl_max_subscriptions (hs_limits s0) + k ≤ bf →
  (∀ e f, rl_max_endpoints (hs_limits s0) - 1 + k ≤ e →
          rl_max_subscriptions (hs_limits s0) - 1 + k ≤ f → index_keeps sc (inv e f s0)) →
  final_machine (run_binding sc env b (mkMachine args h)) = Some st →
  inv be bf s0 h → inv be bf s0 (mc_host st).
Proof.
  intros Hb Hk Hbe Hbf Hi Hf Hh.
  pose proof (run_binding_inv sc s0 be bf k Hk Hbe Hbf Hi env b Hb (mkMachine args h) Hh) as Ht.
  destruct (run_binding sc env b (mkMachine args h)); cbn in Hf; by simplify_eq.
Qed.

Lemma script_runs_inv s0 d h h' :
  script_runs (lezcap_modules (hs_manifest s0)) d h h' →
  ∀ be bf, rl_max_endpoints (hs_limits s0) + Z.of_nat d ≤ be →
    rl_max_subscriptions (hs_limits s0) + Z.of_nat d ≤ bf →
    inv be bf s0 h → inv be bf s0 h'.
Proof.
  induction 1 as [d h|d h m h' _ IH|d sc env module function b args h st h' Hl Hi Hf _ IH
    |d sc env module function b args h st h' Hl _ IHi Hf _ IH]; intros be bf He Hbf Hinv.
  - done.
  - by apply IH.
  - apply IH; [done..|]. apply lookup_binding_capability in Hl.
    apply (call_inv sc env b be bf 0 s0 args h st); try done; try lia.
    intros e f _ _ t key g g' (m & ->)%Hi. apply memory_inv.
  - apply IH; [done..|]. apply lookup_binding_capability in Hl.
    apply (call_inv sc env b be bf (Z.of_nat (S d)) s0 args h st); try done; try lia.
    intros e f He' Hf' t key g g' Hg. apply (IHi t key g g' Hg); lia.
Qed.
End scripts.


Lemma module_names c c' : (module_of c).1 = (module_of c').1 → c = c'.
Proof. destruct c, c'; intros H; first [reflexivity|discriminate H]. Qed.

Lemma module_found m c :
  c ∈ dm_capabilities m →
  ∃ i, list_find (λ mo, mo.1 = (module_of c).1) (lezcap_modules m) = Some (i, module_of c).
Proof.
  intros Hc. destruct (list_find _ (lezcap_modules m)) as [[i mo]|] eqn:Hf.
  - apply list_find_Some in Hf as (Hmo%list_elem_of_lookup_2 & Hn & _).
    apply list_elem_of_fmap in Hmo as (c' & -> & _). apply module_names in Hn as ->. by exists i.
  - rewrite list_find_None, Forall_forall in Hf. destruct (Hf (module_of c)); [|done].
    apply list_elem_of_fmap_2, list_elem_of_filter. split; [done|].
    apply (bool_decide_unpack (c ∈ registration_order)). by destruct c.
Qed.

#[global] Instance binding_eq_dec : EqDecision binding.
Proof. solve_decision. Defined.

(** The name of a function in its module. *)
Definition function_name (b : binding) : cstring :=
  match list_find (λ f, f.2 = b) (module_of (capability_of b)).2 with
  | Some (_, f) => f.1
  | None => []
  end.

(** The [lezcap] table offers a function exactly when the capability it
    belongs to is declared in the manifest. *)
Theorem capability_gating m b :
  (∃ module function, lookup_binding (lezcap_modules m) module function = Some b) ↔
  capability_of b ∈ dm_capabilities m.
Proof.
  split; [intros (module & function & H); by eapply lookup_binding_capability|].
  intros Hc. destruct (module_found m _ Hc) as [i Hi].
  exists (module_of (capability_of b)).1, (function_name b).
  unfold lookup_binding. rewrite Hi. cbn [mbind option_bind]. by destruct b.
Qed.

Definition endpoint_manifest : DriverManifest :=
  mkManifest "sample" "1.0" "/d/s" [] [CapEndpoint] [] 8 16 [].
Definition endpoint_state : DriverHostState :=
  mkHostState endpoint_manifest sample_limits [] [] 0 0 0 0.
Definition sample_env : CallEnv := mkCallEnv 0 5000 9 (λ _, 7).

Lemma endpoint_state_ok : host_ok endpoint_state.
Proof. split; cbn; try done; try (split; reflexivity || discriminate). Qed.

(** *** A script that goes past its limit

    The table lacks the field that is read last, and the metamethod that is
    asked for it declares an endpoint of its own. *)
Definition declare_again (h : Host) : index_result Host :=
  match final_machine (endpoint_declare (LL := SampleLua) endpoint_script 9
                         (mkMachine [VTable 1] h)) with
  | Some st => IndexValue VNil (mc_host st)
  | None => IndexUndefined
  end.
Definition reentrant_script : Script Host :=
  mkScript (λ _ t, mkTable (tb_entries (endpoint_heap t)) 0 true)
    (λ _ key h, if key =s "privacy" then declare_again h else IndexValue VNil h).

Definition single_state : DriverHostState :=
  mkHostState endpoint_manifest (mkResourceLimits 1 1 3 8192) [] [] 0 0 0 0.
Definition declared_twice : option (machine Host) :=
  final_machine (run_binding (LL := SampleLua) (JL := TreeJson.lib) (JP := TreePretty.pretty)
    reentrant_script sample_env EndpointDeclare
    (mkMachine [VTable 1] (empty_host (Some single_state)))).

Lemma single_state_ok : host_ok single_state.
Proof. split; cbn; try done; try (split; reflexivity || discriminate). Qed.

Lemma reentrant_runs t key g g' :
  index_leaves reentrant_script t key g g' →
  script_runs (LL := SampleLua) (JL := TreeJson.lib) (JP := TreePretty.pretty)
    (lezcap_modules endpoint_manifest) 0 g g'.
Proof.
  unfold index_leaves. cbn [sc_index reentrant_script]. destruct (key =s "privacy").
  - unfold declare_again. destruct (final_machine _) as [st|] eqn:Hf; [|done]. intros ->.
    eapply (runs_call _ 0 endpoint_script sample_env (lit "endpoint") (lit "declare")
      EndpointDeclare [VTable 1]); [reflexivity| |exact Hf|apply runs_end].
    intros t' key' h h' ->. exists (ho_memory h). by destruct h.
  - intros ->. apply runs_end.
Qed.

(** The limit on endpoints is checked before the fields are read: with a limit
    of one, the script has declared two endpoints after one call. *)
Lemma nested_declare_exceeds_limit :
  ∃ st s, declared_twice = Some st ∧ ho_state (mc_host st) = Some s ∧
    rl_max_endpoints (hs_limits s) = 1 ∧ zlen (hs_endpoints s) = 2.
Proof.
  destruct declared_twice as [st|] eqn:Hf; [|vm_compute in Hf; discriminate Hf].
  vm_compute in Hf. injection Hf as <-. eexists _, _. by split_and!.
Qed.


(** ** The emission rate *)

(** A sequence of [event_emit] calls with their times, and whether each was
    counted as emitted. *)
Inductive emits {LL : LuaLib} {JL : JsonLib} :
    DriverHostState → list (Z * bool) → DriverHostState → Prop :=
  | emits_nil s : emits s [] s
  | emits_call s sc fuel now t h st s1 ok trace s2 :
      ho_state h = Some s →
      final_machine (event_emit sc fuel now (mkMachine [VTable t] h)) = Some st →
      ho_state (mc_host st) = Some s1 →
      ok = negb (hs_events_emitted s1 =? hs_events_emitted s) →
      emits s1 trace s2 → emits s ((now, ok) :: trace) s2.

(** The two counters of the window and the limit. *)
Definition window (s : DriverHostState) : Z * Z * Z :=
  (rl_max_events_per_second (hs_limits s), hs_last_event_window_start_ms s, hs_events_in_window s).

(** What a call does to the window. *)
Definition window_step (now : Z) (w : Z * Z * Z) : bool * (Z * Z * Z) :=
  let '(max, start, count) := w in
  let '(start, count) := if 1000 <=? now - start then (now, 0) else (start, count) in
  if (0 <? max) && (max <=? count) then (false, (max, start, count))
  else (true, (max, start, u32 (count + 1))).

Section rate.
Context {LL : LuaLib} {JL : JsonLib}.

(** Any computation that leaves the host alone or counts a drop. *)
Definition keeps_emitted (s : DriverHostState) (m : lua (H := Host) ()) : Prop :=
  triple (λ h, ho_state h = Some s) m
    (λ _ h, ∃ s', ho_state h = Some s' ∧ window s' = window s ∧
                  hs_events_emitted s' = hs_events_emitted s)
    (λ h, ∃ s', ho_state h = Some s' ∧ window s' = window s ∧
                hs_events_emitted s' = hs_events_emitted s).

Lemma keeps_inert s m : inert m → keeps_emitted s m.
Proof. intros Hm. apply inert_triple; eauto. Qed.

Lemma keeps_dropped s m : inert m → keeps_emitted s (put_state (count_dropped s) ≫= λ _, m).
Proof.
  intros Hm st Hst. unfold put_state, mbind, lua_bind, get_host, set_host. cbn.
  specialize (Hm (λ h, ho_state h = Some (count_dropped s))).
  specialize (Hm (mkMachine (mc_stack st) (with_state_set (count_dropped s) (mc_host st))) eq_refl).
  destruct (m _); eauto.
Qed.

Lemma keeps_step {A} s (m : lua A) (f : A → lua ()) :
  inert m → (∀ a, keeps_emitted s (f a)) → keeps_emitted s (m ≫= f).
Proof. intros Hm Hf. apply triple_inert_bind; eauto. Qed.

Lemma keeps_sink s text m : inert m → keeps_emitted s (call_sink text ≫= λ _, m).
Proof.
  intros Hm [stack h] Hst. cbn in Hst.
  unfold call_sink, mbind, lua_bind, get_host, set_host, push, pop. cbn [mc_host mc_stack].
  destruct (ho_sink h); cbn [mc_host mc_stack];
    match goal with |- context [if ?b then Undefined else _] => destruct b end; try done.
  all: by apply keeps_inert.
Qed.

(** What follows the accounting of an emission. *)
Lemma emission_keeps sc fuel s :
  keeps_emitted s
    (doc ← json_from_lua sc fuel 1 0;
     match doc with
     | Err e => lezcap_fail "argument.invalid" e
     | Ok doc =>
         match json_dump doc with
         | None => throw
         | Some text =>
             if 32 * 1024 <? zlen text
             then _ ← put_state (count_dropped s);
                  lezcap_fail "limit.size" "event exceeds size cap"
             else _ ← call_sink text; push_ok
         end
     end).
Proof.
  apply keeps_step; [auto with lua_inert|]. intros [doc|e]; [|auto using keeps_inert with lua_inert].
  destruct (json_dump doc) as [text|]; [|auto using keeps_inert with lua_inert].
  destruct (32 * 1024 <? zlen text); [apply keeps_dropped|apply keeps_sink]; auto with lua_inert.
Qed.

Lemma keeps_final s m st st' s' :
  keeps_emitted s m → ho_state (mc_host st) = Some s → final_machine (m st) = Some st' →
  ho_state (mc_host st') = Some s' →
  window s' = window s ∧ hs_events_emitted s' = hs_events_emitted s.
Proof.
  intros Hk Hst Hf Hs. specialize (Hk st Hst). destruct (m st); cbn in Hf; try done;
    apply (inj Some) in Hf as <-; destruct Hk as (s'' & Hs'' & Hw & He);
    rewrite Hs in Hs''; apply (inj Some) in Hs'' as <-; by split.
Qed.

Lemma window_step_state now s :
  let s' := open_window now s in
  window_step now (window s) =
    (negb (over_limit s'), window (if over_limit s' then s' else count_emitted s')).
Proof.
  unfold window_step, window, open_window, over_limit.
  destruct (1000 <=? now - hs_last_event_window_start_ms s);
    cbn [set_window hs_limits hs_events_in_window hs_last_event_window_start_ms];
    match goal with |- context [if ?b then (false, _) else _] => destruct b end; done.
Qed.

Lemma put_state_done (s : DriverHostState) st :
  put_state s st = Done () (mkMachine (mc_stack st) (with_state_set s (mc_host st))).
Proof. done. Qed.

Lemma event_emit_window sc fuel now t s h st s1 :
  ho_state h = Some s →
  final_machine (event_emit sc fuel now (mkMachine [VTable t] h)) = Some st →
  ho_state (mc_host st) = Some s1 →
  window s1 = (window_step now (window s)).2 ∧
  hs_events_emitted s1 =
    (if (window_step now (window s)).1 then u64 (hs_events_emitted s + 1)
     else hs_events_emitted s).
Proof.
  intros Hs Hf H1. rewrite window_step_state. cbn [fst snd].
  assert (Hem : hs_events_emitted (open_window now s) = hs_events_emitted s).
  { unfold open_window. by destruct (1000 <=? _). }
  revert Hf. unfold event_emit. erewrite bind_done by (by apply need_state_done).
  erewrite bind_done by done. cbn [mc_stack]. rewrite index_first. cbn [is_table negb]. cbv zeta.
  destruct (over_limit (open_window now s)); cbn [negb]; erewrite bind_done by apply put_state_done.
  - intros Hf. rewrite <-Hem.
    apply (keeps_final (count_dropped (open_window now s)) _ _ _ s1) in Hf; [done| |done..].
    apply keeps_inert. auto with lua_inert.
  - intros Hf. rewrite <-Hem.
    by apply (keeps_final (count_emitted (open_window now s)) _ _ _ s1) in Hf;
      [|apply emission_keeps|..].
Qed.

(** *** How many events are accepted in an interval of one second *)
Fixpoint accepted_in (a : Z) (trace : list (Z * bool)) : Z :=
  match trace with
  | [] => 0
  | (now, ok) :: trace =>
      (if ok && (a <=? now) && (now <? a + 1000) then 1 else 0) + accepted_in a trace
  end.

Definition times_sorted (trace : list (Z * bool)) : Prop := StronglySorted Z.le trace.*1.

Lemma accepted_after a now trace :
  a + 1000 ≤ now → Forall (Z.le now) trace.*1 → accepted_in a trace = 0.
Proof.
  intros Hn. induction trace as [|[now' ok] trace IH]; cbn; [done|].
  rewrite Forall_cons. intros [Hle Hf]. rewrite (proj2 (Z.ltb_ge _ _)) by lia.
  rewrite andb_false_r, IH by done. done.
Qed.

Lemma u64_succ x : u64 (x + 1) ≠ x.
Proof. unfold u64. intros H. Z.to_euclidean_division_equations. lia. Qed.

(** One call, as a step of the window. *)
Lemma emits_cons s now ok trace s2 :
  emits s ((now, ok) :: trace) s2 →
  ∃ s1, emits s1 trace s2 ∧ (ok, window s1) = window_step now (window s).
Proof.
  inversion 1 as [|? sc fuel ? t h st s1 ? ? ? Hs Hf H1 Hok Ht]; subst. exists s1.
  split; [done|]. destruct (event_emit_window _ _ _ _ _ _ _ _ Hs Hf H1) as [-> He].
  rewrite He. destruct (window_step now (window s)) as [[] w]; cbn [fst snd].
  - rewrite (proj2 (Z.eqb_neq _ _)); [done|apply u64_succ].
  - by rewrite Z.eqb_refl.
Qed.

Section window_bounds.
Context (max a : Z) (Hmax : 0 < max < 2 ^ 32).

(** A window that was opened in the interval. *)
Lemma accepted_opened s trace s2 start count :
  emits s trace s2 → window s = (max, start, count) → a ≤ start → 0 ≤ count ≤ max →
  times_sorted trace → accepted_in a trace ≤ max - count.
Proof.
  revert s start count. induction trace as [|[now ok] trace IH]; intros s start count He Hw Hs Hc Ht.
  { cbn. lia. }
  apply emits_cons in He as (s1 & He & Hstep). rewrite Hw in Hstep. unfold times_sorted in Ht.
  cbn [fmap list_fmap fst] in Ht. apply StronglySorted_cons in Ht as [Hall Ht]. cbn [accepted_in].
  destruct (Z.lt_ge_cases now (a + 1000)) as [Hn|Hn].
  2: { rewrite (accepted_after a now trace) by done. rewrite (proj2 (Z.ltb_ge now _)) by lia.
       rewrite andb_false_r. lia. }
  unfold window_step in Hstep. rewrite (proj2 (Z.leb_gt 1000 _)) in Hstep by lia.
  rewrite (proj2 (Z.ltb_lt 0 max)) in Hstep by lia. cbn [andb] in Hstep.
  destruct (Z.leb_spec max count).
  - apply pair_equal_spec in Hstep as [-> Hw1]. cbn [andb]. specialize (IH s1 start count He Hw1 Hs Hc Ht). lia.
  - apply pair_equal_spec in Hstep as [-> Hw1]. unfold u32 in Hw1. rewrite Z.mod_small in Hw1 by lia.
    specialize (IH s1 start (count + 1) He Hw1 Hs). cbn [andb].
    destruct ((a <=? now) && (now <? a + 1000)); specialize (IH ltac:(lia) Ht); lia.
Qed.

(** Calls that all come in the interval or later. *)
Lemma accepted_started s trace s2 start count :
  emits s trace s2 → window s = (max, start, count) → 0 ≤ count ≤ max →
  times_sorted trace → Forall (Z.le a) trace.*1 → accepted_in a trace ≤ 2 * max - count.
Proof.
  revert s start count. induction trace as [|[now ok] trace IH]; intros s start count He Hw Hc Ht Ha.
  { cbn. lia. }
  apply emits_cons in He as (s1 & He & Hstep). rewrite Hw in Hstep. unfold times_sorted in Ht.
  cbn [fmap list_fmap fst] in Ht, Ha. apply StronglySorted_cons in Ht as [Hall Ht].
  apply Forall_cons in Ha as [Ha0 Ha]. cbn [accepted_in].
  unfold window_step in Hstep. rewrite (proj2 (Z.ltb_lt 0 max)) in Hstep by lia.
  cbn [andb] in Hstep. destruct (1000 <=? now - start).
  - rewrite (proj2 (Z.leb_gt max 0)) in Hstep by lia. apply pair_equal_spec in Hstep as [-> Hw1].
    change (u32 (0 + 1)) with 1 in Hw1.
    pose proof (accepted_opened s1 trace s2 now 1 He Hw1 Ha0 ltac:(lia) Ht).
    destruct (true && (a <=? now) && (now <? a + 1000)); lia.
  - destruct (Z.leb_spec max count).
    + apply pair_equal_spec in Hstep as [-> Hw1]. cbn [andb]. specialize (IH s1 start count He Hw1 Hc Ht Ha). lia.
    + apply pair_equal_spec in Hstep as [-> Hw1]. unfold u32 in Hw1. rewrite Z.mod_small in Hw1 by lia.
      specialize (IH s1 start (count + 1) He Hw1 ltac:(lia) Ht Ha). cbn [andb].
      destruct ((a <=? now) && (now <? a + 1000)); lia.
Qed.

Lemma accepted_any s trace s2 start count :
  emits s trace s2 → window s = (max, start, count) → 0 ≤ count ≤ max →
  times_sorted trace → accepted_in a trace ≤ 2 * max.
Proof.
  revert s start count. induction trace as [|[now ok] trace IH]; intros s start count He Hw Hc Ht.
  { cbn. lia. }
  destruct (Z.lt_ge_cases now a) as [Hn|Hn].
  - apply emits_cons in He as (s1 & He & Hstep). rewrite Hw in Hstep. unfold times_sorted in Ht.
    cbn [fmap list_fmap fst] in Ht. apply StronglySorted_cons in Ht as [_ Ht]. cbn [accepted_in].
    rewrite (proj2 (Z.leb_gt a now)) by done. rewrite andb_false_r. cbn [andb].
    unfold window_step in Hstep. rewrite (proj2 (Z.ltb_lt 0 max)) in Hstep by lia.
    cbn [andb] in Hstep. destruct (1000 <=? now - start).
    + rewrite (proj2 (Z.leb_gt max 0)) in Hstep by lia. apply pair_equal_spec in Hstep as [-> Hw1].
      change (u32 (0 + 1)) with 1 in Hw1. by apply (IH s1 now 1); [..|lia|].
    + destruct (Z.leb_spec max count); apply pair_equal_spec in Hstep as [-> Hw1].
      * by apply (IH s1 start count).
      * unfold u32 in Hw1. rewrite Z.mod_small in Hw1 by lia.
        by apply (IH s1 start (count + 1)); [..|lia|].
  - pose proof (accepted_started s ((now, ok) :: trace) s2 start count He Hw Hc Ht) as Hb.
    enough (accepted_in a ((now, ok) :: trace) ≤ 2 * max - count) by lia. apply Hb.
    unfold times_sorted in Ht. cbn [fmap list_fmap fst] in Ht |- *.
    apply StronglySorted_cons in Ht as [Hall _]. constructor; [lia|].
    eapply Forall_impl; [exact Hall|]. cbn. intros; lia.
Qed.
End window_bounds.
End rate.

(** The emission rate: of the calls a script makes, with a clock that does not
    go back, at most twice the configured number is accepted in any interval of
    one second (a second may meet two windows); and a call is never refused
    for the rate once a second has passed since its window opened. *)
Theorem emission_rate {LL : LuaLib} {JL : JsonLib} s trace s' a :
  host_ok s → 0 < rl_max_events_per_second (hs_limits s) →
  emits s trace s' → times_sorted trace →
  accepted_in a trace ≤ 2 * rl_max_events_per_second (hs_limits s) ∧
  (∀ now ok rest, trace = (now, ok) :: rest →
    hs_last_event_window_start_ms s + 1000 ≤ now → ok = true).
Proof.
  intros Hok Hm He Ht. split.
  - pose proof (ho_rate _ _ s Hok). eapply accepted_any; [lia|done|done| |done].
    apply (ho_window _ _ s Hok). lia.
  - intros now ok rest -> Hn. apply emits_cons in He as (s1 & _ & Hstep).
    unfold window_step, window in Hstep. rewrite (proj2 (Z.leb_le 1000 _)) in Hstep by lia.
    rewrite (proj2 (Z.leb_gt _ 0)) in Hstep by lia. rewrite andb_false_r in Hstep.
    by injection Hstep.
Qed.

Lemma emission_rate_witness :
  ∃ s', emits (LL := SampleLua) (JL := TreeJson.lib) endpoint_state [(5000, true)] s' ∧
    accepted_in 4500 [(5000, true)] ≤ 2 * 3.
Proof.
  destruct (final_machine (event_emit (LL := SampleLua) (JL := TreeJson.lib) flat_script 9 5000
    (mkMachine [VTable 1] (empty_host (Some endpoint_state))))) as [st|] eqn:Hf;
    [|vm_compute in Hf; discriminate Hf].
  destruct (ho_state (mc_host st)) as [s1|] eqn:Hs;
    [|vm_compute in Hf; injection Hf as <-; discriminate Hs].
  assert (Hok : true = negb (hs_events_emitted s1 =? hs_events_emitted endpoint_state)).
  { vm_compute in Hf. injection Hf as <-. cbn in Hs. injection Hs as <-. reflexivity. }
  assert (He : emits (LL := SampleLua) (JL := TreeJson.lib) endpoint_state [(5000, true)] s1).
  { apply (emits_call endpoint_state flat_script 9 5000 1 (empty_host (Some endpoint_state)) st s1
      true []); [reflexivity|exact Hf|exact Hs|exact Hok|constructor]. }
  exists s1. split; [exact He|].
  destruct (emission_rate (LL := SampleLua) (JL := TreeJson.lib) endpoint_state [(5000, true)] s1
    4500 endpoint_state_ok) as [Hr _]; [reflexivity|exact He|repeat constructor|exact Hr].
Defined.

(** ** Filters and event delivery *)

(** A filter is registered by a name compared without regard to case but
    applied to events with an exact comparison: a name in any other spelling
    than the canonical one is accepted, and from then on the driver receives no
    event at all. *)
Theorem case_variant_filter_blocks name t f i e :
  event_type_from_name name = Some t → name ≠ event_type_name t →
  f ∈ di_capture_filters i → fl_event_type f = name → delivers i e = false.
Proof.
  intros Hn Hne Hf Hfn. assert (Hp : filter_passes e f = false).
  { unfold filter_passes. rewrite Hfn. rewrite (proj2 (is_empty_false name)).
    - cbn [negb andb]. destruct (str_eqb_spec name (event_type_name (ev_type e))) as [Heq|]; [|done].
      destruct Hne. rewrite Heq in Hn |- *. f_equal.
      assert (event_type_from_name (event_type_name (ev_type e)) = Some (ev_type e)) as Hs
        by (apply event_type_from_name_spec; by destruct (ev_type e)). congruence.
    - intros ->. vm_compute in Hn. discriminate. }
  unfold delivers. enough (forallb (filter_passes e) (di_capture_filters i) = false) as ->
    by (by rewrite andb_false_r).
  apply not_true_iff_false. rewrite forallb_forall. intros Hall.
  apply list_elem_of_In in Hf. apply Hall in Hf. congruence.
Qed.

(** The binding registers such a filter. *)
Definition shout_heap (_ : Z) : LuaTable := plain_table [(VString "event_type", VString "DNS")].
Definition shout_filter : CaptureFilter := mkFilter "DNS" [] 0.

Lemma case_variant_filter_blocks_witness :
  final_machine (capture_register_filter (LL := SampleLua) (plain_script shout_heap)
    (mkMachine [VTable 1] (empty_host (Some endpoint_state)))) =
    Some (mkMachine [VTable 1; VBool true; VNil]
            (empty_host (Some (add_filter shout_filter endpoint_state)))) ∧
  delivers (mkInstance Started 0 (Some false) default_Manifest sample_limits [shout_filter]
              default_limits) default_Event = false.
Proof.
  split; [vm_compute; reflexivity|].
  destruct (event_type_from_name "DNS") as [t|] eqn:Ht; [|vm_compute in Ht; discriminate Ht].
  apply (case_variant_filter_blocks (lit "DNS") t shout_filter).
  - exact Ht.
  - vm_compute in Ht. injection Ht as <-. discriminate.
  - apply list_elem_of_singleton. reflexivity.
  - reflexivity.
Defined.
