(* ===== verification/Security.v ===== *)
(** * Privilege dropping and the seccomp sandbox ([src/security/*])

    The kernel, libcap and libseccomp are the class [Kernel]; [KernelLaws]
    states what their manual pages document of the calls the program makes.
    Capabilities and seccomp filters are attributes of a thread
    (capabilities(7), seccomp(2)), so the state of a process is a state per
    thread; thread [0] is the one that runs [main].  [Simple] is a concrete
    kernel for the witnesses. *)
From S2P Require Import Prelude Double Json Types Config Daemon.
Open Scope Z_scope.

(** ** The state a thread has *)

(** A [cap_t]: the three sets of [cap_set_flag]. *)
Record caps := mkCaps {
  cap_permitted : gset Z; cap_effective : gset Z; cap_inheritable : gset Z;
}.
Definition cap_empty : caps := mkCaps ∅ ∅ ∅.

Inductive cap_flag := CAP_PERMITTED | CAP_EFFECTIVE.

(** [CAP_SET] of one value in one set. *)
Definition cap_raise (f : cap_flag) (v : Z) (c : caps) : caps :=
  match f with
  | CAP_PERMITTED =>
      mkCaps ({[v]} ∪ cap_permitted c) (cap_effective c) (cap_inheritable c)
  | CAP_EFFECTIVE =>
      mkCaps (cap_permitted c) ({[v]} ∪ cap_effective c) (cap_inheritable c)
  end.

(** A libseccomp context: the default action and the rules, which here have no
    argument comparators.  System calls are named as in [SCMP_SYS]. *)
Inductive action := SCMP_ACT_ALLOW | SCMP_ACT_ERRNO (e : Z).
#[global] Instance action_eq_dec : EqDecision action.
Proof. solve_decision. Defined.

Record seccomp_filter := mkFilter {
  sf_default : action; sf_rules : list (action * cstring);
}.

Definition filter_action (f : seccomp_filter) (syscall : cstring) : action :=
  match find_pred (λ r, r.2 =s syscall) (sf_rules f) with
  | Some i => default (sf_default f) (fst <$> sf_rules f !! i)
  | None => sf_default f
  end.

Record thread_sec := mkThread {
  th_caps : caps;
  th_ambient : gset Z;
  th_noroot : bool;                     (* SECBIT_NOROOT, locked *)
  th_filters : list seccomp_filter;     (* every one of them is consulted *)
}.

Definition th_permits (t : thread_sec) (syscall : cstring) : bool :=
  forallb (λ f, bool_decide (filter_action f syscall = SCMP_ACT_ALLOW)) (th_filters t).

Definition set_caps (c : caps) (t : thread_sec) : thread_sec :=
  mkThread c (th_ambient t ∩ cap_permitted c ∩ cap_inheritable c) (th_noroot t)
    (th_filters t).
Definition set_ambient (a : gset Z) (t : thread_sec) : thread_sec :=
  mkThread (th_caps t) a (th_noroot t) (th_filters t).
Definition set_noroot (t : thread_sec) : thread_sec :=
  mkThread (th_caps t) (th_ambient t) true (th_filters t).
Definition add_filter (f : seccomp_filter) (t : thread_sec) : thread_sec :=
  mkThread (th_caps t) (th_ambient t) (th_noroot t) (f :: th_filters t).

Definition EPERM : Z := 1.
Definition EINVAL : Z := 22.

(** ** The calls *)

(** [None] is the failure of a call that allocates; a failed [prctl] gives the
    value of [errno]. *)
Class Kernel (P : Type) := {
  thread : P → nat → option thread_sec;
  prctl_securebits : P → result Z () * P;
  prctl_ambient_clear : P → result Z () * P;
  cap_set_proc : caps → P → bool * P;
  cap_get_proc : P → option caps;
  cap_init : P → option caps;
  cap_from_name : cstring → option Z;
  cap_set_flag : caps → cap_flag → Z → option caps;
  cap_to_text : caps → option cstring;
  seccomp_init : action → option seccomp_filter;
  seccomp_rule_add : seccomp_filter → action → cstring → option seccomp_filter;
  seccomp_load : seccomp_filter → P → bool * P;
}.

(** [p'] is [p] with the calling thread changed by [f]. *)
Definition caller_changed `{Kernel P} (f : thread_sec → thread_sec) (p p' : P) : Prop :=
  thread p' 0 = f <$> thread p 0 ∧ ∀ i, i ≠ 0%nat → thread p' i = thread p i.

Class KernelLaws (P : Type) `{K : Kernel P} : Prop := {
  securebits_ok p p' : prctl_securebits p = (Ok (), p') → caller_changed set_noroot p p';
  securebits_failed p e p' : prctl_securebits p = (Err e, p') → caller_changed id p p';
  ambient_ok p p' : prctl_ambient_clear p = (Ok (), p') → caller_changed (set_ambient ∅) p p';
  ambient_failed p e p' : prctl_ambient_clear p = (Err e, p') → caller_changed id p p';
  (* capset(2): the new permitted set is a subset of the old one *)
  set_proc_ok c p p' : cap_set_proc c p = (true, p') →
    caller_changed (set_caps c) p p' ∧
    ∀ t, thread p 0 = Some t → cap_permitted c ⊆ cap_permitted (th_caps t);
  set_proc_failed c p p' : cap_set_proc c p = (false, p') → caller_changed id p p';
  get_proc_caller p c : cap_get_proc p = Some c → th_caps <$> thread p 0 = Some c;
  cap_init_empty p c : cap_init p = Some c → c = cap_empty;
  set_flag_raises c f v c' : cap_set_flag c f v = Some c' → c' = cap_raise f v c;
  to_text_empty c s : cap_to_text c = Some s → s = lit "=" ↔ c = cap_empty;
  seccomp_init_default a f : seccomp_init a = Some f → f = mkFilter a [];
  rule_add_appends f a s f' : seccomp_rule_add f a s = Some f' →
    f' = mkFilter (sf_default f) (sf_rules f ++ [(a, s)]);
  (* without SCMP_FLTATR_CTL_TSYNC only the calling thread is filtered *)
  load_ok f p p' : seccomp_load f p = (true, p') → caller_changed (add_filter f) p p';
  load_failed f p p' : seccomp_load f p = (false, p') → caller_changed id p p';
}.

(** ** [privilege_drop.cpp] *)
Section security.
Context {P : Type} `{K : Kernel P}.

Definition apply_caps (target : caps) (p : P) : result cstring () * P :=
  let '(r, p) := prctl_securebits p in
  if match r with Ok _ => false | Err e => negb (e =? EINVAL) && negb (e =? EPERM) end
  then (Err (lit "prctl securebits failed"), p)
  else
    let '(ok, p) := cap_set_proc target p in
    if negb ok then (Err (lit "cap_set_proc failed"), p)
    else
      let '(r, p) := prctl_ambient_clear p in
      if match r with Ok _ => false | Err e => negb (e =? EINVAL) end
      then (Err (lit "prctl ambient clear failed"), p)
      else (Ok (), p).

(** The loop over [keep]; names reach libcap as C strings. *)
Fixpoint raise_all (keep : list cstring) (target : caps) : result cstring caps :=
  match keep with
  | [] => Ok target
  | name :: keep =>
      match cap_from_name (c_string name) with
      | None => Err (lit "unknown capability name")
      | Some value =>
          match cap_set_flag target CAP_PERMITTED value ≫=
                λ target, cap_set_flag target CAP_EFFECTIVE value with
          | None => Err (lit "cap_set_flag failed")
          | Some target => raise_all keep target
          end
      end
  end.

Definition drop_to (keep : list cstring) (p : P) : result cstring () * P :=
  match cap_get_proc p with
  | None => (Err (lit "cap_get_proc failed"), p)
  | Some _ =>
      match cap_init p with
      | None => (Err (lit "cap_init failed"), p)
      | Some target =>
          match raise_all keep target with
          | Err e => (Err e, p)
          | Ok target => apply_caps target p
          end
      end
  end.

Definition drop_all (p : P) : result cstring () * P := drop_to [] p.

Definition has_capabilities (p : P) : bool :=
  match cap_get_proc p with
  | None => false
  | Some c =>
      negb match cap_to_text c with Some text => text =s lit "=" | None => false end
  end.

(** ** [sandbox.cpp] *)
Definition kAllowed : list cstring := lit <$>
  ["accept4"; "bind"; "brk"; "clock_gettime"; "close"; "connect"; "epoll_create1";
   "epoll_ctl"; "epoll_pwait"; "epoll_wait"; "exit"; "exit_group"; "fcntl"; "fstat";
   "futex"; "getpid"; "getsockname"; "getsockopt"; "listen"; "lseek"; "madvise"; "mmap";
   "mprotect"; "munmap"; "nanosleep"; "openat"; "pipe2"; "poll"; "ppoll"; "read"; "readv";
   "recvfrom"; "recvmmsg"; "recvmsg"; "send"; "sendmmsg"; "sendmsg"; "sendto";
   "setsockopt"; "shutdown"; "sigaction"; "sigprocmask"; "socket"; "write"; "writev"]%string.

Fixpoint add_rules (syscalls : list cstring) (ctx : seccomp_filter) : option seccomp_filter :=
  match syscalls with
  | [] => Some ctx
  | s :: syscalls => seccomp_rule_add ctx SCMP_ACT_ALLOW s ≫= add_rules syscalls
  end.

Definition install (p : P) : result cstring () * P :=
  match seccomp_init (SCMP_ACT_ERRNO EPERM) with
  | None => (Err (lit "seccomp_init failed"), p)
  | Some ctx =>
      match add_rules kAllowed ctx with
      | None => (Err (lit "seccomp_rule_add failed"), p)
      | Some ctx =>
          let '(loaded, p) := seccomp_load ctx p in
          if loaded then (Ok (), p) else (Err (lit "seccomp_load failed"), p)
      end
  end.

(** The two calls at the end of [main]. *)
Definition secure_process (p : P) : bool * bool * P :=
  let '(dropped, p) := drop_all p in
  match dropped with
  | Err _ => (false, false, p)
  | Ok _ => let '(installed, p) := install p in (true, is_ok installed, p)
  end.

(** [main] up to [run]: [p] is the process once [Daemon::start] has returned,
    with the threads of the backends, the server and the store; the calls are
    made only when everything before them succeeded. *)
Definition main_secured `{JL : JsonLib} (argv : list cstring)
    (files : cstring → option cstring) (start_ok : Config → bool) (p : P) :
    result config_error main_outcome * P :=
  match main_program argv files start_ok true true with
  | Ok (RunsDaemon _) =>
      let '(dropped, sandboxed, p) := secure_process p in
      (main_program argv files start_ok dropped sandboxed, p)
  | r => (r, p)
  end.
End security.

(** ** Lemmas *)

(** The capabilities that a list of names stands for. *)
Definition named_caps `{Kernel P} (keep : list cstring) : gset Z :=
  list_to_set (omap (λ name, cap_from_name (c_string name)) keep).

Section laws.
Context {P : Type} `{KL : KernelLaws P}.
Implicit Types p : P.

Lemma caller_changed_refl p : caller_changed id p p.
Proof. split; [by destruct (thread p 0)|done]. Qed.

Lemma caller_changed_trans f g p1 p2 p3 :
  caller_changed f p1 p2 → caller_changed g p2 p3 → caller_changed (g ∘ f) p1 p3.
Proof.
  intros [H1 H2] [H3 H4]. split; [rewrite H3, H1; by destruct (thread p1 0)|].
  intros i Hi. by rewrite H4, H2.
Qed.

Lemma cap_raise_both v c :
  cap_raise CAP_EFFECTIVE v (cap_raise CAP_PERMITTED v c)
  = mkCaps ({[v]} ∪ cap_permitted c) ({[v]} ∪ cap_effective c) (cap_inheritable c).
Proof. done. Qed.

Lemma raise_all_spec keep c c' :
  raise_all keep c = Ok c' →
  c' = mkCaps (named_caps keep ∪ cap_permitted c) (named_caps keep ∪ cap_effective c)
         (cap_inheritable c)
  ∧ Forall (λ name, is_Some (cap_from_name (c_string name))) keep.
Proof.
  unfold named_caps. revert c. induction keep as [|name keep IH]; intros c; cbn [raise_all].
  { intros [= <-]. split; [|done]. cbn. rewrite !union_empty_l_L. by destruct c. }
  destruct (cap_from_name (c_string name)) as [v|] eqn:Hv; [|done].
  destruct (cap_set_flag c CAP_PERMITTED v) as [c1|] eqn:H1; cbn; [|done].
  destruct (cap_set_flag c1 CAP_EFFECTIVE v) as [c2|] eqn:H2; cbn; [|done].
  apply set_flag_raises in H1 as ->. apply set_flag_raises in H2 as ->.
  rewrite cap_raise_both. intros [-> Hk]%IH. split; [|by constructor].
  cbn. rewrite Hv. cbn. f_equal; set_solver.
Qed.

(** A thread before and after the drop to [target]: a drop that failed may have
    left the sets as they were. *)
Definition dropped_to (target : caps) (ok : bool) (t t' : thread_sec) : Prop :=
  th_filters t' = th_filters t ∧
  ((ok = false ∧ th_caps t' = th_caps t ∧ th_ambient t' = th_ambient t) ∨
   (th_caps t' = target ∧ cap_permitted target ⊆ cap_permitted (th_caps t) ∧
    th_ambient t' ⊆ th_ambient t ∩ cap_permitted target ∩ cap_inheritable target)).

(** The calling thread goes from [t] to a [t'] related by [R]; the others stay. *)
Definition caller_steps (R : thread_sec → thread_sec → Prop) (p p' : P) : Prop :=
  (∀ t, thread p 0 = Some t → ∃ t', thread p' 0 = Some t' ∧ R t t') ∧
  ∀ i, i ≠ 0%nat → thread p' i = thread p i.

Lemma caller_changed_steps f R p p' :
  caller_changed f p p' → (∀ t, thread p 0 = Some t → R t (f t)) → caller_steps R p p'.
Proof.
  intros [H1 H2] HR. split; [|done]. intros t Ht. rewrite Ht in H1. eauto.
Qed.

Lemma securebits_step p r p1 :
  prctl_securebits p = (r, p1) → ∃ g, caller_changed g p p1 ∧ ∀ t,
    th_caps (g t) = th_caps t ∧ th_filters (g t) = th_filters t ∧
    th_ambient (g t) = th_ambient t.
Proof.
  destruct r as [[]|e]; intros H; [apply securebits_ok in H|apply securebits_failed in H];
    by eexists.
Qed.

Lemma ambient_step p r p1 :
  prctl_ambient_clear p = (r, p1) → ∃ g, caller_changed g p p1 ∧ ∀ t,
    th_caps (g t) = th_caps t ∧ th_filters (g t) = th_filters t ∧
    th_ambient (g t) ⊆ th_ambient t.
Proof.
  destruct r as [[]|e]; intros H; [apply ambient_ok in H|apply ambient_failed in H];
    (eexists; split; [done|]; cbn; set_solver).
Qed.

Lemma apply_caps_steps target p r p' :
  apply_caps target p = (r, p') → caller_steps (dropped_to target (is_ok r)) p p'.
Proof.
  unfold apply_caps. destruct (prctl_securebits p) as [r1 p1] eqn:H1.
  destruct (securebits_step _ _ _ H1) as (g & Hg & Hgt).
  destruct (match r1 with Ok _ => _ | Err _ => _ end).
  { intros [= <- <-]. apply (caller_changed_steps g); [done|]. intros t _.
    destruct (Hgt t) as (? & ? & ?). split; [done|by left]. }
  destruct (cap_set_proc target p1) as [[] p2] eqn:H2; cbn [negb].
  2:{ apply set_proc_failed in H2. intros [= <- <-].
      apply (caller_changed_steps (id ∘ g)); [by eapply caller_changed_trans|].
      intros t _. destruct (Hgt t) as (? & ? & ?). split; [done|by left]. }
  apply set_proc_ok in H2 as [H2 Hsub].
  destruct (prctl_ambient_clear p2) as [r3 p3] eqn:H3.
  destruct (ambient_step _ _ _ H3) as (h & Hh & Hht).
  assert (caller_steps (dropped_to target true) p p3) as HS.
  { apply (caller_changed_steps (h ∘ (set_caps target ∘ g)));
      [eauto using caller_changed_trans|]. intros t Ht.
    destruct (Hgt t) as (E0 & Hf & Ha), (Hht (set_caps target (g t))) as (E1 & E2 & E3).
    destruct Hg as [Hg _]. rewrite Ht in Hg. apply Hsub in Hg. rewrite E0 in Hg.
    cbn in *. split; [by rewrite E2, Hf|]. right. by rewrite <-Ha. }
  destruct (match r3 with Ok _ => _ | Err _ => _ end); intros [= <- <-]; [|done].
  destruct HS as [HS HO]. split; [|done]. intros t Ht.
  destruct (HS t Ht) as (t' & ? & ? & [[]|]); [done|]. exists t'. by split; [|split; [|right]].
Qed.

(** Only the kept capabilities are left, and nothing can be raised again. *)
Definition kept_caps (keep : list cstring) : caps :=
  mkCaps (named_caps keep) (named_caps keep) ∅.

Lemma drop_to_steps keep p r p' :
  drop_to keep p = (r, p') → caller_steps (dropped_to (kept_caps keep) (is_ok r)) p p' ∧
    (is_ok r = true → Forall (λ name, is_Some (cap_from_name (c_string name))) keep ∧
       is_Some (thread p 0)).
Proof.
  assert (∀ e p, caller_steps (dropped_to (kept_caps keep) (is_ok (A := ()) (Err (E := cstring) e)))
    p p) as Hid.
  { intros e q. apply (caller_changed_steps id); [apply caller_changed_refl|].
    intros t _. split; [done|by left]. }
  unfold drop_to. destruct (cap_get_proc p) as [c0|] eqn:H0; [|by intros [= <- <-]].
  destruct (cap_init p) as [target|] eqn:H1; [|by intros [= <- <-]].
  apply cap_init_empty in H1 as ->.
  destruct (raise_all keep cap_empty) as [target|e] eqn:H2; [|by intros [= <- <-]].
  apply raise_all_spec in H2 as [-> Hk]. cbn. rewrite !union_empty_r_L.
  intros H%apply_caps_steps. split; [done|]. intros _. split; [done|].
  apply get_proc_caller in H0. by destruct (thread p 0).
Qed.

(** Dropping privileges never adds a capability to any thread and touches
    only the calling one: whatever call fails, that thread ends with the sets it
    had or with exactly the kept capabilities, and when the drop succeeds every
    name was known, the permitted and effective sets are exactly the kept
    capabilities and the inheritable and ambient sets are empty. *)
Theorem drop_to_exact keep p r p' :
  drop_to keep p = (r, p') →
  (∀ i, i ≠ 0%nat → thread p' i = thread p i) ∧
  (∀ t, thread p 0 = Some t → ∃ t', thread p' 0 = Some t' ∧
    th_filters t' = th_filters t ∧
    cap_permitted (th_caps t') ⊆ cap_permitted (th_caps t) ∧
    th_ambient t' ⊆ th_ambient t ∧
    (th_caps t' = th_caps t ∨ th_caps t' = kept_caps keep)) ∧
  (r = Ok () → ∃ t', thread p' 0 = Some t' ∧
    th_caps t' = kept_caps keep ∧ th_ambient t' = ∅ ∧
    Forall (λ name, is_Some (cap_from_name (c_string name))) keep).
Proof.
  intros [[HS HO] Hok]%drop_to_steps. split_and!; [done| |].
  - intros t Ht. destruct (HS t Ht) as (t' & Ht' & Hf & H). exists t'.
    destruct H as [(_ & E & E')|(E & Hsub & Ha)]; rewrite E;
      (split_and!; [done..|set_solver|auto]).
  - intros ->. destruct (Hok eq_refl) as [Hk [t Ht]].
    destruct (HS t Ht) as (t' & Ht' & _ & [[]|(E & _ & Ha)]); [done|].
    exists t'. split_and!; [done..| |done]. cbn in Ha. set_solver.
Qed.
(** The filter that [install] builds from its table. *)
Definition allow_filter : seccomp_filter :=
  mkFilter (SCMP_ACT_ERRNO EPERM) ((λ s, (SCMP_ACT_ALLOW, s)) <$> kAllowed).

Lemma add_rules_spec syscalls ctx ctx' :
  add_rules syscalls ctx = Some ctx' →
  ctx' = mkFilter (sf_default ctx)
           (sf_rules ctx ++ ((λ s, (SCMP_ACT_ALLOW, s)) <$> syscalls)).
Proof.
  revert ctx. induction syscalls as [|s syscalls IH]; intros ctx; cbn [add_rules].
  { intros [= <-]. cbn. rewrite app_nil_r. by destruct ctx. }
  destruct (seccomp_rule_add ctx SCMP_ACT_ALLOW s) as [ctx1|] eqn:H1; cbn; [|done].
  apply rule_add_appends in H1 as ->. intros ->%IH. cbn. by rewrite <-app_assoc.
Qed.

(** A table of permitted calls permits exactly them. *)
Lemma allow_table_spec d syscalls s :
  d ≠ SCMP_ACT_ALLOW →
  bool_decide (filter_action (mkFilter d ((λ s, (SCMP_ACT_ALLOW, s)) <$> syscalls)) s
               = SCMP_ACT_ALLOW) = mem s syscalls.
Proof.
  intros Hd. unfold filter_action. cbn [sf_rules sf_default].
  destruct (find_pred _ _) as [i|] eqn:Hi.
  - apply find_pred_Some in Hi as ([a n] & l1 & l2 & Hl & <- & Hn%str_eqb_eq & _).
    assert ((a, n) ∈ (λ s, (SCMP_ACT_ALLOW, s)) <$> syscalls) as Hin
      by (rewrite Hl; set_solver).
    rewrite Hl, list_lookup_middle by done. cbn in *. subst n.
    apply list_elem_of_fmap in Hin as (? & [= -> <-] & Hin).
    rewrite bool_decide_true by done. symmetry. by apply mem_spec.
  - rewrite bool_decide_false by done. symmetry. apply mem_false. intros Hin.
    apply find_pred_None in Hi. rewrite Forall_forall in Hi.
    specialize (Hi (SCMP_ACT_ALLOW, s)). rewrite str_eqb_neq in Hi. apply Hi; [|done].
    by apply (list_elem_of_fmap_2 (λ s, (SCMP_ACT_ALLOW, s))).
Qed.

Lemma install_steps p r p' :
  install p = (r, p') →
  caller_changed (if is_ok r then add_filter allow_filter else id) p p'.
Proof.
  unfold install. destruct (seccomp_init _) as [ctx|] eqn:H1.
  2:{ intros [= <- <-]. apply caller_changed_refl. }
  apply seccomp_init_default in H1 as ->.
  destruct (add_rules _ _) as [ctx|] eqn:H2.
  2:{ intros [= <- <-]. apply caller_changed_refl. }
  apply add_rules_spec in H2 as ->.
  destruct (seccomp_load _ p) as [[] p1] eqn:H3; intros [= <- <-].
  - by apply load_ok in H3.
  - by apply load_failed in H3.
Qed.

(** The process in front of [run]. *)
Lemma secure_process_spec p p' :
  secure_process p = (true, true, p') →
  (∃ t t', thread p 0 = Some t ∧ thread p' 0 = Some t' ∧
     th_caps t' = cap_empty ∧ th_ambient t' = ∅ ∧
     ∀ s, th_permits t' s = mem s kAllowed && th_permits t s) ∧
  ∀ i, i ≠ 0%nat → thread p' i = thread p i.
Proof.
  unfold secure_process, drop_all. destruct (drop_to [] p) as [r p1] eqn:H1.
  destruct r as [[]|]; [|done].
  apply drop_to_steps in H1 as [[HS HO] Hok]. destruct (Hok eq_refl) as [_ [t Ht]].
  destruct (HS t Ht) as (t1 & Ht1 & Hf & [[]|(Ec & _ & Ea)]); [done|].
  destruct (install p1) as [[[]|] p2] eqn:H2; [|done]. intros [= <-].
  apply install_steps in H2 as [H2 HO2]. cbn in H2. rewrite Ht1 in H2. split.
  - exists t, (add_filter allow_filter t1). split_and!; [done..| |].
    + cbn in *. set_solver.
    + intros s. unfold th_permits. cbn [th_filters add_filter forallb].
      by rewrite Hf, <-(allow_table_spec (SCMP_ACT_ERRNO EPERM) kAllowed s).
  - intros i Hi. by rewrite HO2, HO.
Qed.

Lemma main_secured_runs (JL : JsonLib) argv files start_ok p c p' :
  main_secured argv files start_ok p = (Ok (RunsDaemon c), p') →
  secure_process p = (true, true, p') ∧
  main_program argv files start_ok true true = Ok (RunsDaemon c).
Proof.
  unfold main_secured. destruct (main_program argv files start_ok true true)
    as [[|c']|] eqn:H; [done| |done].
  destruct (secure_process p) as [[d i] p1].
  intros [H1 ->]%pair_equal_spec. destruct d, i; [by rewrite H1 in H| | |];
    exfalso; revert H1; revert H; unfold main_program;
    repeat (case_match; try done).
Qed.

(** C32: The daemon enters its run loop only after the thread of [main] has lost
    every permitted, effective, inheritable and ambient capability and is under a
    filter that permits exactly the system calls of the table (of those it was
    permitted before).  This reaches no further than that thread: the threads that
    [Daemon::start] made, which read packets and serve clients, run on with the
    capabilities and the system calls that they had. *)
Theorem main_thread_confined (JL : JsonLib) argv files start_ok p c p' :
  main_secured argv files start_ok p = (Ok (RunsDaemon c), p') →
  (∃ t t', thread p 0 = Some t ∧ thread p' 0 = Some t' ∧
    th_caps t' = cap_empty ∧ th_ambient t' = ∅ ∧
    ∀ s, th_permits t' s = mem s kAllowed && th_permits t s) ∧
  ∀ i, i ≠ 0%nat → thread p' i = thread p i.
Proof. intros [H _]%main_secured_runs. by apply secure_process_spec. Qed.

(** The table lacks the call with which [UnixSocketServer::stop], run by the
    confined thread at the end of [Daemon::run], removes the socket file, and the
    one with which a signal handler returns. *)
Theorem sandbox_denies_unlink (JL : JsonLib) argv files start_ok p c p' :
  main_secured argv files start_ok p = (Ok (RunsDaemon c), p') →
  ∃ t, thread p' 0 = Some t ∧ th_permits t (lit "unlink") = false ∧
    th_permits t (lit "unlinkat") = false ∧ th_permits t (lit "rt_sigreturn") = false.
Proof.
  intros [H _]%main_secured_runs.
  apply secure_process_spec in H as [(t & t' & _ & H & _ & _ & Hp) _].
  exists t'. split; [done|]. by repeat split; rewrite Hp.
Qed.

(** After a drop the status check finds nothing, unless it cannot format the
    sets. *)
Lemma has_capabilities_dropped p p' :
  drop_all p = (Ok (), p') → has_capabilities p' = true → cap_to_text cap_empty = None.
Proof.
  intros [[HS _] Hok]%drop_to_steps. destruct (Hok eq_refl) as [_ [t Ht]].
  destruct (HS t Ht) as (t' & Ht' & _ & [[]|(E & _ & _)]); [done|].
  unfold has_capabilities. destruct (cap_get_proc p') as [c|] eqn:Hc; [|done].
  apply get_proc_caller in Hc. rewrite Ht' in Hc. cbn in Hc. injection Hc as <-. rewrite E.
  change (kept_caps []) with cap_empty.
  destruct (cap_to_text cap_empty) as [s|] eqn:Hs; [|done].
  apply to_text_empty in Hs. destruct Hs as [_ Hs]. rewrite Hs, str_eqb_refl by done. done.
Qed.
End laws.

(** ** A kernel on which every call is permitted that the manual allows *)
Module Simple.
Definition proc := list thread_sec.

Definition on_caller (f : thread_sec → thread_sec) (p : proc) : proc :=
  match p with t :: p => f t :: p | [] => [] end.

Definition may_set (c : caps) (p : proc) : bool :=
  match p with
  | t :: _ => bool_decide (cap_permitted c ⊆ cap_permitted (th_caps t))
  | [] => false
  end.

#[global] Instance caps_eq_dec : EqDecision caps.
Proof. solve_decision. Defined.

Definition names : list (cstring * Z) :=
  [(lit "cap_net_admin", 12); (lit "cap_net_raw", 13); (lit "cap_sys_admin", 21)].

#[global] Instance kernel : Kernel proc := {
  thread p i := p !! i;
  prctl_securebits p := (Err EPERM, p);
  prctl_ambient_clear p := (Ok (), on_caller (set_ambient ∅) p);
  cap_set_proc c p := if may_set c p then (true, on_caller (set_caps c) p) else (false, p);
  cap_get_proc p := th_caps <$> head p;
  cap_init _ := Some cap_empty;
  cap_from_name n := snd <$> list_find (λ r, r.1 = n) names ≫= λ r, Some r.2;
  cap_set_flag c f v := Some (cap_raise f v c);
  cap_to_text c := Some (if decide (c = cap_empty) then lit "=" else lit "=ep");
  seccomp_init a := Some (mkFilter a []);
  seccomp_rule_add f a s := Some (mkFilter (sf_default f) (sf_rules f ++ [(a, s)]));
  seccomp_load f p := (true, on_caller (add_filter f) p);
}.

Lemma on_caller_changed f (p : proc) : caller_changed f p (on_caller f p).
Proof. split; destruct p; [done..|]. cbn. by intros [|i] Hi. Qed.

#[global] Instance laws : KernelLaws proc.
Proof.
  split; cbn.
  - done.
  - intros p e p' [= <- <-]. apply (caller_changed_refl (P := proc)).
  - intros p p' [= <-]. apply on_caller_changed.
  - done.
  - intros c p p'. destruct (may_set c p) eqn:E; [|done]. intros [= <-].
    split; [apply on_caller_changed|]. destruct p as [|t p]; [done|].
    cbn in *. intros ? [= <-]. by apply bool_decide_eq_true in E.
  - intros c p p'. destruct (may_set c p); [done|]. intros [= <-].
    apply (caller_changed_refl (P := proc)).
  - intros [|t p] c; cbn; [done|]. by intros [= <-].
  - by intros p c [= <-].
  - by intros c f v c' [= <-].
  - intros c s [= <-]. by destruct (decide (c = cap_empty)).
  - by intros a f [= <-].
  - by intros f a s f' [= <-].
  - intros f p p' [= <-]. apply on_caller_changed.
  - done.
Qed.

(** A root process with a capture thread, as [Daemon::start] leaves it. *)
Definition root_thread : thread_sec :=
  mkThread (mkCaps (list_to_set [12; 13; 21]) (list_to_set [12; 13; 21]) ∅) ∅ false [].
Definition started : proc := [root_thread; root_thread].
End Simple.

Lemma drop_to_exact_witness :
  (drop_to [lit "cap_net_raw"] Simple.started).1 = Ok () ∧
  (∃ t', thread (drop_to [lit "cap_net_raw"] Simple.started).2 0 = Some t' ∧
     th_caps t' = mkCaps {[13]} {[13]} ∅).
Proof.
  split; [vm_compute; reflexivity|].
  destruct (drop_to_exact [lit "cap_net_raw"] Simple.started (Ok ())
    (drop_to [lit "cap_net_raw"] Simple.started).2) as (_ & _ & H);
    [vm_compute; reflexivity|].
  destruct (H eq_refl) as (t' & Ht' & E & _). exists t'. split; [exact Ht'|].
  etransitivity; [exact E|]. vm_compute. reflexivity.
Defined.

Definition empty_config_text : cstring :=
  default [] (json_dump (JsonLib := TreeJson.lib) (JObject [])).

Lemma main_thread_confined_witness :
  ∃ p', main_secured (JL := TreeJson.lib) [] (λ _, Some empty_config_text) (λ _, true)
      Simple.started = (Ok (RunsDaemon default_Config), p') ∧
  (∃ t', thread p' 0 = Some t' ∧ th_permits t' (lit "read") = true ∧
    th_permits t' (lit "execve") = false) ∧
  thread p' 1 = Some Simple.root_thread.
Proof.
  eexists. assert (main_secured (JL := TreeJson.lib) [] (λ _, Some empty_config_text)
    (λ _, true) Simple.started = (Ok (RunsDaemon default_Config), _)) as E
    by (vm_compute; reflexivity). split; [exact E|].
  destruct (main_thread_confined TreeJson.lib [] (λ _, Some empty_config_text) (λ _, true)
    Simple.started default_Config _ E) as [(t & t' & Ht & Ht' & _ & _ & Hp) Hw].
  split; [|exact (Hw 1%nat ltac:(lia))].
  exists t'. split; [exact Ht'|]. rewrite !Hp. injection Ht as <-.
  split; vm_compute; reflexivity.
Defined.
