(* ===== verification/BpfPrograms.v ===== *)
(** * The BPF programs ([ebpf/src/*.bpf.c])

    A program runs on a task and a socket or packet, reserves a record in the
    ring buffer, fills it and submits it.  A reserved record holds whatever the
    ring buffer held there before, so the record types below are given with all
    their bytes, the padding included, and a program maps the reserved record to
    the submitted one.  [*_bytes] lays a record out in memory; the user-space
    side that reads it is [EbpfCapture]. *)
From S2P Require Import Prelude Double Types Time PacketParser PcapCapture EbpfCapture.
Open Scope Z_scope.

(** ** Records of the ring buffer *)

Fixpoint le_bytes (n : nat) (v : Z) : list Z :=
  match n with O => [] | S n => u8 v :: le_bytes n (Z.shiftr v 8) end.

(** The header has two reserved bytes after [tag] and, for the alignment of
    [timestamp_ns], four bytes that belong to no field. *)
Definition header_bytes (h : ezcap_event_header) (pad0 : Z) (hole : list Z) : list Z :=
  le_bytes 1 (h_version h) ++ le_bytes 1 (h_tag h) ++ le_bytes 2 pad0 ++ le_bytes 4 (h_pid h)
  ++ le_bytes 4 (h_uid h) ++ hole ++ le_bytes 8 (h_timestamp_ns h).

Record connect_record := mkConnectRec {
  cr_event : ezcap_socket_event;
  cr_hdr_pad0 : Z; cr_hole : list Z;
  cr_pad0 : Z;
}.

(** The part that the connect and the socket-state structure have in common. *)
Definition socket_prefix (e : ezcap_socket_event) (pad0 : Z) (hole : list Z) (b71 : Z) :
    list Z :=
  header_bytes (c_hdr e) pad0 hole ++ c_local_addr4 e ++ c_remote_addr4 e
  ++ c_local_addr6 e ++ c_remote_addr6 e ++ le_bytes 2 (c_local_port e)
  ++ le_bytes 2 (c_remote_port e) ++ le_bytes 1 (c_transport e)
  ++ le_bytes 1 (c_direction e) ++ le_bytes 1 (c_is_ipv6 e) ++ le_bytes 1 b71.

Definition connect_bytes (r : connect_record) : list Z :=
  socket_prefix (cr_event r) (cr_hdr_pad0 r) (cr_hole r) (cr_pad0 r)
  ++ c_ifname (cr_event r).

Record state_record := mkStateRec {
  sr_event : ezcap_socket_event;
  sr_hdr_pad0 : Z; sr_hole : list Z;
  sr_new_state : Z; sr_duration_ns : Z; sr_bytes_tx : Z; sr_bytes_rx : Z;
}.

Definition state_bytes (r : state_record) : list Z :=
  socket_prefix (sr_event r) (sr_hdr_pad0 r) (sr_hole r) (sr_new_state r)
  ++ le_bytes 8 (sr_duration_ns r) ++ le_bytes 8 (sr_bytes_tx r)
  ++ le_bytes 8 (sr_bytes_rx r) ++ c_ifname (sr_event r).

Record dns_record := mkDnsRec {
  dr_event : ezcap_dns_event;
  dr_hdr_pad0 : Z; dr_hole : list Z;
  dr_pad0 : Z; dr_tail : list Z;
}.

Definition dns_bytes (r : dns_record) : list Z :=
  let e := dr_event r in
  header_bytes (d_hdr e) (dr_hdr_pad0 r) (dr_hole r) ++ d_local_addr4 e
  ++ d_local_addr6 e ++ le_bytes 2 (d_local_port e) ++ le_bytes 2 (dr_pad0 r)
  ++ le_bytes 1 (d_is_ipv6 e) ++ le_bytes 1 (d_transport e) ++ le_bytes 2 (d_query_len e)
  ++ d_query_name e ++ d_ifname e ++ dr_tail r.

(** ** The context of a program *)

(** What [bpf_get_current_pid_tgid], [bpf_get_current_uid_gid] and
    [bpf_ktime_get_ns] return. *)
Record task := mkTask { pid_tgid : Z; uid_gid : Z; ktime_ns : Z }.

(** What the CO-RE reads deliver: addresses in network order, the remote port in
    network byte order, the local port in host order.  The read into the 64-bit
    [issued_at] takes the eight bytes at [sk_txhash]. *)
Record sock := mkSock {
  skc_rcv_saddr : list Z; skc_daddr : list Z;
  skc_v6_rcv_saddr : list Z; skc_v6_daddr : list Z;
  skc_dport : Z; skc_num : Z; sk_at_txhash : Z;
}.

(** [protocol] is in network byte order; [data] is what lies between [data] and
    [data_end]. *)
Record sk_buff := mkSkb { skb_protocol : Z; skb_len : Z; skb_data : list Z }.

(** [__builtin_bswap16], and [bpf_htons] and [bpf_ntohs] on a little-endian
    machine. *)
Definition bswap16 (z : Z) : Z :=
  Z.lor (Z.shiftl (Z.land z 255) 8) (Z.land (Z.shiftr z 8) 255).

(** [fill_header], and the copies of it for the other two tags. *)
Definition fill_header (tag : Z) (t : task) : ezcap_event_header :=
  mkHeader EZCAP_EVENT_VERSION tag (u32 (Z.shiftr (pid_tgid t) 32)) (u32 (uid_gid t))
    (ktime_ns t).
Definition fill_dns_header : task → ezcap_event_header := fill_header EZCAP_EVENT_TAG_DNS.
Definition fill_socket_header : task → ezcap_event_header :=
  fill_header EZCAP_EVENT_TAG_SOCKET_STATE.

(** [ev->ifname[0] = '\0'] *)
Definition clear_name (name : list Z) : list Z := <[0%nat := 0]> name.

(** ** [connect.bpf.c]; [slot] is what [bpf_ringbuf_reserve] returned. *)
Definition ezcap_tcp_v4_connect (t : task) (sk : sock) (slot : option connect_record) :
    option connect_record :=
  ev ← slot;
  Some {| cr_event :=
            {| c_hdr := fill_header EZCAP_EVENT_TAG_CONNECT t;
               c_remote_addr4 := skc_rcv_saddr sk;
               c_local_addr4 := skc_daddr sk;
               c_local_addr6 := c_local_addr6 (cr_event ev);
               c_remote_addr6 := c_remote_addr6 (cr_event ev);
               c_local_port := skc_num sk;
               c_remote_port := bswap16 (skc_dport sk);
               c_transport := 6; c_direction := 1; c_is_ipv6 := 0;
               c_ifname := clear_name (c_ifname (cr_event ev)) |};
          cr_hdr_pad0 := 0; cr_hole := cr_hole ev; cr_pad0 := 0 |}.

Definition ezcap_tcp_v6_connect (t : task) (sk : sock) (slot : option connect_record) :
    option connect_record :=
  ev ← slot;
  Some {| cr_event :=
            {| c_hdr := fill_header EZCAP_EVENT_TAG_CONNECT t;
               c_remote_addr4 := c_remote_addr4 (cr_event ev);
               c_local_addr4 := c_local_addr4 (cr_event ev);
               c_local_addr6 := skc_v6_rcv_saddr sk;
               c_remote_addr6 := skc_v6_daddr sk;
               c_local_port := skc_num sk;
               c_remote_port := bswap16 (skc_dport sk);
               c_transport := 6; c_direction := 1; c_is_ipv6 := 1;
               c_ifname := clear_name (c_ifname (cr_event ev)) |};
          cr_hdr_pad0 := 0; cr_hole := cr_hole ev; cr_pad0 := 0 |}.

(** ** [socket_state.bpf.c] *)
Definition ezcap_tcp_destroy_sock (t : task) (sk : sock) (slot : option state_record) :
    option state_record :=
  ev ← slot;
  let hdr := fill_socket_header t in
  let issued_at := sk_at_txhash sk in
  Some {| sr_event :=
            {| c_hdr := hdr;
               c_local_addr4 := skc_rcv_saddr sk;
               c_remote_addr4 := skc_daddr sk;
               c_local_addr6 := skc_v6_rcv_saddr sk;
               c_remote_addr6 := skc_v6_daddr sk;
               c_local_port := skc_num sk;
               c_remote_port := bswap16 (skc_dport sk);
               c_transport := 6; c_direction := 1;
               c_is_ipv6 := if le_value (skc_rcv_saddr sk) =? 0 then 1 else 0;
               c_ifname := clear_name (c_ifname (sr_event ev)) |};
          sr_hdr_pad0 := 0; sr_hole := sr_hole ev; sr_new_state := 7;
          sr_duration_ns :=
            if issued_at <? h_timestamp_ns hdr then h_timestamp_ns hdr - issued_at else 0;
          sr_bytes_tx := 0; sr_bytes_rx := 0 |}.

(** ** [dns.bpf.c] *)

(** [out] after a copy: all bytes went in and [o] is the next position, or the
    name was rejected on the way.  [None] is an access outside the packet or
    outside [query_name].  Positions are below 1024 (the caller limits
    [payload_len] to 512), so the 32-bit counters do not wrap. *)
Inductive copied := Copied (o : nat) (out : list Z) | Rejected (out : list Z).

Definition store (out : list Z) (o : nat) (b : Z) : option (list Z) :=
  if (o <? length out)%nat then Some (<[o := b]> out) else None.

Definition name_full (o : nat) : bool := (EZCAP_DNS_NAME_MAX - 1 <=? o)%nat.

(** The inner loop; [n] bytes are left and [p] is [i + j]. *)
Fixpoint copy_bytes (n : nat) (payload : list Z) (payload_len p o : nat) (out : list Z) :
    option copied :=
  match n with
  | O => Some (Copied o out)
  | S n =>
      if name_full o then Some (Rejected out)
      else if (payload_len <=? p)%nat then Some (Rejected out)
      else
        b ← payload !! p;
        out ← store out o b;
        copy_bytes n payload payload_len (S p) (S o) out
  end.

(** [if (o > 0) { ...; out[o++] = '.'; }] *)
Definition put_dot (o : nat) (out : list Z) : option copied :=
  if (0 <? o)%nat then
    if name_full o then Some (Rejected out)
    else out ← store out o (ord "."); Some (Copied (S o) out)
  else Some (Copied o out).

(** The outer loop; [hops] labels are still allowed. *)
Fixpoint copy_labels (hops : nat) (payload : list Z) (payload_len i o : nat)
    (out : list Z) : option copied :=
  match hops with
  | O => Some (Copied o out)
  | S hops =>
      if (i <? payload_len)%nat then
        label_len ← payload !! i;
        if label_len =? 0 then Some (Copied o out)
        else if negb (Z.land label_len 0xC0 =? 0) || (63 <? label_len)
        then Some (Rejected out)
        else if (payload_len <? S i + Z.to_nat label_len)%nat then Some (Rejected out)
        else
          dotted ← put_dot o out;
          match dotted with
          | Rejected out => Some (Rejected out)
          | Copied o out =>
              r ← copy_bytes (Z.to_nat label_len) payload payload_len (S i) o out;
              match r with
              | Rejected out => Some (Rejected out)
              | Copied o out =>
                  copy_labels hops payload payload_len (S i + Z.to_nat label_len) o out
              end
          end
      else Some (Copied o out)
  end.

(** The length of the name or [-1], and the contents of [out]. *)
Definition copy_qname (payload : list Z) (payload_len : nat) (out : list Z) :
    option (Z * list Z) :=
  r ← copy_labels 128 payload payload_len 0 0 out;
  match r with
  | Rejected out => Some (-1, out)
  | Copied o out => out ← store out o 0; Some (Z.of_nat o, out)
  end.

Definition sizeof_iphdr : Z := 20.
Definition sizeof_udphdr : Z := 8.
Definition sizeof_dns_header : Z := 12.

(** The bytes after the DNS header that the UDP length announces. *)
Definition question_len (udp_len skb_len udp_off : Z) : Z :=
  Z.min 512 (if udp_len <? sizeof_udphdr + sizeof_dns_header
             then u32 (skb_len - udp_off)
             else udp_len - sizeof_udphdr - sizeof_dns_header).

(** The record once every field but the name is set. *)
Definition dns_fields (t : task) (saddr : list Z) (sport : Z) (ev : dns_record) : dns_record :=
  {| dr_event :=
       {| d_hdr := fill_dns_header t;
          d_local_addr4 := saddr;
          d_local_addr6 := d_local_addr6 (dr_event ev);
          d_local_port := sport; d_is_ipv6 := 0; d_transport := 17; d_query_len := 0;
          d_query_name := clear_name (d_query_name (dr_event ev));
          d_ifname := clear_name (d_ifname (dr_event ev)) |};
     dr_hdr_pad0 := 0; dr_hole := dr_hole ev; dr_pad0 := 0; dr_tail := dr_tail ev |}.

Definition set_query (len : Z) (name : list Z) (r : dns_record) : dns_record :=
  let e := dr_event r in
  mkDnsRec (mkDns (d_hdr e) (d_local_addr4 e) (d_local_addr6 e) (d_local_port e)
              (d_is_ipv6 e) (d_transport e) len name (d_ifname e))
    (dr_hdr_pad0 r) (dr_hole r) (dr_pad0 r) (dr_tail r).

(** The checks in front of the reservation: the source address and port, the
    bytes at [qname] and how many of them are announced.  [None] is a read
    outside the packet, [Some None] an early [return 0]. *)
Definition dns_question (skb : sk_buff) : option (option (list Z * Z * list Z * nat)) :=
  let data := skb_data skb in
  let size := zlen data in
  if negb (skb_protocol skb =? bswap16 kEthTypeIp4)
     && negb (skb_protocol skb =? bswap16 kEthTypeIp6) then Some None
  else if size <? sizeof_iphdr then Some None
  else
    first ← read_le data 0 1;
    protocol ← read_le data 9 1;
    saddr ← read_bytes data 12 4;
    let ihl := Z.land first 0x0F * 4 in
    if negb (protocol =? kProtoUdp) then Some None
    else if (ihl <? 20) || (size <? ihl + sizeof_udphdr) then Some None
    else
      source ← read_le data (Z.to_nat ihl) 2;
      dest ← read_le data (Z.to_nat ihl + 2) 2;
      len ← read_le data (Z.to_nat ihl + 4) 2;
      let sport := bswap16 source in
      if negb (sport =? kDnsPort) && negb (bswap16 dest =? kDnsPort) then Some None
      else
        let udp_off := ihl + sizeof_udphdr in
        if size <? udp_off + sizeof_dns_header then Some None
        else
          qdcount ← read_le data (Z.to_nat udp_off + 4) 2;
          if bswap16 qdcount <? 1 then Some None
          else
            Some (Some (saddr, sport,
              drop (Z.to_nat (udp_off + sizeof_dns_header)) data,
              Z.to_nat (question_len (bswap16 len) (skb_len skb) udp_off))).

Definition ezcap_dns_trace (t : task) (skb : sk_buff) (slot : option dns_record) :
    option (option dns_record) :=
  q ← dns_question skb;
  match q, slot with
  | Some (saddr, sport, qname, payload_len), Some ev =>
      let ev := dns_fields t saddr sport ev in
      '(n, name) ← copy_qname qname payload_len (d_query_name (dr_event ev));
      Some (Some (set_query (if 0 <=? n then u16 (n + 1) else 0) name ev))
  | _, _ => Some None
  end.

(** ** Layout lemmas *)
Lemma le_value_bytes n v : le_value (le_bytes n v) = v mod 2 ^ (8 * Z.of_nat n).
Proof.
  unfold le_value. revert v. induction n as [|n IH]; intros v; cbn [le_bytes foldr].
  { by rewrite Z.mod_1_r. }
  rewrite IH, Z.shiftl_mul_pow2, Z.shiftr_div_pow2 by lia. unfold u8.
  replace (8 * Z.of_nat (S n)) with (8 + 8 * Z.of_nat n) by lia.
  rewrite Z.pow_add_r, Z.rem_mul_r by lia. lia.
Qed.

(** Byte lists whose length is known, found by instance search. *)
Class HasLen (l : list Z) (n : nat) : Prop := has_len : length l = n.

#[global] Instance le_bytes_len n v : HasLen (le_bytes n v) n.
Proof.
  unfold HasLen. revert v. induction n as [|n IH]; intros v; [done|].
  cbn [le_bytes length]. by rewrite IH.
Qed.
#[global] Instance app_len a b n m : HasLen a n → HasLen b m → HasLen (a ++ b) (n + m).
Proof. unfold HasLen. rewrite length_app. lia. Qed.
#[global] Instance clear_name_len a n : HasLen a n → HasLen (clear_name a) n.
Proof. unfold HasLen, clear_name. by rewrite length_insert. Qed.

Lemma zlen_has l n : HasLen l n → zlen l = Z.of_nat n.
Proof. unfold zlen. by intros <-. Qed.

Lemma read_skip a k b o n :
  HasLen a k → (k ≤ o)%nat → read_bytes (a ++ b) o n = read_bytes b (o - k) n.
Proof.
  intros <- Hk. unfold read_bytes. rewrite length_app, drop_app_ge by done.
  destruct (Nat.leb_spec (o + n) (length a + length b)),
    (Nat.leb_spec (o - length a + n) (length b)); first [done|lia].
Qed.

Lemma read_here a k b : HasLen a k → read_bytes (a ++ b) 0 k = Some a.
Proof.
  intros <-. unfold read_bytes. rewrite length_app, drop_0, take_app_length.
  by rewrite (proj2 (Nat.leb_le _ _)) by lia.
Qed.

Lemma read_last a k : HasLen a k → read_bytes a 0 k = Some a.
Proof. intros H. rewrite <-(app_nil_r a) at 1. by apply read_here. Qed.

(** Read the fields of a layout one after the other. *)
Ltac read_layout :=
  repeat (progress cbn [mbind option_bind fmap option_fmap option_map Nat.sub]
    || (rewrite read_here by apply _) || (rewrite read_last by apply _)
    || (erewrite read_skip by (apply _ || lia))).

Definition wf_header (h : ezcap_event_header) : Prop :=
  0 ≤ h_version h < 256 ∧ 0 ≤ h_tag h < 256 ∧ 0 ≤ h_pid h < 2 ^ 32 ∧
  0 ≤ h_uid h < 2 ^ 32 ∧ 0 ≤ h_timestamp_ns h < 2 ^ 64.

#[global] Instance header_bytes_len h pad0 hole :
  HasLen hole 4 → HasLen (header_bytes h pad0 hole) 24.
Proof.
  intros H. unfold header_bytes.
  change 24%nat with (1 + (1 + (2 + (4 + (4 + (4 + 8))))))%nat. apply _.
Qed.

Lemma le_value_small n v :
  0 ≤ v < 2 ^ (8 * Z.of_nat n) → le_value (le_bytes n v) = v.
Proof. intros H. by rewrite le_value_bytes, Z.mod_small. Qed.

Lemma read_header_bytes h pad0 hole rest :
  wf_header h → HasLen hole 4 → read_header (header_bytes h pad0 hole ++ rest) = Some h.
Proof.
  intros (H1 & H2 & H3 & H4 & H5) Hh. unfold read_header, read_le, header_bytes.
  rewrite <-!(assoc_L (++)). read_layout. rewrite !le_value_small by done. by destruct h.
Qed.

(** The sizes and ranges the C types give to every structure. *)
Definition wf_socket (e : ezcap_socket_event) : Prop :=
  wf_header (c_hdr e) ∧
  HasLen (c_local_addr4 e) 4 ∧ HasLen (c_remote_addr4 e) 4 ∧
  HasLen (c_local_addr6 e) 16 ∧ HasLen (c_remote_addr6 e) 16 ∧
  HasLen (c_ifname e) EZCAP_IFNAME_MAX ∧
  0 ≤ c_local_port e < 2 ^ 16 ∧ 0 ≤ c_remote_port e < 2 ^ 16 ∧
  0 ≤ c_transport e < 256 ∧ 0 ≤ c_direction e < 256 ∧ 0 ≤ c_is_ipv6 e < 256.

Definition wf_dns (e : ezcap_dns_event) : Prop :=
  wf_header (d_hdr e) ∧
  HasLen (d_local_addr4 e) 4 ∧ HasLen (d_local_addr6 e) 16 ∧
  HasLen (d_query_name e) EZCAP_DNS_NAME_MAX ∧ HasLen (d_ifname e) EZCAP_IFNAME_MAX ∧
  0 ≤ d_local_port e < 2 ^ 16 ∧ 0 ≤ d_is_ipv6 e < 256 ∧ 0 ≤ d_transport e < 256 ∧
  0 ≤ d_query_len e < 2 ^ 16.

(** [mid] is what the socket-state structure has in front of [ifname]. *)
Lemma read_socket_bytes e pad0 hole b71 mid k :
  wf_socket e → HasLen hole 4 → HasLen mid k →
  let data := socket_prefix e pad0 hole b71 ++ mid ++ c_ifname e in
  read_header data = Some (c_hdr e) ∧
  read_socket_event (72 + k) data = Some e ∧ zlen data = Z.of_nat (88 + k).
Proof.
  intros (Hh & H1 & H2 & H3 & H4 & H5 & R1 & R2 & R3 & R4 & R5) Hho Hk data.
  assert (read_header data = Some (c_hdr e)) as Hr.
  { unfold data, socket_prefix. rewrite <-!(assoc_L (++)). by apply read_header_bytes. }
  split_and!; [done| |].
  - unfold read_socket_event. rewrite Hr. unfold read_le, data, socket_prefix.
    rewrite <-!(assoc_L (++)). read_layout.
    replace (72 + k - 24 - 4 - 4 - 16 - 16 - 2 - 2 - 1 - 1 - 1 - 1 - k)%nat
      with 0%nat by lia. read_layout.
    rewrite !le_value_small by done. by destruct e.
  - unfold data, socket_prefix. erewrite zlen_has by apply _.
    unfold EZCAP_IFNAME_MAX. lia.
Qed.

Lemma read_dns_bytes r :
  wf_dns (dr_event r) → HasLen (dr_hole r) 4 → HasLen (dr_tail r) 7 →
  read_header (dns_bytes r) = Some (d_hdr (dr_event r)) ∧
  read_dns_event (dns_bytes r) = Some (dr_event r) ∧ zlen (dns_bytes r) = 328.
Proof.
  intros (Hh & H1 & H2 & H3 & H4 & R1 & R2 & R3 & R4) Hho Ht.
  assert (read_header (dns_bytes r) = Some (d_hdr (dr_event r))) as Hr
    by (unfold dns_bytes; by apply read_header_bytes).
  split_and!; [done| |].
  - unfold read_dns_event. rewrite Hr. unfold read_le, dns_bytes.
    unfold EZCAP_DNS_NAME_MAX, EZCAP_IFNAME_MAX in *. read_layout.
    rewrite !le_value_small by done. by destruct (dr_event r).
  - unfold dns_bytes. by erewrite zlen_has by apply _.
Qed.

(** The ring-buffer callback on the records the programs submit. *)
Section handle.
Context (inet_ntop4 inet_ntop6 : list Z → option cstring) (boot : Z).

Lemma handle_connect_bytes r :
  wf_socket (cr_event r) → HasLen (cr_hole r) 4 →
  h_version (c_hdr (cr_event r)) = 1 → h_tag (c_hdr (cr_event r)) = 1 →
  handle_record inet_ntop4 inet_ntop6 boot (connect_bytes r)
  = Some (Some (normalize_connect_event inet_ntop4 inet_ntop6 (cr_event r) boot)).
Proof.
  intros Hw Hh Hv Ht.
  destruct (read_socket_bytes _ (cr_hdr_pad0 r) (cr_hole r) (cr_pad0 r) [] 0 Hw Hh eq_refl)
    as (H1 & H2 & H3).
  cbn [app Nat.add] in H1, H2, H3. fold (connect_bytes r) in H1, H2, H3.
  unfold handle_record, read_connect_event. rewrite H3, H1. cbn [mbind option_bind].
  rewrite Hv, Ht, H2. done.
Qed.

Lemma handle_state_bytes r :
  wf_socket (sr_event r) → HasLen (sr_hole r) 4 →
  h_version (c_hdr (sr_event r)) = 1 → h_tag (c_hdr (sr_event r)) = 3 →
  handle_record inet_ntop4 inet_ntop6 boot (state_bytes r)
  = Some (Some (normalize_socket_state_event inet_ntop4 inet_ntop6 (sr_event r) boot)).
Proof.
  intros Hw Hh Hv Ht.
  destruct (read_socket_bytes _ (sr_hdr_pad0 r) (sr_hole r) (sr_new_state r)
    (le_bytes 8 (sr_duration_ns r) ++ le_bytes 8 (sr_bytes_tx r) ++ le_bytes 8 (sr_bytes_rx r))
    24 Hw Hh eq_refl) as (H1 & H2 & H3).
  cbn [Nat.add] in H2. rewrite <-!(assoc_L (++)) in H1, H2, H3. fold (state_bytes r) in H1, H2, H3.
  unfold handle_record, read_socket_state_event. rewrite H3, H1. cbn [mbind option_bind].
  rewrite Hv, Ht, H2. done.
Qed.

Lemma handle_dns_bytes r :
  wf_dns (dr_event r) → HasLen (dr_hole r) 4 → HasLen (dr_tail r) 7 →
  h_version (d_hdr (dr_event r)) = 1 → h_tag (d_hdr (dr_event r)) = 2 →
  handle_record inet_ntop4 inet_ntop6 boot (dns_bytes r)
  = Some (Some (normalize_dns_event inet_ntop4 inet_ntop6 (dr_event r) boot)).
Proof.
  intros Hw Hh Htl Hv Ht. destruct (read_dns_bytes r Hw Hh Htl) as (H1 & H2 & H3).
  unfold handle_record. rewrite H3, H1. cbn [mbind option_bind]. rewrite Hv, Ht, H2. done.
Qed.
End handle.

(** ** The question name *)

(** The name that a list of announced bytes holds, as bytes joined by dots;
    [w] is what was decoded before, [None] a rejected name. *)
Fixpoint question_name (hops : nat) (s w : list Z) : option (list Z) :=
  match hops, s with
  | S hops, label_len :: s =>
      let n := Z.to_nat label_len in
      let w' := if is_empty w then w else w ++ [ord "."] in
      if label_len =? 0 then Some w
      else if negb (Z.land label_len 0xC0 =? 0) || (63 <? label_len) then None
      else if (length s <? n)%nat then None
      else if (length w' + n <=? 252)%nat
      then question_name hops (drop n s) (w' ++ take n s)
      else None
  | _, _ => Some w
  end.

(** The first [o] bytes of the 253-byte buffer are [w]. *)
Definition holds (w : list Z) (o : nat) (out : list Z) : Prop :=
  length out = 253%nat ∧ o = length w ∧ take o out = w ∧ (o ≤ 252)%nat.

Lemma store_holds w o out b :
  holds w o out → (o < 252)%nat →
  ∃ out', store out o b = Some out' ∧ holds (w ++ [b]) (S o) out'.
Proof.
  intros (Hl & Ho & Ht & Hb) Hlt. unfold store.
  rewrite (proj2 (Nat.ltb_lt _ _)) by lia. eexists. split; [done|].
  assert (take (S o) (<[o:=b]> out) = w ++ [b]) as E.
  { rewrite (take_S_r _ _ b) by (apply list_lookup_insert_eq; lia).
    by rewrite take_insert_ge, Ht by lia. }
  split_and!; [by rewrite length_insert|rewrite length_app; cbn; lia|done|lia].
Qed.

(** The end of a copy from a state that holds [w]: as the reference says. *)
Definition copies (expected : option (list Z)) (r : copied) : Prop :=
  match expected, r with
  | Some w, Copied o out => holds w o out
  | None, Rejected out => length out = 253%nat
  | _, _ => False
  end.

Lemma copy_bytes_spec n payload len p w o out :
  (p + n ≤ len)%nat → (len ≤ length payload)%nat → holds w o out →
  ∃ r, copy_bytes n payload len p o out = Some r ∧
    copies (if (o + n <=? 252)%nat then Some (w ++ take n (drop p payload)) else None) r.
Proof.
  intros Hp Hlen. revert p w o out Hp. induction n as [|n IH]; intros p w o out Hp H.
  { eexists. split; [done|]. cbn [take]. rewrite app_nil_r.
    destruct H as (? & ? & ? & ?). rewrite (proj2 (Nat.leb_le _ _)) by lia. done. }
  cbn [copy_bytes]. unfold name_full. change (EZCAP_DNS_NAME_MAX - 1)%nat with 252%nat.
  destruct (Nat.leb_spec 252 o).
  { eexists. split; [done|]. rewrite (proj2 (Nat.leb_gt _ _)) by lia. apply H. }
  rewrite (proj2 (Nat.leb_gt _ _)) by lia.
  destruct (lookup_lt_is_Some_2 payload p) as [b Hb]; [lia|]. rewrite Hb.
  destruct (store_holds w o out b) as (out' & Hs & Ho); [done..|].
  cbn [mbind option_bind]. rewrite Hs. cbn [mbind option_bind].
  destruct (IH (S p) (w ++ [b]) (S o) out') as (r & Hr & Hc); [lia|done|].
  exists r. split; [done|]. rewrite (drop_S _ _ _ Hb). cbn [take].
  rewrite <-(assoc_L (++)) in Hc. by replace (o + S n)%nat with (S o + n)%nat by lia.
Qed.

Lemma put_dot_spec w o out n :
  holds w o out →
  let w' := if is_empty w then w else w ++ [ord "."] in
  ∃ r, put_dot o out = Some r ∧
    (copies (Some w') r ∨ (copies None r ∧ (252 < length w' + n)%nat)).
Proof.
  intros H. pose proof H as (Hl & Ho & _ & Hb). unfold put_dot, name_full.
  change (EZCAP_DNS_NAME_MAX - 1)%nat with 252%nat.
  destruct w as [|b w]; subst o; cbn [length is_empty] in *.
  { eexists. split; [done|]. by left. }
  destruct (Nat.leb_spec 252 (S (length w))) as [Hf|Hf]; cbn.
  { eexists. split; [done|]. right. split; [done|]. rewrite length_app. cbn. lia. }
  destruct (store_holds _ _ _ (ord ".") H) as (out' & Hs & Ho); [lia|].
  rewrite Hs. cbn. eexists. split; [done|]. by left.
Qed.

Lemma copy_labels_spec hops payload len i w o out :
  (i ≤ len)%nat → (len ≤ length payload)%nat → holds w o out →
  ∃ r, copy_labels hops payload len i o out = Some r ∧
    copies (question_name hops (drop i (take len payload)) w) r.
Proof.
  intros Hi Hlen. revert i w o out Hi.
  induction hops as [|hops IH]; intros i w o out Hi H; [by eexists|].
  cbn [copy_labels]. destruct (Nat.ltb_spec i len) as [Hlt|Hge].
  2:{ rewrite drop_ge by (rewrite length_take; lia). by eexists. }
  destruct (lookup_lt_is_Some_2 payload i) as [l Hl]; [lia|].
  assert (take len payload !! i = Some l) as Hl' by (by rewrite lookup_take_lt by lia).
  rewrite Hl, (drop_S _ _ _ Hl'). cbn [mbind option_bind question_name].
  destruct (Z.eqb_spec l 0); [by eexists|].
  destruct (negb _ || _) eqn:Hbits; [eexists; split; [done|]; apply H|].
  rewrite length_drop, length_take.
  destruct (Nat.ltb_spec len (S i + Z.to_nat l)) as [Hshort|Hfit].
  { rewrite (proj2 (Nat.ltb_lt _ _)) by lia. eexists. split; [done|]. apply H. }
  rewrite (proj2 (Nat.ltb_ge _ _)) by lia.
  destruct (put_dot_spec w o out (Z.to_nat l) H) as (r & -> & Hr).
  set (w' := if is_empty w then w else w ++ [ord "."]) in *. cbn [mbind option_bind].
  destruct Hr as [Hr|[Hr Hbig]].
  2:{ destruct r as [o' out'|out']; [done|]. rewrite (proj2 (Nat.leb_gt _ _)) by lia.
      by eexists. }
  destruct r as [o' out'|]; [|done].
  destruct (copy_bytes_spec (Z.to_nat l) payload len (S i) w' o' out') as (r & -> & Hc);
    [lia|done..|]. cbn [mbind option_bind].
  replace (length w') with o' by apply Hr.
  destruct (Nat.leb_spec (o' + Z.to_nat l) 252); destruct r as [o2 out2|out2];
    [|done..|by eexists].
  rewrite drop_drop, take_drop_commute, take_take, Nat.min_l by lia.
  rewrite <-take_drop_commute. apply IH; [lia|done].
Qed.

(** What [query_name] and its length hold for a decoded or rejected name. *)
Definition named (w : option (list Z)) (n : Z) (name : list Z) : Prop :=
  HasLen name EZCAP_DNS_NAME_MAX ∧
  match w with
  | Some w => n = zlen w ∧ zlen w ≤ 252 ∧ take (S (length w)) name = w ++ [0]
  | None => n = -1
  end.

Lemma copy_qname_spec payload len out :
  (len ≤ length payload)%nat → HasLen out EZCAP_DNS_NAME_MAX →
  ∃ n name, copy_qname payload len out = Some (n, name) ∧
    named (question_name 128 (take len payload) []) n name.
Proof.
  intros Hlen Hout. destruct (copy_labels_spec 128 payload len 0 [] 0 out)
    as (r & Hr & Hc); [lia|done|split_and!; [done..|lia]|].
  unfold copy_qname. rewrite Hr. cbn [mbind option_bind]. rewrite drop_0 in Hc.
  unfold named, zlen.
  destruct (question_name _ _ _) as [w|], r as [o name|name]; try done.
  2:{ exists (-1), name. done. }
  destruct Hc as (Hl & -> & Ht & Hb). unfold store.
  rewrite (proj2 (Nat.ltb_lt _ _)) by lia. do 2 eexists. split; [done|].
  split; [unfold HasLen; by rewrite length_insert|]. split_and!; [done|lia|].
  rewrite (take_S_r _ _ 0) by (apply list_lookup_insert_eq; lia).
  by rewrite take_insert_ge, Ht by lia.
Qed.

(** The packet holds the bytes that its UDP header announces, up to the 512 that
    the program looks at. *)
Definition carries_question (skb : sk_buff) : Prop :=
  ∀ first len,
    read_le (skb_data skb) 0 1 = Some first →
    let ihl := Z.land first 0x0F * 4 in
    read_le (skb_data skb) (Z.to_nat ihl + 4) 2 = Some len →
    let udp_off := ihl + sizeof_udphdr in
    udp_off + sizeof_dns_header + question_len (bswap16 len) (skb_len skb) udp_off
    ≤ zlen (skb_data skb).

(** A reserved record has the sizes of its structure; its contents are whatever
    was there. *)
Definition dns_slot (r : dns_record) : Prop :=
  HasLen (d_local_addr6 (dr_event r)) 16 ∧
  HasLen (d_query_name (dr_event r)) EZCAP_DNS_NAME_MAX ∧
  HasLen (d_ifname (dr_event r)) EZCAP_IFNAME_MAX ∧
  HasLen (dr_hole r) 4 ∧ HasLen (dr_tail r) 7.

Lemma land_255 z : Z.land z 255 = z mod 256.
Proof. change 255 with (Z.ones 8). by rewrite Z.land_ones. Qed.

Lemma bswap16_arith z : bswap16 z = (z / 256) mod 256 + (z mod 256) * 256.
Proof.
  unfold bswap16. rewrite Z.lor_comm, !land_255, Z.shiftr_div_pow2 by done.
  change (2 ^ 8) with 256. apply (lor_shiftl_add _ _ 8); [done|].
  by apply Z.mod_pos_bound.
Qed.

Lemma bswap16_range z : 0 ≤ bswap16 z < 2 ^ 16.
Proof. rewrite bswap16_arith. Z.to_euclidean_division_equations; lia. Qed.

Lemma ihl_range z : 0 ≤ Z.land z 0x0F * 4 ≤ 60.
Proof. pose proof (nibble_range z). lia. Qed.

Lemma question_len_range a b c : 0 ≤ a → 0 ≤ question_len a b c ≤ 512.
Proof.
  intros Ha. unfold question_len, sizeof_udphdr, sizeof_dns_header.
  destruct (Z.ltb_spec a (8 + 12)); [|lia].
  unfold u32. pose proof (Z.mod_pos_bound (b - c) (2 ^ 32)). lia.
Qed.

(** The checks read only inside the packet, and leave room for the question of a
    packet that carries it. *)
Lemma dns_question_spec skb :
  ∃ q, dns_question skb = Some q ∧
    ∀ saddr sport qname len, q = Some (saddr, sport, qname, len) →
      HasLen saddr 4 ∧ 0 ≤ sport < 2 ^ 16 ∧
      (carries_question skb → (len ≤ length qname)%nat).
Proof.
  unfold dns_question, carries_question, sizeof_iphdr, sizeof_udphdr, sizeof_dns_header.
  set (data := skb_data skb). unfold zlen.
  destruct (_ && _); [by eexists|].
  destruct (Z.ltb_spec (Z.of_nat (length data)) 20); [by eexists|].
  destruct (read_le_Some data 0 1) as [first Hf]; [lia|]. rewrite Hf.
  destruct (read_le_Some data 9 1) as [proto ->]; [lia|].
  rewrite (read_bytes_Some data 12 4) by lia. cbn [mbind option_bind].
  pose proof (ihl_range first). set (ihl := Z.land first 0x0F * 4) in *.
  destruct (negb _); [by eexists|]. destruct (Z.ltb_spec ihl 20); [by eexists|].
  destruct (Z.ltb_spec (Z.of_nat (length data)) (ihl + 8)); [by eexists|]. cbn [orb].
  destruct (read_le_Some data (Z.to_nat ihl) 2) as [source ->]; [lia|].
  destruct (read_le_Some data (Z.to_nat ihl + 2) 2) as [dest ->]; [lia|].
  destruct (read_le_Some data (Z.to_nat ihl + 4) 2) as [len Hl]; [lia|]. rewrite Hl.
  cbn [mbind option_bind]. destruct (_ && _); [by eexists|].
  destruct (Z.ltb_spec (Z.of_nat (length data)) (ihl + 8 + 12)); [by eexists|].
  destruct (read_le_Some data (Z.to_nat (ihl + 8) + 4) 2) as [qd ->]; [lia|].
  cbn [mbind option_bind]. destruct (_ <? 1); [by eexists|].
  eexists. split; [done|]. intros ? ? ? ? [= <- <- <- <-]. split_and!.
  - unfold HasLen. rewrite length_take, length_drop. lia.
  - apply bswap16_range.
  - apply bswap16_range.
  - intros Hc. specialize (Hc _ _ eq_refl Hl). cbv zeta in Hc. rewrite length_drop. fold ihl in Hc.
    pose proof (question_len_range (bswap16 len) (skb_len skb) (ihl + 8)
      (proj1 (bswap16_range len))). lia.
Qed.

Definition wf_task (t : task) : Prop := 0 ≤ ktime_ns t < 2 ^ 64.

Lemma fill_header_wf tag t : wf_task t → 0 ≤ tag < 256 → wf_header (fill_header tag t).
Proof.
  intros Ht Htag. split; [done|]. split; [done|]. split; [by apply Z.mod_pos_bound|].
  split; [by apply Z.mod_pos_bound|done].
Qed.

Lemma bounded_string_take src cap : bounded_string src cap = bounded_string (take cap src) cap.
Proof.
  revert src. induction cap as [|cap IH]; intros [|b src]; [done..|]. cbn.
  by rewrite <-IH.
Qed.

(** The name user space reads from the record of a decoded question. *)
Definition event_name (w : option (list Z)) : cstring :=
  match w with
  | Some w => bounded_string (w ++ [0]) (S (length w))
  | None => []
  end.

(** The event of a record that a program submitted. *)
Definition dns_event (ntop4 ntop6 : list Z → option cstring) (boot : Z) (t : task)
    (saddr : list Z) (sport : Z) (name : cstring) : Event :=
  ebpf_event Dns (fill_dns_header t) boot (dlit 9 1)
    {| net_transport := Udp; net_direction := Unknown;
       net_local_address := format_ipv4 ntop4 saddr; net_local_port := sport;
       net_remote_address := []; net_remote_port := 0;
       net_dns_query_name := name; net_dns_response_code := None;
       net_interface := []; net_backend := Ebpf |}.

Lemma clear_name_string name n cap :
  HasLen name (S n) → bounded_string (clear_name name) (S cap) = [].
Proof. intros H. by destruct name. Qed.

Lemma submitted_event ntop4 ntop6 boot t saddr sport w n name slot :
  wf_task t → HasLen saddr 4 → 0 ≤ sport < 2 ^ 16 → dns_slot slot → named w n name →
  handle_record ntop4 ntop6 boot (dns_bytes
    (set_query (if 0 <=? n then u16 (n + 1) else 0) name (dns_fields t saddr sport slot)))
  = Some (Some (dns_event ntop4 ntop6 boot t saddr sport (event_name w))).
Proof.
  intros Ht Ha Hp (S1 & S2 & S3 & S4 & S5) [Hn Hw].
  assert (0 ≤ (if 0 <=? n then u16 (n + 1) else 0) < 2 ^ 16) as Hq.
  { destruct (0 <=? n); [by apply Z.mod_pos_bound|lia]. }
  rewrite handle_dns_bytes; try done.
  2:{ split; [by apply fill_header_wf|]. repeat (split; [by try apply clear_name_len|]).
      exact Hq. }
  do 2 f_equal. unfold normalize_dns_event, dns_event. cbn. f_equal. f_equal. f_equal.
  - destruct w as [w|]; [|by subst n]. destruct Hw as (-> & Hb & Htk).
    pose proof (zlen_nonneg w). rewrite (proj2 (Z.leb_le 0 _)) by done.
    unfold u16. rewrite Z.mod_small by lia.
    rewrite (proj2 (Z.ltb_lt 0 _)), (proj2 (Z.leb_le _ 253)) by lia. cbn [andb].
    rewrite bounded_string_take. unfold zlen.
    replace (Z.to_nat (Z.of_nat (length w) + 1)) with (S (length w)) by lia.
    by rewrite Htk.
  - by apply (clear_name_string _ 15).
Qed.

Section dns.
Context (ntop4 ntop6 : list Z → option cstring) (boot : Z).

(** From the packet to the event: the program in the kernel, then the callback
    of the daemon on the record it submitted. *)
Definition trace_event (t : task) (skb : sk_buff) (slot : dns_record) :
    option (option Event) :=
  r ← ezcap_dns_trace t skb (Some slot);
  match r with
  | None => Some None
  | Some r => handle_record ntop4 ntop6 boot (dns_bytes r)
  end.

(** What a packet discloses: process, source address and port, and the name. *)
Definition question_event (t : task) (q : option (list Z * Z * list Z * nat)) : option Event :=
  match q with
  | None => None
  | Some (saddr, sport, qname, len) =>
      Some (dns_event ntop4 ntop6 boot t saddr sport
        (event_name (question_name 128 (take len qname) [])))
  end.

Lemma trace_event_spec t skb slot q :
  wf_task t → carries_question skb → dns_slot slot → dns_question skb = Some q →
  trace_event t skb slot = Some (question_event t q).
Proof.
  intros Ht Hc Hs Hq. destruct (dns_question_spec skb) as (q' & Hq' & Hspec).
  rewrite Hq in Hq'. injection Hq' as <-. unfold trace_event, ezcap_dns_trace.
  rewrite Hq. cbn [mbind option_bind].
  destruct q as [[[[saddr sport] qname] len]|]; [|done].
  destruct (Hspec _ _ _ _ eq_refl) as (Ha & Hp & Hlen). specialize (Hlen Hc).
  pose proof Hs as (_ & S2 & _).
  destruct (copy_qname_spec qname len (clear_name (d_query_name (dr_event slot))))
    as (n & name & Hcp & Hn); [done|by apply clear_name_len|].
  change (d_query_name (dr_event (dns_fields t saddr sport slot)))
    with (clear_name (d_query_name (dr_event slot))). rewrite Hcp.
  cbn [mbind option_bind]. by apply submitted_event.
Qed.

(** C31: For every packet that carries the question its UDP header announces, the
    DNS program reads only inside the packet and writes only inside the record,
    and the daemon turns the record into the event of the reference decoder: the
    process, the source address and port and the question name.  Neither the
    bytes of the packet behind the name nor what the ring buffer held before can
    be seen in it. *)
Theorem dns_trace_exact t skb slot :
  wf_task t → carries_question skb → dns_slot slot →
  ∃ q, dns_question skb = Some q ∧ trace_event t skb slot = Some (question_event t q).
Proof.
  intros Ht Hc Hs. destruct (dns_question_spec skb) as (q & Hq & _).
  exists q. split; [done|]. by apply trace_event_spec.
Qed.

(** The program takes the length of the question from the UDP header and
    never compares it with the end of the packet: when the packet ends with the
    DNS header of a query, a header that announces a question makes the program
    read past the packet. *)
Theorem dns_trace_past_packet t skb saddr sport len slot :
  dns_question skb = Some (Some (saddr, sport, [], S len)) →
  ezcap_dns_trace t skb (Some slot) = None.
Proof. intros H. unfold ezcap_dns_trace. by rewrite H. Qed.
End dns.

(** ** A query on the wire *)
Definition be16 (z : Z) : list Z := [Z.land (Z.shiftr z 8) 255; Z.land z 255].

(** An IPv4 packet with a UDP header and a DNS query, from its IP header on;
    [misc] are the options and the other bytes of the headers that the program
    does not look at. *)
Record misc_bytes := mkMisc {
  m_ip : list Z; m_ip_sum : list Z; m_daddr : list Z; m_options : list Z;
  m_udp_sum : list Z; m_id_flags : list Z; m_counts : list Z;
}.

(** The options are up to ten words. *)
Definition option_words (m : misc_bytes) : nat := length (m_options m) / 4.
Definition wf_misc (m : misc_bytes) : Prop :=
  (HasLen (m_ip m) 8 ∧ HasLen (m_ip_sum m) 2 ∧ HasLen (m_daddr m) 4 ∧
   HasLen (m_udp_sum m) 2 ∧ HasLen (m_id_flags m) 4 ∧ HasLen (m_counts m) 6) ∧
  HasLen (m_options m) (4 * option_words m) ∧ (option_words m ≤ 10)%nat.

Definition ip_header (m : misc_bytes) (saddr : list Z) : list Z :=
  [0x45 + Z.of_nat (option_words m)] ++ m_ip m ++ [17] ++ m_ip_sum m ++ saddr ++ m_daddr m
  ++ m_options m.
Definition dns_datagram (m : misc_bytes) (sport dport qdcount : Z) (question : list Z) : list Z :=
  be16 sport ++ be16 dport ++ be16 (20 + zlen question) ++ m_udp_sum m
  ++ m_id_flags m ++ be16 qdcount ++ m_counts m ++ question.
Definition dns_packet (m : misc_bytes) (saddr : list Z) (sport dport qdcount : Z)
    (question : list Z) : list Z :=
  ip_header m saddr ++ dns_datagram m sport dport qdcount question.

#[global] Instance one_len b : HasLen [b] 1.
Proof. done. Qed.
#[global] Instance be16_len z : HasLen (be16 z) 2.
Proof. done. Qed.

Lemma bswap16_be16 z : 0 ≤ z < 2 ^ 16 → bswap16 (le_value (be16 z)) = z.
Proof.
  intros H. rewrite bswap16_arith. unfold be16, le_value. cbn [foldr].
  rewrite !land_255, Z.shiftr_div_pow2, !Z.shiftl_mul_pow2 by done.
  change (2 ^ 8) with 256. Z.to_euclidean_division_equations; lia.
Qed.

Lemma ip_header_len m saddr :
  wf_misc m → HasLen saddr 4 → HasLen (ip_header m saddr) (20 + 4 * option_words m).
Proof.
  intros [(M1 & M2 & M3 & _) [M7 _]] Ha. unfold ip_header, HasLen in *.
  rewrite !length_app, M1, M2, M3, M7, Ha. cbn [length]. lia.
Qed.

(** The fields of the packet, at the offsets where the program reads them. *)
Lemma ip_header_fields m saddr rest :
  wf_misc m → HasLen saddr 4 →
  let data := ip_header m saddr ++ rest in
  read_le data 0 1 = Some (0x45 + Z.of_nat (option_words m)) ∧ read_le data 9 1 = Some 17 ∧
  read_bytes data 12 4 = Some saddr.
Proof.
  intros [(M1 & M2 & M3 & _) _] Ha data.
  unfold data, ip_header, read_le. rewrite <-!(assoc_L (++)).
  assert (∀ z, le_value [z] = z) as Hz by (intros z; unfold le_value; cbn [foldr]; rewrite Z.shiftl_0_l; lia).
  split_and!; read_layout; by rewrite ?Hz.
Qed.

Lemma dns_datagram_fields m sport dport qdcount question :
  wf_misc m →
  let data := dns_datagram m sport dport qdcount question in
  read_le data 0 2 = Some (le_value (be16 sport)) ∧
  read_le data 2 2 = Some (le_value (be16 dport)) ∧
  read_le data 4 2 = Some (le_value (be16 (20 + zlen question))) ∧
  read_le data 12 2 = Some (le_value (be16 qdcount)) ∧
  drop 20 data = question ∧ zlen data = 20 + zlen question.
Proof.
  intros [(M1 & M2 & M3 & M4 & M5 & M6) _] data.
  assert (HasLen question (length question)) by done.
  unfold data, dns_datagram, read_le. split_and!; try by read_layout.
  - rewrite !(assoc_L (++)). apply drop_app_length'.
    symmetry. erewrite has_len by apply _. done.
  - erewrite zlen_has by apply _. unfold zlen. lia.
Qed.

Lemma header_words k : (k ≤ 10)%nat → Z.land (0x45 + Z.of_nat k) 0x0F * 4 = Z.of_nat (20 + 4 * k).
Proof. intros H. do 11 (destruct k as [|k]; [done|]). lia. Qed.

Lemma dns_packet_question m saddr sport dport qdcount question total :
  wf_misc m → HasLen saddr 4 → 0 ≤ sport < 2 ^ 16 → 0 ≤ dport < 2 ^ 16 →
  1 ≤ qdcount < 2 ^ 16 → sport = 53 ∨ dport = 53 → 20 + zlen question < 2 ^ 16 →
  let skb := mkSkb (bswap16 kEthTypeIp4) total
               (dns_packet m saddr sport dport qdcount question) in
  dns_question skb
  = Some (Some (saddr, sport, question, Z.to_nat (Z.min 512 (zlen question)))) ∧
  carries_question skb.
Proof.
  intros Hm Ha Hs Hd Hq Hport Hlen skb. pose proof (zlen_nonneg question).
  destruct (ip_header_fields m saddr (dns_datagram m sport dport qdcount question) Hm Ha)
    as (E1 & E2 & E3).
  destruct (dns_datagram_fields m sport dport qdcount question Hm)
    as (E4 & E5 & E6 & E7 & E8 & E9).
  pose proof (ip_header_len m saddr Hm Ha) as Hh.
  pose proof (header_words (option_words m) (proj2 (proj2 Hm))) as Hw.
  set (ihl := (20 + 4 * option_words m)%nat) in *.
  assert (Er : ∀ o n, read_le (dns_packet m saddr sport dport qdcount question) (ihl + o) n
    = read_le (dns_datagram m sport dport qdcount question) o n).
  { intros o n. unfold read_le, dns_packet. rewrite (read_skip _ ihl) by (done || lia).
    by replace (ihl + o - ihl)%nat with o by lia. }
  assert (El : ∀ u, question_len (20 + zlen question) total u = Z.min 512 (zlen question)).
  { intros u. unfold question_len, sizeof_udphdr, sizeof_dns_header.
    rewrite (proj2 (Z.ltb_ge _ _)) by lia. lia. }
  assert (E10 : zlen (dns_packet m saddr sport dport qdcount question)
    = Z.of_nat ihl + (20 + zlen question)).
  { unfold dns_packet. rewrite zlen_app, E9. by rewrite (zlen_has _ _ Hh). }
  assert (E11 : drop (ihl + 20) (dns_packet m saddr sport dport qdcount question) = question).
  { unfold dns_packet. rewrite drop_app_ge by (rewrite Hh; lia). rewrite Hh.
    by replace (ihl + 20 - ihl)%nat with 20%nat by lia. }
  assert (20 ≤ ihl)%nat by lia. clearbody ihl.
  unfold skb, dns_question, carries_question. cbn [skb_data skb_protocol skb_len].
  fold (dns_packet m saddr sport dport qdcount question) in E1, E2, E3.
  set (data := dns_packet _ _ _ _ _ _) in *. rewrite E10, E1, E2, E3.
  unfold sizeof_iphdr, sizeof_udphdr, sizeof_dns_header, kDnsPort.
  rewrite (proj2 (Z.ltb_ge _ 20)) by lia. cbn [mbind option_bind]. rewrite Hw. split.
  2:{ intros first len [= <-]. rewrite Hw, Nat2Z.id, Er, E6. intros <-%(inj Some).
      rewrite bswap16_be16, El by lia. lia. }
  rewrite Nat2Z.id. replace (Z.to_nat (Z.of_nat ihl + 8) + 4)%nat with (ihl + 12)%nat by lia.
  replace (Z.to_nat (Z.of_nat ihl + 8 + 12)) with (ihl + 20)%nat by lia.
  rewrite <-(Er 0%nat), Nat.add_0_r in E4.
  rewrite !Er, E4, E5, E6, E7, E11. cbn [mbind option_bind].
  rewrite !bswap16_be16, El by lia.
  rewrite !(proj2 (Z.ltb_ge _ _)) by lia. cbn [orb].
  change (negb (17 =? kProtoUdp)) with false. cbv iota.
  destruct Hport as [-> | ->]; [done|]. by rewrite andb_false_r.
Qed.

Lemma question_name_label n l s w :
  wf_label l → (length (if is_empty w then w else w ++ [ord "."]) + length l ≤ 252)%nat →
  question_name (S n) (encode_label l ++ s) w
  = question_name n s ((if is_empty w then w else w ++ [ord "."]) ++ (ord <$> l)).
Proof.
  intros (Hne & H63 & _) Hlen. unfold encode_label. cbn [app question_name].
  assert (0 < zlen l) by (unfold zlen; destruct l; [done|cbn; lia]).
  rewrite label_len_bits, (proj2 (Z.eqb_neq _ _)), (proj2 (Z.ltb_ge 63 _)) by lia.
  cbn [Z.eqb negb orb]. unfold zlen. rewrite Nat2Z.id, length_app, length_fmap.
  rewrite (proj2 (Nat.ltb_ge _ _)), (proj2 (Nat.leb_le _ _)) by lia.
  rewrite take_app_length', drop_app_length' by (by rewrite length_fmap). done.
Qed.

Lemma question_name_labels ls n w rest :
  w ≠ [] → (length ls < n)%nat → Forall wf_label ls →
  (length w + length (concat (cons "."%char <$> ls)) ≤ 252)%nat →
  question_name n (encode_qname ls ++ rest) w
  = Some (w ++ (ord <$> concat (cons "."%char <$> ls))).
Proof.
  revert n w. induction ls as [|l ls IH]; intros n w Hne Hn Hwf Hlen;
    (destruct n as [|n]; [cbn in Hn; lia|]).
  { cbn. by rewrite app_nil_r. }
  inv Hwf. unfold encode_qname in *. cbn [fmap list_fmap concat] in *.
  rewrite length_app in Hlen. cbn [length] in *.
  assert (is_empty w = false) as He by by apply is_empty_false.
  rewrite <-!(assoc_L (++)), question_name_label, He;
    [|done|rewrite He, length_app; cbn; lia].
  rewrite (assoc_L (++) (concat _)), IH; [|by destruct w|lia|done|].
  - f_equal. by rewrite <-!(assoc_L (++)), fmap_app.
  - rewrite !length_app, length_fmap. cbn. lia.
Qed.

Lemma question_name_encode ls rest :
  Forall wf_label ls → zlen (join_dots ls) ≤ 252 →
  question_name 128 (encode_qname ls ++ rest) [] = Some (ord <$> join_dots ls).
Proof.
  intros Hwf Hlen. destruct ls as [|l ls]; [done|]. inv Hwf.
  pose proof (dotted_length ls ltac:(done)). cbn [join_dots] in *. unfold zlen in *.
  rewrite length_app in Hlen. unfold encode_qname. cbn [fmap list_fmap concat].
  rewrite <-!(assoc_L (++)), question_name_label; [|done|cbn; lia].
  cbn [is_empty]. rewrite app_nil_l.
  rewrite (assoc_L (++) (concat _)), (question_name_labels ls 127); [by rewrite fmap_app|..].
  - destruct l; [|done]. by destruct H1.
  - lia.
  - done.
  - rewrite length_fmap. lia.
Qed.

(** A name that does not fit the buffer is rejected. *)
Lemma question_name_overlong ls n w rest :
  (length ls < n)%nat → Forall wf_label ls → (length w ≤ 252)%nat →
  (252 < length w + length (concat (cons "."%char <$> ls)))%nat →
  (w = [] → 252 < zlen (join_dots ls)) →
  question_name n (encode_qname ls ++ rest) w = None.
Proof.
  revert n w. induction ls as [|l ls IH]; intros n w Hn Hwf Hw Hlen He;
    (destruct n as [|n]; [cbn in Hn; lia|]); [cbn in Hlen; lia|].
  inv Hwf. unfold encode_qname in *. cbn [fmap list_fmap concat length] in *.
  rewrite length_app in Hlen. cbn [length] in Hlen.
  set (w' := if is_empty w then w else w ++ [ord "."]).
  destruct (Nat.leb_spec (length w' + length l) 252) as [Hle|Hgt].
  - rewrite <-!(assoc_L (++)), question_name_label by done. fold w'.
    rewrite (assoc_L (++) (concat _)). apply IH; [lia|done| | |].
    + rewrite length_app, length_fmap. lia.
    + rewrite length_app, length_fmap. unfold w'. destruct w as [|x w]; cbn [is_empty length] in *.
      * specialize (He eq_refl). unfold zlen in He. cbn [join_dots] in He.
        rewrite length_app in He. lia.
      * rewrite length_app. cbn [length]. lia.
    + destruct l; [by destruct H1|]. by destruct w'.
  - destruct H1 as (Hne & H63 & _).
    assert (0 < zlen l) by (unfold zlen; destruct l; [done|cbn; lia]).
    rewrite <-!(assoc_L (++)). unfold encode_label. cbn [app question_name].
    rewrite label_len_bits, (proj2 (Z.eqb_neq _ _)), (proj2 (Z.ltb_ge 63 _)) by lia.
    cbn [Z.eqb negb orb]. fold w'. unfold zlen. rewrite Nat2Z.id.
    rewrite (proj2 (Nat.leb_gt _ _)) by lia. by destruct (_ <? _)%nat.
Qed.

Lemma question_name_wire ls rest :
  Forall wf_label ls → zlen (join_dots ls) ≤ 253 →
  question_name 128 (encode_qname ls ++ rest) []
  = if zlen (join_dots ls) <=? 252 then Some (ord <$> join_dots ls) else None.
Proof.
  intros Hwf Hlen. destruct (Z.leb_spec (zlen (join_dots ls)) 252) as [Hle|Hgt].
  { by apply question_name_encode. }
  assert (zlen (join_dots ls) < zlen (concat (cons "."%char <$> ls))) as Hd.
  { destruct ls; [unfold zlen in Hgt; cbn in Hgt; lia|]. cbn [join_dots fmap list_fmap concat]. unfold zlen.
    rewrite !length_app. cbn [length]. lia. }
  assert (2 * zlen ls ≤ 254).
  { destruct Hwf as [|l ls (Hne & _) Hls]; [done|]. pose proof (dotted_length ls Hls).
    cbn [join_dots] in *. rewrite zlen_app in *. unfold zlen in *.
    destruct l; [done|]. cbn [length] in *. lia. }
  apply question_name_overlong; [|done|cbn; lia| |done]; unfold zlen in *; cbn [length]; lia.
Qed.

(** A name without NUL comes back whole. *)
Lemma event_name_ord s :
  Forall (λ c, ord c ≠ 0) s → event_name (Some (ord <$> s)) = s.
Proof.
  unfold event_name. rewrite length_fmap.
  induction 1 as [|c s Hc _ IH]; [done|]. cbn [length bounded_string fmap list_fmap app].
  rewrite (proj2 (Z.eqb_neq _ _)) by done. rewrite chr_ord. f_equal. exact IH.
Qed.

Lemma dns_name_char_nonzero c : dns_name_char c = true → ord c ≠ 0.
Proof. by all_bytes c. Qed.

Lemma join_dots_nonzero ls :
  Forall wf_label ls → Forall (λ c, ord c ≠ 0) (join_dots ls).
Proof.
  assert (∀ l, wf_label l → Forall (λ c, ord c ≠ 0) l) as Hl.
  { intros l (_ & _ & Hc). eapply Forall_impl; [done|]. apply dns_name_char_nonzero. }
  destruct 1 as [|l ls Hw Hls]; [constructor|]. cbn [join_dots].
  apply Forall_app. split; [by apply Hl|]. induction Hls as [|x ls Hx _ IH]; [constructor|].
  cbn [fmap list_fmap concat]. apply Forall_app. split; [|done].
  constructor; [done|by apply Hl].
Qed.

Lemma encode_qname_length ls :
  Forall wf_label ls → zlen (encode_qname ls) ≤ zlen (join_dots ls) + 2.
Proof.
  unfold encode_qname, zlen. destruct 1 as [|l ls _ Hls]; [done|].
  cbn [fmap list_fmap concat join_dots]. rewrite !length_app.
  assert (length (concat (encode_label <$> ls)) = length (concat (cons "."%char <$> ls))) as ->.
  { clear. induction ls as [|x ls IH]; [done|]. cbn [fmap list_fmap concat].
    rewrite !length_app, IH. unfold encode_label. cbn [length]. by rewrite length_fmap. }
  unfold encode_label. cbn [length]. rewrite length_fmap. lia.
Qed.

(** C30: A DNS query in an IPv4 packet that the DNS program is given from its IP
    header on: for every well-formed question name of at most 253 bytes, with or
    without IP options, whatever follows the name and whatever the other header
    bytes are, the program and the ring-buffer callback give one event with the
    source address and port of the packet, the identifiers of the task and the
    name in dotted form; a name of the full 253 bytes does not fit the record
    and is left empty.  A name of at most 252 bytes is the one that the packet
    parser of the pcap backend decodes. *)
Theorem dns_query_end_to_end ntop4 ntop6 boot t m saddr sport qdcount ls rest total slot :
  wf_task t → wf_misc m → HasLen saddr 4 → 0 ≤ sport < 2 ^ 16 → 1 ≤ qdcount < 2 ^ 16 →
  Forall wf_label ls → zlen (join_dots ls) ≤ 253 →
  zlen (encode_qname ls ++ rest) < 2 ^ 16 - 20 → dns_slot slot →
  let skb := mkSkb (bswap16 kEthTypeIp4) total
               (dns_packet m saddr sport 53 qdcount (encode_qname ls ++ rest)) in
  let name := if zlen (join_dots ls) <=? 252 then join_dots ls else [] in
  trace_event ntop4 ntop6 boot t skb slot
  = Some (Some (dns_event ntop4 ntop6 boot t saddr sport name)) ∧
  (zlen (join_dots ls) ≤ 252 → parse_dns_qname (encode_qname ls ++ rest) = Some name).
Proof.
  intros Ht Hm Ha Hs Hq Hls Hlen Hz Hsl skb name. split.
  2:{ intros Hle. unfold name. rewrite (proj2 (Z.leb_le _ _) Hle).
      by apply parse_dns_qname_encode. }
  destruct (dns_packet_question m saddr sport 53 qdcount (encode_qname ls ++ rest) total)
    as [E Hc]; [done..|by right|lia|].
  rewrite (trace_event_spec _ _ _ _ _ _ _ Ht Hc Hsl E). cbn [question_event]. do 4 f_equal.
  pose proof (encode_qname_length ls Hls). rewrite zlen_app in *. unfold zlen in Hz, Hlen, H |- *.
  rewrite take_app_ge by lia. fold (zlen (join_dots ls)). rewrite question_name_wire by done.
  unfold name. destruct (_ <=? _); [|done]. by apply event_name_ord, join_dots_nonzero.
Qed.

(** ** Connections *)
Definition wf_sock (sk : sock) : Prop :=
  HasLen (skc_rcv_saddr sk) 4 ∧ HasLen (skc_daddr sk) 4 ∧
  HasLen (skc_v6_rcv_saddr sk) 16 ∧ HasLen (skc_v6_daddr sk) 16 ∧
  0 ≤ skc_num sk < 2 ^ 16.

(** A reserved record: the sizes of the structure, any contents. *)
Definition socket_slot (e : ezcap_socket_event) (hole : list Z) : Prop :=
  HasLen (c_local_addr4 e) 4 ∧ HasLen (c_remote_addr4 e) 4 ∧
  HasLen (c_local_addr6 e) 16 ∧ HasLen (c_remote_addr6 e) 16 ∧
  HasLen (c_ifname e) EZCAP_IFNAME_MAX ∧ HasLen hole 4.

Section connections.
Context (ntop4 ntop6 : list Z → option cstring) (boot : Z).

(** The event of a connection that the task opened or closed. *)
Definition connection_event (t : task) (tag : Z) (confidence : double)
    (local remote : cstring) (sk : sock) : Event :=
  ebpf_event Connection (fill_header tag t) boot confidence
    {| net_transport := Tcp; net_direction := Outbound;
       net_local_address := local; net_local_port := skc_num sk;
       net_remote_address := remote; net_remote_port := bswap16 (skc_dport sk);
       net_dns_query_name := []; net_dns_response_code := None;
       net_interface := []; net_backend := Ebpf |}.

(** The ring-buffer callback on what a connect program submits. *)
Definition connect_event (r : option connect_record) : option (option Event) :=
  r ← r; handle_record ntop4 ntop6 boot (connect_bytes r).
Definition state_event (r : option state_record) : option (option Event) :=
  r ← r; handle_record ntop4 ntop6 boot (state_bytes r).

(** The two goals about a submitted record: its event, and its ranges. *)
Ltac submitted_socket :=
  lazymatch goal with
  | |- wf_socket _ =>
      split; [by apply fill_header_wf|]; cbn;
      match goal with sk : sock |- _ => pose proof (bswap16_range (skc_dport sk)) end;
      repeat (split; [by try apply clear_name_len|]); done
  | |- Some (Some _) = _ =>
      do 2 f_equal; unfold normalize_connect_event, normalize_socket_state_event,
        connection_event, socket_network; cbn;
      do 3 f_equal; try by apply (clear_name_string _ 15)
  end.

Lemma v4_connect_event t sk slot :
  wf_task t → wf_sock sk → socket_slot (cr_event slot) (cr_hole slot) →
  connect_event (ezcap_tcp_v4_connect t sk (Some slot))
  = Some (Some (connection_event t EZCAP_EVENT_TAG_CONNECT (dlit 95 2)
      (format_ipv4 ntop4 (skc_daddr sk)) (format_ipv4 ntop4 (skc_rcv_saddr sk)) sk)).
Proof.
  intros Ht (K1 & K2 & K3 & K4 & K5) (S1 & S2 & S3 & S4 & S5 & S6).
  cbn [connect_event ezcap_tcp_v4_connect mbind option_bind].
  rewrite handle_connect_bytes; try done; submitted_socket.
Qed.

Lemma v6_connect_event t sk slot :
  wf_task t → wf_sock sk → socket_slot (cr_event slot) (cr_hole slot) →
  connect_event (ezcap_tcp_v6_connect t sk (Some slot))
  = Some (Some (connection_event t EZCAP_EVENT_TAG_CONNECT (dlit 95 2)
      (format_ipv6 ntop6 (skc_v6_rcv_saddr sk)) (format_ipv6 ntop6 (skc_v6_daddr sk)) sk)).
Proof.
  intros Ht (K1 & K2 & K3 & K4 & K5) (S1 & S2 & S3 & S4 & S5 & S6).
  cbn [connect_event ezcap_tcp_v6_connect mbind option_bind].
  rewrite handle_connect_bytes; try done; submitted_socket.
Qed.

(** The addresses of the family that the local IPv4 address decides on. *)
Definition socket_addresses (sk : sock) : cstring * cstring :=
  if le_value (skc_rcv_saddr sk) =? 0
  then (format_ipv6 ntop6 (skc_v6_rcv_saddr sk), format_ipv6 ntop6 (skc_v6_daddr sk))
  else (format_ipv4 ntop4 (skc_rcv_saddr sk), format_ipv4 ntop4 (skc_daddr sk)).

Lemma destroy_sock_event t sk slot :
  wf_task t → wf_sock sk → socket_slot (sr_event slot) (sr_hole slot) →
  state_event (ezcap_tcp_destroy_sock t sk (Some slot))
  = Some (Some (connection_event t EZCAP_EVENT_TAG_SOCKET_STATE (dlit 9 1)
      (socket_addresses sk).1 (socket_addresses sk).2 sk)).
Proof.
  intros Ht (K1 & K2 & K3 & K4 & K5) (S1 & S2 & S3 & S4 & S5 & S6).
  cbn [state_event ezcap_tcp_destroy_sock mbind option_bind]. cbv zeta.
  unfold socket_addresses. destruct (le_value (skc_rcv_saddr sk) =? 0);
    (rewrite handle_state_bytes; try done; submitted_socket).
Qed.

(** The connections that the daemon reports are those of the socket, whatever
    the ring buffer held before: a closed socket and an IPv6 connect give one
    outbound TCP event with the local and the remote address and port of the
    socket and the identifiers of the task. *)
Theorem connections_exact t sk connect_slot state_slot :
  wf_task t → wf_sock sk →
  socket_slot (cr_event connect_slot) (cr_hole connect_slot) →
  socket_slot (sr_event state_slot) (sr_hole state_slot) →
  connect_event (ezcap_tcp_v6_connect t sk (Some connect_slot))
  = Some (Some (connection_event t EZCAP_EVENT_TAG_CONNECT (dlit 95 2)
      (format_ipv6 ntop6 (skc_v6_rcv_saddr sk)) (format_ipv6 ntop6 (skc_v6_daddr sk)) sk)) ∧
  state_event (ezcap_tcp_destroy_sock t sk (Some state_slot))
  = Some (Some (connection_event t EZCAP_EVENT_TAG_SOCKET_STATE (dlit 9 1)
      (socket_addresses sk).1 (socket_addresses sk).2 sk)).
Proof. intros. split; [by apply v6_connect_event|by apply destroy_sock_event]. Qed.

(** The IPv4 connect program stores the socket's own address as the remote
    one and the peer's as the local one, and nothing on the way to the event
    swaps them back: the daemon reports an outbound connection to itself. *)
Theorem connect_v4_swapped t sk slot :
  wf_task t → wf_sock sk → socket_slot (cr_event slot) (cr_hole slot) →
  ∃ ev n, connect_event (ezcap_tcp_v4_connect t sk (Some slot)) = Some (Some ev) ∧
    ev_network ev = Some n ∧ net_direction n = Outbound ∧
    net_remote_address n = format_ipv4 ntop4 (skc_rcv_saddr sk) ∧
    net_local_address n = format_ipv4 ntop4 (skc_daddr sk) ∧
    net_remote_port n = bswap16 (skc_dport sk) ∧ net_local_port n = skc_num sk.
Proof.
  intros. do 2 eexists. split; [by apply v4_connect_event|]. by split_and!.
Qed.
End connections.

(** ** Concrete inputs *)
Definition sample_task : task := mkTask (42 * 2 ^ 32 + 42) 1000 5.
Definition used_slot : ezcap_socket_event :=
  mkSocket (mkHeader 170 170 0 0 0) (replicate 4 170) (replicate 4 170) (replicate 16 170)
    (replicate 16 170) 170 170 170 170 170 (replicate 16 170).
Definition sample_dns_slot : dns_record :=
  mkDnsRec (mkDns (mkHeader 170 170 0 0 0) (replicate 4 170) (replicate 16 170) 170 170 170
    170 (replicate 253 170) (replicate 16 170)) 170 (replicate 4 170) 170 (replicate 7 170).
Definition sample_misc : misc_bytes :=
  mkMisc (replicate 8 0) [0; 0] [10; 0; 0; 2] [148; 4; 0; 0] [0; 0] [18; 52; 1; 0] (replicate 6 0).
Definition sample_labels : list cstring := [lit "www"; lit "example"; lit "org"].
Definition sample_query : sk_buff :=
  mkSkb (bswap16 kEthTypeIp4) 65
    (dns_packet sample_misc [10; 0; 0; 1] 40000 53 1
       (encode_qname sample_labels ++ [0; 1; 0; 1])).
Definition sample_sock : sock :=
  mkSock [10; 0; 0; 1] [10; 0; 0; 2] (replicate 16 1) (replicate 16 2) (bswap16 443) 50000 0.

Lemma sample_labels_ok : Forall wf_label sample_labels.
Proof. repeat constructor; vm_compute; congruence. Qed.

(** The headers of the sample carry one word of options. *)
Lemma sample_misc_ok : wf_misc sample_misc.
Proof. split; [done|]. split; [done|]. vm_compute. lia. Qed.

Lemma dns_query_end_to_end_witness :
  trace_event hex_ntop hex_ntop 0 sample_task sample_query sample_dns_slot
  = Some (Some (dns_event hex_ntop hex_ntop 0 sample_task [10; 0; 0; 1] 40000
      (lit "www.example.org"))).
Proof.
  apply (dns_query_end_to_end hex_ntop hex_ntop 0 sample_task sample_misc [10; 0; 0; 1]
    40000 1 sample_labels [0; 1; 0; 1] 65 sample_dns_slot); try done.
  - exact sample_misc_ok.
  - exact sample_labels_ok.
Defined.

Lemma dns_trace_exact_witness :
  ∃ q, dns_question sample_query = Some q ∧
    trace_event hex_ntop hex_ntop 0 sample_task sample_query sample_dns_slot
    = Some (question_event hex_ntop hex_ntop 0 sample_task q).
Proof.
  apply (dns_trace_exact hex_ntop hex_ntop 0 sample_task sample_query sample_dns_slot);
    [done| |done].
  apply (dns_packet_question sample_misc [10; 0; 0; 1] 40000 53 1
    (encode_qname sample_labels ++ [0; 1; 0; 1]) 65); try done; [apply sample_misc_ok|by right].
Defined.

(** The DNS header is there, the announced question of 17 bytes is not. *)
Definition cut_query : sk_buff :=
  mkSkb (bswap16 kEthTypeIp4) 44 (take 44 (skb_data sample_query)).

Lemma dns_trace_past_packet_witness :
  dns_question cut_query = Some (Some ([10; 0; 0; 1], 40000, [], 21%nat)) ∧
  ezcap_dns_trace sample_task cut_query (Some sample_dns_slot) = None.
Proof.
  split; [vm_compute; reflexivity|].
  apply (dns_trace_past_packet sample_task cut_query [10; 0; 0; 1] 40000 20 sample_dns_slot).
  vm_compute. reflexivity.
Defined.

Lemma connections_exact_witness :
  state_event hex_ntop hex_ntop 0 (ezcap_tcp_destroy_sock sample_task sample_sock
    (Some (mkStateRec used_slot 0 (replicate 4 170) 0 0 0 0)))
  = Some (Some (connection_event 0 sample_task 3 (dlit 9 1) (lit "0a000001")
      (lit "0a000002") sample_sock)).
Proof.
  apply (connections_exact hex_ntop hex_ntop 0 sample_task sample_sock
    (mkConnectRec used_slot 0 (replicate 4 170) 0)
    (mkStateRec used_slot 0 (replicate 4 170) 0 0 0 0)); done.
Defined.

Lemma connect_v4_swapped_witness :
  ∃ ev n, connect_event hex_ntop hex_ntop 0 (ezcap_tcp_v4_connect sample_task sample_sock
      (Some (mkConnectRec used_slot 0 (replicate 4 170) 0))) = Some (Some ev) ∧
    ev_network ev = Some n ∧ net_remote_address n = lit "0a000001" ∧
    net_remote_port n = 443.
Proof.
  destruct (connect_v4_swapped hex_ntop hex_ntop 0 sample_task sample_sock
    (mkConnectRec used_slot 0 (replicate 4 170) 0)) as (ev & n & H1 & H2 & _ & H3 & _ & H4 & _);
    [done..|]. exists ev, n. split; [exact H1|]. split; [exact H2|].
  split; [exact H3|exact H4].
Defined.
